(* ===== verification/_CoqProject ===== *)
-Q . S2P
Prelude.v
KubeTypes.v
Libs.v
ApiTypes.v
Values.v
Labels.v
Sha256.v
UpgradeTypes.v
Effects.v
Utils.v
Components.v
Examples.v
RollingUpdate.v
ScalePlanner.v
ScaleProofs.v
K8sUtil.v
Store.v
Group.v
Calls.v
DeployUtil.v
DeployCtrl.v
DeployProofs.v
DependencyGraph.v
SpecProofs.v
UpgradeFsm.v
UpgradeProofs.v
UpgradeRestore.v
Webhook.v
Status.v
WebhookProofs.v
AdmissionProofs.v
StatusProofs.v
EndpointCache.v
EndpointProofs.v
PodTemplate.v
KafkaSecrets.v
Render.v
RenderProofs.v
Hpa.v
StatefulSets.v
StatefulSetProofs.v
Deployments.v
DeploymentProofs.v
Network.v
ConfigMaps.v
ConfigProofs.v
NetworkProofs.v
Tools.v
Defaults.v
DefaultsProofs.v
Alpha.v
AlphaProofs.v
Dependencies.v
Probes.v
ProbeProofs.v
StatusSync.v
DependencyProofs.v
MilvusController.v
ControllerProofs.v
Acts.v
Runs.v
Loops.v
HelmClient.v
HelmProofs.v
Json.v
JsonProofs.v
Checksum.v
KafkaDecode.v
RolloutLive.v
K8sClient.v
IamVerify.v
EntryPoints.v
Batch.v
