(* ===== verification/Prelude.v ===== *)
(** * Verification of milvus-operator

    milvus-operator is a Kubernetes operator written in Go.  It turns a
    [Milvus] resource into the workloads of a vector database, with their
    services, configuration and dependencies, and keeps them at the state the
    resource asks for.  This library models what the operator decides and does:
    which components run, how many replicas each of their deployments has at
    every moment, in which order they are updated, what is created, changed and
    deleted on the way, what is reported, and how an upgrade is carried through
    and undone.

    ** The program and its parts

    File names are those of src/pkg/controllers unless a directory is given.

    - The API types (src/apis/milvus.io/v1beta1).  The user writes a [Milvus]
      with a spec per component, optionally split into deployment groups; or a
      [MilvusUpgrade].  A webhook fills in defaults and validates.
    - The Milvus controller (milvus_controller.go, milvus.go, pvc.go) reconciles
      a [Milvus]: it defaults the resource, brings its dependencies about and,
      when these are ready, runs the reconcilers below in a group of goroutines
      (groups.go, group_runner.go); it deletes what a deleted resource asks for
      and then removes the finalizer.
    - The component table (components.go) maps a spec to the components that are
      deployed, and those to workloads, one per group.
    - The deployment reconciler (deployments.go,
      deployment_cluster_to_standalone.go) gives every workload to the
      controller of its mode and removes workloads that are not wanted any more.
      In one-deployment mode it updates one deployment; stateful sets
      (statefulset.go) have a controller of their own.
    - The deploy controller (deploy_ctrl.go, deploy_ctrl_util.go,
      rollout_util.go, deploy_mode_changer.go, rolling_mode_status_updater.go)
      reconciles a workload in two-deployment mode.  A workload has two slots;
      a rollout fills the empty slot step by step and empties the other one.
      The state of a rollout is kept in labels and annotations of the resource
      (label_annotations.go), so every reconcile starts from the API server.
    - Rendering (deployment_updater.go, kafka_secrets.go) makes the pod template
      of a workload; the dependency graph (dependency_graph.go) says when it may
      take a new image.
    - Autoscalers (hpa.go), services, ingress and monitors (services.go,
      ingress.go, podmonitor.go) and configuration (configmaps.go) follow the
      resource.  A tool that the init container copies (src/tool) merges the
      configuration into that of the image when a pod starts, unless the image
      takes its configuration in layers.
    - Dependencies (dependencies.go, src/pkg/helm) run as Helm releases, through
      a client of the Helm library.
    - The status syncer (status_cluster.go, component_condition.go,
      error_detail.go, conditions.go) reports the conditions, the deploy
      statuses and the health of an instance, in the reconcile and in periodic
      loops over all resources.  It probes the dependencies (src/pkg/external)
      through a cache shared by all instances (endpoint_check_cache.go).
    - The upgrade machine (milvusupgrade_fsm.go, milvusupgrade_controller.go)
      stops Milvus, backs up and migrates its metadata with task pods, and
      starts the new version; or rolls all of that back.
    - The deprecated API (src/apis/milvus.io/v1alpha1,
      milvuscluster/convert_controller.go) converts to and from v1beta1; a
      MilvusCluster is kept as the master copy of a [Milvus].
    - The program (src/main.go, src/pkg/manager, src/pkg/config, setup.go) reads
      its flags and templates, starts a manager and registers the controllers
      and webhooks.  Beside it are a client for manifests and one for commands
      in pods (src/pkg/util), the tool that verifies a cloud identity before a
      pod starts (src/tool/iam-verify, src/pkg/external/iam) and the batch tools
      of the load tests (src/test).

    ** Files

    Data: [KubeTypes] has the Kubernetes objects, [ApiTypes] the Milvus
    resource and its pure methods, [UpgradeTypes] the MilvusUpgrade and
    MilvusCluster resources, [Values] JSON values and their merge, [Json] their
    text ([JsonProofs]), [Labels] the label and annotation accessors, [Examples]
    concrete objects.

    Foundations: this file has machine integers, strings, the order of
    sort.SliceStable and the shared automation; [Libs] has third-party functions
    as type classes with the laws theorems rely on, and an instance of each;
    [Sha256] the hash of the state keys; [Effects] errors and programs over
    requests, with their executions and Hoare triples; [Calls] bounds on the
    requests of a program; [Runs] what a program does against a handler, step by
    step; [Acts] programs over calls of their own; [Store] executions against a store of objects; [Group]
    concurrent groups as interleavings of their members.

    Components, each file naming its sources, with the file of their theorems:

    - [Utils] and [Components] ([SpecProofs]), [DependencyGraph];
    - [RollingUpdate] and [ScalePlanner], the budgets and the planner of a rollout
      ([ScaleProofs]);
    - [K8sUtil], [DeployUtil] and [DeployCtrl], the deploy controller
      ([DeployProofs], and [RolloutLive] for whole rollouts);
    - [PodTemplate], [KafkaSecrets] and [Render] ([RenderProofs]), with
      [Checksum] for the configuration checksum;
    - [StatefulSets] ([StatefulSetProofs]), [Deployments] ([DeploymentProofs]),
      [Hpa];
    - [Network] ([NetworkProofs]), [ConfigMaps] ([ConfigProofs]), [Tools];
    - [Webhook] and [Defaults], admission ([WebhookProofs], [AdmissionProofs],
      [DefaultsProofs]);
    - [Dependencies] ([DependencyProofs]) and [HelmClient] ([HelmProofs]);
    - [Status] ([StatusProofs]), [StatusSync], [Loops], [EndpointCache]
      ([EndpointProofs]), [Probes] ([ProbeProofs]) and [KafkaDecode] for the two
      decoders of the Kafka section;
    - [UpgradeFsm] ([UpgradeProofs], [UpgradeRestore]);
    - [Alpha] ([AlphaProofs]);
    - [MilvusController], which composes the reconcilers ([ControllerProofs]);
    - [EntryPoints], [K8sClient], [IamVerify] and [Batch], each with its theorems.

    ** How the code is modelled

    A struct is a [Record] with the fields the code reads or writes, an
    enumeration an [Inductive] (with a constructor for the empty string where
    the code can see it), a pointer an [option], a slice a [list] (a [goSlice]
    where the code tells nil from empty), a map a [gmap], [int32] a [Z]
    with [int32_of] for its conversions.  A function that can panic returns an
    [option], one that returns an error a sum.  A method that calls the API
    server, Helm or a dependency is a [prog]: a tree of requests whose answers
    come from outside.  [exec p tr o] relates a program to a trace of requests
    and answers and to its outcome, for any answers; [reach] in [Store] fixes the
    answers about the resource and its deployments to those of a store and lets
    any call fail.  So "whatever fails" below is a quantification over all
    answers, and "in any interleaving" one over the schedules of [par] or, for
    the endpoint cache, over the steps of [sys_step].  Objects the code shares
    and mutates (the resource passed through the handlers, the upgrade and the
    resource passed through the state functions) are threaded explicitly and
    returned also when a call fails.  Parts that call a library of their own
    instead of the API server (Helm's actions, a dynamic client, cloud SDKs, the
    start of the program) are an [act] over those calls, run with any handler.

    Between components, [PodTemplateUpdater] is an interface: the deploy
    controller is verified against it, and [Render] implements it; the controller
    of the one-deployment mode is a parameter of the deploy controller, which
    [Deployments] gives.

    ** What is shown

    - Rollouts ([ScaleProofs], [RollingUpdate]): planning and applying one
      action refines an abstract step on the two replica counts; by it a
      rollout converges to the expected replicas within an explicit number of
      reconciles, never above its surge (for equal resource limits) and never
      below its availability budget, or what it started with, without integer
      wrap-around; admitted settings always leave a
      positive budget.  [RolloutLive] lifts this to the whole deploy controller on
      a store of objects: from any state of the two deployments the reconciles
      reach the end of the rollout, and then write nothing any more.
    - Reconciles of a workload ([DeployProofs]): at every point of every
      reconcile the slot that is not current is empty unless a rollout is in
      progress; a rollout is announced in a fixed order, is ended only when
      complete or when the component is stopped, and scales only when stable; stopping stops; pausing and manual
      mode leave alone what they must.
    - Deletions and gates ([DeploymentProofs], [StatefulSetProofs], [Hpa]): what is
      not wanted any more is removed only when its replacement is ready; claims in
      use are never deleted nor shrunk; images and templates change only behind
      their gates; the autoscaler of a component without groups follows its
      current slot and is away during its rollout.
    - Order of updates ([DependencyGraph]): some component can always be updated
      next, if a streaming node comes with a mixed coordinator; the graph for a downgrade is the converse of that for an upgrade.
    - Rendering and configuration ([RenderProofs], [ConfigProofs],
      [NetworkProofs], [Tools]): what a container gets; one message queue in the
      rendered configuration and in the merged one; credentials stay in their Secrets.
    - Values ([JsonProofs], [Checksum]): what is written as JSON is read back, so
      deep copies are faithful; the text is canonical, so the checksum follows the
      configuration, telling nil from empty lists, and not the order of its maps; pods and the probe of Kafka take
      the same references to Secrets from the configuration ([KafkaDecode]).
    - The whole reconcile ([ControllerProofs], [Group]): workloads wait for the
      dependencies, a deletion follows the policies, waits for the pods and keeps
      the finalizer until everything asked for is deleted, a group reports the errors of all of its members.
    - Dependencies ([DependencyProofs], [HelmProofs]): the stateful set of etcd is
      never lost while its claims are grown; the reconciler of a release, on the
      client, on Helm, settles for plain values.
    - The program and its tools ([EntryPoints], [K8sClient], [IamVerify],
      [Batch]): which controllers a start registers, what a manifest creates, when
      an identity counts as verified, what a batch creates.
    - Upgrades ([UpgradeProofs], [UpgradeRestore]): every run ends; metadata is
      migrated only after a backup, and no task starts before Milvus is
      stopped; a rollback is final and restores image and replicas.
    - Admission ([WebhookProofs], [AdmissionProofs], [DefaultsProofs]): defaulting
      configures every deployed component and is idempotent; admitted groups
      yield distinct and short enough names and no metadata of the operator's.
    - Status ([StatusProofs], [StatusSync]): an update reports only what it found,
      and writes only what changed; the conditions are exact or sound; the
      loops update every resource once.
    - Probes ([ProbeProofs], [EndpointProofs]): a dependency is reported ready
      exactly when it answered, and is asked only with the client and the
      credentials the resource configures; once their lock is there, probes of the
      same endpoints exclude each other.
    - The deprecated API ([AlphaProofs]): which resources survive a conversion;
      the mirror of a MilvusCluster settles, and is left alone while it is
      upgraded.

    Some theorems state defects or limits of the code as it is, on inputs on
    which it does not do what it means to: [force_with_external_hpa],
    [streaming_without_mixcoord_blocks] (also the exception to the progress of
    image updates), [update_meta_stuck], [rollback_unrecorded],
    [empty_endpoints_wait], [first_probes_race], [storage_condition_shared],
    [hpa_of_statefulset], [hpa_of_groups], [kafka_certificate_restarts], [index_slots_survive],
    [ingress_always_updated], [metric_labels_stick], [active_config_missing],
    [sasl_checksum_ambiguous], [etcd_named_never_updated],
    [undefaulted_delete_stuck], [bound_claim_rewritten],
    [alpha_persistence_lost], [unsynced_mark_dropped],
    [mirror_rollout_state], [pulsar_initialize_repeats],
    [bare_manifest_dropped] and [missing_bucket_verified].

    ** Bounds

    The planner is not recursive; [rollout_converges] bounds the number of
    reconciles by a measure of the two counts.  [RunStateMachine] is a loop
    without a bound in the source: the model runs it with [loopFuel] = 13, one
    more than the number of states with an entry in its table, and
    [upgrade_run_ends] shows that no run from a reachable upgrade uses it up.
    [freeVolumeName] has one more unit of fuel than there are volumes, which
    [freeVolumeName_free] shows to be enough.  The loops that wait for a deletion
    run until the context is cancelled: the number of their polls is a parameter
    over which the theorems quantify.  Probes are retried [DefaultMaxRetry] = 3
    times, as in the source.  The decoder of JSON has the nesting limit of Go's
    (10000) and one unit of fuel more than there is text, which [items_fuel] and
    [decodeValue_shrinks] show to be enough; [polls] and [attempts], how often
    the manifest client and the identity check look again, are parameters.  The
    cycles of [rollout_completes] are any infinite sequence: its proof is by a
    measure, not by a bound.  Every other definition is structurally recursive
    or not recursive.

    ** What is not modelled

    Third-party code is a parameter with laws: semantic versions, percentages,
    the comparison and ownership of objects, the cache, decoders of Kubernetes'
    types and of YAML, text templates, certificates and keys.  The actions of Helm and the
    calls to etcd, Kafka, object storage and cloud SDKs are requests.  The numbers
    of JSON trees are integers.  Not modelled: generated deep copies and clients
    (zz_generated.deepcopy.go, src/pkg/client), the construction of Helm's
    configuration and of REST clients in dependencies.go, the parsing of flags,
    calling functions by reflection, the text of differences that are logged
    (src/pkg/util/diff.go), timeouts and intervals, logging. *)
From stdpp Require Export base gmap strings list pretty fin_maps.
From Stdlib Require Export ZArith Lia Ascii Permutation Sorted.

(** ** Automation

    [labels] rewrites reads of labels and annotations after writes;
    [case_if_bool] splits the first [if] on a boolean, naming the equation. *)
Create HintDb labels.

Ltac case_if_bool :=
  match goal with
  | |- context [if ?b then _ else _] =>
      match type of b with bool => let E := fresh "E" in destruct b eqn:E end
  end.

Local Open Scope Z_scope.

(** ** Machine integers

    Go's [int32] is kept at its width: [int32_of] is the conversion
    [int32(i)], two's complement truncation. *)

Definition int32_min : Z := -2147483648.
Definition int32_max : Z := 2147483647.

Definition int32_of (z : Z) : Z := (z + 2147483648) mod 4294967296 - 2147483648.

Definition in_int32 (z : Z) : Prop := int32_min <= z <= int32_max.

Lemma int32_of_id z : in_int32 z -> int32_of z = z.
Proof.
  unfold in_int32, int32_of, int32_min, int32_max. intros H.
  rewrite Z.mod_small; lia.
Qed.

Lemma int32_of_range z : in_int32 (int32_of z).
Proof.
  unfold in_int32, int32_of, int32_min, int32_max.
  pose proof (Z.mod_pos_bound (z + 2147483648) 4294967296). lia.
Qed.

(** ** Go maps

    A [map[string]string] is a [gmap]; reading an absent key gives the zero
    value.  A nil map and an empty map read the same way and are not told
    apart. *)

Definition mget (m : gmap string string) (k : string) : string := default ""%string (m !! k).

Lemma mget_insert_eq m k v : mget (<[k:=v]> m) k = v.
Proof. unfold mget. by rewrite lookup_insert_eq. Qed.

Lemma mget_insert_ne m k k' v : k <> k' -> mget (<[k:=v]> m) k' = mget m k'.
Proof. intros. unfold mget. by rewrite lookup_insert_ne. Qed.

Lemma mget_delete_eq m k : mget (delete k m) k = ""%string.
Proof. unfold mget. by rewrite lookup_delete_eq. Qed.

Lemma mget_delete_ne m k k' : k <> k' -> mget (delete k m) k' = mget m k'.
Proof. intros. unfold mget. by rewrite lookup_delete_ne. Qed.

(** ** Strings *)

(** Go's [strconv.Itoa] and [strconv.FormatInt(_, 10)]: the decimal
    representation, with a leading minus sign for negative numbers. *)
Definition Itoa (z : Z) : string := pretty z.

Definition digit_value (a : Ascii.ascii) : option Z :=
  let n := Z.of_nat (Ascii.nat_of_ascii a) in
  if (48 <=? n) && (n <=? 57) then Some (n - 48) else None.

Fixpoint digits_value (acc : Z) (s : string) : option Z :=
  match s with
  | EmptyString => Some acc
  | String a s' =>
      match digit_value a with
      | Some d => digits_value (10 * acc + d) s'
      | None => None
      end
  end.

(** Go's [strconv.Atoi] on a 64-bit platform: an optional sign, at least one
    digit, nothing else, and a value in range; [None] is the error. *)
Definition Atoi (s : string) : option Z :=
  let checked (z : Z) :=
    if (-9223372036854775808 <=? z) && (z <=? 9223372036854775807) then Some z else None in
  match s with
  | EmptyString => None
  | String a s' =>
      if bool_decide (a = "-"%char) then
        match s' with EmptyString => None | _ => z ← digits_value 0 s'; checked (- z) end
      else if bool_decide (a = "+"%char) then
        match s' with EmptyString => None | _ => z ← digits_value 0 s'; checked z end
      else z ← digits_value 0 s; checked z
  end.

(** [strings.HasPrefix] and [strings.HasSuffix]. *)
Definition HasPrefix (s p : string) : bool := String.prefix p s.

Fixpoint HasSuffix (s p : string) : bool :=
  String.eqb s p || match s with EmptyString => false | String _ s' => HasSuffix s' p end.

(** [strings.Join(l, sep)]. *)
Fixpoint Join (sep : string) (l : list string) : string :=
  match l with
  | [] => EmptyString
  | [s] => s
  | s :: l' => String.app s (String.app sep (Join sep l'))
  end.

(** [strings.Split(s, sep)] for a one-byte separator: the pieces between the
    separators, always at least one. *)
Fixpoint Split (sep : Ascii.ascii) (s : string) : list string :=
  match s with
  | EmptyString => [EmptyString]
  | String a s' =>
      if bool_decide (a = sep) then EmptyString :: Split sep s'
      else match Split sep s' with
           | [] => [String a EmptyString]
           | w :: ws => String a w :: ws
           end
  end.

Lemma Split_not_nil sep s : Split sep s <> [].
Proof. destruct s as [|a s]; simpl; [done|]. case_bool_decide; [done|]. by destruct (Split sep s). Qed.

(** Splitting and joining with the same separator gives the string back. *)
Lemma Join_Split sep s : Join (String sep EmptyString) (Split sep s) = s.
Proof.
  induction s as [|a s IH]; simpl; [done|].
  pose proof (Split_not_nil sep s) as Hne.
  destruct (Split sep s) as [|w ws] eqn:E; [done|].
  case_bool_decide as Ha.
  - subst a. change (String sep (Join (String sep EmptyString) (w :: ws)) = String sep s).
    by rewrite IH.
  - destruct ws as [|w' ws]; simpl in *; subst s; done.
Qed.

Lemma digit_value_char (d : N) : (d < 10)%N -> digit_value (pretty_N_char d) = Some (Z.of_N d).
Proof.
  intros Hd.
  assert (d = 0 \/ d = 1 \/ d = 2 \/ d = 3 \/ d = 4 \/ d = 5 \/ d = 6 \/ d = 7 \/ d = 8 \/ d = 9)%N
    as Hc by lia.
  by destruct_or! Hc; subst.
Qed.

Lemma digits_value_pretty (x : N) : forall s,
  digits_value 0 (pretty_N_go x s) = digits_value (Z.of_N x) s.
Proof.
  induction (N.lt_wf_0 x) as [x _ IH]; intros s.
  destruct (decide (x = 0)%N) as [->|Hx]; [by rewrite pretty_N_go_0|].
  rewrite pretty_N_go_step by lia.
  rewrite IH by (apply N.div_lt; lia). simpl.
  rewrite digit_value_char by (apply N.mod_lt; lia).
  f_equal. rewrite (N.div_mod' x 10) at 3. lia.
Qed.

Lemma pretty_N_go_head (x : N) : forall s, exists a s',
  pretty_N_go x s = s \/ pretty_N_go x s = String a s' /\ is_Some (digit_value a).
Proof.
  induction (N.lt_wf_0 x) as [x _ IH]; intros s.
  destruct (decide (x = 0)%N) as [->|Hx].
  { exists "0"%char, EmptyString. left. by rewrite pretty_N_go_0. }
  rewrite pretty_N_go_step by lia.
  destruct (IH (x / 10)%N (N.div_lt x 10 ltac:(lia) ltac:(lia))
              (String (pretty_N_char (x mod 10)) s)) as (a & s' & [->|[-> Ha]]).
  - do 2 eexists. right. split; [done|].
    rewrite digit_value_char by (apply N.mod_lt; lia). eauto.
  - eauto.
Qed.

(** [strconv.Atoi] reads back what [strconv.Itoa] writes, for any
    nonnegative [int]. *)
Lemma Atoi_Itoa z : 0 <= z <= 9223372036854775807 -> Atoi (Itoa z) = Some z.
Proof.
  intros Hz. destruct z as [|p|p]; [done| |lia].
  assert (Itoa (Z.pos p) = pretty_N_go (N.pos p) "") as -> by done.
  pose proof (digits_value_pretty (N.pos p) EmptyString) as Hd. simpl digits_value in Hd at 2.
  rewrite pretty_N_go_step in Hd |- * by lia.
  destruct (pretty_N_go_head (N.pos p / 10)%N (String (pretty_N_char (N.pos p mod 10)) ""))
    as (a & s' & Hs).
  assert (exists b t, pretty_N_go (N.pos p / 10) (String (pretty_N_char (N.pos p mod 10)) "")
            = String b t /\ is_Some (digit_value b)) as (b & t & Hbt & Hb).
  { destruct Hs as [->|[-> ?]]; [|eauto]. do 2 eexists. split; [done|].
    rewrite digit_value_char by (apply N.mod_lt; lia). eauto. }
  rewrite Hbt in Hd |- *. unfold Atoi.
  repeat case_bool_decide; subst; try (by destruct Hb).
  rewrite Hd. cbn [mbind option_bind Z.of_N].
  by rewrite (proj2 (Z.leb_le _ (Z.pos p))), (proj2 (Z.leb_le (Z.pos p) _)) by lia.
Qed.

(** Concatenation cancels on both sides. *)
Lemma app_cancel_l (p a b : string) : (p +:+ a = p +:+ b)%string -> a = b.
Proof. induction p as [|c p IH]; simpl; [done|]. intros H. apply IH. by injection H. Qed.

Lemma to_list_app (a b : string) :
  String.list_ascii_of_string (a +:+ b)%string = String.list_ascii_of_string a ++ String.list_ascii_of_string b.
Proof. induction a as [|c a IH]; simpl; [done|]. by rewrite IH. Qed.

Lemma string_length_app (a b : string) :
  String.length (a +:+ b) = (String.length a + String.length b)%nat.
Proof. induction a as [|ch a IH]; simpl; [done|]. by rewrite IH. Qed.

Lemma string_app_assoc (a b c : string) : ((a +:+ b) +:+ c = a +:+ b +:+ c)%string.
Proof. induction a as [|x a IH]; [done|]. exact (f_equal (String x) IH). Qed.

Lemma to_list_inj (a b : string) : String.list_ascii_of_string a = String.list_ascii_of_string b -> a = b.
Proof.
  revert b. induction a as [|c a IH]; intros [|d b]; simpl; try done.
  intros [= -> H]. by rewrite (IH b).
Qed.

Lemma app_cancel_r (a b p : string) : (a +:+ p = b +:+ p)%string -> a = b.
Proof.
  intros H. apply to_list_inj. apply (f_equal String.list_ascii_of_string) in H.
  rewrite !to_list_app in H. by apply app_inv_tail in H.
Qed.

Lemma pretty_N_go_nonempty (x : N) : forall s, s <> EmptyString -> pretty_N_go x s <> EmptyString.
Proof.
  induction (N.lt_wf_0 x) as [x _ IH]; intros s Hs.
  destruct (decide (x = 0)%N) as [->|Hx]; [by rewrite pretty_N_go_0|].
  rewrite pretty_N_go_step by lia. by apply IH; [apply N.div_lt; lia|].
Qed.

Lemma Itoa_nonempty z : Itoa z <> EmptyString.
Proof.
  destruct z as [|p|p]; [done| |].
  - change (Itoa (Z.pos p)) with (pretty_N_go (N.pos p) EmptyString).
    rewrite pretty_N_go_step by lia. by apply pretty_N_go_nonempty.
  - done.
Qed.

Lemma if_decide_iff_ext {A} (P Q : Prop) `{Decision P, Decision Q} (a b : A) :
  (P <-> Q) -> (if decide P then a else b) = (if decide Q then a else b).
Proof. intros HPQ. by rewrite (decide_ext P Q). Qed.

(** ** Lists *)

Lemma filter_none {A} (P : A -> Prop) `{forall x, Decision (P x)} (l : list A) :
  (forall x, x ∈ l -> ~ P x) -> filter P l = [].
Proof.
  induction l as [|x l IH]; intros Hl; [done|].
  rewrite filter_cons_False by (apply Hl; by left). apply IH. intros. apply Hl. by right.
Qed.

Lemma filter_all {A} (P : A -> Prop) `{forall x, Decision (P x)} (l : list A) :
  (forall x, x ∈ l -> P x) -> filter P l = l.
Proof.
  induction l as [|x l IH]; intros Hl; [done|].
  rewrite filter_cons_True by (apply Hl; by left). f_equal. apply IH. intros. apply Hl. by right.
Qed.

Lemma elem_of_list_concat_fmap {A B} (f : A -> list B) (l : list A) y :
  y ∈ concat (f <$> l) <-> exists x, x ∈ l /\ y ∈ f x.
Proof.
  induction l as [|x l IH]; simpl.
  - split; [by intros ?%not_elem_of_nil|]. by intros (x & ?%not_elem_of_nil & _).
  - rewrite elem_of_app, IH. setoid_rewrite elem_of_cons. naive_solver.
Qed.

(** ** Stable sorting

    [sort.SliceStable(l, func(i, j) { return l[i].key < l[j].key })] for a
    string key: Go compares strings bytewise, as [String.ltb] does. *)

Lemma string_ltb_irrefl s : String.ltb s s = false.
Proof.
  unfold String.ltb. pose proof (String.compare_antisym s s) as H.
  by destruct (String.compare s s).
Qed.

Section StableSort.
Context {A : Type} (key : A -> string).

Fixpoint insert_stable (x : A) (l : list A) : list A :=
  match l with
  | [] => [x]
  | y :: l' => if String.ltb (key y) (key x) then y :: insert_stable x l' else x :: l
  end.

Definition SliceStable (l : list A) : list A := foldr insert_stable [] l.

Lemma insert_stable_perm x l : insert_stable x l ≡ₚ x :: l.
Proof.
  induction l as [|y l IH]; simpl; [done|].
  case_match; [|done]. rewrite IH. apply Permutation_swap.
Qed.

Lemma SliceStable_perm l : SliceStable l ≡ₚ l.
Proof.
  induction l as [|x l IH]; simpl; [done|].
  rewrite insert_stable_perm. by constructor.
Qed.

Lemma SliceStable_elem x l : x ∈ SliceStable l <-> x ∈ l.
Proof. by rewrite SliceStable_perm. Qed.

Lemma SliceStable_length l : length (SliceStable l) = length l.
Proof. by rewrite SliceStable_perm. Qed.

(** Elements of one key keep their order: the sort does not permute them. *)
Lemma SliceStable_stable k l :
  filter (fun x => key x = k) (SliceStable l) = filter (fun x => key x = k) l.
Proof.
  assert (forall x l, filter (fun y => key y = k) (insert_stable x l)
                      = filter (fun y => key y = k) (x :: l)) as Hins.
  { intros x l'. induction l' as [|y l' IH]; [done|]. simpl insert_stable.
    destruct (String.ltb (key y) (key x)) eqn:E; [|done].
    rewrite filter_cons, IH, !filter_cons.
    destruct (decide (key y = k)) as [Hy|]; destruct (decide (key x = k)) as [Hx|]; try done.
    rewrite Hy, Hx, string_ltb_irrefl in E. done. }
  induction l as [|x l IH]; [done|]. simpl SliceStable. rewrite Hins, !filter_cons.
  fold (SliceStable l). by rewrite IH.
Qed.
End StableSort.
