(* ===== verification/KubeTypes.v ===== *)
(** * Kubernetes API objects

    The fields of the Kubernetes API types (apps/v1, core/v1, meta/v1) that
    the operator reads or writes, as plain records.  Sub-objects the operator
    only copies (affinities, probes, tolerations, ...) are kept as JSON trees.
    Quantities are kept in their canonical string form.  Enumerations whose
    zero value the code can observe have a constructor for it. *)
From S2P Require Import Prelude.

Local Open Scope Z_scope.

(** ** JSON trees *)

Inductive json :=
  | JNull
  | JBool (b : bool)
  | JNum (z : Z)
  | JStr (s : string)
  | JArr (l : list json)
  | JObj (l : list (string * json)).

Definition json_eq_dec : forall x y : json, {x = y} + {x <> y}.
Proof.
  fix go 1. intros x y. destruct x as [|b|z|s|l|l], y as [|b'|z'|s'|l'|l'];
    try (right; discriminate).
  - by left.
  - destruct (decide (b = b')); [left; by subst|right; congruence].
  - destruct (decide (z = z')); [left; by subst|right; congruence].
  - destruct (decide (s = s')); [left; by subst|right; congruence].
  - destruct (List.list_eq_dec go l l') as [->|]; [by left|right; congruence].
  - assert (forall p q : string * json, {p = q} + {p <> q}) as pair_dec.
    { intros [a u] [a' u']. destruct (decide (a = a')); [|right; congruence].
      destruct (go u u'); [left; by subst|right; congruence]. }
    destruct (List.list_eq_dec pair_dec l l') as [->|]; [by left|right; congruence].
Defined.

#[export] Instance json_eq_decision : EqDecision json := json_eq_dec.

(** ** Metadata *)

Record OwnerReference := mkOwner {
  or_Kind : string;
  or_Name : string;
  or_UID : string;
  or_Controller : bool
}.

Record ObjectMeta := mkMeta {
  om_Name : string;
  om_Namespace : string;
  om_Labels : gmap string string;
  om_Annotations : gmap string string;
  om_Generation : Z;
  om_UID : string;
  om_ResourceVersion : string;
  om_OwnerReferences : list OwnerReference;
  om_DeletionTimestamp : option Z;
  om_Finalizers : list string
}.

#[export] Instance OwnerReference_eq_dec : EqDecision OwnerReference.
Proof. solve_decision. Defined.
#[export] Instance ObjectMeta_eq_dec : EqDecision ObjectMeta.
Proof. solve_decision. Defined.

Definition emptyMeta : ObjectMeta := mkMeta "" "" ∅ ∅ 0 "" "" [] None [].

Definition set_Labels (m : ObjectMeta) (l : gmap string string) : ObjectMeta :=
  mkMeta (om_Name m) (om_Namespace m) l (om_Annotations m) (om_Generation m) (om_UID m)
    (om_ResourceVersion m) (om_OwnerReferences m) (om_DeletionTimestamp m) (om_Finalizers m).

Definition set_Annotations (m : ObjectMeta) (a : gmap string string) : ObjectMeta :=
  mkMeta (om_Name m) (om_Namespace m) (om_Labels m) a (om_Generation m) (om_UID m)
    (om_ResourceVersion m) (om_OwnerReferences m) (om_DeletionTimestamp m) (om_Finalizers m).

Definition set_Owners (m : ObjectMeta) (o : list OwnerReference) : ObjectMeta :=
  mkMeta (om_Name m) (om_Namespace m) (om_Labels m) (om_Annotations m) (om_Generation m) (om_UID m)
    (om_ResourceVersion m) o (om_DeletionTimestamp m) (om_Finalizers m).

(** ** Conditions *)

Inductive ConditionStatus := ConditionTrue | ConditionFalse | ConditionUnknown | ConditionUnset.

#[export] Instance ConditionStatus_eq_dec : EqDecision ConditionStatus.
Proof. solve_decision. Defined.

Record DeploymentCondition := mkDCond {
  dc_Type : string;
  dc_Status : ConditionStatus;
  dc_Reason : string;
  dc_Message : string;
  dc_LastUpdateTime : Z;
  dc_LastTransitionTime : Z
}.

#[export] Instance DeploymentCondition_eq_dec : EqDecision DeploymentCondition.
Proof. solve_decision. Defined.

Definition DeploymentProgressingType : string := "Progressing".
Definition DeploymentAvailableType : string := "Available".
Definition DeploymentReplicaFailureType : string := "ReplicaFailure".

Record PodCondition := mkPCond {
  pc_Type : string;
  pc_Status : ConditionStatus;
  pc_Reason : string;
  pc_Message : string
}.

#[export] Instance PodCondition_eq_dec : EqDecision PodCondition.
Proof. solve_decision. Defined.

(** ** Containers and pod templates *)

(** An environment variable's source: a key of a Secret, or any other source. *)
Inductive EnvVarSource :=
  | SecretKeyRef (secret key : string)
  | OtherSource (j : json).

Record EnvVar := mkEnv {
  ev_Name : string;
  ev_Value : string;
  ev_ValueFrom : option EnvVarSource
}.

Record VolumeMount := mkMount {
  vm_Name : string;
  vm_ReadOnly : bool;
  vm_MountPath : string;
  vm_SubPath : string
}.

Record ContainerPort := mkPort {
  cp_Name : string;
  cp_ContainerPort : Z;
  cp_Protocol : string
}.

(** [corev1.ResourceRequirements]: resource name to quantity. *)
Record ResourceRequirements := mkRes {
  rr_Limits : gmap string string;
  rr_Requests : gmap string string
}.

Record Container := mkContainer {
  ct_Name : string;
  ct_Image : string;
  ct_ImagePullPolicy : string;
  ct_Command : list string;
  ct_Args : list string;
  ct_Env : list EnvVar;
  ct_Ports : list ContainerPort;
  ct_VolumeMounts : list VolumeMount;
  ct_Resources : ResourceRequirements;
  ct_SecurityContext : option json;
  ct_StartupProbe : option json;
  ct_LivenessProbe : option json;
  ct_ReadinessProbe : option json;
  ct_Lifecycle : option json;
  ct_TerminationMessagePath : string;
  ct_TerminationMessagePolicy : string
}.

(** [VSecret] projects the listed keys to files of the same name;
    [VProjected] a key of a secret to a path, for each source. *)
Inductive VolumeSource :=
  | VConfigMap (name : string) (defaultMode : option Z)
  | VSecret (name : string) (items : list string) (defaultMode : option Z) (optional : bool)
  | VPersistentVolumeClaim (claim : string)
  | VEmptyDir
  | VProjected (sources : list (string * string * string)) (defaultMode : option Z)
  | VOther (j : json).

Record Volume := mkVolume {
  vol_Name : string;
  vol_Source : VolumeSource
}.

Record PodSpec := mkPodSpec {
  ps_InitContainers : list Container;
  ps_Containers : list Container;
  ps_Volumes : list Volume;
  ps_SchedulerName : string;
  ps_Affinity : option json;
  ps_Tolerations : list json;
  ps_TopologySpreadConstraints : list json;
  ps_NodeSelector : gmap string string;
  ps_ImagePullSecrets : list string;
  ps_ServiceAccountName : string;
  ps_PriorityClassName : string;
  ps_HostNetwork : bool;
  ps_DNSPolicy : string;
  ps_SecurityContext : option json;
  ps_TerminationGracePeriodSeconds : option Z
}.

Record PodTemplateSpec := mkTemplate {
  pt_Labels : gmap string string;
  pt_Annotations : gmap string string;
  pt_Spec : PodSpec
}.

#[export] Instance EnvVarSource_eq_dec : EqDecision EnvVarSource.
Proof. solve_decision. Defined.
#[export] Instance EnvVar_eq_dec : EqDecision EnvVar.
Proof. solve_decision. Defined.
#[export] Instance VolumeMount_eq_dec : EqDecision VolumeMount.
Proof. solve_decision. Defined.
#[export] Instance ContainerPort_eq_dec : EqDecision ContainerPort.
Proof. solve_decision. Defined.
#[export] Instance ResourceRequirements_eq_dec : EqDecision ResourceRequirements.
Proof. solve_decision. Defined.
#[export] Instance Container_eq_dec : EqDecision Container.
Proof. solve_decision. Defined.
#[export] Instance VolumeSource_eq_dec : EqDecision VolumeSource.
Proof. solve_decision. Defined.
#[export] Instance Volume_eq_dec : EqDecision Volume.
Proof. solve_decision. Defined.
#[export] Instance PodSpec_eq_dec : EqDecision PodSpec.
Proof. solve_decision. Defined.
#[export] Instance PodTemplateSpec_eq_dec : EqDecision PodTemplateSpec.
Proof. solve_decision. Defined.

Definition set_pt_Labels (t : PodTemplateSpec) (l : gmap string string) : PodTemplateSpec :=
  mkTemplate l (pt_Annotations t) (pt_Spec t).

(** ** Deployments *)

(** [intstr.IntOrString]: [Type] is 0 for an integer and 1 for a string. *)
Record IntOrString := mkIntOrString {
  ios_Type : Z;
  ios_IntVal : Z;
  ios_StrVal : string
}.

Record RollingUpdateDeployment := mkRollingUpdate {
  ru_MaxUnavailable : option IntOrString;
  ru_MaxSurge : option IntOrString
}.

Definition RollingUpdateDeploymentStrategyType : string := "RollingUpdate".
Definition RecreateDeploymentStrategyType : string := "Recreate".

Record DeploymentStrategy := mkStrategy {
  dst_Type : string;
  dst_RollingUpdate : option RollingUpdateDeployment
}.

Record DeploymentStatus := mkDStatus {
  dss_ObservedGeneration : Z;
  dss_Replicas : Z;
  dss_UpdatedReplicas : Z;
  dss_ReadyReplicas : Z;
  dss_AvailableReplicas : Z;
  dss_UnavailableReplicas : Z;
  dss_Conditions : list DeploymentCondition
}.

Record DeploymentSpec := mkDSpec {
  dsp_Replicas : option Z;
  dsp_Selector : gmap string string;
  dsp_Template : PodTemplateSpec;
  dsp_Strategy : DeploymentStrategy;
  dsp_MinReadySeconds : Z;
  dsp_Paused : bool;
  dsp_ProgressDeadlineSeconds : option Z
}.

Record Deployment := mkDeployment {
  dep_Meta : ObjectMeta;
  dep_Spec : DeploymentSpec;
  dep_Status : DeploymentStatus
}.

#[export] Instance IntOrString_eq_dec : EqDecision IntOrString.
Proof. solve_decision. Defined.
#[export] Instance RollingUpdateDeployment_eq_dec : EqDecision RollingUpdateDeployment.
Proof. solve_decision. Defined.
#[export] Instance DeploymentStrategy_eq_dec : EqDecision DeploymentStrategy.
Proof. solve_decision. Defined.
#[export] Instance DeploymentStatus_eq_dec : EqDecision DeploymentStatus.
Proof. solve_decision. Defined.
#[export] Instance DeploymentSpec_eq_dec : EqDecision DeploymentSpec.
Proof. solve_decision. Defined.
#[export] Instance Deployment_eq_dec : EqDecision Deployment.
Proof. solve_decision. Defined.

Definition set_dep_Meta (d : Deployment) (m : ObjectMeta) : Deployment :=
  mkDeployment m (dep_Spec d) (dep_Status d).

Definition set_dep_Replicas (d : Deployment) (r : option Z) : Deployment :=
  let s := dep_Spec d in
  mkDeployment (dep_Meta d)
    (mkDSpec r (dsp_Selector s) (dsp_Template s) (dsp_Strategy s) (dsp_MinReadySeconds s)
       (dsp_Paused s) (dsp_ProgressDeadlineSeconds s)) (dep_Status d).

Definition set_dep_Template (d : Deployment) (t : PodTemplateSpec) : Deployment :=
  let s := dep_Spec d in
  mkDeployment (dep_Meta d)
    (mkDSpec (dsp_Replicas s) (dsp_Selector s) t (dsp_Strategy s) (dsp_MinReadySeconds s)
       (dsp_Paused s) (dsp_ProgressDeadlineSeconds s)) (dep_Status d).

Definition set_dep_Strategy (d : Deployment) (st : DeploymentStrategy) : Deployment :=
  let s := dep_Spec d in
  mkDeployment (dep_Meta d)
    (mkDSpec (dsp_Replicas s) (dsp_Selector s) (dsp_Template s) st (dsp_MinReadySeconds s)
       (dsp_Paused s) (dsp_ProgressDeadlineSeconds s)) (dep_Status d).

Definition set_dep_Conditions (d : Deployment) (cs : list DeploymentCondition) : Deployment :=
  let s := dep_Status d in
  mkDeployment (dep_Meta d) (dep_Spec d)
    (mkDStatus (dss_ObservedGeneration s) (dss_Replicas s) (dss_UpdatedReplicas s)
       (dss_ReadyReplicas s) (dss_AvailableReplicas s) (dss_UnavailableReplicas s) cs).

Definition set_dep_Selector (d : Deployment) (sel : gmap string string) : Deployment :=
  let s := dep_Spec d in
  mkDeployment (dep_Meta d)
    (mkDSpec (dsp_Replicas s) sel (dsp_Template s) (dsp_Strategy s) (dsp_MinReadySeconds s)
       (dsp_Paused s) (dsp_ProgressDeadlineSeconds s)) (dep_Status d).

Definition dep_Name (d : Deployment) : string := om_Name (dep_Meta d).
Definition dep_Labels (d : Deployment) : gmap string string := om_Labels (dep_Meta d).

(** ** Pods and ReplicaSets *)

Inductive ContainerState :=
  | StateWaiting (reason message : string)
  | StateTerminated (reason message : string)
  | StateRunning
  | StateNone.

Record ContainerStatus := mkCStatus {
  cs_Name : string;
  cs_Ready : bool;
  cs_RestartCount : Z;
  cs_State : ContainerState;
  cs_LastTerminationState : ContainerState
}.

Record Pod := mkPod {
  pod_Meta : ObjectMeta;
  pod_Phase : string;
  pod_Reason : string;
  pod_Conditions : list PodCondition;
  pod_ContainerStatuses : list ContainerStatus
}.

Definition PodRunning : string := "Running".
Definition PodPending : string := "Pending".
Definition PodSucceeded : string := "Succeeded".
Definition PodReadyType : string := "Ready".

Record ReplicaSet := mkReplicaSet {
  rs_Meta : ObjectMeta;
  rs_Selector : gmap string string;
  rs_Template : PodTemplateSpec
}.

#[export] Instance ContainerState_eq_dec : EqDecision ContainerState.
Proof. solve_decision. Defined.
#[export] Instance ContainerStatus_eq_dec : EqDecision ContainerStatus.
Proof. solve_decision. Defined.
#[export] Instance Pod_eq_dec : EqDecision Pod.
Proof. solve_decision. Defined.
#[export] Instance ReplicaSet_eq_dec : EqDecision ReplicaSet.
Proof. solve_decision. Defined.

(** ** Claims and storage classes *)

Record ClaimSpec := mkClaimSpec {
  cls_AccessModes : list string;
  cls_Resources : ResourceRequirements;
  cls_StorageClassName : option string;
  cls_VolumeName : string;
  cls_Rest : json
}.

Record Claim := mkPersistentVolumeClaim {
  clm_Meta : ObjectMeta;
  clm_Spec : ClaimSpec
}.

Record StorageClass := mkStorageClass {
  scl_Name : string;
  scl_Annotations : gmap string string;
  scl_AllowVolumeExpansion : option bool
}.

#[export] Instance ClaimSpec_eq_dec : EqDecision ClaimSpec.
Proof. solve_decision. Defined.
#[export] Instance Claim_eq_dec : EqDecision Claim.
Proof. solve_decision. Defined.

(** ** StatefulSets *)

Record StatefulSet := mkStatefulSet {
  sts_Meta : ObjectMeta;
  sts_Replicas : option Z;
  sts_Selector : option (gmap string string);
  sts_Template : PodTemplateSpec;
  sts_ServiceName : string;
  sts_UpdateStrategy : string;
  sts_MinReadySeconds : Z;
  sts_ClaimTemplates : list Claim;
  sts_ObservedGeneration : Z;
  sts_StatusReplicas : Z;
  sts_ReadyReplicas : Z;
  sts_AvailableReplicas : Z;
  sts_UpdatedReplicas : Z;
  sts_CurrentRevision : string;
  sts_UpdateRevision : string
}.

#[export] Instance StatefulSet_eq_dec : EqDecision StatefulSet.
Proof. solve_decision. Defined.

(** ** Services *)

Record ServicePort := mkServicePort {
  sp_Name : string;
  sp_Protocol : string;
  sp_Port : Z;
  sp_TargetPort : IntOrString;
  sp_NodePort : Z
}.

(** The addresses of a load balancer are those of its status. *)
Record Service := mkService {
  svc_Meta : ObjectMeta;
  svc_Type : string;
  svc_ClusterIP : string;
  svc_IPFamilyPolicy : option string;
  svc_Selector : gmap string string;
  svc_Ports : list ServicePort;
  svc_LoadBalancerIPs : list string
}.

#[export] Instance ServicePort_eq_dec : EqDecision ServicePort.
Proof. solve_decision. Defined.
#[export] Instance Service_eq_dec : EqDecision Service.
Proof. solve_decision. Defined.

(** ** Autoscalers *)

Record HorizontalPodAutoscaler := mkHPA {
  ha_Meta : ObjectMeta;
  ha_TargetKind : string;
  ha_TargetName : string;
  ha_MinReplicas : option Z;
  ha_MaxReplicas : Z;
  ha_Metrics : list json;
  ha_Behavior : option json
}.

#[export] Instance HorizontalPodAutoscaler_eq_dec : EqDecision HorizontalPodAutoscaler.
Proof. solve_decision. Defined.

(** ** Ingresses and pod monitors *)

Record IngressRule := mkIngressRule {
  inr_Host : string;
  inr_Path : string;
  inr_Service : string;
  inr_Port : Z
}.

Record Ingress := mkIngressObject {
  ino_Meta : ObjectMeta;
  ino_ClassName : option string;
  ino_TLS : list (list string * string);
  ino_Rules : list IngressRule;
  ino_Status : json
}.

(** A relabelling that sets a label to a value, as the pair of both. *)
Record MetricsEndpoint := mkMetricsEndpoint {
  me_HonorLabels : bool;
  me_Interval : string;
  me_Path : string;
  me_Port : string;
  me_MetricRelabelConfigs : list (string * string)
}.

Record PodMonitor := mkPodMonitor {
  pm_Meta : ObjectMeta;
  pm_Endpoints : list MetricsEndpoint;
  pm_Namespaces : list string;
  pm_MatchLabels : gmap string string;
  pm_PodTargetLabels : list string
}.

#[export] Instance IngressRule_eq_dec : EqDecision IngressRule.
Proof. solve_decision. Defined.
#[export] Instance Ingress_eq_dec : EqDecision Ingress.
Proof. solve_decision. Defined.
#[export] Instance MetricsEndpoint_eq_dec : EqDecision MetricsEndpoint.
Proof. solve_decision. Defined.
#[export] Instance PodMonitor_eq_dec : EqDecision PodMonitor.
Proof. solve_decision. Defined.
