(* ===== verification/Libs.v ===== *)
(** * Third-party code

    The functions of packages outside the repository that the modelled code
    calls, as the methods of type classes, and the documented behaviour that
    theorems rely on, as named laws ([ScaledLaws], [DeepEqualLaws],
    [OwnerLaws], [GoCacheLaws], [MapOrderLaws]).  The end of the file has a concrete instance of each,
    on which the definitions evaluate and which satisfies the laws. *)
From S2P Require Import Prelude KubeTypes.

Local Open Scope Z_scope.

(** github.com/blang/semver: the version type, the tolerant parser and the
    comparison. *)
Class Semver := {
  sv_Version : Type;
  sv_ParseTolerant : string -> option sv_Version;
  sv_MustParse : string -> sv_Version;
  sv_GT : sv_Version -> sv_Version -> bool;
  sv_LT : sv_Version -> sv_Version -> bool;
  sv_Major : sv_Version -> Z;
  sv_Minor : sv_Version -> Z
}.

(** k8s.io/apimachinery/pkg/util/intstr and util/validation. *)
Class IntStr := {
  GetScaledValueFromIntOrPercent : IntOrString -> Z -> bool -> option Z;
  IsValidPercent : string -> bool
}.

(** An integer is itself; a string is a percentage of the total, rounded up
    or down, or an error whatever the total. *)
Class ScaledLaws `{IntStr} := {
  scaled_int v total up :
    ios_Type v = 0 -> GetScaledValueFromIntOrPercent v total up = Some (ios_IntVal v);
  scaled_string v :
    ios_Type v <> 0 ->
    (exists p, forall total up,
       GetScaledValueFromIntOrPercent v total up
       = Some (if up : bool then - ((- (p * total)) / 100) else (p * total) / 100)) \/
    (forall total up, GetScaledValueFromIntOrPercent v total up = None)
}.

(** k8s.io/apimachinery/pkg/api/equality: [Semantic.DeepEqual]; and
    apis/meta/v1: [IsControlledBy]; controller-runtime's
    [SetControllerReference], which fails when the object has another
    controller. *)
Class KubeLib := {
  DeepEqual : forall {A : Type} `{EqDecision A}, A -> A -> bool;
  IsControlledBy : ObjectMeta -> ObjectMeta -> bool;
  SetControllerReference : ObjectMeta -> ObjectMeta -> option ObjectMeta
}.

(** Objects are compared by value. *)
Class DeepEqualLaws `{KubeLib} := {
  DeepEqual_spec {A} `{EqDecision A} (a b : A) : DeepEqual a b = bool_decide (a = b)
}.

(** [SetControllerReference] changes nothing but the owner references of the
    object. *)
Class OwnerLaws `{KubeLib} := {
  SetControllerReference_owners owner obj obj' :
    SetControllerReference owner obj = Some obj' -> obj' = set_Owners obj (om_OwnerReferences obj')
}.

(** github.com/patrickmn/go-cache with the two operations the code uses.  The
    code gives every item no expiration; each operation holds the mutex of
    the cache, so it is atomic. *)
Class GoCache (C V : Type) := {
  cache_New : C;
  cache_Get : C -> string -> option V;
  cache_Set : C -> string -> V -> C
}.

(** An item without expiration is found until it is replaced. *)
Class GoCacheLaws (C V : Type) `{GoCache C V} := {
  cache_get_new k : cache_Get cache_New k = None;
  cache_get_set_eq c k v : cache_Get (cache_Set c k v) k = Some v;
  cache_get_set_ne c k k' v : k <> k' -> cache_Get (cache_Set c k v) k' = cache_Get c k'
}.

(** The order in which [range] visits the entries of a map: any. *)
Class MapOrder := { range : forall {V : Type}, gmap string V -> list (string * V) }.
Class MapOrderLaws `{MapOrder} := { range_perm {V} (m : gmap string V) : range m ≡ₚ map_to_list m }.

(** k8s.io/apimachinery/pkg/apis/meta/v1/unstructured on a JSON object:
    [NestedBool] and [NestedString] give [None] for an error or an absent
    field; [SetNestedField] and [RemoveNestedField] give the new object. *)
Class Unstructured := {
  NestedBool : list (string * json) -> list string -> option bool;
  NestedString : list (string * json) -> list string -> option string;
  SetNestedField : list (string * json) -> json -> list string -> list (string * json);
  RemoveNestedField : list (string * json) -> list string -> list (string * json)
}.

(** ** Concrete instances *)

Fixpoint split_percent (s : string) : option string :=
  match s with
  | EmptyString => None
  | String a EmptyString => if bool_decide (a = "%"%char) then Some EmptyString else None
  | String a s' => String a <$> split_percent s'
  end.

Definition scaledValue (v : IntOrString) (total : Z) (up : bool) : option Z :=
  if bool_decide (ios_Type v = 0) then Some (ios_IntVal v)
  else
    digits ← split_percent (ios_StrVal v);
    p ← Atoi digits;
    Some (if up : bool then - ((- (p * total)) / 100) else (p * total) / 100).

Definition validPercent (s : string) : bool :=
  match split_percent s with
  | Some digits =>
      negb (bool_decide (digits = EmptyString)) && bool_decide (is_Some (digits_value 0 digits))
  | None => false
  end.

Definition concreteIntStr : IntStr :=
  {| GetScaledValueFromIntOrPercent := scaledValue; IsValidPercent := validPercent |}.

Lemma concreteScaledLaws : @ScaledLaws concreteIntStr.
Proof.
  split.
  - intros v total up H. simpl. unfold scaledValue. by rewrite bool_decide_eq_true_2.
  - intros v H. simpl. unfold scaledValue. rewrite bool_decide_eq_false_2 by done.
    destruct (split_percent (ios_StrVal v)) as [d|]; [|by right]. simpl.
    destruct (Atoi d) as [p|]; [|by right]. left. by exists p.
Qed.

Definition concreteSetControllerReference (owner obj : ObjectMeta) : option ObjectMeta :=
  let ref := mkOwner "Milvus" (om_Name owner) (om_UID owner) true in
  if existsb (fun o => or_Controller o && negb (bool_decide (or_UID o = om_UID owner)))
       (om_OwnerReferences obj) then None
  else Some (mkMeta (om_Name obj) (om_Namespace obj) (om_Labels obj) (om_Annotations obj)
               (om_Generation obj) (om_UID obj) (om_ResourceVersion obj)
               (ref :: filter (fun o => or_UID o <> om_UID owner) (om_OwnerReferences obj))
               (om_DeletionTimestamp obj) (om_Finalizers obj)).

Definition concreteIsControlledBy (obj owner : ObjectMeta) : bool :=
  match list_find (fun o => or_Controller o = true) (om_OwnerReferences obj) with
  | Some (_, o) => bool_decide (or_UID o = om_UID owner)
  | None => false
  end.

Definition concreteKubeLib : KubeLib :=
  {| DeepEqual := fun A _ a b => bool_decide (a = b);
     IsControlledBy := concreteIsControlledBy;
     SetControllerReference := concreteSetControllerReference |}.

Lemma concreteDeepEqualLaws : @DeepEqualLaws concreteKubeLib.
Proof. split. done. Qed.

Lemma concreteOwnerLaws : @OwnerLaws concreteKubeLib.
Proof. split. simpl. unfold concreteSetControllerReference. intros owner obj obj'. case_match; by intros [= <-]. Qed.

(** Versions of the form [v]major.minor.patch. *)
Definition version3 (s : string) : option (Z * Z * Z) :=
  let body := match s with String "v"%char s' => s' | _ => s end in
  match Split "."%char body with
  | [a; b; c] => x ← Atoi a; y ← Atoi b; z ← Atoi c; Some (x, y, z)
  | [a; b] => x ← Atoi a; y ← Atoi b; Some (x, y, 0)
  | [a] => x ← Atoi a; Some (x, 0, 0)
  | _ => None
  end.

Definition version_gt (v w : Z * Z * Z) : bool :=
  let '(a, b, c) := v in
  let '(a', b', c') := w in
  (a' <? a) || ((a =? a') && ((b' <? b) || ((b =? b') && (c' <? c)))).

Definition concreteSemver : Semver :=
  {| sv_Version := Z * Z * Z;
     sv_ParseTolerant := version3;
     sv_MustParse := fun s => default (0, 0, 0) (version3 s);
     sv_GT := version_gt;
     sv_LT := fun v w => version_gt w v;
     sv_Major := fun v => fst (fst v);
     sv_Minor := fun v => snd (fst v) |}.

Fixpoint nested (o : list (string * json)) (fields : list string) : option json :=
  match fields with
  | [] => Some (JObj o)
  | [f] => snd <$> (snd <$> list_find (fun kv => fst kv = f) o)
  | f :: fs =>
      match snd <$> (snd <$> list_find (fun kv => fst kv = f) o) with
      | Some (JObj o') => nested o' fs
      | _ => None
      end
  end.

Definition remove_key (f : string) (o : list (string * json)) : list (string * json) :=
  filter (fun kv => fst kv <> f) o.

Fixpoint set_nested (o : list (string * json)) (v : json) (fields : list string)
    : list (string * json) :=
  match fields with
  | [] => o
  | [f] => (f, v) :: remove_key f o
  | f :: fs =>
      match snd <$> (snd <$> list_find (fun kv => fst kv = f) o) with
      | Some (JObj o') => (f, JObj (set_nested o' v fs)) :: remove_key f o
      | Some _ => o
      | None => (f, JObj (set_nested [] v fs)) :: o
      end
  end.

Fixpoint remove_nested (o : list (string * json)) (fields : list string) : list (string * json) :=
  match fields with
  | [] => o
  | [f] => remove_key f o
  | f :: fs =>
      match snd <$> (snd <$> list_find (fun kv => fst kv = f) o) with
      | Some (JObj o') => (f, JObj (remove_nested o' fs)) :: remove_key f o
      | _ => o
      end
  end.

Definition concreteUnstructured : Unstructured :=
  {| NestedBool := fun o fs => match nested o fs with Some (JBool b) => Some b | _ => None end;
     NestedString := fun o fs => match nested o fs with Some (JStr s) => Some s | _ => None end;
     SetNestedField := set_nested;
     RemoveNestedField := remove_nested |}.

(** The cache as a finite map. *)
#[export] Instance gmapCache (V : Type) : GoCache (gmap string V) V := {
  cache_New := ∅;
  cache_Get c k := c !! k;
  cache_Set c k v := <[k := v]> c
}.
#[export] Instance gmapCache_laws (V : Type) : GoCacheLaws (gmap string V) V.
Proof. split; intros; simpl; [apply lookup_empty|apply lookup_insert_eq|by apply lookup_insert_ne]. Qed.

Definition concreteMapOrder : MapOrder := {| range V m := map_to_list m |}.
Lemma concreteMapOrderLaws : @MapOrderLaws concreteMapOrder.
Proof. by split. Qed.
