(* ===== verification/ApiTypes.v ===== *)
(** * The v1beta1 API of the operator

    The custom resource types of apis/milvus.io/v1beta1: [Milvus],
    [MilvusUpgrade] and everything they embed, with the methods that only read
    a spec.  A pointer field is an [option]; a [Values] field (an arbitrary
    JSON object that may be nil) is an optional JSON object. *)
From S2P Require Import Prelude KubeTypes Libs.

Local Open Scope string_scope.
Local Open Scope list_scope.
Local Open Scope Z_scope.

Definition Values := option (list (string * json)).

(** ** Component specs *)

Record ComponentSpec := mkComponentSpec {
  csp_Paused : bool;
  csp_PodLabels : gmap string string;
  csp_PodAnnotations : gmap string string;
  csp_Image : string;
  csp_Version : string;
  csp_Commands : list string;
  csp_RunWithSubProcess : option bool;
  csp_ImagePullPolicy : option string;
  csp_ImagePullSecrets : list string;
  csp_Env : list EnvVar;
  csp_SchedulerName : string;
  csp_NodeSelector : gmap string string;
  csp_Affinity : option json;
  csp_Tolerations : list json;
  csp_TopologySpreadConstraints : list json;
  csp_Resources : option ResourceRequirements;
  csp_ToolResources : option ResourceRequirements;
  csp_VolumeMounts : list VolumeMount;
  csp_Volumes : option (list json);
  csp_ServiceAccountName : string;
  csp_PriorityClassName : string;
  csp_HostNetwork : bool;
  csp_DNSPolicy : string;
  csp_Probes : Values;
  csp_SecurityContext : Values;
  csp_RollingUpdate : option RollingUpdateDeployment
}.

Definition emptyComponentSpec : ComponentSpec :=
  mkComponentSpec false ∅ ∅ "" "" [] None None [] [] "" ∅ None [] [] None None [] None "" "" false
    "" None None None.

Definition set_csp_Image (c : ComponentSpec) (image : string) : ComponentSpec :=
  mkComponentSpec (csp_Paused c) (csp_PodLabels c) (csp_PodAnnotations c) image
    (csp_Version c) (csp_Commands c) (csp_RunWithSubProcess c) (csp_ImagePullPolicy c)
    (csp_ImagePullSecrets c) (csp_Env c) (csp_SchedulerName c) (csp_NodeSelector c)
    (csp_Affinity c) (csp_Tolerations c) (csp_TopologySpreadConstraints c)
    (csp_Resources c) (csp_ToolResources c) (csp_VolumeMounts c) (csp_Volumes c)
    (csp_ServiceAccountName c) (csp_PriorityClassName c) (csp_HostNetwork c)
    (csp_DNSPolicy c) (csp_Probes c) (csp_SecurityContext c) (csp_RollingUpdate c).

Inductive ImageUpdateMode :=
  | ImageUpdateModeUnset
  | ImageUpdateModeRollingUpgrade
  | ImageUpdateModeRollingDowngrade
  | ImageUpdateModeAll
  | ImageUpdateModeForce.

Record HPASpec := mkHPASpec {
  hpa_MinReplicas : option Z;
  hpa_MaxReplicas : Z;
  hpa_Metrics : list Values;
  hpa_Behavior : Values
}.

Record Component := mkComponent {
  co_ComponentSpec : ComponentSpec;
  co_Replicas : option Z;
  co_HPA : option HPASpec;
  co_SideCars : list Values;
  co_InitContainers : list Values
}.

Definition emptyComponent : Component := mkComponent emptyComponentSpec None None [] [].

Definition set_co_Replicas (c : Component) (r : option Z) : Component :=
  mkComponent (co_ComponentSpec c) r (co_HPA c) (co_SideCars c) (co_InitContainers c).

Record DeploymentGroup := mkGroup {
  dg_Name : string;
  dg_Replicas : option Z;
  dg_Labels : gmap string string;
  dg_Annotations : gmap string string;
  dg_ExtraEnv : list EnvVar;
  dg_NodeSelector : option (gmap string string);
  dg_Affinity : option json;
  dg_Tolerations : option (list json);
  dg_TopologySpreadConstraints : option (list json)
}.

Definition set_dg_Replicas (g : DeploymentGroup) (r : option Z) : DeploymentGroup :=
  mkGroup (dg_Name g) r (dg_Labels g) (dg_Annotations g) (dg_ExtraEnv g) (dg_NodeSelector g)
    (dg_Affinity g) (dg_Tolerations g) (dg_TopologySpreadConstraints g).

Record ComponentStatefulSet := mkStatefulSet {
  sts_Enabled : bool;
  sts_VolumeClaimTemplates : list Values
}.

Record MilvusIngress := mkIngress {
  ing_Labels : gmap string string;
  ing_Annotations : gmap string string;
  ing_IngressClassName : option string;
  ing_Hosts : list string;
  ing_TLSSecretRefs : gmap string (list string)
}.

Record ServiceComponent := mkServiceComponent {
  sc_Component : Component;
  sc_ServiceType : string;
  sc_ServiceIPFamilyPolicy : option string;
  sc_Port : Z;
  sc_ServiceRestfulPort : Z;
  sc_ServiceLabels : gmap string string;
  sc_ServiceAnnotations : gmap string string;
  sc_Ingress : option MilvusIngress
}.

Definition set_sc_Component (s : ServiceComponent) (c : Component) : ServiceComponent :=
  mkServiceComponent c (sc_ServiceType s) (sc_ServiceIPFamilyPolicy s) (sc_Port s)
    (sc_ServiceRestfulPort s) (sc_ServiceLabels s) (sc_ServiceAnnotations s) (sc_Ingress s).

(** The component types that support deployment groups or StatefulSets embed
    [Component] and add those fields; the coordinators and Cdc only embed
    [Component], Standalone only [ServiceComponent]. *)
Record MilvusQueryNode := mkQueryNode {
  qn_Component : Component;
  qn_Groups : list DeploymentGroup;
  qn_StatefulSet : option ComponentStatefulSet
}.

Record MilvusDataNode := mkDataNode {
  dn_Component : Component;
  dn_Groups : list DeploymentGroup;
  dn_StatefulSet : option ComponentStatefulSet
}.

Record MilvusIndexNode := mkIndexNode {
  in_Component : Component;
  in_StatefulSet : option ComponentStatefulSet
}.

Record MilvusProxy := mkProxy {
  px_ServiceComponent : ServiceComponent;
  px_Groups : list DeploymentGroup
}.

Record MilvusStreamingNode := mkStreamingNode {
  sn_Component : Component;
  sn_Groups : list DeploymentGroup
}.

(** [StatefulSetEnabled] of the three StatefulSet-capable component types. *)
Definition StatefulSetEnabled (sts : option ComponentStatefulSet) : bool :=
  match sts with Some s => sts_Enabled s | None => false end.

Definition QueryNode_StatefulSetEnabled (q : option MilvusQueryNode) : bool :=
  match q with Some q => StatefulSetEnabled (qn_StatefulSet q) | None => false end.

Definition DataNode_StatefulSetEnabled (d : option MilvusDataNode) : bool :=
  match d with Some d => StatefulSetEnabled (dn_StatefulSet d) | None => false end.

Definition IndexNode_StatefulSetEnabled (i : option MilvusIndexNode) : bool :=
  match i with Some i => StatefulSetEnabled (in_StatefulSet i) | None => false end.

(** [RollingMode] is an integer in the API; other values than these are
    rejected by the validating webhook. *)
Definition RollingModeNotSet : Z := 0.
Definition RollingModeV1 : Z := 1.
Definition RollingModeV2 : Z := 2.
Definition RollingModeV3 : Z := 3.

Inductive ServiceTargetPortType := ServiceTargetPortTypeString | ServiceTargetPortTypInteger.

Record MilvusComponents := mkCom {
  com_ComponentSpec : ComponentSpec;
  com_TargetPortType : ServiceTargetPortType;
  com_ImageUpdateMode : ImageUpdateMode;
  com_EnableRollingUpdate : option bool;
  com_DisableMetric : bool;
  com_MetricInterval : string;
  com_MetricLabels : gmap string string;
  com_ToolImage : string;
  com_DummyImage : string;
  com_UpdateToolImage : bool;
  com_UpdateConfigMapOnly : option bool;
  com_RollingMode : Z;
  com_EnableManualMode : bool;
  com_ActiveConfigMap : string;
  com_RunAsNonRoot : bool;
  com_StreamingMode : option bool;
  com_Proxy : option MilvusProxy;
  com_MixCoord : option Component;
  com_RootCoord : option Component;
  com_IndexCoord : option Component;
  com_DataCoord : option Component;
  com_QueryCoord : option Component;
  com_IndexNode : option MilvusIndexNode;
  com_DataNode : option MilvusDataNode;
  com_QueryNode : option MilvusQueryNode;
  com_StreamingNode : option MilvusStreamingNode;
  com_Standalone : option ServiceComponent;
  com_Cdc : option Component
}.

(** Field updates of [MilvusComponents]. *)
Definition com_head (T : Type) : Type :=
  ComponentSpec -> ServiceTargetPortType -> ImageUpdateMode -> option bool -> bool -> string ->
  gmap string string -> string -> string -> bool -> option bool -> Z -> bool -> string -> bool ->
  option bool -> T.

Definition with_head (c : MilvusComponents) {T : Type} (f : com_head T) : T :=
  f (com_ComponentSpec c) (com_TargetPortType c) (com_ImageUpdateMode c)
    (com_EnableRollingUpdate c) (com_DisableMetric c) (com_MetricInterval c) (com_MetricLabels c)
    (com_ToolImage c) (com_DummyImage c) (com_UpdateToolImage c) (com_UpdateConfigMapOnly c)
    (com_RollingMode c) (com_EnableManualMode c) (com_ActiveConfigMap c) (com_RunAsNonRoot c)
    (com_StreamingMode c).

(** The fields of the head that defaulting and upgrades write. *)
Definition set_com_head (c : MilvusComponents) (csp : ComponentSpec) (mode : ImageUpdateMode)
    (rolling : option bool) (configMapOnly : option bool) (rollingMode : Z) (streaming : option bool)
    : MilvusComponents :=
  mkCom csp (com_TargetPortType c) mode rolling (com_DisableMetric c) (com_MetricInterval c)
    (com_MetricLabels c) (com_ToolImage c) (com_DummyImage c) (com_UpdateToolImage c) configMapOnly
    rollingMode (com_EnableManualMode c) (com_ActiveConfigMap c) (com_RunAsNonRoot c) streaming
    (com_Proxy c) (com_MixCoord c) (com_RootCoord c) (com_IndexCoord c) (com_DataCoord c)
    (com_QueryCoord c) (com_IndexNode c) (com_DataNode c) (com_QueryNode c) (com_StreamingNode c)
    (com_Standalone c) (com_Cdc c).

Definition set_com_Proxy (c : MilvusComponents) (x : option MilvusProxy) : MilvusComponents :=
  with_head c mkCom x (com_MixCoord c) (com_RootCoord c) (com_IndexCoord c) (com_DataCoord c)
    (com_QueryCoord c) (com_IndexNode c) (com_DataNode c) (com_QueryNode c) (com_StreamingNode c)
    (com_Standalone c) (com_Cdc c).
Definition set_com_MixCoord (c : MilvusComponents) (x : option Component) : MilvusComponents :=
  with_head c mkCom (com_Proxy c) x (com_RootCoord c) (com_IndexCoord c) (com_DataCoord c)
    (com_QueryCoord c) (com_IndexNode c) (com_DataNode c) (com_QueryNode c) (com_StreamingNode c)
    (com_Standalone c) (com_Cdc c).
Definition set_com_RootCoord (c : MilvusComponents) (x : option Component) : MilvusComponents :=
  with_head c mkCom (com_Proxy c) (com_MixCoord c) x (com_IndexCoord c) (com_DataCoord c)
    (com_QueryCoord c) (com_IndexNode c) (com_DataNode c) (com_QueryNode c) (com_StreamingNode c)
    (com_Standalone c) (com_Cdc c).
Definition set_com_IndexCoord (c : MilvusComponents) (x : option Component) : MilvusComponents :=
  with_head c mkCom (com_Proxy c) (com_MixCoord c) (com_RootCoord c) x (com_DataCoord c)
    (com_QueryCoord c) (com_IndexNode c) (com_DataNode c) (com_QueryNode c) (com_StreamingNode c)
    (com_Standalone c) (com_Cdc c).
Definition set_com_DataCoord (c : MilvusComponents) (x : option Component) : MilvusComponents :=
  with_head c mkCom (com_Proxy c) (com_MixCoord c) (com_RootCoord c) (com_IndexCoord c) x
    (com_QueryCoord c) (com_IndexNode c) (com_DataNode c) (com_QueryNode c) (com_StreamingNode c)
    (com_Standalone c) (com_Cdc c).
Definition set_com_QueryCoord (c : MilvusComponents) (x : option Component) : MilvusComponents :=
  with_head c mkCom (com_Proxy c) (com_MixCoord c) (com_RootCoord c) (com_IndexCoord c)
    (com_DataCoord c) x (com_IndexNode c) (com_DataNode c) (com_QueryNode c) (com_StreamingNode c)
    (com_Standalone c) (com_Cdc c).
Definition set_com_IndexNode (c : MilvusComponents) (x : option MilvusIndexNode) : MilvusComponents :=
  with_head c mkCom (com_Proxy c) (com_MixCoord c) (com_RootCoord c) (com_IndexCoord c)
    (com_DataCoord c) (com_QueryCoord c) x (com_DataNode c) (com_QueryNode c) (com_StreamingNode c)
    (com_Standalone c) (com_Cdc c).
Definition set_com_DataNode (c : MilvusComponents) (x : option MilvusDataNode) : MilvusComponents :=
  with_head c mkCom (com_Proxy c) (com_MixCoord c) (com_RootCoord c) (com_IndexCoord c)
    (com_DataCoord c) (com_QueryCoord c) (com_IndexNode c) x (com_QueryNode c) (com_StreamingNode c)
    (com_Standalone c) (com_Cdc c).
Definition set_com_QueryNode (c : MilvusComponents) (x : option MilvusQueryNode) : MilvusComponents :=
  with_head c mkCom (com_Proxy c) (com_MixCoord c) (com_RootCoord c) (com_IndexCoord c)
    (com_DataCoord c) (com_QueryCoord c) (com_IndexNode c) (com_DataNode c) x (com_StreamingNode c)
    (com_Standalone c) (com_Cdc c).
Definition set_com_StreamingNode (c : MilvusComponents) (x : option MilvusStreamingNode)
    : MilvusComponents :=
  with_head c mkCom (com_Proxy c) (com_MixCoord c) (com_RootCoord c) (com_IndexCoord c)
    (com_DataCoord c) (com_QueryCoord c) (com_IndexNode c) (com_DataNode c) (com_QueryNode c) x
    (com_Standalone c) (com_Cdc c).
Definition set_com_Standalone (c : MilvusComponents) (x : option ServiceComponent) : MilvusComponents :=
  with_head c mkCom (com_Proxy c) (com_MixCoord c) (com_RootCoord c) (com_IndexCoord c)
    (com_DataCoord c) (com_QueryCoord c) (com_IndexNode c) (com_DataNode c) (com_QueryNode c)
    (com_StreamingNode c) x (com_Cdc c).
Definition set_com_Cdc (c : MilvusComponents) (x : option Component) : MilvusComponents :=
  with_head c mkCom (com_Proxy c) (com_MixCoord c) (com_RootCoord c) (com_IndexCoord c)
    (com_DataCoord c) (com_QueryCoord c) (com_IndexNode c) (com_DataNode c) (com_QueryNode c)
    (com_StreamingNode c) (com_Standalone c) x.

Definition with_ImageUpdateMode (c : MilvusComponents) (m : ImageUpdateMode) : MilvusComponents :=
  mkCom (com_ComponentSpec c) (com_TargetPortType c) m
    (com_EnableRollingUpdate c) (com_DisableMetric c) (com_MetricInterval c) (com_MetricLabels c)
    (com_ToolImage c) (com_DummyImage c) (com_UpdateToolImage c) (com_UpdateConfigMapOnly c)
    (com_RollingMode c) (com_EnableManualMode c) (com_ActiveConfigMap c) (com_RunAsNonRoot c)
    (com_StreamingMode c) (com_Proxy c) (com_MixCoord c) (com_RootCoord c) (com_IndexCoord c)
    (com_DataCoord c) (com_QueryCoord c) (com_IndexNode c) (com_DataNode c) (com_QueryNode c)
    (com_StreamingNode c) (com_Standalone c) (com_Cdc c).

Definition with_EnableManualMode (c : MilvusComponents) (m : bool) : MilvusComponents :=
  mkCom (com_ComponentSpec c) (com_TargetPortType c) (com_ImageUpdateMode c)
    (com_EnableRollingUpdate c) (com_DisableMetric c) (com_MetricInterval c) (com_MetricLabels c)
    (com_ToolImage c) (com_DummyImage c) (com_UpdateToolImage c) (com_UpdateConfigMapOnly c)
    (com_RollingMode c) m (com_ActiveConfigMap c) (com_RunAsNonRoot c)
    (com_StreamingMode c) (com_Proxy c) (com_MixCoord c) (com_RootCoord c) (com_IndexCoord c)
    (com_DataCoord c) (com_QueryCoord c) (com_IndexNode c) (com_DataNode c) (com_QueryNode c)
    (com_StreamingNode c) (com_Standalone c) (com_Cdc c).

(** ** Dependencies *)

Inductive MsgStreamType :=
  | MsgStreamTypeUnset
  | MsgStreamTypePulsar
  | MsgStreamTypeKafka
  | MsgStreamTypeWoodPecker
  | MsgStreamTypeRocksMQ
  | MsgStreamTypeNatsMQ
  | MsgStreamTypeCustom.

Inductive DependencyDeletionPolicy :=
  | DeletionPolicyUnset
  | DeletionPolicyDelete
  | DeletionPolicyRetain.

Record InClusterConfig := mkInCluster {
  ic_Values : Values;
  ic_ChartVersion : string;
  ic_DeletionPolicy : DependencyDeletionPolicy;
  ic_PVCDeletion : bool
}.

Record PersistentVolumeClaim := mkPVC {
  pvc_ExistingClaim : string;
  pvc_Labels : gmap string string;
  pvc_Annotations : gmap string string;
  pvc_Spec : Values
}.

Record Persistence := mkPersistence {
  per_Enabled : bool;
  per_PVCDeletion : bool;
  per_PersistentVolumeClaim : PersistentVolumeClaim
}.

(** A slice where nil is not empty: encoding/json writes null for [None]. *)
Definition goSlice (A : Type) : Type := option (list A).
Definition elems {A} (s : goSlice A) : list A := default [] s.

Record MilvusEtcd := mkEtcd {
  etcd_Endpoints : goSlice string;
  etcd_External : bool;
  etcd_InCluster : option InClusterConfig
}.

Record MilvusStorageSSLConfig := mkStorageSSL {
  ssl_Enabled : bool;
  ssl_CACertificateRef : string;
  ssl_InsecureSkipVerify : bool
}.

Record MilvusStorage := mkStorage {
  sto_Type : string;
  sto_SecretRef : string;
  sto_Endpoint : string;
  sto_InCluster : option InClusterConfig;
  sto_External : bool;
  sto_SSL : option MilvusStorageSSLConfig
}.

Record WoodpeckerBufferPool := mkPool {
  wbp_Name : string;
  wbp_Seeds : goSlice string
}.

(** [MilvusBuiltInMQ] has the single field [Persistence]. *)
Record MilvusWoodpecker := mkWoodpecker {
  wp_Persistence : Persistence;
  wp_External : bool;
  wp_QuorumBufferPools : goSlice WoodpeckerBufferPool
}.

Record MilvusPulsar := mkPulsar {
  pul_InCluster : option InClusterConfig;
  pul_External : bool;
  pul_Endpoint : string;
  pul_Endpoints : list string
}.

Record MilvusKafka := mkKafka {
  kaf_InCluster : option InClusterConfig;
  kaf_External : bool;
  kaf_BrokerList : goSlice string;
  kaf_SecretRef : string
}.

Record MilvusTei := mkTei {
  tei_InCluster : option InClusterConfig;
  tei_Enabled : bool
}.

Record MilvusDependencies := mkDep {
  dep_Etcd : MilvusEtcd;
  dep_MsgStreamType : MsgStreamType;
  dep_Pulsar : MilvusPulsar;
  dep_Kafka : MilvusKafka;
  dep_WoodPecker : MilvusWoodpecker;
  dep_RocksMQ : Persistence;
  dep_NatsMQ : Persistence;
  dep_Storage : MilvusStorage;
  dep_Tei : MilvusTei;
  dep_CustomMsgStream : Values
}.

Definition GetMilvusBuiltInMQ (m : MilvusDependencies) : option Persistence :=
  match dep_MsgStreamType m with
  | MsgStreamTypePulsar | MsgStreamTypeKafka | MsgStreamTypeCustom => None
  | MsgStreamTypeWoodPecker =>
      if wp_External (dep_WoodPecker m) then None else Some (wp_Persistence (dep_WoodPecker m))
  | MsgStreamTypeRocksMQ => Some (dep_RocksMQ m)
  | MsgStreamTypeNatsMQ => Some (dep_NatsMQ m)
  | MsgStreamTypeUnset => None
  end.

Definition SeedEndpoints (w : MilvusWoodpecker) : list string :=
  concat ((fun p => elems (wbp_Seeds p)) <$> elems (wp_QuorumBufferPools w)).

Definition Pulsar_GetEndpoints (m : MilvusPulsar) : list string :=
  match pul_Endpoints m with
  | [] => if decide (pul_Endpoint m = "") then [] else [pul_Endpoint m]
  | eps => eps
  end.

(** ** The Milvus resource *)

Inductive MilvusMode := MilvusModeUnset | MilvusModeCluster | MilvusModeStandalone.

Record MilvusSpec := mkSpec {
  spec_Mode : MilvusMode;
  spec_Com : MilvusComponents;
  spec_Dep : MilvusDependencies;
  spec_Conf : Values;
  spec_HookConf : Values
}.

Definition set_spec_Com (s : MilvusSpec) (c : MilvusComponents) : MilvusSpec :=
  mkSpec (spec_Mode s) c (spec_Dep s) (spec_Conf s) (spec_HookConf s).

Inductive MilvusHealthStatus :=
  | StatusUnset
  | StatusPending
  | StatusHealthy
  | StatusUnhealthy
  | StatusDeleting
  | StatusStopped.

Inductive ComponentDeployMode := DeployModeUnknown | OneDeployMode | TwoDeployMode.

Record ComponentDeployStatus := mkDeployStatus {
  cds_Generation : Z;
  cds_Image : string;
  cds_Status : DeploymentStatus
}.

Record MilvusCondition := mkCondition {
  mc_Type : string;
  mc_Status : ConditionStatus;
  mc_LastTransitionTime : option Z;
  mc_Reason : string;
  mc_Message : string
}.

Record MilvusStatus := mkStatus {
  st_Status : MilvusHealthStatus;
  st_Conditions : list MilvusCondition;
  st_Endpoint : string;
  st_IngressStatus : json;
  st_ComponentsDeployStatus : gmap string ComponentDeployStatus;
  st_DeploymentGroupsDeployStatus : gmap string (gmap string ComponentDeployStatus);
  st_RollingMode : Z;
  st_ObservedGeneration : Z;
  st_CurrentImage : string;
  st_CurrentVersion : string
}.

Record Milvus := mkMilvus {
  mi_Meta : ObjectMeta;
  mi_Spec : MilvusSpec;
  mi_Status : MilvusStatus
}.

Definition mi_Name (m : Milvus) : string := om_Name (mi_Meta m).
Definition mi_Namespace (m : Milvus) : string := om_Namespace (mi_Meta m).
Definition mi_Labels (m : Milvus) : gmap string string := om_Labels (mi_Meta m).
Definition mi_Annotations (m : Milvus) : gmap string string := om_Annotations (mi_Meta m).
Definition mi_Com (m : Milvus) : MilvusComponents := spec_Com (mi_Spec m).

Definition set_mi_Labels (m : Milvus) (l : gmap string string) : Milvus :=
  mkMilvus (set_Labels (mi_Meta m) l) (mi_Spec m) (mi_Status m).
Definition set_mi_Annotations (m : Milvus) (a : gmap string string) : Milvus :=
  mkMilvus (set_Annotations (mi_Meta m) a) (mi_Spec m) (mi_Status m).
Definition set_mi_Spec (m : Milvus) (s : MilvusSpec) : Milvus :=
  mkMilvus (mi_Meta m) s (mi_Status m).
Definition set_mi_Status (m : Milvus) (s : MilvusStatus) : Milvus :=
  mkMilvus (mi_Meta m) (mi_Spec m) s.

Lemma mi_Annotations_set m a : mi_Annotations (set_mi_Annotations m a) = a.
Proof. done. Qed.
Lemma mi_Annotations_setLabels m l : mi_Annotations (set_mi_Labels m l) = mi_Annotations m.
Proof. done. Qed.
Lemma mi_Labels_set m l : mi_Labels (set_mi_Labels m l) = l.
Proof. done. Qed.
Lemma mi_Labels_setAnnotations m a : mi_Labels (set_mi_Annotations m a) = mi_Labels m.
Proof. done. Qed.
#[export] Hint Rewrite mi_Annotations_set mi_Annotations_setLabels mi_Labels_set
  mi_Labels_setAnnotations : labels.

#[export] Instance ImageUpdateMode_eq_dec : EqDecision ImageUpdateMode.
Proof. solve_decision. Defined.
#[export] Instance DeploymentGroup_eq_dec : EqDecision DeploymentGroup.
Proof. solve_decision. Defined.
#[export] Instance MilvusMode_eq_dec : EqDecision MilvusMode.
Proof. solve_decision. Defined.
#[export] Instance MsgStreamType_eq_dec : EqDecision MsgStreamType.
Proof. solve_decision. Defined.
#[export] Instance DependencyDeletionPolicy_eq_dec : EqDecision DependencyDeletionPolicy.
Proof. solve_decision. Defined.
#[export] Instance MilvusHealthStatus_eq_dec : EqDecision MilvusHealthStatus.
Proof. solve_decision. Defined.
#[export] Instance ComponentDeployMode_eq_dec : EqDecision ComponentDeployMode.
Proof. solve_decision. Defined.
#[export] Instance ServiceTargetPortType_eq_dec : EqDecision ServiceTargetPortType.
Proof. solve_decision. Defined.
#[export] Instance ComponentDeployStatus_eq_dec : EqDecision ComponentDeployStatus.
Proof. solve_decision. Defined.
#[export] Instance MilvusCondition_eq_dec : EqDecision MilvusCondition.
Proof. solve_decision. Defined.
#[export] Instance MilvusStatus_eq_dec : EqDecision MilvusStatus.
Proof. solve_decision. Defined.

(** Specs are compared by value. *)
#[export] Instance MilvusIngress_eq_dec : EqDecision MilvusIngress.
Proof. solve_decision. Defined.
#[export] Instance InClusterConfig_eq_dec : EqDecision InClusterConfig.
Proof. solve_decision. Defined.
#[export] Instance PersistentVolumeClaim_eq_dec : EqDecision PersistentVolumeClaim.
Proof. solve_decision. Defined.
#[export] Instance Persistence_eq_dec : EqDecision Persistence.
Proof. solve_decision. Defined.
#[export] Instance MilvusEtcd_eq_dec : EqDecision MilvusEtcd.
Proof. solve_decision. Defined.
#[export] Instance MilvusStorageSSLConfig_eq_dec : EqDecision MilvusStorageSSLConfig.
Proof. solve_decision. Defined.
#[export] Instance MilvusStorage_eq_dec : EqDecision MilvusStorage.
Proof. solve_decision. Defined.
#[export] Instance WoodpeckerBufferPool_eq_dec : EqDecision WoodpeckerBufferPool.
Proof. solve_decision. Defined.
#[export] Instance MilvusWoodpecker_eq_dec : EqDecision MilvusWoodpecker.
Proof. solve_decision. Defined.
#[export] Instance MilvusPulsar_eq_dec : EqDecision MilvusPulsar.
Proof. solve_decision. Defined.
#[export] Instance MilvusKafka_eq_dec : EqDecision MilvusKafka.
Proof. solve_decision. Defined.
#[export] Instance MilvusTei_eq_dec : EqDecision MilvusTei.
Proof. solve_decision. Defined.
#[export] Instance MilvusDependencies_eq_dec : EqDecision MilvusDependencies.
Proof. solve_decision. Defined.
#[export] Instance ComponentSpec_eq_dec : EqDecision ComponentSpec.
Proof. solve_decision. Defined.
#[export] Instance HPASpec_eq_dec : EqDecision HPASpec.
Proof. solve_decision. Defined.
#[export] Instance Component_eq_dec : EqDecision Component.
Proof. solve_decision. Defined.
#[export] Instance ComponentStatefulSet_eq_dec : EqDecision ComponentStatefulSet.
Proof. solve_decision. Defined.
#[export] Instance ServiceComponent_eq_dec : EqDecision ServiceComponent.
Proof. solve_decision. Defined.
#[export] Instance MilvusQueryNode_eq_dec : EqDecision MilvusQueryNode.
Proof. solve_decision. Defined.
#[export] Instance MilvusDataNode_eq_dec : EqDecision MilvusDataNode.
Proof. solve_decision. Defined.
#[export] Instance MilvusIndexNode_eq_dec : EqDecision MilvusIndexNode.
Proof. solve_decision. Defined.
#[export] Instance MilvusProxy_eq_dec : EqDecision MilvusProxy.
Proof. solve_decision. Defined.
#[export] Instance MilvusStreamingNode_eq_dec : EqDecision MilvusStreamingNode.
Proof. solve_decision. Defined.
#[export] Instance MilvusComponents_eq_dec : EqDecision MilvusComponents.
Proof. solve_decision. Defined.
#[export] Instance MilvusSpec_eq_dec : EqDecision MilvusSpec.
Proof. solve_decision. Defined.

(** ** Methods of the spec *)

Definition UseMixCoord (ms : MilvusSpec) : bool := bool_decide (is_Some (com_MixCoord (spec_Com ms))).
Definition UseCdc (ms : MilvusSpec) : bool := bool_decide (is_Some (com_Cdc (spec_Com ms))).

Section WithSemver.
Context {SV : Semver}.

Definition semanticVersion2_5_Max : sv_Version := sv_MustParse "2.5.999".

Definition isImageVersionGreaterThan2_6 (version image : string) : bool :=
  let greater (tag : string) :=
    match sv_ParseTolerant tag with
    | None => false
    | Some v => sv_GT v semanticVersion2_5_Max
    end in
  if negb (bool_decide (version = "")) then greater version
  else
    let parts := Split ":" image in
    if (length parts <? 2)%nat then false
    else
      let imageTag := default "" (last parts) in
      if HasPrefix imageTag "master-" then true else greater imageTag.

Definition IsVersionGreaterThan2_6 (ms : MilvusSpec) : bool :=
  isImageVersionGreaterThan2_6 (csp_Version (com_ComponentSpec (spec_Com ms)))
    (csp_Image (com_ComponentSpec (spec_Com ms))).

Definition IsCurrentImageVersionGreaterThan2_6 (m : Milvus) : bool :=
  isImageVersionGreaterThan2_6 (st_CurrentVersion (mi_Status m)) (st_CurrentImage (mi_Status m)).

Definition UseStreamingNode (ms : MilvusSpec) : bool :=
  if IsVersionGreaterThan2_6 ms then true
  else match com_StreamingMode (spec_Com ms) with
       | Some b => b
       | None => bool_decide (is_Some (com_StreamingNode (spec_Com ms)))
       end.

Definition componentOrGroupsStopped (componentReplicas : option Z) (groups : list DeploymentGroup)
    : bool :=
  match groups with
  | [] => bool_decide (componentReplicas = Some 0%Z)
  | _ => forallb (fun g => bool_decide (dg_Replicas g = Some 0%Z)) groups
  end.

(** [*p.Replicas != 0] on a component pointer: [None] is the nil dereference. *)
Definition replicasNonzero (p : option Component) : option bool :=
  c ← p; r ← co_Replicas c; Some (negb (r =? 0)%Z).

(** [b && rest] in the early-return style of [IsStopping]: [nonzero] true
    means "return false". *)
Definition stopUnless (nonzero : option bool) (rest : option bool) : option bool :=
  b ← nonzero; if (b : bool) then Some false else rest.

(** [IsStopping] reads the replicas through pointers; [None] is a panic. *)
Definition IsStopping (ms : MilvusSpec) : option bool :=
  let com := spec_Com ms in
  if com_EnableManualMode com then Some false else
  stopUnless (replicasNonzero (sc_Component <$> com_Standalone com)) $
  stopUnless (if UseCdc ms then replicasNonzero (com_Cdc com) else Some false) $
  if decide (spec_Mode ms = MilvusModeStandalone) then Some true else
  (match com_MixCoord com with
   | Some _ => stopUnless (replicasNonzero (com_MixCoord com))
   | None => fun rest =>
       stopUnless (replicasNonzero (com_IndexCoord com)) $
       stopUnless (replicasNonzero (com_DataCoord com)) $
       stopUnless (replicasNonzero (com_QueryCoord com)) $
       stopUnless (replicasNonzero (com_RootCoord com)) rest
   end) $
  stopUnless (p ← com_Proxy com;
              Some (negb (componentOrGroupsStopped
                            (co_Replicas (sc_Component (px_ServiceComponent p))) (px_Groups p)))) $
  stopUnless (d ← com_DataNode com;
              Some (negb (componentOrGroupsStopped (co_Replicas (dn_Component d)) (dn_Groups d)))) $
  stopUnless (match com_IndexNode com with
              | None => Some false
              | Some i => replicasNonzero (Some (in_Component i))
              end) $
  stopUnless (q ← com_QueryNode com;
              Some (negb (componentOrGroupsStopped (co_Replicas (qn_Component q)) (qn_Groups q)))) $
  stopUnless (if UseStreamingNode ms then
                s ← com_StreamingNode com;
                Some (negb (componentOrGroupsStopped (co_Replicas (sn_Component s)) (sn_Groups s)))
              else Some false) $
  Some true.
End WithSemver.

(** ** Deployment states *)

Inductive DeploymentState :=
  | DeploymentProgressing
  | DeploymentComplete
  | DeploymentFailed
  | DeploymentPaused.

#[export] Instance DeploymentState_eq_dec : EqDecision DeploymentState.
Proof. solve_decision. Defined.

Definition NewReplicaSetAvailableReason : string := "NewReplicaSetAvailable".
Definition DeploymentPausedReason : string := "DeploymentPaused".

Definition getDeploymentConditionByType (conditions : list DeploymentCondition)
    (conditionType : string) : option DeploymentCondition :=
  snd <$> list_find (fun c => dc_Type c = conditionType) conditions.

Definition GetState (c : ComponentDeployStatus) : DeploymentState :=
  if (dss_ObservedGeneration (cds_Status c) <? cds_Generation c)%Z then DeploymentProgressing
  else
    match getDeploymentConditionByType (dss_Conditions (cds_Status c)) DeploymentProgressingType with
    | None => DeploymentProgressing
    | Some processing =>
        if bool_decide (dc_Reason processing = DeploymentPausedReason) then DeploymentPaused
        else if negb (bool_decide (dc_Status processing = ConditionTrue)) then DeploymentFailed
        else if bool_decide (dc_Reason processing = NewReplicaSetAvailableReason)
        then DeploymentComplete
        else DeploymentProgressing
    end.

(** The zero value of [ComponentDeployStatus], what reading an absent key of
    the status map gives. *)
Definition zeroDeploymentStatus : DeploymentStatus := mkDStatus 0 0 0 0 0 0 [].
Definition zeroDeployStatus : ComponentDeployStatus := mkDeployStatus 0 "" zeroDeploymentStatus.

Definition GetMilvusConditionByType (status : MilvusStatus) (conditionType : string)
    : option MilvusCondition :=
  snd <$> list_find (fun c => mc_Type c = conditionType) (st_Conditions status).

(** [GetServiceComponent] takes the address of a field of a pointer: [None] is
    the panic of a nil component. *)
Definition GetServiceComponent (ms : MilvusSpec) : option ServiceComponent :=
  if decide (spec_Mode ms = MilvusModeCluster) then px_ServiceComponent <$> com_Proxy (spec_Com ms)
  else com_Standalone (spec_Com ms).

(** ** Readers of a Milvus *)

Definition IsRollingUpdateEnabled (m : Milvus) : bool :=
  bool_decide (com_EnableRollingUpdate (mi_Com m) = Some true).

Definition IsUpdateConfigMapOnly (m : Milvus) : bool := default true (com_UpdateConfigMapOnly (mi_Com m)).

Definition GetActiveConfigMap (m : Milvus) : string :=
  if bool_decide (com_ActiveConfigMap (mi_Com m) = "") then mi_Name m else com_ActiveConfigMap (mi_Com m).

Definition GetPersistenceConfig (ms : MilvusSpec) : option Persistence := GetMilvusBuiltInMQ (spec_Dep ms).

(** A cluster whose standalone still runs. *)
Definition Milvus_IsChangingMode (m : Milvus) : bool :=
  if bool_decide (spec_Mode (mi_Spec m) = MilvusModeStandalone) then false
  else match com_Standalone (mi_Com m) with
       | None => false
       | Some s => match co_Replicas (sc_Component s) with Some r => 0 <? r | None => false end
       end.
