(* ===== verification/Values.v ===== *)
(** * Values

    pkg/util/util.go: chart values and configurations are JSON objects;
    [MergeValues] overlays one with another.  An object is the list of its
    fields; a Go map has each key once, which theorems ask for where it
    matters. *)
From S2P Require Import Prelude KubeTypes Libs ApiTypes.

Local Open Scope string_scope.
Local Open Scope list_scope.

Notation object := (list (string * json)).

Fixpoint get_key (o : object) (k : string) : option json :=
  match o with
  | [] => None
  | (k', v) :: o' => if decide (k' = k) then Some v else get_key o' k
  end.

(** [o[k] = v] and [delete(o, k)]. *)
Fixpoint set_key (o : object) (k : string) (v : json) : object :=
  match o with
  | [] => [(k, v)]
  | (k', v') :: o' => if decide (k' = k) then (k, v) :: o' else (k', v') :: set_key o' k v
  end.
Definition delete_key (o : object) (k : string) : object := filter (fun kv => fst kv <> k) o.

Definition GetNumberValue (values : object) (field : string) : option Z :=
  match get_key values field with Some (JNum z) => Some z | _ => None end.

(** The value that [patchV] leaves where [originV] was: two objects are merged,
    anything else is replaced. *)
Fixpoint mergeJson (originV patchV : json) : json :=
  match originV, patchV with
  | JObj origin, JObj patch =>
      JObj ((fix go (origin patch : object) : object :=
               match patch with
               | [] => origin
               | (k, v) :: rest =>
                   go (set_key origin k (match get_key origin k with None => v | Some ov => mergeJson ov v end)) rest
               end) origin patch)
  | _, _ => patchV
  end.

Fixpoint MergeValues (origin patch : object) : object :=
  match patch with
  | [] => origin
  | (k, v) :: rest =>
      MergeValues (set_key origin k (match get_key origin k with None => v | Some ov => mergeJson ov v end)) rest
  end.

Lemma mergeJson_objects origin patch : mergeJson (JObj origin) (JObj patch) = JObj (MergeValues origin patch).
Proof. reflexivity. Qed.

(** ** Keys *)

Lemma get_set_key o k v k' : get_key (set_key o k v) k' = if decide (k = k') then Some v else get_key o k'.
Proof.
  induction o as [|[k0 v0] o IH]; simpl; [done|]. destruct (decide (k0 = k)) as [->|Hne]; simpl.
  - by destruct (decide (k = k')).
  - rewrite IH. destruct (decide (k0 = k')) as [<-|]; [by rewrite decide_False by congruence|done].
Qed.

Lemma get_delete_key o k k' : get_key (delete_key o k) k' = if decide (k = k') then None else get_key o k'.
Proof.
  unfold delete_key. induction o as [|[k0 v0] o IH]; [by destruct (decide (k = k'))|].
  destruct (decide (k0 = k)) as [->|Hne].
  - rewrite filter_cons_False by (simpl; auto). rewrite IH. simpl. by destruct (decide (k = k')).
  - rewrite filter_cons_True by done. simpl. rewrite IH.
    destruct (decide (k0 = k')) as [<-|]; [by rewrite decide_False by congruence|done].
Qed.

Lemma get_key_elem o k v : get_key o k = Some v -> k ∈ fst <$> o.
Proof.
  induction o as [|[k0 v0] o IH]; [done|]. simpl. destruct (decide (k0 = k)) as [->|]; intros H.
  - by apply elem_of_cons; left.
  - apply elem_of_cons. right. by apply IH.
Qed.

Lemma merge_get patch : NoDup (fst <$> patch) -> forall origin k,
  get_key (MergeValues origin patch) k
  = match get_key patch k with
    | Some v => Some (match get_key origin k with None => v | Some ov => mergeJson ov v end)
    | None => get_key origin k
    end.
Proof.
  induction patch as [|[k0 v0] rest IH]; intros Hnd origin k; [done|].
  rewrite fmap_cons, NoDup_cons in Hnd. destruct Hnd as [Hn Hnd]. cbn [MergeValues get_key].
  rewrite (IH Hnd), get_set_key. destruct (decide (k0 = k)) as [->|Hne].
  - destruct (get_key rest k) as [v|] eqn:E; [by apply get_key_elem in E|done].
  - done.
Qed.

(** ** Paths *)

Fixpoint get_path (j : json) (path : list string) : option json :=
  match path with
  | [] => Some j
  | f :: fs => match j with JObj o => v ← get_key o f; get_path v fs | _ => None end
  end.

(** The objects along a path have every key once. *)
Fixpoint uniqueAlong (j : json) (path : list string) : Prop :=
  match path, j with
  | f :: fs, JObj o =>
      NoDup (fst <$> o) /\ match get_key o f with Some v => uniqueAlong v fs | None => True end
  | _, _ => True
  end.

(** The patch is an object at every prefix of the path until it lacks the next
    field: it says nothing about the path. *)
Fixpoint untouched (j : json) (path : list string) : Prop :=
  match path, j with
  | f :: fs, JObj o => match get_key o f with Some v => untouched v fs | None => True end
  | _, _ => False
  end.

Definition isObject (j : json) : bool := match j with JObj _ => true | _ => false end.

Lemma merge_not_objects ov v : isObject ov && isObject v = false -> mergeJson ov v = v.
Proof. by destruct ov, v. Qed.

Lemma merge_overrides path : forall originV patchV v,
  uniqueAlong patchV path -> get_path patchV path = Some v -> isObject v = false ->
  get_path (mergeJson originV patchV) path = Some v.
Proof.
  induction path as [|f fs IH]; intros originV patchV v Hu Hp Hv.
  - simpl in Hp. injection Hp as ->. simpl. by rewrite merge_not_objects by (by rewrite Hv, andb_false_r).
  - destruct patchV as [| | | | |patch]; try done.
    destruct originV as [| | | | |origin]; try done. rewrite mergeJson_objects. cbn [get_path] in *.
    destruct Hu as [Hnd Hu]. rewrite merge_get by done.
    destruct (get_key patch f) as [pv|]; [|done]. simpl in *.
    destruct (get_key origin f) as [ov|]; [by apply IH|done].
Qed.

Lemma untouched_absent path : forall patchV, untouched patchV path -> get_path patchV path = None.
Proof.
  induction path as [|f fs IH]; intros patchV; [done|]. destruct patchV as [| | | | |patch]; try done. simpl.
  destruct (get_key patch f) as [v|]; [|done]. simpl. apply IH.
Qed.

Lemma merge_keeps path : forall originV patchV,
  uniqueAlong patchV path -> untouched patchV path ->
  get_path (mergeJson originV patchV) path = get_path originV path.
Proof.
  induction path as [|f fs IH]; intros originV patchV Hu Ht; [done|].
  pose proof (untouched_absent _ _ Ht) as Habs.
  destruct patchV as [| | | | |patch]; try done.
  destruct originV as [| | | | |origin]; try (simpl mergeJson; rewrite Habs; done).
  rewrite mergeJson_objects. cbn [get_path untouched] in *. destruct Hu as [Hnd Hu].
  rewrite merge_get by done. destruct (get_key patch f) as [pv|]; [|done].
  destruct (get_key origin f) as [ov|]; simpl in *; [by apply IH|done].
Qed.

(** Merging values is an overlay: at every path where the patch has a value
    that is no object the result has that value, and at every path of which
    the patch says nothing the result has what the origin has. *)
Theorem MergeValues_overlay origin patch path :
  uniqueAlong (JObj patch) path ->
  (forall v, get_path (JObj patch) path = Some v -> isObject v = false ->
     get_path (JObj (MergeValues origin patch)) path = Some v) /\
  (untouched (JObj patch) path ->
     get_path (JObj (MergeValues origin patch)) path = get_path (JObj origin) path).
Proof.
  intros Hu. rewrite <- mergeJson_objects. split.
  - intros v Hp Hv. by apply merge_overrides.
  - by apply merge_keeps.
Qed.

Definition exOrigin : object :=
  [("replicaCount", JNum 3); ("image", JObj [("tag", JStr "3.5"); ("pullPolicy", JStr "Always")])].
Definition exPatch : object := [("image", JObj [("tag", JStr "3.6")]); ("extra", JBool true)].

Lemma MergeValues_overlay_witness :
  get_path (JObj (MergeValues exOrigin exPatch)) ["image"; "tag"] = Some (JStr "3.6") /\
  get_path (JObj (MergeValues exOrigin exPatch)) ["image"; "pullPolicy"] = Some (JStr "Always").
Proof.
  assert (forall f, uniqueAlong (JObj exPatch) ["image"; f]) as Hu.
  { intros f. split; [apply (bool_decide_unpack _); by vm_compute|]. split; [apply (bool_decide_unpack _); by vm_compute|].
    by destruct (get_key _ f). }
  split.
  - by apply (proj1 (MergeValues_overlay exOrigin exPatch ["image"; "tag"] (Hu _))).
  - by apply (proj2 (MergeValues_overlay exOrigin exPatch ["image"; "pullPolicy"] (Hu _))).
Defined.
