(* ===== verification/Labels.v ===== *)
(** * Labels and annotations

    apis/milvus.io/v1beta1/label_annotations.go: the labels and annotations of
    the Milvus resource and of its workloads through which the operator keeps
    the state of a rollout: the current rollout slot of every component
    (annotation [<c>-current-group-id]), a rollout in progress (label
    [<c>-rolling-id]), a change of deploy mode in progress (annotation
    [changing-<c>-mode]) and the slot of a workload (label [<c>-group-id]).

    The setters write to [m.Labels] and [m.Annotations]; a nil map is not told
    apart from an empty one, so the panic of a write to a nil map is not
    modelled (the mutating webhook creates both maps). *)
From S2P Require Import Prelude KubeTypes ApiTypes.

Local Open Scope string_scope.
Local Open Scope list_scope.
Local Open Scope Z_scope.

Definition MilvusIO : string := "milvus.io/".
Definition OperatorVersionLabel : string := MilvusIO +:+ "operator-version".
Definition DependencyValuesLegacySyncedAnnotation : string :=
  MilvusIO +:+ "dependency-values-legacy-synced".
Definition DependencyValuesMergedAnnotation : string := MilvusIO +:+ "dependency-values-merged".
Definition LegacyVersion : string := "v0.5.0-legacy".
Definition FalseStr : string := "false".
Definition TrueStr : string := "true".
Definition UpgradeAnnotation : string := MilvusIO +:+ "upgrade".
Definition AnnotationUpgrading : string := "upgrading".
Definition AnnotationUpgraded : string := "upgraded".
Definition StoppedAtAnnotation : string := MilvusIO +:+ "stopped-at".
Definition AnnotationMilvusGeneration : string := MilvusIO +:+ "generation".
Definition PodServiceLabelAddedAnnotation : string := MilvusIO +:+ "pod-service-label-added".
Definition ServiceLabel : string := MilvusIO +:+ "service".
Definition DeploymentGroupLabel : string := MilvusIO +:+ "deployment-group".
Definition PodAnnotationUsingConfigMap : string := MilvusIO +:+ "using-configmap".
Definition KafkaSaslCheckSumAnnotation : string := MilvusIO +:+ "kafka-sasl-checksum".
Definition OldAnnotationCurrentQueryNodeGroupID : string :=
  MilvusIO +:+ "current-querynode-group-id".

Definition getChangingModeLabel (component : string) : string :=
  MilvusIO +:+ "changing-" +:+ component +:+ "-mode".

Definition GetComponentGroupIdLabel (component : string) : string :=
  MilvusIO +:+ component +:+ "-group-id".

Definition IsChangingMode (m : Milvus) (component : string) : bool :=
  bool_decide (mget (mi_Annotations m) (getChangingModeLabel component) = TrueStr).

Definition SetChangingMode (m : Milvus) (component : string) (changing : bool) : Milvus :=
  if changing then
    set_mi_Annotations m (<[getChangingModeLabel component := TrueStr]> (mi_Annotations m))
  else set_mi_Annotations m (delete (getChangingModeLabel component) (mi_Annotations m)).

(** The argument is [obj.GetLabels()]; the length test of the source only
    avoids reading a nil map. *)
Definition GetLabelGroupID (component : string) (labels : gmap string string) : string :=
  mget labels (GetComponentGroupIdLabel component).

Definition SetGroupIDStr (component : string) (labels : gmap string string) (groupIdStr : string)
    : gmap string string :=
  <[GetComponentGroupIdLabel component := groupIdStr]> labels.

Definition SetGroupID (component : string) (labels : gmap string string) (groupId : Z)
    : gmap string string :=
  SetGroupIDStr component labels (Itoa groupId).

Definition GetComponentCurrentGroupIDLabel (component : string) : string :=
  MilvusIO +:+ component +:+ "-current-group-id".

Definition GetCurrentGroupId (m : Milvus) (component : string) : string :=
  mget (mi_Annotations m) (GetComponentCurrentGroupIDLabel component).

Definition SetCurrentGroupIDStr (m : Milvus) (component : string) (groupId : string) : Milvus :=
  set_mi_Annotations m
    (<[GetComponentCurrentGroupIDLabel component := groupId]> (mi_Annotations m)).

Definition SetCurrentGroupID (m : Milvus) (component : string) (groupId : Z) : Milvus :=
  SetCurrentGroupIDStr m component (Itoa groupId).

Definition GetRollingIdLabelByComponent (component : string) : string :=
  MilvusIO +:+ component +:+ "-rolling-id".

Definition IsComponentRolling (m : Milvus) (component : string) : bool :=
  negb (bool_decide (mget (mi_Labels m) (GetRollingIdLabelByComponent component) = "")).

Definition GetComponentRollingId (m : Milvus) (component : string) : string :=
  mget (mi_Labels m) (GetRollingIdLabelByComponent component).

Definition SetComponentRolling (m : Milvus) (component : string) (rolling : bool) : Milvus :=
  if rolling then
    if bool_decide (mget (mi_Labels m) (GetRollingIdLabelByComponent component) = "") then
      set_mi_Labels m (<[GetRollingIdLabelByComponent component := Itoa (om_Generation (mi_Meta m))]>
                         (mi_Labels m))
    else m
  else set_mi_Labels m (delete (GetRollingIdLabelByComponent component) (mi_Labels m)).

(** ** Keys are injective *)

Lemma GetComponentGroupIdLabel_inj a b :
  GetComponentGroupIdLabel a = GetComponentGroupIdLabel b -> a = b.
Proof. intros H. by apply app_cancel_l, app_cancel_r in H. Qed.

Lemma GetComponentCurrentGroupIDLabel_inj a b :
  GetComponentCurrentGroupIDLabel a = GetComponentCurrentGroupIDLabel b -> a = b.
Proof. intros H. by apply app_cancel_l, app_cancel_r in H. Qed.

Lemma GetRollingIdLabelByComponent_inj a b :
  GetRollingIdLabelByComponent a = GetRollingIdLabelByComponent b -> a = b.
Proof. intros H. by apply app_cancel_l, app_cancel_r in H. Qed.

Lemma getChangingModeLabel_inj a b : getChangingModeLabel a = getChangingModeLabel b -> a = b.
Proof. intros H. by apply app_cancel_l, app_cancel_l, app_cancel_r in H. Qed.

(** The two families of annotations never meet: they end differently. *)
Lemma changing_current_disjoint a b :
  getChangingModeLabel a <> GetComponentCurrentGroupIDLabel b.
Proof.
  intros H. apply app_cancel_l in H.
  apply (f_equal String.list_ascii_of_string), (f_equal last) in H.
  rewrite !to_list_app, !last_app in H. done.
Qed.

(** ** What a setter changes *)

Lemma GetCurrentGroupId_set m c c' g :
  GetCurrentGroupId (SetCurrentGroupIDStr m c g) c' = if decide (c = c') then g else GetCurrentGroupId m c'.
Proof.
  unfold GetCurrentGroupId, SetCurrentGroupIDStr; autorewrite with labels. case_decide as E.
  - subst c'. apply mget_insert_eq.
  - apply mget_insert_ne. by intros ?%GetComponentCurrentGroupIDLabel_inj.
Qed.

Lemma IsChangingMode_setCurrent m c c' g :
  IsChangingMode (SetCurrentGroupIDStr m c g) c' = IsChangingMode m c'.
Proof.
  unfold IsChangingMode, SetCurrentGroupIDStr; autorewrite with labels.
  rewrite mget_insert_ne; [done|]. intros H. by apply (changing_current_disjoint c' c).
Qed.

Lemma IsChangingMode_set m c c' b :
  IsChangingMode (SetChangingMode m c b) c' = if decide (c = c') then b else IsChangingMode m c'.
Proof.
  unfold IsChangingMode, SetChangingMode. destruct b; autorewrite with labels; case_decide as E; try subst c'.
  - by rewrite mget_insert_eq.
  - rewrite mget_insert_ne; [done|]. by intros ?%getChangingModeLabel_inj.
  - by rewrite mget_delete_eq.
  - rewrite mget_delete_ne; [done|]. by intros ?%getChangingModeLabel_inj.
Qed.

Lemma GetCurrentGroupId_setChanging m c c' b :
  GetCurrentGroupId (SetChangingMode m c b) c' = GetCurrentGroupId m c'.
Proof.
  unfold GetCurrentGroupId, SetChangingMode. destruct b; autorewrite with labels.
  - apply mget_insert_ne, changing_current_disjoint.
  - apply mget_delete_ne, changing_current_disjoint.
Qed.

Lemma IsComponentRolling_set m c c' b :
  IsComponentRolling (SetComponentRolling m c b) c'
  = if decide (c = c') then b else IsComponentRolling m c'.
Proof.
  unfold IsComponentRolling, SetComponentRolling. destruct b; autorewrite with labels.
  - destruct (bool_decide (mget (mi_Labels m) (GetRollingIdLabelByComponent c) = "")) eqn:E.
    + autorewrite with labels. destruct (decide (c = c')) as [<-|Ec].
      * rewrite mget_insert_eq, bool_decide_eq_false_2; [done|apply Itoa_nonempty].
      * rewrite mget_insert_ne; [done|]. by intros ?%GetRollingIdLabelByComponent_inj.
    + destruct (decide (c = c')) as [<-|Ec]; [|done]. by rewrite E.
  - destruct (decide (c = c')) as [<-|Ec].
    + by rewrite mget_delete_eq.
    + rewrite mget_delete_ne; [done|]. by intros ?%GetRollingIdLabelByComponent_inj.
Qed.

(** A rollout in progress keeps its id: a second mark does not change it. *)
Lemma SetComponentRolling_idem m c :
  SetComponentRolling (SetComponentRolling m c true) c true = SetComponentRolling m c true.
Proof.
  unfold SetComponentRolling at 1.
  pose proof (IsComponentRolling_set m c c true) as H. rewrite decide_True in H by done.
  unfold IsComponentRolling in H. apply negb_true_iff in H. by rewrite H.
Qed.

Lemma GetLabelGroupID_set c c' labels g :
  GetLabelGroupID c' (SetGroupIDStr c labels g) = if decide (c = c') then g else GetLabelGroupID c' labels.
Proof.
  unfold GetLabelGroupID, SetGroupIDStr. case_decide as E; [subst c'|].
  - apply mget_insert_eq.
  - apply mget_insert_ne. by intros ?%GetComponentGroupIdLabel_inj.
Qed.

#[export] Hint Rewrite GetCurrentGroupId_set IsChangingMode_setCurrent IsChangingMode_set
  GetCurrentGroupId_setChanging IsComponentRolling_set GetLabelGroupID_set : labels.

Definition IsPodServiceLabelAdded (m : Milvus) : bool :=
  bool_decide (mget (mi_Annotations m) PodServiceLabelAddedAnnotation = TrueStr).
