(* ===== verification/Sha256.v ===== *)
(** * SHA-256

    crypto/sha256 and the [%x] rendering of its digests: [GetStateKey] keys
    the rollout state of a deployment group by the hash of its name, and
    [util.CheckSum] fingerprints configurations.  FIPS 180-4 on words kept as
    [Z] modulo 2^32. *)
From S2P Require Import Prelude.

Local Open Scope Z_scope.

Definition w32 (z : Z) : Z := Z.land z 0xffffffff.
Definition add32 (a b : Z) : Z := w32 (a + b).
Definition rotr (n x : Z) : Z := Z.lor (Z.shiftr x n) (w32 (Z.shiftl x (32 - n))).

(** The constants are the first 32 bits of the fractional parts of the cube
    roots (round constants) and square roots (initial state) of the first
    primes; they are computed here. *)
Definition isPrime (n : Z) : bool :=
  forallb (fun d => negb (n mod d =? 0)) (seqZ 2 (n - 2)).

Definition primes : list Z := Eval vm_compute in List.filter isPrime (seqZ 2 310).

(** The integer cube root below [2^bits] of [x], bit by bit from [r]. *)
Fixpoint cubeRoot (bits : nat) (x r : Z) : Z :=
  match bits with
  | O => r
  | S bits' =>
      let c := r + 2 ^ Z.of_nat bits' in
      cubeRoot bits' x (if c * c * c <=? x then c else r)
  end.

Definition K256 : list Z :=
  Eval vm_compute in List.map (fun p => w32 (cubeRoot 36 (p * 2 ^ 96) 0)) primes.

Definition H256 : list Z :=
  Eval vm_compute in List.map (fun p => w32 (Z.sqrt (p * 2 ^ 64))) (List.firstn 8 primes).

Definition sigma0 (x : Z) : Z := Z.lxor (Z.lxor (rotr 7 x) (rotr 18 x)) (Z.shiftr x 3).
Definition sigma1 (x : Z) : Z := Z.lxor (Z.lxor (rotr 17 x) (rotr 19 x)) (Z.shiftr x 10).
Definition Sigma0 (x : Z) : Z := Z.lxor (Z.lxor (rotr 2 x) (rotr 13 x)) (rotr 22 x).
Definition Sigma1 (x : Z) : Z := Z.lxor (Z.lxor (rotr 6 x) (rotr 11 x)) (rotr 25 x).
Definition Ch (x y z : Z) : Z := Z.lxor (Z.land x y) (Z.land (Z.lxor x 0xffffffff) z).
Definition Maj (x y z : Z) : Z := Z.lxor (Z.lxor (Z.land x y) (Z.land x z)) (Z.land y z).

(** The message schedule, most recent word first. *)
Fixpoint schedule (n : nat) (rw : list Z) : list Z :=
  match n with
  | O => rw
  | S n' =>
      let w := add32 (add32 (sigma1 (nth 1 rw 0)) (nth 6 rw 0))
                     (add32 (sigma0 (nth 14 rw 0)) (nth 15 rw 0)) in
      schedule n' (w :: rw)
  end.

Definition round (st : list Z) (kw : Z * Z) : list Z :=
  match st with
  | [a; b; c; d; e; f; g; h] =>
      let t1 := add32 (add32 (add32 h (Sigma1 e)) (add32 (Ch e f g) (fst kw))) (snd kw) in
      let t2 := add32 (Sigma0 a) (Maj a b c) in
      [add32 t1 t2; a; b; c; add32 d t1; e; f; g]
  | _ => st
  end.

Definition compress (st : list Z) (block : list Z) : list Z :=
  let w := rev (schedule 48 (rev block)) in
  zip_with add32 st (fold_left round (zip K256 w) st).

Definition be32 (a b c d : Z) : Z := Z.lor (Z.shiftl a 24) (Z.lor (Z.shiftl b 16) (Z.lor (Z.shiftl c 8) d)).

Fixpoint words (bytes : list Z) : list Z :=
  match bytes with
  | a :: b :: c :: d :: rest => be32 a b c d :: words rest
  | _ => []
  end.

(** Sixteen words at a time; [n] bounds the number of blocks. *)
Fixpoint blocks (n : nat) (ws : list Z) : list (list Z) :=
  match n with
  | O => []
  | S n' => match ws with [] => [] | _ => take 16 ws :: blocks n' (drop 16 ws) end
  end.

Definition be_bytes (n : nat) (z : Z) : list Z :=
  rev (map (fun i => Z.land (Z.shiftr z (8 * Z.of_nat i)) 0xff) (seq 0 n)).

Definition pad (msg : list Z) : list Z :=
  let len := Z.of_nat (length msg) in
  msg ++ [0x80] ++ repeat 0 (Z.to_nat ((55 - len) mod 64)) ++ be_bytes 8 (8 * len).

Definition string_bytes (s : string) : list Z :=
  map (fun a => Z.of_nat (Ascii.nat_of_ascii a)) (String.list_ascii_of_string s).

(** [sha256.Sum256]: the 32 bytes of the digest. *)
Definition Sum256 (msg : list Z) : list Z :=
  let ws := words (pad msg) in
  concat (map (be_bytes 4) (fold_left compress (blocks (length ws) ws) H256)).

Definition hex_digit (z : Z) : Ascii.ascii :=
  Ascii.ascii_of_nat (Z.to_nat (if z <? 10 then 48 + z else 87 + z)).

(** [fmt.Sprintf("%x", bytes)]. *)
Fixpoint hex (bytes : list Z) : string :=
  match bytes with
  | [] => EmptyString
  | b :: rest => String (hex_digit (Z.shiftr b 4)) (String (hex_digit (Z.land b 15)) (hex rest))
  end.

(** [util.CheckSum]. *)
Definition CheckSum (s : list Z) : string := hex (Sum256 s).

(** The test vectors of the standard. *)
Example Sum256_abc :
  CheckSum (string_bytes "abc") = "ba7816bf8f01cfea414140de5dae2223b00361a396177a9cb410ff61f20015ad"%string.
Proof. vm_compute. reflexivity. Qed.

Example Sum256_two_blocks :
  CheckSum (string_bytes "abcdbcdecdefdefgefghfghighijhijkijkljklmklmnlmnomnopnopq")
  = "248d6a61d20638b8e5c026930c3e6039a33ce45964ff2167f6ecedd419db06c1"%string.
Proof. vm_compute. reflexivity. Qed.

Example Sum256_empty :
  CheckSum [] = "e3b0c44298fc1c149afbf4c8996fb92427ae41e4649b934ca495991b7852b855"%string.
Proof. vm_compute. reflexivity. Qed.

(** A digest rendered in hexadecimal is twice as long. *)
Lemma hex_length bytes : String.length (hex bytes) = (2 * length bytes)%nat.
Proof. induction bytes as [|b bytes IH]; simpl; [done|]. rewrite IH. lia. Qed.

Lemma be_bytes_length n z : length (be_bytes n z) = n.
Proof. unfold be_bytes. by rewrite length_rev, length_map, length_seq. Qed.

Lemma round_length st kw : length (round st kw) = length st.
Proof. unfold round. by repeat case_match. Qed.

Lemma rounds_length kws : forall st, length (fold_left round kws st) = length st.
Proof. induction kws as [|kw kws IH]; intros st; simpl; [done|]. by rewrite IH, round_length. Qed.

Lemma compress_length st block : length (compress st block) = length st.
Proof. unfold compress. rewrite length_zip_with, rounds_length. lia. Qed.

Lemma compress_all_length bs : forall st, length (fold_left compress bs st) = length st.
Proof. induction bs as [|b bs IH]; intros st; simpl; [done|]. by rewrite IH, compress_length. Qed.

Lemma concat_be_bytes_length n l : length (concat (map (be_bytes n) l)) = (n * length l)%nat.
Proof.
  induction l as [|x l IH]; simpl; [lia|]. rewrite length_app, IH, be_bytes_length. lia.
Qed.

(** A digest has 32 bytes. *)
Lemma Sum256_length msg : length (Sum256 msg) = 32%nat.
Proof. unfold Sum256. by rewrite concat_be_bytes_length, compress_all_length. Qed.
