(* ===== verification/UpgradeTypes.v ===== *)
(** * The MilvusUpgrade resource

    apis/milvus.io/v1beta1/milvusupgrade_types.go: spec, status and the states
    of an upgrade; the objects a migration task is made of, and the
    deprecated v1alpha1.MilvusCluster, which an upgrade annotates. *)
From S2P Require Import Prelude KubeTypes ApiTypes.

Local Open Scope string_scope.
Local Open Scope list_scope.
Local Open Scope Z_scope.

(** [MilvusReplicas] of milvus_types.go. *)
Record MilvusReplicas := mkReplicas {
  mr_Proxy : Z;
  mr_MixCoord : Z;
  mr_RootCoord : Z;
  mr_DataCoord : Z;
  mr_IndexCoord : Z;
  mr_QueryCoord : Z;
  mr_DataNode : Z;
  mr_IndexNode : Z;
  mr_QueryNode : Z;
  mr_StreamingNode : Z;
  mr_Standalone : Z;
  mr_Cdc : Z
}.

Definition zeroReplicas : MilvusReplicas := mkReplicas 0 0 0 0 0 0 0 0 0 0 0 0.

Inductive MilvusOperation := OperationUnset | OperationUpgrade | OperationRollback.

Record ObjectReference := mkRef { ref_Namespace : string; ref_Name : string }.

Record MilvusUpgradeSpec := mkUpgradeSpec {
  us_Operation : MilvusOperation;
  us_Milvus : ObjectReference;
  us_SourceVersion : string;
  us_TargetVersion : string;
  us_TargetImage : string;
  us_ToolImage : string;
  us_MaxRetry : Z;
  us_RollbackIfFailed : bool;
  us_BackupPVC : string
}.

(** The states by their constants; the type is a string, so that a status
    could hold any other one. *)
Inductive MilvusUpgradeState :=
  | UpgradeStatePending
  | UpgradeStateOldVersionStopping
  | UpgradeStateBackupMeta
  | UpgradeStateUpdatingMeta
  | UpgradeStateNewVersionStarting
  | UpgradeStateSucceeded
  | UpgradeStateBakupMetaFailed
  | UpgradeStateUpdateMetaFailed
  | UpgradeStateRollbackNewVersionStopping
  | UpgradeStateRollbackRestoringOldMeta
  | UpgradeStateRollbackOldVersionStarting
  | UpgradeStateRollbackSucceeded
  | UpgradeStateRollbackFailed
  | UpgradeStateOther (s : string).

#[export] Instance MilvusUpgradeState_eq_dec : EqDecision MilvusUpgradeState.
Proof. solve_decision. Defined.
#[export] Instance MilvusOperation_eq_dec : EqDecision MilvusOperation.
Proof. solve_decision. Defined.

(** The string of a state, the reason of its condition. *)
Definition stateString (s : MilvusUpgradeState) : string :=
  match s with
  | UpgradeStatePending => ""
  | UpgradeStateOldVersionStopping => "OldVersionStopping"
  | UpgradeStateBackupMeta => "BackupMeta"
  | UpgradeStateUpdatingMeta => "UpdatingMeta"
  | UpgradeStateNewVersionStarting => "NewVersionStarting"
  | UpgradeStateSucceeded => "Succeeded"
  | UpgradeStateBakupMetaFailed => "BakupMetaFailed"
  | UpgradeStateUpdateMetaFailed => "UpdateMetaFailed"
  | UpgradeStateRollbackNewVersionStopping => "RollbackNewVersionStopping"
  | UpgradeStateRollbackRestoringOldMeta => "RollbackRestoringOldMeta"
  | UpgradeStateRollbackOldVersionStarting => "RollbackOldVersionStarting"
  | UpgradeStateRollbackSucceeded => "RollbackedSucceeded"
  | UpgradeStateRollbackFailed => "RollbackFailed"
  | UpgradeStateOther s => s
  end.

Definition milvusUpgradeNoRequeueStates : list MilvusUpgradeState :=
  [UpgradeStateSucceeded; UpgradeStateBakupMetaFailed; UpgradeStateUpdateMetaFailed;
   UpgradeStateRollbackSucceeded; UpgradeStateRollbackFailed].

Definition NeedRequeue (s : MilvusUpgradeState) : bool :=
  negb (bool_decide (s ∈ milvusUpgradeNoRequeueStates)).

(** [metav1.Condition]; the time of the transition is set by the library. *)
Record UpgradeCondition := mkUCondition {
  uc_Type : string;
  uc_Status : ConditionStatus;
  uc_Reason : string;
  uc_Message : string
}.

(** k8s.io/apimachinery/pkg/api/meta on a list of conditions. *)
Class MetaConditions := {
  SetStatusCondition : list UpgradeCondition -> UpgradeCondition -> list UpgradeCondition;
  RemoveStatusCondition : list UpgradeCondition -> string -> list UpgradeCondition
}.

(** [None] is a nil pointer or map. *)
Record MilvusUpgradeStatus := mkUpgradeStatus {
  ut_State : MilvusUpgradeState;
  ut_Conditions : list UpgradeCondition;
  ut_SourceImage : string;
  ut_MetaStorageChanged : bool;
  ut_MetaBackuped : bool;
  ut_IsRollbacking : bool;
  ut_ReplicasBeforeUpgrade : option MilvusReplicas;
  ut_DeploymentGroupReplicasBeforeUpgrade : option (gmap string (gmap string Z));
  ut_BackupPVC : string;
  ut_RetriedTimes : Z
}.

Record MilvusUpgrade := mkUpgrade {
  up_Meta : ObjectMeta;
  up_Spec : MilvusUpgradeSpec;
  up_Status : MilvusUpgradeStatus
}.

(** ** Setters of the status *)

Definition with_status (u : MilvusUpgrade) (f : MilvusUpgradeStatus -> MilvusUpgradeStatus)
    : MilvusUpgrade := mkUpgrade (up_Meta u) (up_Spec u) (f (up_Status u)).

Definition set_State (st : MilvusUpgradeState) (s : MilvusUpgradeStatus) : MilvusUpgradeStatus :=
  mkUpgradeStatus st (ut_Conditions s) (ut_SourceImage s) (ut_MetaStorageChanged s)
    (ut_MetaBackuped s) (ut_IsRollbacking s) (ut_ReplicasBeforeUpgrade s)
    (ut_DeploymentGroupReplicasBeforeUpgrade s) (ut_BackupPVC s) (ut_RetriedTimes s).
Definition set_ut_Conditions (cs : list UpgradeCondition) (s : MilvusUpgradeStatus)
    : MilvusUpgradeStatus :=
  mkUpgradeStatus (ut_State s) cs (ut_SourceImage s) (ut_MetaStorageChanged s)
    (ut_MetaBackuped s) (ut_IsRollbacking s) (ut_ReplicasBeforeUpgrade s)
    (ut_DeploymentGroupReplicasBeforeUpgrade s) (ut_BackupPVC s) (ut_RetriedTimes s).
Definition set_SourceImage (i : string) (s : MilvusUpgradeStatus) : MilvusUpgradeStatus :=
  mkUpgradeStatus (ut_State s) (ut_Conditions s) i (ut_MetaStorageChanged s)
    (ut_MetaBackuped s) (ut_IsRollbacking s) (ut_ReplicasBeforeUpgrade s)
    (ut_DeploymentGroupReplicasBeforeUpgrade s) (ut_BackupPVC s) (ut_RetriedTimes s).
Definition set_MetaStorageChanged (b : bool) (s : MilvusUpgradeStatus) : MilvusUpgradeStatus :=
  mkUpgradeStatus (ut_State s) (ut_Conditions s) (ut_SourceImage s) b
    (ut_MetaBackuped s) (ut_IsRollbacking s) (ut_ReplicasBeforeUpgrade s)
    (ut_DeploymentGroupReplicasBeforeUpgrade s) (ut_BackupPVC s) (ut_RetriedTimes s).
Definition set_MetaBackuped (b : bool) (s : MilvusUpgradeStatus) : MilvusUpgradeStatus :=
  mkUpgradeStatus (ut_State s) (ut_Conditions s) (ut_SourceImage s) (ut_MetaStorageChanged s)
    b (ut_IsRollbacking s) (ut_ReplicasBeforeUpgrade s)
    (ut_DeploymentGroupReplicasBeforeUpgrade s) (ut_BackupPVC s) (ut_RetriedTimes s).
Definition set_IsRollbacking (b : bool) (s : MilvusUpgradeStatus) : MilvusUpgradeStatus :=
  mkUpgradeStatus (ut_State s) (ut_Conditions s) (ut_SourceImage s) (ut_MetaStorageChanged s)
    (ut_MetaBackuped s) b (ut_ReplicasBeforeUpgrade s)
    (ut_DeploymentGroupReplicasBeforeUpgrade s) (ut_BackupPVC s) (ut_RetriedTimes s).
Definition set_ReplicasBeforeUpgrade (r : option MilvusReplicas) (s : MilvusUpgradeStatus)
    : MilvusUpgradeStatus :=
  mkUpgradeStatus (ut_State s) (ut_Conditions s) (ut_SourceImage s) (ut_MetaStorageChanged s)
    (ut_MetaBackuped s) (ut_IsRollbacking s) r
    (ut_DeploymentGroupReplicasBeforeUpgrade s) (ut_BackupPVC s) (ut_RetriedTimes s).
Definition set_GroupReplicas (g : option (gmap string (gmap string Z))) (s : MilvusUpgradeStatus)
    : MilvusUpgradeStatus :=
  mkUpgradeStatus (ut_State s) (ut_Conditions s) (ut_SourceImage s) (ut_MetaStorageChanged s)
    (ut_MetaBackuped s) (ut_IsRollbacking s) (ut_ReplicasBeforeUpgrade s) g
    (ut_BackupPVC s) (ut_RetriedTimes s).
Definition set_BackupPVC (n : string) (s : MilvusUpgradeStatus) : MilvusUpgradeStatus :=
  mkUpgradeStatus (ut_State s) (ut_Conditions s) (ut_SourceImage s) (ut_MetaStorageChanged s)
    (ut_MetaBackuped s) (ut_IsRollbacking s) (ut_ReplicasBeforeUpgrade s)
    (ut_DeploymentGroupReplicasBeforeUpgrade s) n (ut_RetriedTimes s).
Definition set_RetriedTimes (n : Z) (s : MilvusUpgradeStatus) : MilvusUpgradeStatus :=
  mkUpgradeStatus (ut_State s) (ut_Conditions s) (ut_SourceImage s) (ut_MetaStorageChanged s)
    (ut_MetaBackuped s) (ut_IsRollbacking s) (ut_ReplicasBeforeUpgrade s)
    (ut_DeploymentGroupReplicasBeforeUpgrade s) (ut_BackupPVC s) n.

(** ** Objects of a migration task *)

(** The claim for the backup: access modes and requested storage. *)
Record BackupClaim := mkClaim {
  bc_Meta : ObjectMeta;
  bc_AccessModes : list string;
  bc_Storage : string
}.

Record ConfigMap := mkConfigMap { cm_Meta : ObjectMeta; cm_Data : gmap string string }.

Record TaskPod := mkTaskPod {
  tp_Meta : ObjectMeta;
  tp_RestartPolicy : string;
  tp_Containers : list Container;
  tp_Volumes : list Volume
}.

(** v1alpha1.MilvusCluster: an upgrade writes an annotation of it. *)
Record MilvusClusterSpec := mkClusterSpec {
  mcs_Com : MilvusComponents;
  mcs_Dep : MilvusDependencies;
  mcs_Conf : Values
}.

Record MilvusCluster := mkMilvusCluster {
  mcl_Meta : ObjectMeta;
  mcl_Spec : MilvusClusterSpec;
  mcl_Status : MilvusStatus
}.

Definition mcl_Annotations (c : MilvusCluster) : gmap string string := om_Annotations (mcl_Meta c).
Definition set_mcl_Meta (c : MilvusCluster) (meta : ObjectMeta) : MilvusCluster :=
  mkMilvusCluster meta (mcl_Spec c) (mcl_Status c).
