(* ===== verification/Effects.v ===== *)
(** * Effects: errors and calls to the Kubernetes API server

    A reconciler reads and writes objects through controller-runtime's client
    and returns an error.  Both are values here: [err] has the sentinel errors
    the code tests for and the wrapping of github.com/pkg/errors; [prog A] is
    a program that calls the API server, or a dependency it probes, and ends in
    a result, an error or a panic.  The API server is not part of the repository: an answer to a call
    is whatever the environment gives ([exec]), and a theorem about a program
    quantifies over all its executions. *)
From S2P Require Import Prelude KubeTypes ApiTypes UpgradeTypes.


(** ** Errors *)

(** What a failed call reports: [IsNotFound], [IsConflict], a kind that is not
    installed ([IsNoMatchError]), etcd's [ErrPermissionDenied] or anything
    else. *)
Inductive kerr :=
  | KNotFound | KConflict | KAlreadyExists | KNoMatch | KPermissionDenied | KOther (msg : string).

Inductive err :=
  | ErrRequeue
  | ErrNotFound
  | ErrNoLastDeployment
  | EKube (k : kerr)
  | ENew (msg : string)
  | EWrap (msg : string) (e : err).

#[export] Instance kerr_eq_dec : EqDecision kerr.
Proof. solve_decision. Defined.
#[export] Instance err_eq_dec : EqDecision err.
Proof. solve_decision. Defined.

(** [errors.Is(e, target)]: the chain of wrapped errors holds [target]. *)
Fixpoint errors_Is (e target : err) : bool :=
  bool_decide (e = target) || match e with EWrap _ e' => errors_Is e' target | _ => false end.

(** [errors.Cause(e)]: the innermost error. *)
Fixpoint Cause (e : err) : err := match e with EWrap _ e' => Cause e' | _ => e end.

(** [kerrors.IsNotFound(e)], which looks through wrapping. *)
Definition IsNotFound (e : err) : bool := bool_decide (Cause e = EKube KNotFound).

Definition IsNoMatchError (e : err) : bool := bool_decide (Cause e = EKube KNoMatch).

Lemma Cause_idem e : Cause (Cause e) = Cause e.
Proof. by induction e. Qed.

Lemma errors_Is_requeue e : errors_Is e ErrRequeue = bool_decide (Cause e = ErrRequeue).
Proof.
  induction e; simpl; done.
Qed.

(** The text of an API server's error. *)
Class KubeMessages := { kerr_Error : kerr -> string }.

(** [err.Error()]. *)
Fixpoint Error `{KubeMessages} (e : err) : string :=
  match e with
  | ErrRequeue => "requeue"
  | ErrNotFound => "not found"
  | ErrNoLastDeployment => "no last deployment found"
  | EKube k => kerr_Error k
  | ENew msg => msg
  | EWrap msg e' => (msg +:+ ": " +:+ Error e')%string
  end.

(** ** Calls *)

(** An object saved in a ControllerRevision.  [Data.Raw] holds the object
    marshalled to JSON; it is kept as the object it encodes, the encoding
    (encoding/json) and decoding (sigs.k8s.io/yaml) being inverse on these
    types. *)
Inductive savedData :=
  | SavedDeployment (d : Deployment)
  | SavedReplicaSets (l : list ReplicaSet)
  | SavedStatefulSet (s : StatefulSet).

Record ControllerRevision := mkRevision {
  cr_Meta : ObjectMeta;
  cr_Revision : Z;
  cr_Data : savedData
}.

(** The clients with which the dependencies are probed: a TLS configuration
    with the PEM texts it was built from, a SASL mechanism, kafka-go's dialer,
    and the options of the clients of etcd and of object storage. *)
Record tlsConfig := mkTls {
  tls_RootCAs : option string;
  tls_Certificate : option (string * string);
  tls_InsecureSkipVerify : bool
}.

Inductive saslMechanism :=
  | PlainMechanism (username password : string)
  | ScramSHA256 (username password : string)
  | ScramSHA512 (username password : string).

Record kafkaDialer := mkDialer {
  dl_TLS : option tlsConfig;
  dl_SASL : option saslMechanism
}.

Record etcdConfig := mkEtcdConfig {
  ec_Endpoint : string;
  ec_Username : string;
  ec_Password : string
}.

Record storageClient := mkStorageClient {
  sl_Endpoint : string;
  sl_AK : string;
  sl_SK : string;
  sl_Secure : bool;
  sl_BucketLookupDNS : bool;
  sl_Transport : option tlsConfig
}.

Inductive kread : Type -> Type :=
  | ListDeployments (namespace : string) (labels : gmap string string) : kread (list Deployment)
  | ListReplicaSets (namespace : string) (labels : gmap string string) : kread (list ReplicaSet)
  | ListPods (namespace : string) (labels : gmap string string) : kread (list Pod)
  | GetDeployment (namespace name : string) : kread Deployment
  | GetMilvus (namespace name : string) : kread Milvus
  | GetReplicaSet (namespace name : string) : kread ReplicaSet
  | GetRevision (namespace name : string) : kread ControllerRevision
  | GetUpgrade (namespace name : string) : kread MilvusUpgrade
  | GetMilvusCluster (namespace name : string) : kread MilvusCluster
  | GetStatefulSet (namespace name : string) : kread StatefulSet
  | GetIngressStatus (namespace name : string) : kread json
  | GetService (namespace name : string) : kread Service
  | ProbeDependency (conditionType : string) (m : Milvus) : kread MilvusCondition
  | GetHPA (namespace name : string) : kread HorizontalPodAutoscaler
  | GetClaim (namespace name : string) : kread Claim
  | ListClaims (namespace : string) (labels : gmap string string) : kread (list Claim)
  | ListStatefulSets (namespace : string) (labels : gmap string string) : kread (list StatefulSet)
  | GetStorageClass (name : string) : kread StorageClass
  | ListStorageClasses : kread (list StorageClass)
  | GetSecret (namespace name : string) : kread (gmap string string)
  | GetConfigMap (namespace name : string) : kread ConfigMap
  | ListConfigMaps (namespace : string) (labels : gmap string string) : kread (list ConfigMap)
  | GetIngress (namespace name : string) : kread Ingress
  | GetPodMonitor (namespace name : string) : kread PodMonitor
  | ListMilvuses (namespace : string) : kread (list Milvus)
  | HelmReleaseExist (namespace release : string) : kread bool
  | HelmGetValues (namespace release : string) : kread (list (string * json))
  | HelmGetStatus (namespace release : string) : kread string
  | HelmGetChartVersion (namespace release : string) : kread string
  | DialTCP (addr : string) : kread unit
  | EtcdNewClient (cfg : etcdConfig) : kread unit
  | EtcdGetKey (cfg : etcdConfig) (key : string) : kread unit
  | EtcdAlarmList (cfg : etcdConfig) : kread (list string)
  | KafkaDial (dialer : kafkaDialer) (broker : string) : kread unit
  | KafkaSetDeadline (dialer : kafkaDialer) (broker : string) : kread unit
  | KafkaApiVersions (dialer : kafkaDialer) (broker : string) : kread unit
  | MinioNew (cli : storageClient) : kread unit
  | MinioBucketLocation (cli : storageClient) (bucket : string) : kread string
  | MadminNew (cli : storageClient) : kread unit
  | MadminServerInfo (cli : storageClient) : kread (list string)
  | Now : kread Z.

(** Helm's reads and writes go to its own storage in the cluster.
    [Ensure...] is controllerutil.CreateOrUpdate with a mutation that does
    nothing: the object is created unless it exists; [DeletePods] is
    [DeleteAllOf]; [ExecKill] runs [kill -9] in a container. *)
Inductive kwrite :=
  | CreateDeployment (d : Deployment)
  | UpdateDeployment (d : Deployment)
  | OrphanDeleteDeployment (d : Deployment)
  | CreateMilvus (m : Milvus)
  | UpdateMilvus (m : Milvus)
  | UpdateMilvusStatus (m : Milvus)
  | CreateRevision (r : ControllerRevision)
  | CreateReplicaSet (r : ReplicaSet)
  | OrphanDeleteReplicaSet (r : ReplicaSet)
  | UpdatePod (p : Pod)
  | UpdateUpgradeStatus (u : MilvusUpgrade)
  | UpdateMilvusCluster (c : MilvusCluster)
  | UpdateMilvusClusterStatus (c : MilvusCluster)
  | EnsureClaim (c : BackupClaim)
  | EnsureConfigMap (c : ConfigMap)
  | EnsurePod (p : TaskPod)
  | DeletePods (namespace : string) (labels : gmap string string)
  | ExecKill (namespace pod container : string)
  | DeleteDeployment (d : Deployment)
  | CreateHPA (h : HorizontalPodAutoscaler)
  | UpdateHPA (h : HorizontalPodAutoscaler)
  | DeleteHPA (h : HorizontalPodAutoscaler)
  | CreateStatefulSet (s : StatefulSet)
  | UpdateStatefulSet (s : StatefulSet)
  | DeleteStatefulSet (s : StatefulSet)
  | CreateClaim (c : Claim)
  | UpdateClaim (c : Claim)
  | DeleteClaim (namespace name : string)
  | CreateService (s : Service)
  | UpdateService (s : Service)
  | DeleteService (s : Service)
  | CreateConfigMap (c : ConfigMap)
  | UpdateConfigMap (c : ConfigMap)
  | CreateIngress (i : Ingress)
  | UpdateIngress (i : Ingress)
  | CreatePodMonitor (p : PodMonitor)
  | UpdatePodMonitor (p : PodMonitor)
  | DeleteMilvusForeground (m : Milvus)
  | HelmInstall (namespace release chart : string) (values : list (string * json))
  | HelmUpdate (namespace release chart : string) (values : list (string * json))
  | HelmUninstall (namespace release : string)
  | OrphanDeleteStatefulSet (namespace name : string)
  | DeleteRevision (namespace name : string)
  | RecordEvent (reason object : string).

Inductive kreq : Type -> Type :=
  | Read {B} (r : kread B) : kreq B
  | Write (w : kwrite) : kreq unit.

(** ** Programs *)

Inductive prog (A : Type) : Type :=
  | Ret (a : A)
  | Fail (e : err)
  | Panic
  | Call {B : Type} (q : kreq B) (k : kerr + B -> prog A).
Arguments Ret {A} a.
Arguments Fail {A} e.
Arguments Panic {A}.
Arguments Call {A B} q k.

Fixpoint prog_bind {A B} (f : A -> prog B) (p : prog A) : prog B :=
  match p with
  | Ret a => f a
  | Fail e => Fail e
  | Panic => Panic
  | Call q k => Call q (fun x => prog_bind f (k x))
  end.

#[export] Instance prog_mret : MRet prog := fun A => Ret.
#[export] Instance prog_mbind : MBind prog := fun A B f p => prog_bind f p.

(** [err := p; ...]: the error becomes a value. *)
Fixpoint attempt {A} (p : prog A) : prog (err + A) :=
  match p with
  | Ret a => Ret (inr a)
  | Fail e => Ret (inl e)
  | Panic => Panic
  | Call q k => Call q (fun x => attempt (k x))
  end.

(** [return errors.Wrap(err, msg)], the identity on a nil error. *)
Fixpoint wrap {A} (msg : string) (p : prog A) : prog A :=
  match p with
  | Ret a => Ret a
  | Fail e => Fail (EWrap msg e)
  | Panic => Panic
  | Call q k => Call q (fun x => wrap msg (k x))
  end.

Definition call {B} (q : kreq B) : prog B :=
  Call q (fun x => match x with inl e => Fail (EKube e) | inr b => Ret b end).
Definition read {B} (r : kread B) : prog B := call (Read r).
Definition write (w : kwrite) : prog unit := call (Write w).

(** A nil dereference panics. *)
Definition deref {A} (o : option A) : prog A := match o with Some a => Ret a | None => Panic end.

(** ** Executions *)

Inductive outcome (A : Type) := ORet (a : A) | OFail (e : err) | OPanic.
Arguments ORet {A} a.
Arguments OFail {A} e.
Arguments OPanic {A}.

Inductive event := | Ev {B : Type} (q : kreq B) (x : kerr + B).

(** [exec p tr o]: some environment makes [p] perform the calls [tr], with
    these answers, and end in [o]. *)
Fixpoint exec {A} (p : prog A) (tr : list event) (o : outcome A) : Prop :=
  match p with
  | Ret a => tr = [] /\ o = ORet a
  | Fail e => tr = [] /\ o = OFail e
  | Panic => tr = [] /\ o = OPanic
  | Call q k => exists x tr', tr = Ev q x :: tr' /\ exec (k x) tr' o
  end.

(** The writes of an execution, failed ones included: they were attempted. *)
Definition event_write (ev : event) : list kwrite :=
  match ev with Ev (Write w) _ => [w] | _ => [] end.
Definition writes (tr : list event) : list kwrite := concat (event_write <$> tr).

Lemma writes_app tr tr' : writes (tr ++ tr') = writes tr ++ writes tr'.
Proof. unfold writes. by rewrite fmap_app, concat_app. Qed.

(** The first part of an execution of a sequence. *)
Lemma exec_bind_inv {A B} (p : prog A) (f : A -> prog B) : forall tr o,
  exec (prog_bind f p) tr o -> exists tr1 o1 tr2, tr = tr1 ++ tr2 /\ exec p tr1 o1.
Proof.
  induction p as [a|e| |C q k IH]; simpl; intros tr o Hex.
  - by exists [], (ORet a), tr.
  - destruct Hex as [-> _]. by exists [], (OFail e), [].
  - destruct Hex as [-> _]. by exists [], OPanic, [].
  - destruct Hex as (x & tr' & -> & Hex). destruct (IH x tr' o Hex) as (tr1 & o1 & tr2 & -> & H).
    exists (Ev q x :: tr1), o1, tr2. split; [done|]. eauto.
Qed.

Lemma exec_attempt {A} (p : prog A) : forall tr o,
  exec (attempt p) tr o ->
  exists o1, exec p tr o1 /\
    o = match o1 with ORet a => ORet (inr a) | OFail e => ORet (inl e) | OPanic => OPanic end.
Proof.
  induction p as [a|e| |C q k IH]; simpl; intros tr o Hex.
  - destruct Hex as [-> ->]. by exists (ORet a).
  - destruct Hex as [-> ->]. by exists (OFail e).
  - destruct Hex as [-> ->]. by exists OPanic.
  - destruct Hex as (x & tr' & -> & Hex). destruct (IH x tr' o Hex) as (o1 & H1 & ->). exists o1. eauto.
Qed.

Lemma exec_read {B} (r : kread B) tr o :
  exec (read r) tr o ->
  exists x, tr = [Ev (Read r) x] /\ o = match x with inl e => OFail (EKube e) | inr b => ORet b end.
Proof. intros (x & tr' & -> & Hex). exists x. destruct x; simpl in Hex; by destruct Hex as [-> ->]. Qed.

Lemma exec_wrap {A} msg (p : prog A) : forall tr o,
  exec (wrap msg p) tr o ->
  exists o1, exec p tr o1 /\ o = match o1 with OFail e => OFail (EWrap msg e) | o1 => o1 end.
Proof.
  induction p as [a|e| |C q k IH]; simpl; intros tr o Hex.
  1-3: destruct Hex as [-> ->]; by eexists.
  destruct Hex as (x & tr' & -> & Hex). destruct (IH x tr' o Hex) as (o1 & H1 & ->). exists o1. eauto.
Qed.

Lemma exec_write w tr o :
  exec (write w) tr o ->
  exists x, tr = [Ev (Write w) x] /\ o = match x with inl e => OFail (EKube e) | inr b => ORet b end.
Proof. intros (x & tr' & -> & Hex). exists x. destruct x; simpl in Hex; by destruct Hex as [-> ->]. Qed.

Definition event_failed (ev : event) : bool := match ev with Ev _ (inl _) => true | _ => false end.
Definition no_failure (tr : list event) : Prop := forallb (fun ev => negb (event_failed ev)) tr = true.

(** ** Hoare triples

    [wp p A Q]: in every execution of [p] whose answers satisfy [A], the
    writes [w] and the outcome [o] satisfy [Q w o]. *)
Section Wp.
Context (R : forall B, kread B -> B -> Prop).

Definition answer_ok {B} (q : kreq B) (b : B) : Prop :=
  match q in kreq B' return B' -> Prop with
  | Read r => fun b => R _ r b
  | Write _ => fun _ => True
  end b.

Definition req_write {B} (q : kreq B) : list kwrite := match q with Write w => [w] | Read _ => [] end.

Fixpoint wp {A} (p : prog A) (Q : list kwrite -> outcome A -> Prop) : Prop :=
  match p with
  | Ret a => Q [] (ORet a)
  | Fail e => Q [] (OFail e)
  | Panic => Q [] OPanic
  | Call q k =>
      (forall e, wp (k (inl e)) (fun ws o => Q (req_write q ++ ws) o)) /\
      (forall b, answer_ok q b -> wp (k (inr b)) (fun ws o => Q (req_write q ++ ws) o))
  end.

Definition event_ok (ev : event) : Prop :=
  match ev with
  | Ev q (inr b) => answer_ok q b
  | Ev _ (inl _) => True
  end.

Lemma wp_mono {A} (p : prog A) : forall (Q Q' : list kwrite -> outcome A -> Prop),
  (forall ws o, Q ws o -> Q' ws o) -> wp p Q -> wp p Q'.
Proof.
  induction p as [a|e| |B q k IH]; simpl; intros Q Q' HQ; auto.
  intros [He Hb]. split; intros; eapply IH; eauto; simpl; auto.
Qed.

(** What is proved by [wp] holds of every execution. *)
Lemma wp_exec {A} (p : prog A) : forall Q tr o,
  wp p Q -> exec p tr o -> Forall event_ok tr -> Q (writes tr) o.
Proof.
  induction p as [a|e| |B q k IH]; simpl; intros Q tr o Hwp Hex Hok;
    try (by destruct Hex as [-> ->]).
  destruct Hex as (x & tr' & -> & Hex). inversion Hok as [|? ? Hev Hok']; subst.
  assert (writes (Ev q x :: tr') = req_write q ++ writes tr') as ->.
  { unfold writes. by destruct q. }
  destruct Hwp as [He Hb]. destruct x as [e|b].
  - by eapply (IH (inl e) (fun ws o => Q (req_write q ++ ws) o)).
  - by eapply (IH (inr b) (fun ws o => Q (req_write q ++ ws) o)); [apply Hb|..].
Qed.

Lemma wp_bind {A B} (p : prog A) (f : A -> prog B) : forall Q,
  wp p (fun ws o => match o with
                    | ORet a => wp (f a) (fun ws' o' => Q (ws ++ ws') o')
                    | OFail e => Q ws (OFail e)
                    | OPanic => Q ws OPanic
                    end) ->
  wp (prog_bind f p) Q.
Proof.
  induction p as [a|e| |C q k IH]; simpl; intros Q H; auto.
  destruct H as [He Hb].
  split; intros; apply IH; [specialize (He e)|specialize (Hb b H)];
    (eapply wp_mono; [|eassumption]); intros ws [a|e'|]; simpl; auto;
    apply wp_mono; intros; by rewrite (assoc_L (++)).
Qed.

Lemma wp_true {A} (p : prog A) : forall Q, (forall ws o, Q ws o) -> wp p Q.
Proof. induction p as [a|e| |C q k IH]; simpl; auto. Qed.

Lemma wp_conj {A} (p : prog A) : forall Q Q', wp p Q -> wp p Q' -> wp p (fun ws o => Q ws o /\ Q' ws o).
Proof.
  induction p as [a|e| |C q k IH]; simpl; auto. intros Q Q' [He Hb] [He' Hb']. split; intros.
  - by apply IH.
  - apply IH; auto.
Qed.

(** Only the value of the last step matters. *)
Definition returns {A} (V : A -> Prop) (ws : list kwrite) (o : outcome A) : Prop :=
  forall a, o = ORet a -> V a.

Lemma wp_returns_bind {A B} (p : prog A) (f : A -> prog B) (V : B -> Prop) :
  (forall a, wp (f a) (returns V)) -> wp (prog_bind f p) (returns V).
Proof.
  intros Hf. apply wp_bind, wp_true. intros ws [a|e|]; [|done..].
  eapply wp_mono; [|apply Hf]. done.
Qed.

Lemma wp_attempt {A} (p : prog A) : forall Q,
  wp p (fun ws o => match o with
                    | ORet a => Q ws (ORet (inr a))
                    | OFail e => Q ws (ORet (inl e))
                    | OPanic => Q ws OPanic
                    end) ->
  wp (attempt p) Q.
Proof.
  induction p as [a|e| |C q k IH]; simpl; intros Q H; auto.
  destruct H as [He Hb]. split; intros; apply IH; auto.
Qed.

Lemma wp_wrap {A} msg (p : prog A) : forall Q,
  wp p (fun ws o => match o with
                    | OFail e => Q ws (OFail (EWrap msg e))
                    | _ => Q ws o
                    end) ->
  wp (wrap msg p) Q.
Proof.
  induction p as [a|e| |C q k IH]; simpl; intros Q H; auto.
  destruct H as [He Hb]. split; intros; apply IH; auto.
Qed.

Lemma wp_read {B} (r : kread B) Q :
  (forall e, Q [] (OFail (EKube e))) -> (forall b, R B r b -> Q [] (ORet b)) -> wp (read r) Q.
Proof. simpl. auto. Qed.

Lemma wp_write w (Q : list kwrite -> outcome unit -> Prop) :
  (forall e, Q [w] (OFail (EKube e))) -> Q [w] (ORet tt) -> wp (write w) Q.
Proof. simpl. intros He Hr. split; [done|]. by intros [] _. Qed.
End Wp.

Definition anyAnswer (B : Type) (r : kread B) (b : B) : Prop := True.

Lemma wp_exec_any {A} (p : prog A) Q tr o :
  wp anyAnswer p Q -> exec p tr o -> Q (writes tr) o.
Proof.
  intros Hwp Hex. apply (wp_exec anyAnswer p Q tr o Hwp Hex). apply Forall_true.
  intros [B q [e|b]]; [done|]. by destruct q.
Qed.

(** ** Running a program

    [run h p s] runs [p] against the answers of a handler [h] with a state:
    the executable counterpart of [exec], for concrete inputs. *)
Record handler (S : Type) := mkHandler {
  h_read : forall B, kread B -> S -> kerr + B;
  h_write : kwrite -> S -> (kerr + unit) * S
}.
Arguments mkHandler {S}.
Arguments h_read {S} h {B}.
Arguments h_write {S} h.

Definition answer {S B} (h : handler S) (q : kreq B) (s : S) : (kerr + B) * S :=
  match q in kreq B' return (kerr + B') * S with
  | Read r => (h_read h r s, s)
  | Write w => h_write h w s
  end.

Fixpoint run {S A} (h : handler S) (p : prog A) (s : S) : S * list event * outcome A :=
  match p with
  | Ret a => (s, [], ORet a)
  | Fail e => (s, [], OFail e)
  | Panic => (s, [], OPanic)
  | Call q k =>
      let '(x, s') := answer h q s in
      let '(s'', tr, o) := run h (k x) s' in
      (s'', Ev q x :: tr, o)
  end.

(** A run is an execution. *)
Lemma run_exec {S A} (h : handler S) (p : prog A) : forall s,
  exec p (snd (fst (run h p s))) (snd (run h p s)).
Proof.
  induction p as [a|e| |B q k IH]; intros s; simpl; try done.
  destruct (answer h q s) as [x s']. specialize (IH x s').
  destruct (run h (k x) s') as [[s'' tr] o]. simpl in *. eauto.
Qed.

(** A handler that answers reads within [R] makes executions within [R]. *)
Lemma run_event_ok {S A} (R : forall B, kread B -> B -> Prop) (h : handler S) (p : prog A) :
  (forall B (r : kread B) s b, h_read h r s = inr b -> R B r b) ->
  forall s, Forall (event_ok R) (snd (fst (run h p s))).
Proof.
  intros HR. induction p as [a|e| |B q k IH]; intros s; simpl; try by constructor.
  destruct (answer h q s) as [x s'] eqn:Ea. specialize (IH x s').
  destruct (run h (k x) s') as [[s'' tr] o]. constructor; [|done].
  destruct q as [B r|w]; [|by destruct x]. destruct x as [e|b]; [done|]. apply HR with s. by injection Ea.
Qed.

(** Every program runs to an end: [exec] is total. *)
Lemma exec_total {A} (p : prog A) : exists tr o, exec p tr o.
Proof.
  set (h := mkHandler (S:=unit) (fun B (_ : kread B) _ => inl KNotFound)
              (fun _ s => (inl KNotFound, s))).
  eexists _, _. exact (run_exec h p tt).
Qed.

#[global] Arguments wp : simpl never.

Lemma wp_ret R {A} (a : A) Q : Q [] (ORet a) -> wp R (Ret a) Q.
Proof. done. Qed.
Lemma wp_fail R {A} e (Q : list kwrite -> outcome A -> Prop) : Q [] (OFail e) -> wp R (Fail e) Q.
Proof. done. Qed.
Lemma wp_deref R {A} (o : option A) (Q : list kwrite -> outcome A -> Prop) :
  (o = None -> Q [] OPanic) -> (forall a, o = Some a -> Q [] (ORet a)) -> wp R (deref o) Q.
Proof. destruct o as [a|]; intros H1 H2; [exact (H2 a eq_refl)|exact (H1 eq_refl)]. Qed.

(** One step of symbolic execution. *)
Ltac wp_step :=
  lazymatch goal with
  | |- wp _ (mbind _ _) _ => apply wp_bind
  | |- wp _ (wrap _ _) _ => apply wp_wrap
  | |- wp _ (attempt _) _ => apply wp_attempt
  | |- wp _ (Ret _) _ => apply wp_ret
  | |- wp _ (Fail _) _ => apply wp_fail
  | |- wp _ (deref _) _ => apply wp_deref
  | |- wp _ (read _) _ => apply wp_read
  | |- wp _ (write _) _ => apply wp_write
  end; cbv beta iota.
Ltac wp_steps := repeat wp_step.

(** ** All writes of a program

    Rules for triples of the form "every write satisfies [P]", and the tactic
    that applies them. *)
Lemma wp_then {A B} R (p : prog A) (f : A -> prog B) (P : kwrite -> Prop) :
  wp R p (fun ws _ => Forall P ws) -> (forall a, wp R (f a) (fun ws _ => Forall P ws)) ->
  wp R (prog_bind f p) (fun ws _ => Forall P ws).
Proof.
  intros Hp Hf. apply wp_bind. eapply wp_mono; [|exact Hp]. intros ws [a|e|] Hws; [|done..].
  eapply wp_mono; [|apply Hf]. intros ws' o Hws'. by apply Forall_app.
Qed.

Lemma wp_quiet_read {B} R (r : kread B) (P : kwrite -> Prop) : wp R (read r) (fun ws _ => Forall P ws).
Proof. apply wp_read; by constructor. Qed.

Lemma wp_wrap_writes {A} R msg (p : prog A) (P : kwrite -> Prop) :
  wp R p (fun ws _ => Forall P ws) -> wp R (wrap msg p) (fun ws _ => Forall P ws).
Proof. intros Hp. apply wp_wrap. eapply wp_mono; [|exact Hp]. by intros ws [a|e|]. Qed.

Lemma wp_attempt_writes {A} R (p : prog A) (P : kwrite -> Prop) :
  wp R p (fun ws _ => Forall P ws) -> wp R (attempt p) (fun ws _ => Forall P ws).
Proof. intros Hp. apply wp_attempt. eapply wp_mono; [|exact Hp]. by intros ws [a|e|]. Qed.

Lemma wp_one_write R w (P : kwrite -> Prop) : P w -> wp R (write w) (fun ws _ => Forall P ws).
Proof. intros Hw. apply wp_write; by repeat constructor. Qed.

Lemma wp_ret_writes {A} R (a : A) (P : kwrite -> Prop) : wp R (Ret a) (fun ws _ => Forall P ws).
Proof. apply wp_ret. constructor. Qed.
Lemma wp_fail_writes {A} R e (P : kwrite -> Prop) : wp R (Fail (A:=A) e) (fun ws _ => Forall P ws).
Proof. apply wp_fail. constructor. Qed.
Lemma wp_deref_writes {A} R (o : option A) (P : kwrite -> Prop) : wp R (deref o) (fun ws _ => Forall P ws).
Proof. apply wp_deref; constructor. Qed.

Ltac writes_step :=
  lazymatch goal with
  | |- wp _ (mbind _ _) _ => apply wp_then; [|intros ?]
  | |- wp _ (prog_bind _ _) _ => apply wp_then; [|intros ?]
  | |- wp _ (wrap _ _) _ => apply wp_wrap_writes
  | |- wp _ (attempt _) _ => apply wp_attempt_writes
  | |- wp _ (Ret _) _ => apply wp_ret_writes
  | |- wp _ (Fail _) _ => apply wp_fail_writes
  | |- wp _ (deref _) _ => apply wp_deref_writes
  | |- wp _ (read _) _ => apply wp_quiet_read
  | |- wp _ (write _) _ => apply wp_one_write
  | |- wp _ (if ?b then _ else _) _ => let E := fresh "E" in destruct b eqn:E
  | |- wp _ (match ?x with _ => _ end) _ => let E := fresh "E" in destruct x eqn:E
  end; cbv beta.
Ltac writes_steps := repeat writes_step.
