(* ===== verification/Utils.v ===== *)
(** * Helpers shared by the controllers

    pkg/controllers/utils.go and k8s_default_values.go: merging of lists by a
    key, app labels, readiness of pods and deployments, and the list of
    conditions of a Milvus status. *)
From S2P Require Import Prelude KubeTypes Libs ApiTypes Labels.

Local Open Scope Z_scope.

(** ** Labels *)

Definition AppLabel : string := "app.kubernetes.io/".
Definition AppLabelInstance : string := AppLabel +:+ "instance".
Definition AppLabelVersion : string := AppLabel +:+ "version".
Definition AppLabelComponent : string := AppLabel +:+ "component".
Definition AppLabelName : string := AppLabel +:+ "name".
Definition AppLabelManagedBy : string := AppLabel +:+ "managed-by".
Definition ManagerName : string := "milvus-operator".

Definition NewComponentAppLabels (instance component : string) : gmap string string :=
  {[ AppLabelInstance := instance; AppLabelComponent := component;
     AppLabelName := "milvus"%string; AppLabelManagedBy := ManagerName ]}.

Definition NewAppLabels (instance : string) : gmap string string :=
  {[ AppLabelInstance := instance; AppLabelName := "milvus"%string;
     AppLabelManagedBy := ManagerName ]}.

Definition NewServicePodLabels (instance : string) : gmap string string :=
  <[ServiceLabel := TrueStr]> (NewAppLabels instance).

(** The keys of one map are written in some order, but each once: a later map
    wins. *)
Definition MergeLabels (allLabels : list (gmap string string)) : gmap string string :=
  fold_left (fun lb label => label ∪ lb) allLabels ∅.

Definition MergeAnnotations := MergeLabels.

Lemma MergeLabels_lookup_2 a b k : MergeLabels [a; b] !! k = (b ∪ a) !! k.
Proof. unfold MergeLabels; simpl. by rewrite (right_id_L ∅ (∪) a). Qed.

(** ** Merging lists by key *)

Section MergeBy.
Context {A : Type} (key : A -> option string).

(** [srcMap]: the key of an element to its index, the last one for equal keys. *)
Fixpoint index_of (i : nat) (src : list A) (m : gmap string nat) : gmap string nat :=
  match src with
  | [] => m
  | x :: src' =>
      index_of (S i) src' (match key x with Some k => <[k := i]> m | None => m end)
  end.

Definition merge_one (srcMap : gmap string nat) (merged : list A) (x : A) : list A :=
  match k ← key x; srcMap !! k with
  | Some idx => <[idx := x]> merged
  | None => merged ++ [x]
  end.

Definition merge_by (src dst : list A) : list A :=
  match src, dst with
  | [], _ => dst
  | _, [] => src
  | _, _ => fold_left (merge_one (index_of 0 src ∅)) dst src
  end.

(** The element that counts for a key: the last one. *)
Definition last_by (k : string) (l : list A) : option A := last (filter (fun x => key x = Some k) l).

Lemma last_by_snoc k l x :
  last_by k (l ++ [x]) = if decide (key x = Some k) then Some x else last_by k l.
Proof.
  unfold last_by. rewrite filter_app, filter_cons, filter_nil.
  case_decide; [by rewrite last_snoc|by rewrite app_nil_r].
Qed.

(** [is_last k i l]: position [i] is the last one of key [k] in [l]. *)
Definition is_last (k : string) (i : nat) (l : list A) : Prop :=
  (exists x, l !! i = Some x /\ key x = Some k) /\
  (forall j x, l !! j = Some x -> key x = Some k -> (j <= i)%nat).

Lemma last_by_is_last k i l : is_last k i l -> last_by k l = l !! i.
Proof.
  intros [(x & Hx & Hk) Hmax].
  rewrite <-(take_drop_middle l i x Hx). unfold last_by.
  rewrite filter_app, filter_cons_True by done.
  assert (filter (fun y => key y = Some k) (drop (S i) l) = []) as ->.
  { apply filter_none. intros y [j Hy]%list_elem_of_lookup_1 Hyk.
    rewrite lookup_drop in Hy. apply Hmax in Hy; [lia|done]. }
  rewrite last_snoc, take_drop_middle; done.
Qed.

Lemma index_of_spec src : forall i m k idx,
  index_of i src m !! k = Some idx ->
  (exists j, idx = (i + j)%nat /\ is_last k j src) \/
  (m !! k = Some idx /\ forall x, x ∈ src -> key x <> Some k).
Proof.
  induction src as [|x src IH]; intros i m k idx; simpl.
  - intros H. right. split; [done|]. intros x Hx. by apply not_elem_of_nil in Hx.
  - intros H. apply IH in H. destruct H as [(j & -> & (Hx & Hmax))|[Hm Hnot]].
    + left. exists (S j). split; [lia|]. split; [done|].
      intros [|j'] y Hy Hyk; [lia|]. simpl in Hy. specialize (Hmax j' y Hy Hyk). lia.
    + destruct (key x) as [kx|] eqn:Ex; [destruct (decide (kx = k)) as [->|Hne]|].
      * rewrite lookup_insert_eq in Hm. injection Hm as <-. left. exists 0%nat.
        split; [lia|]. split; [by exists x|].
        intros [|j'] y Hy Hyk; [lia|]. exfalso. apply (Hnot y); [|done].
        by eapply list_elem_of_lookup_2.
      * rewrite lookup_insert_ne in Hm by done. right. split; [done|].
        intros y [->|Hy]%elem_of_cons; [congruence|auto].
      * right. split; [done|]. intros y [->|Hy]%elem_of_cons; [congruence|auto].
Qed.

Lemma index_of_some src : forall i m k,
  (is_Some (m !! k) \/ exists x, x ∈ src /\ key x = Some k) -> is_Some (index_of i src m !! k).
Proof.
  induction src as [|x src IH]; intros i m k; simpl.
  - intros [H|(x & Hx & _)]; [done|]. by apply not_elem_of_nil in Hx.
  - intros H. apply IH. destruct H as [H|(y & [->|Hy]%elem_of_cons & Hk)].
    + left. destruct (key x) as [kx|]; [|done].
      destruct (decide (kx = k)) as [->|]; [by rewrite lookup_insert_eq|by rewrite lookup_insert_ne].
    + left. rewrite Hk. by rewrite lookup_insert_eq.
    + right. eauto.
Qed.

(** One step keeps the last position of every indexed key and lets the new
    element win its key. *)
Lemma merge_one_spec srcMap merged x k :
  (forall k' idx, srcMap !! k' = Some idx -> is_last k' idx merged) ->
  (forall k' idx, srcMap !! k' = Some idx -> is_last k' idx (merge_one srcMap merged x)) /\
  last_by k (merge_one srcMap merged x) = if decide (key x = Some k) then Some x else last_by k merged.
Proof.
  intros Hinv. unfold merge_one.
  destruct (key x) as [kx|] eqn:Ex; simpl.
  2:{ split; [|rewrite last_by_snoc, Ex; by rewrite !decide_False].
      intros k' idx Hk'. destruct (Hinv _ _ Hk') as [(y & Hy & Hyk) Hmax]. split.
      - exists y. split; [by apply lookup_app_l_Some|done].
      - intros j z [Hz|[Hj Hz]]%lookup_app_Some Hzk; [eauto|].
        apply list_lookup_singleton_Some in Hz as [? <-]. congruence. }
  destruct (srcMap !! kx) as [idx|] eqn:Em.
  - destruct (Hinv _ _ Em) as [(y & Hy & Hyk) Hmax].
    assert (idx < length merged)%nat as Hlt by (by eapply lookup_lt_Some).
    assert (forall k' i, srcMap !! k' = Some i -> is_last k' i (<[idx:=x]> merged)) as Hnew.
    { intros k' i Hk'. destruct (Hinv _ _ Hk') as [(z & Hz & Hzk) Hmax'].
      destruct (decide (i = idx)) as [->|Hne].
      - assert (k' = kx) as -> by congruence. split.
        + exists x. split; [by apply list_lookup_insert_eq|done].
        + intros j w Hw Hwk. destruct (decide (j = idx)) as [->|]; [done|].
          rewrite list_lookup_insert_ne in Hw by done. eauto.
      - split.
        + exists z. split; [by rewrite list_lookup_insert_ne|done].
        + intros j w Hw Hwk. destruct (decide (j = idx)) as [->|].
          * rewrite list_lookup_insert_eq in Hw by done. injection Hw as <-.
            assert (k' = kx) by congruence. subst k'. congruence.
          * rewrite list_lookup_insert_ne in Hw by done. eauto. }
    split; [exact Hnew|]. case_decide as Ek.
    + injection Ek as ->. rewrite (last_by_is_last k idx) by (by apply Hnew).
      by apply list_lookup_insert_eq.
    + unfold last_by. rewrite <-(take_drop_middle merged idx y Hy) at 2.
      rewrite insert_take_drop by done.
      rewrite !filter_app, !filter_cons_False by congruence. done.
  - split; [|by rewrite last_by_snoc, Ex].
    intros k' idx Hk'. destruct (Hinv _ _ Hk') as [(y & Hy & Hyk) Hmax]. split.
    + exists y. split; [by apply lookup_app_l_Some|done].
    + intros j z [Hz|[Hj Hz]]%lookup_app_Some Hzk; [eauto|].
      apply list_lookup_singleton_Some in Hz as [? <-]. congruence.
Qed.

Lemma merge_fold_spec srcMap dst k : forall merged,
  (forall k' idx, srcMap !! k' = Some idx -> is_last k' idx merged) ->
  last_by k (fold_left (merge_one srcMap) dst merged)
  = match last_by k dst with Some x => Some x | None => last_by k merged end.
Proof.
  induction dst as [|x dst IH] using rev_ind; intros merged Hinv; simpl; [done|].
  assert (forall k' idx, srcMap !! k' = Some idx ->
            is_last k' idx (fold_left (merge_one srcMap) dst merged)) as Hinv'.
  { clear IH. revert merged Hinv. induction dst as [|y dst IH]; intros merged Hinv; [done|].
    simpl. apply IH. by apply (merge_one_spec srcMap merged y k). }
  rewrite fold_left_app. simpl. rewrite last_by_snoc.
  rewrite (proj2 (merge_one_spec srcMap _ x k Hinv')). case_decide; [done|]. by apply IH.
Qed.

(** The effective element of a key after a merge: that of [dst] if [dst] has
    the key, that of [src] otherwise. *)
Lemma merge_by_last k src dst :
  last_by k (merge_by src dst)
  = match last_by k dst with Some x => Some x | None => last_by k src end.
Proof.
  destruct src as [|x src]; [simpl; by destruct (last_by k dst)|].
  destruct dst as [|y dst]; [done|].
  unfold merge_by. apply merge_fold_spec. intros k' idx H.
  apply index_of_spec in H. destruct H as [(j & -> & H)|[H _]]; [done|].
  by rewrite lookup_empty in H.
Qed.

End MergeBy.

Definition MergeVolumeMount := merge_by (fun v => Some (vm_MountPath v)).
Definition MergeEnvVar := merge_by (fun e => Some (ev_Name e)).
Definition MergeContainerPort :=
  merge_by (fun p => if decide (cp_Name p = ""%string) then None else Some (cp_Name p)).

(** The index of the first element with a property, -1 if there is none. *)
Definition first_index {A} (P : A -> Prop) `{forall x, Decision (P x)} (l : list A) : Z :=
  match list_find P l with Some (i, _) => Z.of_nat i | None => -1 end.

Definition GetContainerIndex (containers : list Container) (name : string) : Z :=
  first_index (fun c => ct_Name c = name) containers.
Definition GetVolumeIndex (volumes : list Volume) (name : string) : Z :=
  first_index (fun v => vol_Name v = name) volumes.
Definition GetVolumeMountIndex (volumeMounts : list VolumeMount) (mountPath : string) : Z :=
  first_index (fun v => vm_MountPath v = mountPath) volumeMounts.

(** ** Replicas *)

Definition getDeployReplicas (deploy : Deployment) : Z :=
  match dsp_Replicas (dep_Spec deploy) with None => 1 | Some r => r end.

Definition ReplicasValue (i : option Z) : Z := match i with None => 1 | Some r => r end.

Definition int32Ptr (i : Z) : option Z := Some (int32_of i).

(** ** Readiness *)

Definition DeploymentReady (status : DeploymentStatus) : bool :=
  match list_find (fun c => dc_Type c = DeploymentAvailableType) (dss_Conditions status) with
  | Some (_, cond) => bool_decide (dc_Status cond = ConditionTrue)
  | None => false
  end.

Definition PodReady (pod : Pod) : bool :=
  match list_find (fun c => pc_Type c = PodReadyType) (pod_Conditions pod) with
  | Some (_, cond) => bool_decide (pc_Status cond = ConditionTrue)
  | None => false
  end.

Definition GetConditionStatus (b : bool) : ConditionStatus :=
  if b then ConditionTrue else ConditionFalse.

(** ** Conditions of a Milvus status *)

Definition EtcdReady : string := "EtcdReady".
Definition StorageReady : string := "StorageReady".
Definition MsgStreamReady : string := "MsgStreamReady".
Definition MilvusReady : string := "MilvusReady".
Definition MilvusUpdated : string := "MilvusUpdated".

Definition isDependencyCondition (ty : string) : bool :=
  bool_decide (ty = EtcdReady) || bool_decide (ty = StorageReady)
  || bool_decide (ty = MsgStreamReady).

Definition IsDependencyReady (conditions : list MilvusCondition) : bool :=
  Nat.eqb 3 (length (filter (fun c => mc_Status c = ConditionTrue
                                      /\ isDependencyCondition (mc_Type c) = true) conditions)).

(** The result maps a type to its last condition that is not true, or to nil
    when it has no condition; a true condition removes its type. *)
Definition GetNotReadyDependencyConditions (conditions : list MilvusCondition)
    : gmap string (option MilvusCondition) :=
  fold_left
    (fun ret iter =>
       if isDependencyCondition (mc_Type iter) then
         if bool_decide (mc_Status iter = ConditionTrue) then delete (mc_Type iter) ret
         else <[mc_Type iter := Some iter]> ret
       else ret)
    conditions
    {[ EtcdReady := None; StorageReady := None; MsgStreamReady := None ]}.

Definition set_Conditions (s : MilvusStatus) (cs : list MilvusCondition) : MilvusStatus :=
  mkStatus (st_Status s) cs (st_Endpoint s) (st_IngressStatus s) (st_ComponentsDeployStatus s)
    (st_DeploymentGroupsDeployStatus s) (st_RollingMode s) (st_ObservedGeneration s)
    (st_CurrentImage s) (st_CurrentVersion s).

Definition RemoveConditions (status : MilvusStatus) (typesToRemove : list string) : MilvusStatus :=
  set_Conditions status
    (filter (fun c => mc_Type c ∉ typesToRemove) (st_Conditions status)).

(** The loop of [UpdateCondition] over the valid conditions: the first one of
    the type is overridden when it differs; without one the condition is
    appended.  [now] is [metav1.Now()]. *)
Fixpoint upsert (now : Z) (c : MilvusCondition) (conds : list MilvusCondition)
    : list MilvusCondition :=
  match conds with
  | [] => [mkCondition (mc_Type c) (mc_Status c) (Some now) (mc_Reason c) (mc_Message c)]
  | cp :: rest =>
      if bool_decide (mc_Type cp = mc_Type c) then
        if negb (bool_decide (mc_Status cp = mc_Status c))
           || negb (bool_decide (mc_Reason cp = mc_Reason c))
           || negb (bool_decide (mc_Message cp = mc_Message c))
        then mkCondition (mc_Type cp) (mc_Status c) (Some now) (mc_Reason c) (mc_Message c) :: rest
        else conds
      else cp :: upsert now c rest
  end.

Definition UpdateCondition (now : Z) (status : MilvusStatus) (c : MilvusCondition) : MilvusStatus :=
  let validConditions := filter (fun x => mc_Type x <> ""%string) (st_Conditions status) in
  if bool_decide (mc_Type c = ""%string) then set_Conditions status validConditions
  else set_Conditions status (upsert now c validConditions).

(** ** Filling of default values *)

Definition fillContainerDefaultValues (c : Container) : Container :=
  mkContainer (ct_Name c) (ct_Image c)
    (if decide (ct_ImagePullPolicy c = ""%string) then "IfNotPresent"%string else ct_ImagePullPolicy c)
    (ct_Command c) (ct_Args c) (ct_Env c)
    ((fun p => mkPort (cp_Name p) (cp_ContainerPort p)
                 (if decide (cp_Protocol p = ""%string) then "TCP"%string else cp_Protocol p))
       <$> ct_Ports c)
    (ct_VolumeMounts c) (ct_Resources c) (ct_SecurityContext c) (ct_StartupProbe c)
    (ct_LivenessProbe c) (ct_ReadinessProbe c) (ct_Lifecycle c)
    (if decide (ct_TerminationMessagePath c = ""%string) then "/dev/termination-log"%string
     else ct_TerminationMessagePath c)
    (if decide (ct_TerminationMessagePolicy c = ""%string) then "File"%string
     else ct_TerminationMessagePolicy c).

(** ** Lemmas on conditions *)

Lemma upsert_types now c conds :
  mc_Type <$> upsert now c conds
  = (mc_Type <$> conds) ++ (if decide (mc_Type c ∈ mc_Type <$> conds) then [] else [mc_Type c]).
Proof.
  induction conds as [|cp rest IH]; [done|]. cbn [upsert]. rewrite (fmap_cons mc_Type cp rest).
  case_bool_decide as E.
  - rewrite decide_True by (rewrite <-E; left). rewrite app_nil_r. by case_if_bool.
  - rewrite fmap_cons, IH. simpl. f_equal. f_equal. apply if_decide_iff_ext.
    rewrite elem_of_cons. split; [by right|]. by intros [?|?].
Qed.

Lemma upsert_find now c conds ty :
  snd <$> list_find (fun x => mc_Type x = ty) (upsert now c conds)
  = if decide (ty = mc_Type c) then
      match snd <$> list_find (fun x => mc_Type x = ty) conds with
      | Some cp =>
          if decide (mc_Status cp = mc_Status c /\ mc_Reason cp = mc_Reason c
                     /\ mc_Message cp = mc_Message c) then Some cp
          else Some (mkCondition ty (mc_Status c) (Some now) (mc_Reason c) (mc_Message c))
      | None => Some (mkCondition ty (mc_Status c) (Some now) (mc_Reason c) (mc_Message c))
      end
    else snd <$> list_find (fun x => mc_Type x = ty) conds.
Proof.
  induction conds as [|cp rest IH].
  - simpl. case_decide as E; case_decide as E'; simpl in *; subst; done.
  - simpl upsert. case_bool_decide as E.
    + destruct (decide (ty = mc_Type c)) as [->|Hne].
      * simpl. rewrite (decide_True (P:=mc_Type cp = mc_Type c)) by done. simpl.
        destruct (decide (mc_Status cp = mc_Status c /\ mc_Reason cp = mc_Reason c
                          /\ mc_Message cp = mc_Message c)) as [(Hs & Hr & Hm)|Hd].
        -- rewrite !bool_decide_eq_true_2 by done. simpl. by rewrite decide_True.
        -- case_if_bool.
           ++ simpl. rewrite decide_True by done. simpl. by rewrite E.
           ++ exfalso. apply Hd. apply orb_false_iff in E0 as [[Eb1 Eb2]%orb_false_iff Eb3].
              apply negb_false_iff, bool_decide_eq_true in Eb1, Eb2, Eb3. done.
      * case_if_bool; simpl; rewrite !(decide_False (P:=mc_Type cp = ty)) by congruence; done.
    + simpl. destruct (decide (mc_Type cp = ty)) as [<-|Hne].
      * simpl. by rewrite decide_False.
      * revert IH. destruct (list_find (fun x => mc_Type x = ty) (upsert now c rest)) as [[]|],
          (list_find (fun x => mc_Type x = ty) rest) as [[]|]; simpl; done.
Qed.

Lemma upsert_idem now now' c conds : upsert now' c (upsert now c conds) = upsert now c conds.
Proof.
  induction conds as [|cp rest IH]; simpl.
  - by rewrite !bool_decide_eq_true_2.
  - case_bool_decide as E; [|simpl; rewrite bool_decide_eq_false_2 by done; by rewrite IH].
    case_if_bool; simpl.
    + rewrite (bool_decide_eq_true_2 (mc_Type cp = mc_Type c)) by done.
      by rewrite !bool_decide_eq_true_2.
    + rewrite bool_decide_eq_true_2 by done. by rewrite E0.
Qed.
