(* ===== verification/Components.v ===== *)
(** * Components of a Milvus instance

    pkg/controllers/components.go: the table of Milvus components, which of
    them a spec deploys ([GetComponentsBySpec]), their expansion into
    workloads ([GetComponentWorkloadsBySpec]: one per deployment group), the
    identity of a workload (name, state key, selector labels), its replicas
    and autoscaler, and the merging of component specs. *)
From S2P Require Import Prelude KubeTypes Libs ApiTypes Labels Sha256 Utils.

Local Open Scope string_scope.
Local Open Scope list_scope.
Local Open Scope Z_scope.

(** The field of [MilvusComponents] that holds a component: the source keeps
    its name as a string and reads it by reflection. *)
Inductive ComponentField :=
  | MixCoordField | RootCoordField | DataCoordField | QueryCoordField | IndexCoordField
  | DataNodeField | QueryNodeField | IndexNodeField | StreamingNodeField | ProxyField
  | StandaloneField | CdcField.

#[export] Instance ComponentField_eq_dec : EqDecision ComponentField.
Proof. solve_decision. Defined.

Record MilvusComponent := mkMilvusComponent {
  Name : string;
  FieldName : ComponentField;
  DefaultPort : Z;
  DeploymentGroupOf : option DeploymentGroup
}.

#[export] Instance MilvusComponent_eq_dec : EqDecision MilvusComponent.
Proof. solve_decision. Defined.

Definition MixCoord := mkMilvusComponent "mixcoord" MixCoordField (-1) None.
Definition RootCoord := mkMilvusComponent "rootcoord" RootCoordField 53100 None.
Definition DataCoord := mkMilvusComponent "datacoord" DataCoordField 13333 None.
Definition QueryCoord := mkMilvusComponent "querycoord" QueryCoordField 19531 None.
Definition IndexCoord := mkMilvusComponent "indexcoord" IndexCoordField 31000 None.
Definition DataNode := mkMilvusComponent "datanode" DataNodeField 21124 None.
Definition QueryNode := mkMilvusComponent "querynode" QueryNodeField 21123 None.
Definition IndexNode := mkMilvusComponent "indexnode" IndexNodeField 21121 None.
Definition StreamingNode := mkMilvusComponent "streamingnode" StreamingNodeField 22222 None.
Definition ProxyPort : Z := 19530.
Definition MilvusPort : Z := ProxyPort.
Definition StandalonePort : Z := MilvusPort.
Definition Proxy := mkMilvusComponent "proxy" ProxyField ProxyPort None.
Definition Cdc := mkMilvusComponent "cdc" CdcField 0 None.
Definition MilvusStandalone := mkMilvusComponent "standalone" StandaloneField StandalonePort None.

Definition MixtureComponents : list MilvusComponent :=
  [MixCoord; DataNode; QueryNode; IndexNode; Proxy; MilvusStandalone].
Definition SeparateComponents : list MilvusComponent :=
  [RootCoord; DataCoord; QueryCoord; IndexCoord; DataNode; QueryNode; IndexNode; Proxy;
   MilvusStandalone].
Definition StandaloneComponents : list MilvusComponent := [MilvusStandalone].
Definition MilvusCoords : list MilvusComponent := [RootCoord; DataCoord; QueryCoord; IndexCoord].
Definition Milvus2_6Components : list MilvusComponent :=
  [MixCoord; DataNode; StreamingNode; QueryNode; Proxy; MilvusStandalone].

Definition AllComponents : list MilvusComponent :=
  [MixCoord; RootCoord; DataCoord; QueryCoord; IndexCoord; DataNode; QueryNode; IndexNode;
   StreamingNode; Proxy; Cdc; MilvusStandalone].

Definition coordConfigFieldName : list (string * string) :=
  [("rootcoord", "rootCoord"); ("datacoord", "dataCoord"); ("indexcoord", "indexCoord");
   ("querycoord", "queryCoord")].

Definition Is (c component : MilvusComponent) : bool := bool_decide (Name c = Name component).

Definition IsCoord (c : MilvusComponent) : bool :=
  if bool_decide (Name c = "mixcoord") then true else HasSuffix (Name c) "coord".

Definition IsStandalone (c : MilvusComponent) : bool := bool_decide (Name c = "standalone").

Definition IsNode (c : MilvusComponent) : bool := HasSuffix (Name c) "node".

Definition IsService (c : MilvusComponent) : bool := Is c Proxy || Is c MilvusStandalone.

Definition GetDeploymentGroupName (c : MilvusComponent) : string :=
  match DeploymentGroupOf c with None => "" | Some g => dg_Name g end.

Definition GetStateKey (c : MilvusComponent) : string :=
  match DeploymentGroupOf c with
  | None => Name c
  | Some g => Name c +:+ "-" +:+ hex (take 8 (Sum256 (string_bytes (dg_Name g))))
  end.

Definition GetDisplayName (c : MilvusComponent) : string :=
  match DeploymentGroupOf c with
  | None => Name c
  | Some g => Name c +:+ "/" +:+ dg_Name g
  end.

Definition GetSelectorLabels (c : MilvusComponent) (instance : string) : gmap string string :=
  let labels := NewComponentAppLabels instance (Name c) in
  match DeploymentGroupOf c with
  | None => labels
  | Some g => <[DeploymentGroupLabel := dg_Name g]> labels
  end.

Definition MatchesDeploymentGroup (c : MilvusComponent) (objLabels : gmap string string) : bool :=
  bool_decide (mget objLabels DeploymentGroupLabel = GetDeploymentGroupName c).

Definition GetDeploymentName (c : MilvusComponent) (instance : string) : string :=
  let name := instance +:+ "-milvus-" +:+ Name c in
  match DeploymentGroupOf c with
  | None => name
  | Some g => name +:+ "-" +:+ dg_Name g
  end.

Definition GetHPAName (c : MilvusComponent) (instanceName : string) : string :=
  instanceName +:+ "-milvus-" +:+ Name c +:+ "-hpa".

Definition GetServiceInstanceName (instance : string) : string := instance +:+ "-milvus".

Definition GetPortName (c : MilvusComponent) : string :=
  if bool_decide (Name c = "standalone") || bool_decide (Name c = "proxy") then "milvus"
  else Name c.

Definition GetRunCommands (c : MilvusComponent) : list string :=
  if bool_decide (Name c = "mixcoord")
  then ["mixture"; "-rootcoord"; "-querycoord"; "-datacoord"; "-indexcoord"]
  else [Name c].

(** [reflect.ValueOf(spec.Com).FieldByName(c.FieldName)], down to the embedded
    [Component]; [None] is a nil field. *)
Definition componentField (com : MilvusComponents) (f : ComponentField) : option Component :=
  match f with
  | MixCoordField => com_MixCoord com
  | RootCoordField => com_RootCoord com
  | DataCoordField => com_DataCoord com
  | QueryCoordField => com_QueryCoord com
  | IndexCoordField => com_IndexCoord com
  | DataNodeField => dn_Component <$> com_DataNode com
  | QueryNodeField => qn_Component <$> com_QueryNode com
  | IndexNodeField => in_Component <$> com_IndexNode com
  | StreamingNodeField => sn_Component <$> com_StreamingNode com
  | ProxyField => (fun p => sc_Component (px_ServiceComponent p)) <$> com_Proxy com
  | StandaloneField => sc_Component <$> com_Standalone com
  | CdcField => com_Cdc com
  end.

Definition GetReplicas (c : MilvusComponent) (spec : MilvusSpec) : option Z :=
  match DeploymentGroupOf c with
  | Some g => dg_Replicas g
  | None =>
      match componentField (spec_Com spec) (FieldName c) with
      | None => int32Ptr 1
      | Some comp => co_Replicas comp
      end
  end.

Definition GetLeastReplicasRegardingHPA (c : MilvusComponent) (spec : MilvusSpec) : Z :=
  let replicas := ReplicasValue (GetReplicas c spec) in
  if replicas <? 0 then 1 else replicas.

Definition GetHPASpec (c : MilvusComponent) (spec : MilvusSpec) : option HPASpec :=
  comp ← componentField (spec_Com spec) (FieldName c); co_HPA comp.

Definition IsHPAEnabled (c : MilvusComponent) (spec : MilvusSpec) : bool :=
  bool_decide (is_Some (GetHPASpec c spec)).

(** [None] is the panic of reading through a nil component. *)
Definition GetComponentSpec (c : MilvusComponent) (spec : MilvusSpec) : option ComponentSpec :=
  co_ComponentSpec <$> componentField (spec_Com spec) (FieldName c).

Definition GetComponentPort (c : MilvusComponent) (spec : MilvusSpec) : option Z :=
  if IsService c then
    svc ← GetServiceComponent spec;
    Some (if 0 <? sc_Port svc then sc_Port svc else DefaultPort c)
  else Some (DefaultPort c).

Definition GetRestfulPort (c : MilvusComponent) (spec : MilvusSpec) : option Z :=
  if IsService c then sc_ServiceRestfulPort <$> GetServiceComponent spec else Some 0.

Definition GetDeploymentGroups (c : MilvusComponent) (spec : MilvusSpec) : list DeploymentGroup :=
  let com := spec_Com spec in
  if bool_decide (Name c = "proxy") then default [] (px_Groups <$> com_Proxy com)
  else if bool_decide (Name c = "datanode") then default [] (dn_Groups <$> com_DataNode com)
  else if bool_decide (Name c = "querynode") then default [] (qn_Groups <$> com_QueryNode com)
  else if bool_decide (Name c = "streamingnode") then default [] (sn_Groups <$> com_StreamingNode com)
  else [].

Definition set_group (c : MilvusComponent) (g : DeploymentGroup) : MilvusComponent :=
  mkMilvusComponent (Name c) (FieldName c) (DefaultPort c) (Some g).

Definition workloadsOf (spec : MilvusSpec) (c : MilvusComponent) : list MilvusComponent :=
  match GetDeploymentGroups c spec with
  | [] => [c]
  | groups => set_group c <$> SliceStable dg_Name groups
  end.

Definition HasCoordsSpec (m : Milvus) : bool :=
  bool_decide (is_Some (com_DataCoord (mi_Com m))) || bool_decide (is_Some (com_QueryCoord (mi_Com m)))
  || bool_decide (is_Some (com_IndexCoord (mi_Com m)))
  || bool_decide (is_Some (com_RootCoord (mi_Com m))).

Definition SetCoordsNil (m : Milvus) : Milvus :=
  set_mi_Spec m (set_spec_Com (mi_Spec m)
    (set_com_RootCoord (set_com_IndexCoord (set_com_QueryCoord (set_com_DataCoord (mi_Com m)
       None) None) None) None)).

Definition containsComponent (components : list MilvusComponent) (name : string) : bool :=
  existsb (fun c => bool_decide (Name c = name)) components.

(** Whether standalone has zero desired replicas in cluster mode. *)
Definition IsIdleClusterStandalone (spec : MilvusSpec) (component : MilvusComponent) : bool :=
  if negb (Is component MilvusStandalone) || negb (bool_decide (spec_Mode spec = MilvusModeCluster))
  then false
  else
    match com_Standalone (spec_Com spec) with
    | None => true
    | Some s =>
        match co_HPA (sc_Component s) with
        | Some _ => false
        | None => match co_Replicas (sc_Component s) with None => true | Some r => r =? 0 end
        end
    end%Z.

Definition upgradeStoppingAnnotation : string := MilvusIO +:+ "upgrade-stopping".

Definition isUpgradeStopping (m : Milvus) : bool :=
  bool_decide (mget (mi_Annotations m) upgradeStoppingAnnotation = TrueStr).

(** ** Writing replicas *)

Definition update_component (com : MilvusComponents) (f : ComponentField)
    (upd : Component -> Component) : MilvusComponents :=
  match f with
  | MixCoordField => set_com_MixCoord com (upd <$> com_MixCoord com)
  | RootCoordField => set_com_RootCoord com (upd <$> com_RootCoord com)
  | DataCoordField => set_com_DataCoord com (upd <$> com_DataCoord com)
  | QueryCoordField => set_com_QueryCoord com (upd <$> com_QueryCoord com)
  | IndexCoordField => set_com_IndexCoord com (upd <$> com_IndexCoord com)
  | DataNodeField =>
      set_com_DataNode com ((fun d => mkDataNode (upd (dn_Component d)) (dn_Groups d)
                                        (dn_StatefulSet d)) <$> com_DataNode com)
  | QueryNodeField =>
      set_com_QueryNode com ((fun d => mkQueryNode (upd (qn_Component d)) (qn_Groups d)
                                         (qn_StatefulSet d)) <$> com_QueryNode com)
  | IndexNodeField =>
      set_com_IndexNode com ((fun d => mkIndexNode (upd (in_Component d)) (in_StatefulSet d))
                               <$> com_IndexNode com)
  | StreamingNodeField =>
      set_com_StreamingNode com ((fun d => mkStreamingNode (upd (sn_Component d)) (sn_Groups d))
                                   <$> com_StreamingNode com)
  | ProxyField =>
      set_com_Proxy com ((fun p => mkProxy (set_sc_Component (px_ServiceComponent p)
                                     (upd (sc_Component (px_ServiceComponent p)))) (px_Groups p))
                           <$> com_Proxy com)
  | StandaloneField =>
      set_com_Standalone com ((fun s => set_sc_Component s (upd (sc_Component s)))
                                <$> com_Standalone com)
  | CdcField => set_com_Cdc com (upd <$> com_Cdc com)
  end.

(** The [Groups] field of a component's struct, if its type has one. *)
Definition groupsField (com : MilvusComponents) (f : ComponentField) : option (list DeploymentGroup) :=
  match f with
  | DataNodeField => dn_Groups <$> com_DataNode com
  | QueryNodeField => qn_Groups <$> com_QueryNode com
  | StreamingNodeField => sn_Groups <$> com_StreamingNode com
  | ProxyField => px_Groups <$> com_Proxy com
  | _ => None
  end.

Definition set_groupsField (com : MilvusComponents) (f : ComponentField) (gs : list DeploymentGroup)
    : MilvusComponents :=
  match f with
  | DataNodeField =>
      set_com_DataNode com ((fun d => mkDataNode (dn_Component d) gs (dn_StatefulSet d))
                              <$> com_DataNode com)
  | QueryNodeField =>
      set_com_QueryNode com ((fun d => mkQueryNode (qn_Component d) gs (qn_StatefulSet d))
                               <$> com_QueryNode com)
  | StreamingNodeField =>
      set_com_StreamingNode com ((fun d => mkStreamingNode (sn_Component d) gs)
                                   <$> com_StreamingNode com)
  | ProxyField =>
      set_com_Proxy com ((fun p => mkProxy (px_ServiceComponent p) gs) <$> com_Proxy com)
  | _ => com
  end.

Fixpoint set_group_replicas (groups : list DeploymentGroup) (name : string) (replicas : option Z)
    : option (list DeploymentGroup) :=
  match groups with
  | [] => None
  | g :: gs =>
      if bool_decide (dg_Name g = name) then Some (set_dg_Replicas g replicas :: gs)
      else cons g <$> set_group_replicas gs name replicas
  end.

(** The spec is passed by value but the component behind its pointer field is
    written: the result is the spec the caller sees afterwards, or the error
    message. *)
Definition SetReplicas (c : MilvusComponent) (spec : MilvusSpec) (replicas : option Z)
    : string + MilvusSpec :=
  match componentField (spec_Com spec) (FieldName c) with
  | None => inl ("component " +:+ Name c +:+ " is nil")
  | Some _ =>
      match DeploymentGroupOf c with
      | Some g =>
          match groupsField (spec_Com spec) (FieldName c) with
          | None => inl ("component " +:+ Name c +:+ " does not support deployment groups")
          | Some groups =>
              match set_group_replicas groups (dg_Name g) replicas with
              | None => inl ("deployment group " +:+ Name c +:+ "/" +:+ dg_Name g +:+ " not found")
              | Some gs => inr (set_spec_Com spec (set_groupsField (spec_Com spec) (FieldName c) gs))
              end
          end
      | None =>
          inr (set_spec_Com spec (update_component (spec_Com spec) (FieldName c)
                                    (fun comp => set_co_Replicas comp replicas)))
      end
  end.

(** ** Components of a spec *)

Section BySpec.
Context {SV : Semver}.

Definition GetComponentsBySpec (spec : MilvusSpec) : list MilvusComponent :=
  let cdc := if UseCdc spec then [Cdc] else [] in
  cdc ++
  (if negb (bool_decide (spec_Mode spec = MilvusModeCluster)) then StandaloneComponents
   else if IsVersionGreaterThan2_6 spec then Milvus2_6Components
   else (if UseMixCoord spec then MixtureComponents else SeparateComponents)
        ++ (if UseStreamingNode spec then [StreamingNode] else [])).

Definition GetComponentWorkloadsBySpec (spec : MilvusSpec) : list MilvusComponent :=
  concat (workloadsOf spec <$> GetComponentsBySpec spec).

(** [None] is the panic of [IsStopping]. *)
Definition isMilvusStoppingForReconcile (mc : Milvus) : option bool :=
  stopping ← IsStopping (mi_Spec mc);
  Some (if negb stopping then false
        else if negb (isUpgradeStopping mc)
                && existsb (fun c => IsHPAEnabled c (mi_Spec mc))
                     (GetComponentWorkloadsBySpec (mi_Spec mc))
        then false
        else true).

Definition IsMilvusDeploymentsComplete (m : Milvus) : bool :=
  forallb
    (fun c => bool_decide
       (GetState (default zeroDeployStatus (st_ComponentsDeployStatus (mi_Status m) !! Name c))
        = DeploymentComplete))
    (GetComponentsBySpec (mi_Spec m)).

Definition IsImageUpdated (c : MilvusComponent) (m : Milvus) : bool :=
  let deployStatus := default zeroDeployStatus (st_ComponentsDeployStatus (mi_Status m) !! Name c) in
  if bool_decide (st_ComponentsDeployStatus (mi_Status m) = ∅) then false
  else if negb (bool_decide (csp_Image (com_ComponentSpec (mi_Com m)) = cds_Image deployStatus))
  then false
  else if negb (bool_decide (GetState deployStatus = DeploymentComplete)) then false
  else true.

Lemma GetComponentsBySpec_table spec c : c ∈ GetComponentsBySpec spec -> c ∈ AllComponents.
Proof.
  unfold GetComponentsBySpec. rewrite elem_of_app.
  intros [Hc|Hc].
  - destruct (UseCdc spec); [|by apply not_elem_of_nil in Hc].
    apply list_elem_of_singleton in Hc as ->. unfold AllComponents. set_solver.
  - unfold AllComponents.
    destruct (negb _); [unfold StandaloneComponents in Hc; set_solver|].
    destruct (IsVersionGreaterThan2_6 spec); [unfold Milvus2_6Components in Hc; set_solver|].
    rewrite elem_of_app in Hc. unfold MixtureComponents, SeparateComponents in Hc.
    destruct (UseMixCoord spec), (UseStreamingNode spec); set_solver.
Qed.

(** No component is deployed twice. *)
Lemma GetComponentsBySpec_NoDup spec : NoDup (Name <$> GetComponentsBySpec spec).
Proof.
  unfold GetComponentsBySpec.
  destruct (UseCdc spec), (negb _), (IsVersionGreaterThan2_6 spec), (UseMixCoord spec),
    (UseStreamingNode spec);
    apply (bool_decide_unpack _); vm_compute; exact I.
Qed.

(** A workload is a component of the spec, with one of its groups if it has
    any. *)
Lemma workloads_elem spec w :
  w ∈ GetComponentWorkloadsBySpec spec <->
  exists c, c ∈ GetComponentsBySpec spec /\
    ((GetDeploymentGroups c spec = [] /\ w = c) \/
     (exists g, g ∈ GetDeploymentGroups c spec /\ w = set_group c g)).
Proof.
  unfold GetComponentWorkloadsBySpec. rewrite elem_of_list_concat_fmap.
  apply exist_proper. intros c. apply and_iff_compat_l. unfold workloadsOf.
  destruct (GetDeploymentGroups c spec) as [|g gs] eqn:E.
  - rewrite list_elem_of_singleton. split; [by left|].
    intros [[_ ?]|(g & Hg & _)]; [done|]. by apply not_elem_of_nil in Hg.
  - rewrite list_elem_of_fmap. setoid_rewrite SliceStable_elem. split.
    + intros (g' & -> & Hg). right. by exists g'.
    + intros [[? _]|(g' & Hg & ->)]; [done|]. by exists g'.
Qed.
End BySpec.

(** ** Merging of component specs *)

Definition CacheSizeEnvVarName : string := "CACHE_SIZE".

Definition CacheSizeEnvVar : EnvVar :=
  mkEnv CacheSizeEnvVarName ""
    (Some (OtherSource (JObj [("resourceFieldRef",
       JObj [("divisor", JStr "1Gi"); ("resource", JStr "limits.memory")])]))).

Definition MergeRollingUpdate (global component : option RollingUpdateDeployment)
    : option RollingUpdateDeployment :=
  match global, component with
  | None, None => None
  | _, _ =>
      let merged := default (mkRollingUpdate None None) global in
      match component with
      | None => Some merged
      | Some override =>
          Some (mkRollingUpdate
                  (match ru_MaxUnavailable override with
                   | Some u => Some u | None => ru_MaxUnavailable merged end)
                  (match ru_MaxSurge override with
                   | Some s => Some s | None => ru_MaxSurge merged end))
      end
  end.

(** The volume mounts of [src] are looked up in [dst] by their sub path, with
    a function that compares mount paths. *)
Definition mergeMounts (src dst : list VolumeMount) : list VolumeMount :=
  fold_left
    (fun dst srcVolumeMount =>
       let idx := GetVolumeMountIndex dst (vm_SubPath srcVolumeMount) in
       if idx <? 0 then dst ++ [srcVolumeMount] else <[Z.to_nat idx := srcVolumeMount]> dst)
    src dst.

Definition orString (src dst : string) : string := if decide (src = "") then dst else src.
Definition orList {A} (src dst : list A) : list A := match src with [] => dst | _ => src end.
Definition orOption {A} (src dst : option A) : option A := match src with None => dst | _ => src end.

Definition MergeComponentSpec (src dst : ComponentSpec) : ComponentSpec :=
  mkComponentSpec
    (if csp_Paused src then true else csp_Paused dst)
    (MergeLabels [csp_PodLabels src; csp_PodLabels dst])
    (MergeAnnotations [csp_PodAnnotations src; csp_PodAnnotations dst])
    (orString (csp_Image src) (csp_Image dst))
    (csp_Version dst)
    (orList (csp_Commands src) (csp_Commands dst))
    (orOption (csp_RunWithSubProcess src) (csp_RunWithSubProcess dst))
    (Some (default "IfNotPresent" (orOption (csp_ImagePullPolicy src) (csp_ImagePullPolicy dst))))
    (orList (csp_ImagePullSecrets src) (csp_ImagePullSecrets dst))
    (MergeEnvVar (csp_Env dst) (csp_Env src ++ [CacheSizeEnvVar]))
    (orString (csp_SchedulerName src) (csp_SchedulerName dst))
    (if decide (csp_NodeSelector src = ∅) then csp_NodeSelector dst else csp_NodeSelector src)
    (orOption (csp_Affinity src) (csp_Affinity dst))
    (orList (csp_Tolerations src) (csp_Tolerations dst))
    (orList (csp_TopologySpreadConstraints src) (csp_TopologySpreadConstraints dst))
    (Some (default (mkRes ∅ ∅) (orOption (csp_Resources src) (csp_Resources dst))))
    (orOption (csp_ToolResources src) (csp_ToolResources dst))
    (mergeMounts (csp_VolumeMounts src) (csp_VolumeMounts dst))
    (orOption (csp_Volumes src) (csp_Volumes dst))
    (orString (csp_ServiceAccountName src) (csp_ServiceAccountName dst))
    (orString (csp_PriorityClassName src) (csp_PriorityClassName dst))
    (if csp_HostNetwork src then true else csp_HostNetwork dst)
    (orString (csp_DNSPolicy src) (csp_DNSPolicy dst))
    (orOption (csp_Probes src) (csp_Probes dst))
    (orOption (csp_SecurityContext src) (csp_SecurityContext dst))
    (MergeRollingUpdate (csp_RollingUpdate dst) (csp_RollingUpdate src)).

Definition ApplyDeploymentGroupOverrides (spec : ComponentSpec) (group : option DeploymentGroup)
    : ComponentSpec :=
  match group with
  | None => spec
  | Some g =>
      mkComponentSpec
        (csp_Paused spec)
        (MergeLabels [csp_PodLabels spec; dg_Labels g])
        (MergeAnnotations [csp_PodAnnotations spec; dg_Annotations g])
        (csp_Image spec) (csp_Version spec) (csp_Commands spec) (csp_RunWithSubProcess spec)
        (csp_ImagePullPolicy spec) (csp_ImagePullSecrets spec)
        (MergeEnvVar (csp_Env spec) (dg_ExtraEnv g))
        (csp_SchedulerName spec)
        (default (csp_NodeSelector spec) (dg_NodeSelector g))
        (orOption (dg_Affinity g) (csp_Affinity spec))
        (default (csp_Tolerations spec) (dg_Tolerations g))
        (default (csp_TopologySpreadConstraints spec) (dg_TopologySpreadConstraints g))
        (csp_Resources spec) (csp_ToolResources spec) (csp_VolumeMounts spec) (csp_Volumes spec)
        (csp_ServiceAccountName spec) (csp_PriorityClassName spec) (csp_HostNetwork spec)
        (csp_DNSPolicy spec) (csp_Probes spec) (csp_SecurityContext spec) (csp_RollingUpdate spec)
  end.

Definition GetMergedComponentSpec (m : Milvus) (component : MilvusComponent) : option ComponentSpec :=
  comSpec ← GetComponentSpec component (mi_Spec m);
  Some (ApplyDeploymentGroupOverrides
          (MergeComponentSpec comSpec (com_ComponentSpec (mi_Com m)))
          (DeploymentGroupOf component)).

(** ** Deployment strategies *)

Section Strategy.
Context {US : Unstructured}.

Definition EnableActiveStandByConfig : string := "enableActiveStandby".

Definition GetBoolValue (values : Values) (fields : list string) : bool :=
  default false (NestedBool (default [] values) fields).

Definition intOf (z : Z) : IntOrString := mkIntOrString 0 z "".
Definition strOf (s : string) : IntOrString := mkIntOrString 1 0 s.

(** The coordinator's own flag; for a mixed coordinator and standalone the
    flags of all coordinators. *)
Definition useRollingUpdate (c : MilvusComponent) (configs : Values) : bool :=
  if IsCoord c && negb (bool_decide (Name c = "mixcoord")) then
    GetBoolValue configs
      [default "" (snd <$> (snd <$> list_find (fun kv => fst kv = Name c) coordConfigFieldName));
       EnableActiveStandByConfig]
  else if bool_decide (Name c = "mixcoord") || IsStandalone c then
    forallb (fun kv => GetBoolValue configs [snd kv; EnableActiveStandByConfig]) coordConfigFieldName
  else true.

Definition component_GetDeploymentStrategy (c : MilvusComponent) (ms : MilvusSpec)
    : option DeploymentStrategy :=
  if useRollingUpdate c (spec_Conf ms) then
    comSpec ← GetComponentSpec c ms;
    let defaults := mkRollingUpdate (Some (intOf 0)) (Some (intOf 1)) in
    let effective := MergeRollingUpdate (csp_RollingUpdate (com_ComponentSpec (spec_Com ms)))
                       (csp_RollingUpdate comSpec) in
    Some (mkStrategy RollingUpdateDeploymentStrategyType
            (MergeRollingUpdate (Some defaults) effective))
  else Some (mkStrategy RecreateDeploymentStrategyType None).

Definition GetDeploymentStrategy (milvus : Milvus) (component : MilvusComponent)
    : option DeploymentStrategy :=
  if bool_decide (com_ImageUpdateMode (mi_Com milvus) = ImageUpdateModeForce)
     || com_EnableManualMode (mi_Com milvus)
  then
    let all := strOf "100%" in
    Some (mkStrategy RollingUpdateDeploymentStrategyType
            (Some (mkRollingUpdate (Some all) (Some all))))
  else component_GetDeploymentStrategy component (mi_Spec milvus).
End Strategy.
