(* ===== verification/Examples.v ===== *)
(** * Concrete objects

    Small Milvus resources, deployments and pods on which the definitions
    evaluate; the witnesses of the theorems are built from them. *)
From S2P Require Import Prelude KubeTypes Libs ApiTypes Labels Utils Components.

Local Open Scope string_scope.
Local Open Scope list_scope.
Local Open Scope Z_scope.

Definition exComponent (replicas : option Z) : Component :=
  mkComponent emptyComponentSpec replicas None [] [].

Definition exService (replicas : option Z) : ServiceComponent :=
  mkServiceComponent (exComponent replicas) "ClusterIP" None 0 0 ∅ ∅ None.

Definition exImage (image : string) : ComponentSpec :=
  mkComponentSpec false ∅ ∅ image "" [] None None [] [] "" ∅ None [] [] None None [] None "" "" false
    "" None None None.

Definition exPersistence : Persistence := mkPersistence false false (mkPVC "" ∅ ∅ None).

Definition exDep : MilvusDependencies :=
  mkDep (mkEtcd (Some ["etcd:2379"]) true None) MsgStreamTypePulsar (mkPulsar None true "pulsar:6650" [])
    (mkKafka None false None "") (mkWoodpecker exPersistence false None) exPersistence exPersistence
    (mkStorage "MinIO" "" "minio:9000" None true None) (mkTei None false) None.

(** A cluster of one mixed coordinator and [n] replicas of every node. *)
Definition exComOf (image : string) (n : Z) : MilvusComponents :=
  mkCom (exImage image) ServiceTargetPortTypeString ImageUpdateModeRollingUpgrade
    (Some true) false "" ∅ "" "" false None RollingModeV3 false "" false None
    (Some (mkProxy (exService (Some n)) []))
    (Some (exComponent (Some 1))) None None None None
    (Some (mkIndexNode (exComponent (Some n)) None))
    (Some (mkDataNode (exComponent (Some n)) [] None))
    (Some (mkQueryNode (exComponent (Some n)) [] None))
    None
    (Some (exService (Some 0))) None.

Definition exCom (n : Z) : MilvusComponents := exComOf "milvusdb/milvus:v2.5.4" n.

Definition exSpec (n : Z) : MilvusSpec := mkSpec MilvusModeCluster (exCom n) exDep None None.

Definition exStatus : MilvusStatus :=
  mkStatus StatusHealthy [] "" JNull ∅ ∅ RollingModeV3 1 "milvusdb/milvus:v2.5.4" "".

Definition exMeta (annotations labels : gmap string string) : ObjectMeta :=
  mkMeta "mi" "ns" labels annotations 1 "uid-mi" "1" [] None [].

Definition exMilvus (n : Z) : Milvus := mkMilvus (exMeta ∅ ∅) (exSpec n) exStatus.

Definition exWithCom (com : MilvusComponents) : Milvus :=
  set_mi_Spec (exMilvus 1) (set_spec_Com (exSpec 1) com).

(** The query node under an autoscaler with the given minimum. *)
Definition exMilvusHPA (minReplicas : Z) : Milvus :=
  exWithCom (set_com_QueryNode (exCom 1)
    (Some (mkQueryNode (mkComponent emptyComponentSpec None
                          (Some (mkHPASpec (Some minReplicas) 10 [] None)) [] []) [] None))).

(** A forced image update. *)
Definition exMilvusForce (n : Z) : Milvus :=
  exWithCom (with_ImageUpdateMode (exCom n) ImageUpdateModeForce).

Definition exContainer (image : string) : Container :=
  mkContainer "querynode" image "IfNotPresent" [] [] [] [] [] (mkRes ∅ ∅) None None None None None "" "".

Definition exTemplate (labels : gmap string string) (image : string) : PodTemplateSpec :=
  mkTemplate labels ∅
    (mkPodSpec [] [exContainer image] [] "" None [] [] ∅ [] "" "" false "" None None).

(** A deployment of the query node in the given slot, whose status has caught
    up. *)
Definition exDeployment (slot : string) (image : string) (replicas : Z) : Deployment :=
  let labels := SetGroupIDStr "querynode" (GetSelectorLabels QueryNode "mi") slot in
  mkDeployment
    (mkMeta ("mi-milvus-querynode-" +:+ slot) "ns" labels ∅ 1 ("uid-" +:+ slot) "1"
       [mkOwner "Milvus" "mi" "uid-mi" true] None [])
    (mkDSpec (Some replicas) labels (exTemplate labels image)
       (mkStrategy RollingUpdateDeploymentStrategyType None) 30 false (Some 2592000))
    (mkDStatus 1 replicas replicas replicas replicas 0 []).

(** A renderer that puts the image of the spec into the example template. *)
Definition exRender (mc : Milvus) (c : MilvusComponent) (t : PodTemplateSpec)
    (labels : gmap string string) (force : bool) : option PodTemplateSpec :=
  Some (exTemplate labels (csp_Image (com_ComponentSpec (mi_Com mc)))).
