(* ===== verification/RollingUpdate.v ===== *)
(** * Rolling update budgets

    [rolloutSteps] of pkg/controllers/deploy_ctrl_util.go turns a deployment
    strategy into the number of extra pods (surge) and of missing pods
    (unavailable) a rollout may use; validateRollingUpdate of
    apis/milvus.io/v1beta1/rolling_update_validation.go is the admission check
    on the settings it reads.  The theorems: the budgets are bounded by the
    replicas, and settings that pass the admission check always leave a
    rollout a way to make progress. *)
From S2P Require Import Prelude KubeTypes Libs ApiTypes Labels Utils Components Examples.

Local Open Scope string_scope.
Local Open Scope list_scope.
Local Open Scope Z_scope.

Section Budgets.
Context {IS : IntStr}.

(** [v, err := GetScaledValueFromIntOrPercent(..); err == nil && v >= 0]. *)
Definition scaledNonNeg (v : IntOrString) (total : Z) (up : bool) : option Z :=
  n ← GetScaledValueFromIntOrPercent v total up;
  if 0 <=? n then Some n else None.

Definition rolloutSteps (strategy : DeploymentStrategy) (replicas : Z) : Z * Z :=
  match bool_decide (dst_Type strategy = RollingUpdateDeploymentStrategyType),
        dst_RollingUpdate strategy with
  | true, Some ru =>
      let surge :=
        match s ← ru_MaxSurge ru; scaledNonNeg s replicas true with
        | Some v => v
        | None => 1
        end in
      let unavailable :=
        match ru_MaxUnavailable ru with
        | None => 0
        | Some u =>
            match scaledNonNeg u replicas false with
            | None => 0
            | Some v =>
                if (surge =? 0) && (v =? 0) then
                  match GetScaledValueFromIntOrPercent u 100 false with
                  | Some percent => if 0 <? percent then 1 else v
                  | None => v
                  end
                else v
            end
        end in
      (surge, Z.min unavailable (Z.max 0 replicas))
  | _, _ => (1, 0)
  end.

(** An admission error: the path of the field and the message. *)
Definition FieldError : Type := string * string.

(** The check of one of the two settings. *)
Definition validateBudget (name : string) (value : option IntOrString) (path : string)
    : list FieldError :=
  match value with
  | None => []
  | Some v =>
      let valid := (bool_decide (ios_Type v = 0) && (0 <=? ios_IntVal v))
                   || (bool_decide (ios_Type v = 1) && IsValidPercent (ios_StrVal v)) in
      let invalid :=
        [(path +:+ "." +:+ name, "must be a nonnegative integer or percentage")] in
      match GetScaledValueFromIntOrPercent v 100 false with
      | None => invalid
      | Some n =>
          if negb valid || (n <? 0) then invalid
          else if bool_decide (name = "maxUnavailable") && bool_decide (ios_Type v = 1) && (100 <? n)
          then [(path +:+ "." +:+ name, "must not exceed 100%")]
          else []
      end
  end.

Definition validateRollingUpdate (ru : option RollingUpdateDeployment) (path : string)
    : list FieldError :=
  match ru with
  | None => []
  | Some ru =>
      let allErrs := validateBudget "maxSurge" (ru_MaxSurge ru) path
                     ++ validateBudget "maxUnavailable" (ru_MaxUnavailable ru) path in
      match allErrs with
      | _ :: _ => allErrs
      | [] =>
          let surge := match ru_MaxSurge ru with
                       | None => 1
                       | Some s => default 0 (GetScaledValueFromIntOrPercent s 100 true)
                       end in
          let unavailable := match ru_MaxUnavailable ru with
                             | None => 0
                             | Some u => default 0 (GetScaledValueFromIntOrPercent u 100 false)
                             end in
          if (surge =? 0) && (unavailable =? 0)
          then [(path, "maxUnavailable must be positive when maxSurge is zero")]
          else []
      end
  end.

(** The struct fields of [MilvusComponents] that are component pointers, in
    declaration order, with their JSON names. *)
Definition componentFields : list (string * ComponentField) :=
  [("proxy", ProxyField); ("mixCoord", MixCoordField); ("rootCoord", RootCoordField);
   ("indexCoord", IndexCoordField); ("dataCoord", DataCoordField); ("queryCoord", QueryCoordField);
   ("indexNode", IndexNodeField); ("dataNode", DataNodeField); ("queryNode", QueryNodeField);
   ("streamingNode", StreamingNodeField); ("standalone", StandaloneField); ("cdc", CdcField)].

Definition validateRollingUpdates (spec : MilvusSpec) : list FieldError :=
  let com := spec_Com spec in
  let global := csp_RollingUpdate (com_ComponentSpec com) in
  validateRollingUpdate global "spec.components.rollingUpdate"
  ++ concat
       ((fun nf : string * ComponentField =>
           match componentField com (snd nf) with
           | None => []
           | Some c =>
               validateRollingUpdate
                 (MergeRollingUpdate global (csp_RollingUpdate (co_ComponentSpec c)))
                 ("spec.components." +:+ fst nf +:+ ".rollingUpdate")
           end) <$> componentFields).

(** ** Bounds *)

Lemma scaledNonNeg_nonneg v total up n : scaledNonNeg v total up = Some n -> 0 <= n.
Proof.
  unfold scaledNonNeg. destruct (GetScaledValueFromIntOrPercent v total up) as [m|]; simpl; [|done].
  destruct (Z.leb_spec 0 m); [|done]. by intros [= <-].
Qed.

Lemma rolloutSteps_surge_nonneg strategy replicas : 0 <= fst (rolloutSteps strategy replicas).
Proof.
  unfold rolloutSteps. destruct (bool_decide _), (dst_RollingUpdate strategy) as [ru|]; simpl; try lia.
  destruct (ru_MaxSurge ru) as [s|]; simpl; [|lia].
  destruct (scaledNonNeg s replicas true) eqn:E; [|lia]. by apply scaledNonNeg_nonneg in E.
Qed.

Lemma rolloutSteps_unavailable_bounds strategy replicas :
  0 <= snd (rolloutSteps strategy replicas) <= Z.max 0 replicas.
Proof.
  unfold rolloutSteps. destruct (bool_decide _), (dst_RollingUpdate strategy) as [ru|]; simpl; try lia.
  destruct (ru_MaxUnavailable ru) as [u|]; [|lia].
  destruct (scaledNonNeg u replicas false) eqn:E; [|lia]. apply scaledNonNeg_nonneg in E.
  repeat case_if_bool; repeat case_match; lia.
Qed.

(** ** Progress *)

Section Progress.
Context {SL : ScaledLaws}.

Lemma validateBudget_scaled name v path :
  validateBudget name (Some v) path = [] ->
  exists n, GetScaledValueFromIntOrPercent v 100 false = Some n /\ 0 <= n.
Proof.
  unfold validateBudget. destruct (GetScaledValueFromIntOrPercent v 100 false) as [n|]; [|done].
  intros H. exists n. split; [done|].
  destruct (Z.ltb_spec n 0); [|lia]. by rewrite orb_true_r in H.
Qed.

(** At a total of 100 the rounding does not matter. *)
Lemma scaled_100 v n :
  GetScaledValueFromIntOrPercent v 100 false = Some n ->
  GetScaledValueFromIntOrPercent v 100 true = Some n.
Proof.
  destruct (decide (ios_Type v = 0)) as [Ht|Ht]; [by rewrite !scaled_int|].
  destruct (scaled_string v Ht) as [[p Hp]|Hp]; rewrite !Hp; [|done].
  replace (- (p * 100)) with ((- p) * 100) by lia. rewrite !Z.div_mul by lia.
  by replace (- - p) with p by lia.
Qed.

(** A budget that is valid at 100 is valid for every number of replicas, and
    rounding up keeps it positive. *)
Lemma scaled_replicas v n replicas up :
  GetScaledValueFromIntOrPercent v 100 false = Some n -> 0 <= n -> 0 < replicas ->
  exists m, scaledNonNeg v replicas up = Some m /\ 0 <= m /\ (up = true -> 0 < n -> 0 < m).
Proof.
  intros Hn Hpos Hr. unfold scaledNonNeg.
  destruct (decide (ios_Type v = 0)) as [Ht|Ht].
  - rewrite scaled_int in Hn |- * by done. injection Hn as ->. exists n. simpl.
    rewrite (proj2 (Z.leb_le 0 n)) by lia. done.
  - destruct (scaled_string v Ht) as [[p Hp]|Hp]; rewrite Hp in Hn; [|done].
    injection Hn as <-. rewrite Hp. simpl. rewrite Z.div_mul in Hpos |- * by lia.
    pose proof (Z.div_pos (p * replicas) 100 ltac:(nia) ltac:(lia)).
    pose proof (Z.div_le_upper_bound (- (p * replicas)) 100 0 ltac:(lia) ltac:(nia)).
    exists (if up then - (- (p * replicas) / 100) else p * replicas / 100).
    rewrite (proj2 (Z.leb_le 0 _)) by (destruct up; lia).
    split; [done|]. split; [destruct up; lia|]. intros -> Hp0.
    pose proof (Z.div_lt_upper_bound (- (p * replicas)) 100 0 ltac:(lia) ltac:(nia)). lia.
Qed.

(** Valid settings have a positive budget at a total of 100. *)
Lemma validated_budgets ru path :
  validateRollingUpdate (Some ru) path = [] ->
  (forall s, ru_MaxSurge ru = Some s ->
     exists n, GetScaledValueFromIntOrPercent s 100 false = Some n /\ 0 <= n /\
       (n = 0 -> exists u k, ru_MaxUnavailable ru = Some u /\
          GetScaledValueFromIntOrPercent u 100 false = Some k /\ 0 < k)).
Proof.
  intros Hv s Hs. unfold validateRollingUpdate in Hv.
  destruct (validateBudget "maxSurge" (ru_MaxSurge ru) path
            ++ validateBudget "maxUnavailable" (ru_MaxUnavailable ru) path) eqn:Eb; [|done].
  apply app_eq_nil in Eb as [Es Eu]. rewrite Hs in Es, Hv.
  destruct (validateBudget_scaled _ _ _ Es) as (n & Hn & Hn0).
  exists n. split; [done|]. split; [done|]. intros ->.
  rewrite (scaled_100 _ _ Hn) in Hv. simpl in Hv.
  destruct (ru_MaxUnavailable ru) as [u|]; [|done].
  destruct (validateBudget_scaled _ _ _ Eu) as (k & Hk & Hk0).
  exists u, k. rewrite Hk in Hv. simpl in Hv. destruct (Z.eqb_spec k 0); [done|]. auto with lia.
Qed.

(** Settings that pass the admission check always let a rollout proceed: with
    at least one expected replica, it may add a pod or take one away. *)
Lemma validated_progress ru path replicas :
  validateRollingUpdate (Some ru) path = [] -> 0 < replicas ->
  let steps :=
    rolloutSteps (mkStrategy RollingUpdateDeploymentStrategyType
                    (MergeRollingUpdate (Some (mkRollingUpdate (Some (intOf 0)) (Some (intOf 1))))
                       (Some ru))) replicas in
  0 < fst steps \/ 0 < snd steps.
Proof.
  intros Hv Hr. unfold rolloutSteps. simpl.
  pose proof (validated_budgets ru path Hv) as Hb.
  destruct (ru_MaxSurge ru) as [s|]; cycle 1.
  { left. simpl. unfold scaledNonNeg. by rewrite scaled_int. }
  destruct (Hb s eq_refl) as (n & Hn & Hn0 & Hu).
  destruct (scaled_replicas s n replicas true Hn Hn0 Hr) as (m & Hm & Hm0 & Hpos).
  simpl. rewrite Hm. destruct (decide (n = 0)) as [->|]; [|left; apply Hpos; [done|lia]].
  destruct (Hu eq_refl) as (u & k & -> & Hk & Hk0).
  destruct (scaled_replicas u k replicas false Hk ltac:(lia) Hr) as (v & -> & Hv0 & _).
  rewrite Hk, (proj2 (Z.ltb_lt 0 k)) by lia.
  destruct (Z.eqb_spec m 0), (Z.eqb_spec v 0); simpl; lia.
Qed.

(** The admission check covers the effective settings of every configured
    component. *)
Lemma validated_component spec field c :
  validateRollingUpdates spec = [] -> componentField (spec_Com spec) field = Some c ->
  exists path,
    validateRollingUpdate
      (MergeRollingUpdate (csp_RollingUpdate (com_ComponentSpec (spec_Com spec)))
         (csp_RollingUpdate (co_ComponentSpec c))) path = [].
Proof.
  intros [_ Hall]%app_eq_nil Hc.
  assert (exists name, (name, field) ∈ componentFields) as [name Hin].
  { destruct field; eexists; repeat (apply elem_of_cons; (by left) || right). }
  exists ("spec.components." +:+ name +:+ ".rollingUpdate").
  apply (list_elem_of_fmap_2
           (fun nf : string * ComponentField =>
              match componentField (spec_Com spec) (snd nf) with
              | None => []
              | Some c => validateRollingUpdate
                   (MergeRollingUpdate (csp_RollingUpdate (com_ComponentSpec (spec_Com spec)))
                      (csp_RollingUpdate (co_ComponentSpec c)))
                   ("spec.components." +:+ fst nf +:+ ".rollingUpdate")
              end)) in Hin. simpl in Hin. rewrite Hc in Hin.
  apply concat_nil_Forall in Hall. rewrite Forall_forall in Hall. by apply Hall.
Qed.

(** Specs that pass admission always let a rollout proceed: if
    [validateRollingUpdates] reports no error, then the strategy of every
    component, with its own settings, the global ones and the defaults merged,
    gives a rollout of at least one replica a positive surge or a positive
    unavailability step. *)
Theorem admitted_rollout_progresses {US : Unstructured} spec c strategy replicas :
  validateRollingUpdates spec = [] -> component_GetDeploymentStrategy c spec = Some strategy ->
  0 < replicas ->
  0 < fst (rolloutSteps strategy replicas) \/ 0 < snd (rolloutSteps strategy replicas).
Proof.
  intros Hv Hs Hr. unfold component_GetDeploymentStrategy, GetComponentSpec in Hs.
  destruct (useRollingUpdate c (spec_Conf spec)); [|injection Hs as <-; left; simpl; lia].
  destruct (componentField (spec_Com spec) (FieldName c)) as [co|] eqn:Eco; [|done].
  simpl in Hs. injection Hs as <-.
  destruct (validated_component spec _ co Hv Eco) as [path Hp].
  destruct (MergeRollingUpdate _ (csp_RollingUpdate (co_ComponentSpec co))) as [ru|] eqn:Eru.
  - by apply (validated_progress ru path).
  - left. unfold rolloutSteps. simpl. unfold scaledNonNeg. by rewrite scaled_int.
Qed.
End Progress.
End Budgets.

(** ** Witnesses *)

Section Witnesses.
#[local] Existing Instance concreteIntStr.
#[local] Existing Instance concreteUnstructured.

Lemma admitted_rollout_progresses_witness :
  let strategy := mkStrategy RollingUpdateDeploymentStrategyType
                    (Some (mkRollingUpdate (Some (intOf 0)) (Some (intOf 1)))) in
  0 < fst (rolloutSteps strategy 3) \/ 0 < snd (rolloutSteps strategy 3).
Proof.
  apply (admitted_rollout_progresses (SL := concreteScaledLaws) (exSpec 1) QueryNode);
    vm_compute; reflexivity.
Defined.
End Witnesses.
