(* ===== verification/ScalePlanner.v ===== *)
(** * The scale planner

    The planning half of pkg/controllers/deploy_ctrl_util.go: which of the two
    deployments of a component is scaled next and by how much
    ([planNextScaleAction]), for a rollout, a spec change without rollout, an
    operator-managed or an external autoscaler, and a forced update. *)
From S2P Require Import Prelude KubeTypes Libs ApiTypes Labels Utils Components RollingUpdate.

Local Open Scope string_scope.
Local Open Scope list_scope.
Local Open Scope Z_scope.

(** A [scaleAction] points to one of the two deployments, or to none. *)
Inductive scaleTarget := CurrentDeployment | LastDeployment.

Record scaleAction := mkScale {
  sa_deploy : option scaleTarget;
  sa_replicaChange : Z
}.

Definition noScaleAction : scaleAction := mkScale None 0.
Definition scaleCurrent (z : Z) : scaleAction := mkScale (Some CurrentDeployment) z.
Definition scaleLast (z : Z) : scaleAction := mkScale (Some LastDeployment) z.

Inductive scaleKind :=
  | scaleKindNormal
  | scaleKindRollout
  | scaleKindHPA
  | scaleKindExternalHPA
  | scaleKindForce.

#[export] Instance scaleKind_eq_dec : EqDecision scaleKind.
Proof. solve_decision. Defined.

(** The resource limits of every container, by container name; the last one
    counts for equal names. *)
Definition deployLimits (d : Deployment) : gmap string (gmap string string) :=
  fold_left (fun m c => <[ct_Name c := rr_Limits (ct_Resources c)]> m)
    (ps_Containers (pt_Spec (dsp_Template (dep_Spec d)))) ∅.

Definition limitListEqual (curr last : gmap string string) : bool :=
  Nat.eqb (size curr) (size last)
  && forallb (fun kv => match last !! fst kv with
                        | None => false
                        | Some lastLimit => bool_decide (snd kv = lastLimit)
                        end) (map_to_list curr).

Definition compareDeployResourceLimitEqual (currentDeployment lastDeployment : Deployment) : bool :=
  let currentDeployLimits := deployLimits currentDeployment in
  let lastDeploymentLimits := deployLimits lastDeployment in
  Nat.eqb (size currentDeployLimits) (size lastDeploymentLimits)
  && forallb (fun kv => match lastDeploymentLimits !! fst kv with
                        | None => false
                        | Some lastLimitList => limitListEqual (snd kv) lastLimitList
                        end) (map_to_list currentDeployLimits).

Section Planner.
Context {US : Unstructured} {IS : IntStr}.
Context (component : MilvusComponent).

Definition expectedReplicas (mc : Milvus) : Z := ReplicasValue (GetReplicas component (mi_Spec mc)).

Definition checkScaleKind (mc : Milvus) (lastDeploy : Deployment) : scaleKind :=
  if bool_decide (com_ImageUpdateMode (mi_Com mc) = ImageUpdateModeForce) then scaleKindForce
  else if IsHPAEnabled component (mi_Spec mc) then scaleKindHPA
  else if expectedReplicas mc <? 0 then scaleKindExternalHPA
  else if 0 <? getDeployReplicas lastDeploy then scaleKindRollout
  else scaleKindNormal.

Definition planScaleForForceUpgrade (mc : Milvus) (currentDeployment lastDeployment : Deployment)
    : scaleAction :=
  let currentDeployReplicas := getDeployReplicas currentDeployment in
  let expected := expectedReplicas mc in
  if negb (currentDeployReplicas =? expected) then scaleCurrent (expected - currentDeployReplicas)
  else
    let lastDeployReplicas := getDeployReplicas lastDeployment in
    if negb (lastDeployReplicas =? 0) then scaleLast (- lastDeployReplicas) else noScaleAction.

Definition hpaMinReplicas (mc : Milvus) : Z :=
  match h ← GetHPASpec component (mi_Spec mc); hpa_MinReplicas h with
  | Some r => r
  | None => 1
  end.

Definition planScaleForHPA (mc : Milvus) (currentDeployment lastDeployment : Deployment)
    : scaleAction :=
  let currentDeployReplicas := getDeployReplicas currentDeployment in
  let lastDeployReplicas := getDeployReplicas lastDeployment in
  let minReplicas := hpaMinReplicas mc in
  if 0 <? lastDeployReplicas then
    let targetReplicas :=
      if minReplicas <? lastDeployReplicas then lastDeployReplicas else minReplicas in
    if currentDeployReplicas <? targetReplicas
    then scaleCurrent (targetReplicas - currentDeployReplicas)
    else
      let readyReplicas := dss_ReadyReplicas (dep_Status currentDeployment) in
      if readyReplicas <? targetReplicas then noScaleAction else scaleLast (-1)
  else if currentDeployReplicas =? 0 then scaleCurrent minReplicas
  else noScaleAction.

Definition planScaleForExternalHPA (mc : Milvus) (currentDeployment lastDeployment : Deployment)
    : scaleAction :=
  let currentDeployReplicas := getDeployReplicas currentDeployment in
  let lastDeployReplicas := getDeployReplicas lastDeployment in
  if (currentDeployReplicas =? 0) && (lastDeployReplicas =? 0) then scaleCurrent 1
  else if int32_of currentDeployReplicas <? int32_of lastDeployReplicas
  then scaleCurrent (lastDeployReplicas - currentDeployReplicas)
  else if IsComponentRolling mc (GetStateKey component) && (0 <? lastDeployReplicas) then
    if int32_of lastDeployReplicas <=? dss_ReadyReplicas (dep_Status currentDeployment)
    then scaleLast (- lastDeployReplicas)
    else noScaleAction
  else noScaleAction.

Definition planScaleForRollout (mc : Milvus) (currentDeployment lastDeployment : Deployment)
    : scaleAction :=
  let lastDeployReplicas := getDeployReplicas lastDeployment in
  let currentDeployReplicas := getDeployReplicas currentDeployment in
  let currentReplicas := lastDeployReplicas + currentDeployReplicas in
  let expected := expectedReplicas mc in
  let '(surgeStep, unavailableStep) :=
    rolloutSteps (dsp_Strategy (dep_Spec currentDeployment)) expected in
  if surgeStep =? 0 then
    if currentReplicas <? expected then scaleCurrent (expected - currentReplicas)
    else
      let availableReplicas :=
        Z.min (dss_AvailableReplicas (dep_Status currentDeployment)) currentDeployReplicas
        + Z.min (dss_AvailableReplicas (dep_Status lastDeployment)) lastDeployReplicas in
      let scaleDown :=
        Z.min lastDeployReplicas (availableReplicas - Z.max 0 (expected - unavailableStep)) in
      if 0 <? scaleDown then scaleLast (- scaleDown) else noScaleAction
  else
    let scaleOut :=
      scaleCurrent (Z.min surgeStep (Z.min (expected - currentDeployReplicas)
                                       (expected + surgeStep - currentReplicas))) in
    let scaleIn := scaleLast (- Z.min (Z.max 1 unavailableStep) lastDeployReplicas) in
    if compareDeployResourceLimitEqual currentDeployment lastDeployment then
      if currentReplicas =? expected then
        if lastDeployReplicas =? 0 then noScaleAction else scaleOut
      else if expected <? currentReplicas then
        if 0 <? lastDeployReplicas then scaleIn else noScaleAction
      else scaleOut
    else if 0 <? lastDeployReplicas then
      if (currentDeployReplicas <? lastDeployReplicas) || (currentDeployReplicas <? expected) then
        if lastDeployReplicas <? expected then scaleCurrent (expected - currentDeployReplicas)
        else scaleCurrent (lastDeployReplicas - currentDeployReplicas)
      else scaleIn
    else if expected <? currentDeployReplicas then
      scaleCurrent (- Z.min (Z.max 1 unavailableStep) (currentDeployReplicas - expected))
    else if currentDeployReplicas <? expected then scaleCurrent (expected - currentDeployReplicas)
    else noScaleAction.

Definition planScaleForNormalState (mc : Milvus) (currentDeployment : Deployment) : scaleAction :=
  let currentReplicas := getDeployReplicas currentDeployment in
  let expected := expectedReplicas mc in
  if expected <? currentReplicas then scaleCurrent (-1)
  else if currentReplicas =? expected then noScaleAction
  else scaleCurrent (expected - currentReplicas).

(** The action and the two deployments, whose strategies were refreshed;
    [None] is the panic of reading a nil component. *)
Definition planNextScaleAction (mc : Milvus) (currentDeployment lastDeployment : Deployment)
    : option (scaleAction * Deployment * Deployment) :=
  let kind := checkScaleKind mc lastDeployment in
  strategy ← GetDeploymentStrategy mc component;
  let cur := set_dep_Strategy currentDeployment strategy in
  let last := set_dep_Strategy lastDeployment strategy in
  let action :=
    match kind with
    | scaleKindHPA => planScaleForHPA mc cur last
    | scaleKindExternalHPA => planScaleForExternalHPA mc cur last
    | scaleKindRollout => planScaleForRollout mc cur last
    | scaleKindForce => planScaleForForceUpgrade mc cur last
    | scaleKindNormal => planScaleForNormalState mc cur
    end in
  Some (action, cur, last).

(** The effect of [doScaleAction] on the two deployments. *)
Definition scaled (d : Deployment) (change : Z) : Deployment :=
  set_dep_Replicas d (int32Ptr (getDeployReplicas d + change)).

Definition applyScale (action : scaleAction) (cur last : Deployment) : Deployment * Deployment :=
  if sa_replicaChange action =? 0 then (cur, last)
  else match sa_deploy action with
       | Some CurrentDeployment => (scaled cur (sa_replicaChange action), last)
       | Some LastDeployment => (cur, scaled last (sa_replicaChange action))
       | None => (cur, last)
       end.
End Planner.

(** ** Comparison of limits *)

Lemma forallb_map_to_list {A} (f : string * A -> bool) (m : gmap string A) :
  forallb f (map_to_list m) = true <-> forall k v, m !! k = Some v -> f (k, v) = true.
Proof.
  rewrite forallb_forall. split.
  - intros H k v Hk. apply H. apply list_elem_of_In. by apply elem_of_map_to_list.
  - intros H [k v] Hin. apply list_elem_of_In in Hin. apply H. by apply elem_of_map_to_list.
Qed.

Lemma limitListEqual_spec a b : limitListEqual a b = true <-> a = b.
Proof.
  unfold limitListEqual. rewrite andb_true_iff, Nat.eqb_eq, forallb_map_to_list. split.
  - intros [Hs Hf]. apply map_subseteq_size_eq; [|lia]. apply map_subseteq_spec.
    intros k v Hk. specialize (Hf k v Hk). simpl in Hf.
    destruct (b !! k); [|done]. by apply bool_decide_eq_true in Hf as ->.
  - intros ->. split; [done|]. intros k v Hk. simpl. rewrite Hk. by apply bool_decide_eq_true.
Qed.

Lemma compareDeployResourceLimitEqual_spec c l :
  compareDeployResourceLimitEqual c l = true <-> deployLimits c = deployLimits l.
Proof.
  unfold compareDeployResourceLimitEqual.
  rewrite andb_true_iff, Nat.eqb_eq, forallb_map_to_list. split.
  - intros [Hs Hf]. apply map_subseteq_size_eq; [|lia]. apply map_subseteq_spec.
    intros k v Hk. specialize (Hf k v Hk). simpl in Hf.
    destruct (deployLimits l !! k); [|done]. by apply limitListEqual_spec in Hf as ->.
  - intros ->. split; [done|]. intros k v Hk. simpl. rewrite Hk. by apply limitListEqual_spec.
Qed.
