(* ===== verification/ScaleProofs.v ===== *)
(** * Correctness of the scale planner

    The planner decides one step at a time from the two deployments it reads.
    [rolloutNext] is the abstract step on the pair of replica counts, for a
    component that is not autoscaled nor forced; [plan_refines] shows that
    planning and applying an action on settled deployments is that step.  From
    it: a rollout converges to the expected replicas on the new deployment and
    none on the old one, within a bound; it never exceeds its surge budget and
    never goes below its availability budget; replica counts never wrap. *)
From S2P Require Import Prelude KubeTypes Libs ApiTypes Labels Utils.
From S2P Require Import Components RollingUpdate ScalePlanner Examples.

Local Open Scope string_scope.
Local Open Scope list_scope.
Local Open Scope Z_scope.

(** A sequence whose measure decreases until it is at a fixed goal reaches the
    goal within its first measure, and stays. *)
Lemma measure_reaches {A B} (obs : A -> B) (goal : B) (n : nat) : forall (f : nat -> A) (mu : nat -> Z),
  (forall i, 0 <= mu i) -> mu 0%nat <= Z.of_nat n ->
  (forall i, obs (f i) = goal -> obs (f (S i)) = goal) ->
  (forall i, obs (f i) = goal \/ mu (S i) < mu i) ->
  exists k, Z.of_nat k <= mu 0%nat /\ forall m, (k <= m)%nat -> obs (f m) = goal.
Proof.
  induction n as [|n IH]; intros f mu Hpos Hn Hstay Hdec;
    (destruct (Hdec 0%nat) as [Hg|Hlt];
     [exists 0%nat; split; [apply Hpos|];
      intros m _; induction m as [|m IHm]; [done|by apply Hstay]|]).
  - specialize (Hpos 1%nat). lia.
  - destruct (IH (fun i => f (S i)) (fun i => mu (S i))) as (k & Hk & Hall); try (intros; auto); [lia|].
    exists (S k). split; [lia|]. intros [|m] Hm; [lia|]. apply Hall. lia.
Qed.

(** ** The abstract step *)

Definition rolloutNext (expected surge unavailable : Z) (sameLimits : bool) (cur last : Z) : Z * Z :=
  if 0 <? last then
    if surge =? 0 then
      if cur + last <? expected then (expected - last, last)
      else (cur, last - Z.max 0 (Z.min last (cur + last - Z.max 0 (expected - unavailable))))
    else if sameLimits then
      if cur + last <=? expected
      then (cur + Z.min surge (Z.min (expected - cur) (expected + surge - (cur + last))), last)
      else (cur, last - Z.min (Z.max 1 unavailable) last)
    else if cur <? Z.max last expected then (Z.max last expected, last)
    else (cur, last - Z.min (Z.max 1 unavailable) last)
  else if expected <? cur then (cur - 1, last)
  else (expected, last).

(** How far a pair is from the end of the rollout. *)
Definition rolloutMeasure (expected : Z) (cur last : Z) : Z :=
  if 0 <? last then last + (Z.max cur (Z.max last expected) - expected)
                    + Z.max 0 (Z.max last expected - cur)
  else Z.abs (expected - cur).

Section Abstract.
Context (expected surge unavailable : Z).
Context (Hexp : 0 < expected) (Hsurge : 0 <= surge) (Hunav : 0 <= unavailable <= expected).

Ltac next_cases :=
  unfold rolloutNext, rolloutMeasure;
  repeat match goal with
  | |- context [(?a <? ?b)%Z] => destruct (Z.ltb_spec a b)
  | |- context [(?a =? ?b)%Z] => destruct (Z.eqb_spec a b)
  | |- context [(?a <=? ?b)%Z] => destruct (Z.leb_spec a b)
  | |- context [if ?b then _ else _] => is_var b; destruct b
  end; simpl; try lia.

Lemma rolloutNext_nonneg same cur last :
  0 <= cur -> 0 <= last ->
  0 <= fst (rolloutNext expected surge unavailable same cur last) /\
  0 <= snd (rolloutNext expected surge unavailable same cur last).
Proof using All. intros. next_cases. Qed.

(** A count never exceeds the largest of the old counts and the target. *)
Lemma rolloutNext_max same cur last :
  0 <= cur -> 0 <= last ->
  fst (rolloutNext expected surge unavailable same cur last) <= Z.max cur (Z.max last expected) /\
  snd (rolloutNext expected surge unavailable same cur last) <= last.
Proof using All. intros. next_cases. Qed.

(** The step makes progress until the rollout is over. *)
Lemma rolloutNext_progress same cur last :
  0 <= cur -> 0 <= last -> 0 < surge \/ 0 < unavailable ->
  let '(cur', last') := rolloutNext expected surge unavailable same cur last in
  (cur = expected /\ last = 0 /\ cur' = expected /\ last' = 0) \/
  0 <= rolloutMeasure expected cur' last' < rolloutMeasure expected cur last.
Proof using All. intros. next_cases. Qed.

(** Over budget only if it already was: at most [surge] extra replicas. *)
Lemma rolloutNext_surge cur last :
  0 <= cur -> 0 <= last ->
  let '(cur', last') := rolloutNext expected surge unavailable true cur last in
  cur' + last' <= Z.max (cur + last) (expected + surge).
Proof using All. intros. next_cases. Qed.

(** Never below the availability budget unless it already was. *)
Lemma rolloutNext_available same cur last :
  0 <= cur -> 0 <= last ->
  let '(cur', last') := rolloutNext expected surge unavailable same cur last in
  Z.min (cur + last) (expected - unavailable) <= cur' + last'.
Proof using All. intros. next_cases. Qed.
End Abstract.

(** ** Deployments *)

(** The deployment controller has caught up: as many available and ready pods
    as the deployment asks for. *)
Definition settled (d : Deployment) : Prop :=
  dss_AvailableReplicas (dep_Status d) = getDeployReplicas d /\
  dss_ReadyReplicas (dep_Status d) = getDeployReplicas d.

(** What the next reconcile reads of a deployment that was written: the same
    spec, with a status that has caught up. *)
Definition observed (d d' : Deployment) : Prop := dep_Spec d' = dep_Spec d /\ settled d'.

Definition validReplicas (d : Deployment) : Prop := 0 <= getDeployReplicas d <= int32_max.

Lemma getDeployReplicas_spec d d' :
  dep_Spec d = dep_Spec d' -> getDeployReplicas d = getDeployReplicas d'.
Proof. unfold getDeployReplicas. by intros ->. Qed.

Lemma getDeployReplicas_setStrategy d st :
  getDeployReplicas (set_dep_Strategy d st) = getDeployReplicas d.
Proof. done. Qed.

Lemma getDeployReplicas_scaled d z :
  0 <= getDeployReplicas d + z <= int32_max ->
  getDeployReplicas (scaled d z) = getDeployReplicas d + z.
Proof.
  intros H. unfold scaled, getDeployReplicas, int32Ptr. simpl.
  apply int32_of_id. unfold in_int32, int32_min. fold (getDeployReplicas d). lia.
Qed.

Lemma deployLimits_spec d d' : dep_Spec d = dep_Spec d' -> deployLimits d = deployLimits d'.
Proof. unfold deployLimits. by intros ->. Qed.

Section Rollout.
Context {US : Unstructured} {IS : IntStr}.
Context (component : MilvusComponent) (mc : Milvus).

(** The component is scaled by the operator alone. *)
Definition plainScaling : Prop :=
  com_ImageUpdateMode (mi_Com mc) <> ImageUpdateModeForce /\
  IsHPAEnabled component (mi_Spec mc) = false /\
  0 < expectedReplicas component mc <= int32_max.

Context (strategy : DeploymentStrategy) (Hst : GetDeploymentStrategy mc component = Some strategy).

Notation expected := (expectedReplicas component mc).
Notation surge := (fst (rolloutSteps strategy expected)).
Notation unavailable := (snd (rolloutSteps strategy expected)).

Lemma checkScaleKind_plain last :
  plainScaling -> 0 <= getDeployReplicas last ->
  checkScaleKind component mc last
  = if 0 <? getDeployReplicas last then scaleKindRollout else scaleKindNormal.
Proof.
  intros (Hf & Hh & He) Hl. unfold checkScaleKind.
  rewrite bool_decide_eq_false_2, Hh by done.
  destruct (Z.ltb_spec expected 0); [lia|done].
Qed.

(** The counts after planning and applying one action. *)
Definition planned (cur last : Deployment) : option (Z * Z) :=
  '(a, c, l) ← planNextScaleAction component mc cur last;
  let '(c', l') := applyScale a c l in
  Some (getDeployReplicas c', getDeployReplicas l').

Lemma applyScale_counts a c l nc nl :
  validReplicas c -> validReplicas l -> 0 <= nc <= int32_max -> 0 <= nl <= int32_max ->
  (sa_deploy a = Some CurrentDeployment /\ nc = getDeployReplicas c + sa_replicaChange a /\
     nl = getDeployReplicas l) \/
  (sa_deploy a = Some LastDeployment /\ nl = getDeployReplicas l + sa_replicaChange a /\
     nc = getDeployReplicas c) \/
  (sa_deploy a = None /\ nc = getDeployReplicas c /\ nl = getDeployReplicas l) ->
  let '(c', l') := applyScale a c l in (getDeployReplicas c', getDeployReplicas l') = (nc, nl).
Proof.
  intros Hc Hl Hnc Hnl H. unfold applyScale.
  destruct (Z.eqb_spec (sa_replicaChange a) 0) as [E|E].
  - rewrite E in H. f_equal; lia.
  - destruct H as [(-> & -> & ->)|[(-> & -> & ->)|(-> & -> & ->)]]; try done;
      rewrite getDeployReplicas_scaled by lia; done.
Qed.

(** Planning and applying one action on settled deployments is the abstract
    step. *)
Lemma plan_refines cur last :
  plainScaling -> validReplicas cur -> validReplicas last -> settled cur -> settled last ->
  planned cur last
  = Some (rolloutNext expected surge unavailable
            (compareDeployResourceLimitEqual cur last)
            (getDeployReplicas cur) (getDeployReplicas last)).
Proof.
  intros Hplain Hc Hl [Hsc _] [Hsl _].
  pose proof Hplain as (_ & _ & He).
  unfold planned, planNextScaleAction. rewrite Hst. cbn [mbind option_bind].
  rewrite checkScaleKind_plain by (done || apply Hl).
  pose proof (rolloutSteps_surge_nonneg strategy expected) as Hs0.
  pose proof (rolloutSteps_unavailable_bounds strategy expected) as Hu0.
  assert (0 < expected) as He0 by lia.
  assert (0 <= unavailable <= expected) as Hu1 by lia.
  pose proof (rolloutNext_nonneg expected surge unavailable He0 Hs0 Hu1
                (compareDeployResourceLimitEqual cur last) _ _ (proj1 Hc) (proj1 Hl)) as Hn0.
  pose proof (rolloutNext_max expected surge unavailable He0 Hs0 Hu1
                (compareDeployResourceLimitEqual cur last) _ _ (proj1 Hc) (proj1 Hl)) as Hn1.
  set (n := rolloutNext _ _ _ _ _ _) in *.
  assert (0 <= fst n <= int32_max /\ 0 <= snd n <= int32_max) as [Hn2 Hn3]
    by (unfold validReplicas in *; lia).
  match goal with |- context [applyScale ?act ?c ?l] => set (a := act) end.
  pose proof (applyScale_counts a (set_dep_Strategy cur strategy) (set_dep_Strategy last strategy)
                (fst n) (snd n) Hc Hl Hn2 Hn3) as Happ.
  destruct (applyScale a _ _) as [c' l'] eqn:Ea.
  rewrite Happ; [by destruct n|]. clear Happ Ea c' l' Hn0 Hn1 Hn2 Hn3.
  subst a n. unfold rolloutNext, planScaleForRollout, planScaleForNormalState.
  rewrite !getDeployReplicas_setStrategy. cbn [dep_Status set_dep_Strategy]. rewrite Hsc, Hsl.
  change (compareDeployResourceLimitEqual (set_dep_Strategy cur strategy)
            (set_dep_Strategy last strategy)) with (compareDeployResourceLimitEqual cur last).
  change (dsp_Strategy (dep_Spec (set_dep_Strategy cur strategy))) with strategy.
  destruct (rolloutSteps strategy expected) as [s u]. simpl in *.
  unfold validReplicas in *.
  set (x := getDeployReplicas cur) in *. set (y := getDeployReplicas last) in *.
  set (e := expected) in *. clearbody x y e.
  destruct (compareDeployResourceLimitEqual cur last);
    repeat (simpl; match goal with
    | |- context [(?a <? ?b)%Z] => destruct (Z.ltb_spec a b)
    | |- context [(?a =? ?b)%Z] => destruct (Z.eqb_spec a b)
    | |- context [(?a <=? ?b)%Z] => destruct (Z.leb_spec a b)
    end); simpl; try lia;
    first [left; split; [done|lia] | right; left; split; [done|lia] | right; right; split; [done|lia]].
Qed.

(** ** Sequences of reconciles *)

(** One reconcile of the pair of deployments: plan, apply, and wait until the
    deployments have settled. *)
Definition rollout_step (s s' : Deployment * Deployment) : Prop :=
  exists a c l, planNextScaleAction component mc (fst s) (snd s) = Some (a, c, l) /\
    let '(c', l') := applyScale a c l in observed c' (fst s') /\ observed l' (snd s').

Definition counts (s : Deployment * Deployment) : Z * Z :=
  (getDeployReplicas (fst s), getDeployReplicas (snd s)).

Definition goodState (s : Deployment * Deployment) : Prop :=
  validReplicas (fst s) /\ validReplicas (snd s) /\ settled (fst s) /\ settled (snd s).

Lemma applyScale_limits a c l :
  let '(c', l') := applyScale a c l in
  deployLimits c' = deployLimits c /\ deployLimits l' = deployLimits l.
Proof. unfold applyScale. destruct (_ =? 0); [done|]. by destruct (sa_deploy a) as [[]|]. Qed.

Lemma rollout_step_next s s' :
  plainScaling -> goodState s -> rollout_step s s' ->
  counts s' = rolloutNext expected surge unavailable
                (compareDeployResourceLimitEqual (fst s) (snd s)) (fst (counts s)) (snd (counts s))
  /\ compareDeployResourceLimitEqual (fst s') (snd s')
     = compareDeployResourceLimitEqual (fst s) (snd s)
  /\ goodState s'.
Proof.
  intros Hp (Hc & Hl & Hsc & Hsl) (a & c & l & Hplan & Hobs).
  pose proof (plan_refines (fst s) (snd s) Hp Hc Hl Hsc Hsl) as Href.
  unfold planned in Href. rewrite Hplan in Href. simpl in Href.
  pose proof (applyScale_limits a c l) as Hlim.
  destruct (applyScale a c l) as [c' l']. destruct Hobs as [[Hc1 Hc2] [Hl1 Hl2]].
  injection Href as Href.
  assert (counts s' = rolloutNext expected surge unavailable
            (compareDeployResourceLimitEqual (fst s) (snd s)) (fst (counts s)) (snd (counts s)))
    as Hcounts.
  { unfold counts. cbn [fst snd]. rewrite <-Href. by rewrite (getDeployReplicas_spec _ _ Hc1),
      (getDeployReplicas_spec _ _ Hl1). }
  split; [done|]. split.
  - assert (deployLimits (fst s') = deployLimits (fst s) /\ deployLimits (snd s') = deployLimits (snd s))
      as [E1 E2].
    { rewrite (deployLimits_spec _ _ Hc1), (deployLimits_spec _ _ Hl1).
      destruct Hlim as [-> ->]. unfold planNextScaleAction in Hplan. rewrite Hst in Hplan.
      cbn [mbind option_bind] in Hplan. by injection Hplan as _ <- <-. }
    unfold compareDeployResourceLimitEqual. by rewrite E1, E2.
  - destruct Hp as (_ & _ & He).
    pose proof (rolloutSteps_surge_nonneg strategy expected) as Hs0.
    pose proof (rolloutSteps_unavailable_bounds strategy expected) as Hu0.
    assert (0 < expected) as He0 by lia. assert (0 <= unavailable <= expected) as Hu1 by lia.
    set (b := compareDeployResourceLimitEqual (fst s) (snd s)) in *.
    pose proof (rolloutNext_nonneg _ _ _ He0 Hs0 Hu1 b _ _ (proj1 Hc) (proj1 Hl)) as Hn0.
    pose proof (rolloutNext_max _ _ _ He0 Hs0 Hu1 b _ _ (proj1 Hc) (proj1 Hl)) as Hn1.
    unfold counts in Hcounts. simpl in Hcounts. rewrite <-Hcounts in Hn0, Hn1. simpl in *.
    unfold goodState, validReplicas in *. repeat split; lia || apply Hc2 || apply Hl2.
Qed.

Lemma budgets : plainScaling -> 0 < expected /\ 0 <= surge /\ 0 <= unavailable <= expected.
Proof.
  intros (_ & _ & He). pose proof (rolloutSteps_surge_nonneg strategy expected).
  pose proof (rolloutSteps_unavailable_bounds strategy expected). lia.
Qed.

Lemma goodState_all (f : nat -> Deployment * Deployment) :
  plainScaling -> goodState (f 0%nat) -> (forall i, rollout_step (f i) (f (S i))) ->
  forall i, goodState (f i).
Proof.
  intros Hp Hg Hstep i. induction i as [|i IH]; [done|].
  by apply (rollout_step_next (f i) (f (S i))).
Qed.

(** An invariant of the abstract step holds along a sequence of reconciles. *)
Lemma rollout_invariant (Inv : Z -> Z -> Prop) (f : nat -> Deployment * Deployment) :
  plainScaling -> goodState (f 0%nat) -> (forall i, rollout_step (f i) (f (S i))) ->
  Inv (fst (counts (f 0%nat))) (snd (counts (f 0%nat))) ->
  (forall cur last, 0 <= cur -> 0 <= last -> Inv cur last ->
     let '(cur', last') :=
       rolloutNext expected surge unavailable
         (compareDeployResourceLimitEqual (fst (f 0%nat)) (snd (f 0%nat))) cur last in
     Inv cur' last') ->
  forall i, Inv (fst (counts (f i))) (snd (counts (f i))).
Proof.
  intros Hp Hg Hstep H0 Hinv i.
  pose proof (goodState_all f Hp Hg Hstep) as Hgood.
  assert (compareDeployResourceLimitEqual (fst (f i)) (snd (f i))
          = compareDeployResourceLimitEqual (fst (f 0%nat)) (snd (f 0%nat))
          /\ Inv (fst (counts (f i))) (snd (counts (f i)))) as [_ ?]; [|done].
  induction i as [|i [IHe IH]]; [done|].
  destruct (rollout_step_next _ _ Hp (Hgood i) (Hstep i)) as (Hn & He & _).
  split; [by rewrite He|]. rewrite Hn, IHe.
  destruct (Hgood i) as (Hc & Hl & _).
  specialize (Hinv _ _ (proj1 Hc) (proj1 Hl) IH). unfold counts. simpl in *.
  by destruct (rolloutNext _ _ _ _ _ _).
Qed.

(** A rollout converges.  For a component that is neither autoscaled nor
    force-updated and whose strategy has a positive surge or unavailability
    budget, any sequence of reconciles that each plan and apply one scale
    action and then see settled deployments reaches the expected replicas on
    the current deployment and zero on the last one, within as many reconciles
    as [rolloutMeasure] of its start, and stays there. *)
Theorem rollout_converges (f : nat -> Deployment * Deployment) :
  plainScaling -> 0 < surge \/ 0 < unavailable ->
  goodState (f 0%nat) -> (forall i, rollout_step (f i) (f (S i))) ->
  exists n, Z.of_nat n <= rolloutMeasure expected (fst (counts (f 0%nat))) (snd (counts (f 0%nat)))
    /\ forall m, (n <= m)%nat -> counts (f m) = (expected, 0).
Proof.
  intros Hp Hprog Hg Hstep.
  pose proof (budgets Hp) as (He0 & Hs0 & Hu1).
  pose proof (goodState_all f Hp Hg Hstep) as Hgood.
  set (mu i := rolloutMeasure expected (fst (counts (f i))) (snd (counts (f i)))).
  assert (forall i, counts (f i) = (expected, 0) /\ counts (f (S i)) = (expected, 0)
                    \/ 0 <= mu (S i) < mu i) as Hdec.
  { intros i. destruct (Hgood i) as (Hc & Hl & _).
    destruct (rollout_step_next _ _ Hp (Hgood i) (Hstep i)) as (Hn & _ & _).
    pose proof (rolloutNext_progress _ _ _ He0 Hs0 Hu1
                  (compareDeployResourceLimitEqual (fst (f i)) (snd (f i))) _ _
                  (proj1 Hc) (proj1 Hl) Hprog) as Hpr.
    unfold mu. rewrite Hn. unfold counts. simpl.
    destruct (rolloutNext _ _ _ _ _ _) as [x y]. simpl.
    destruct Hpr as [(-> & -> & -> & ->)|Hpr]; [by left|right; lia]. }
  assert (forall i, 0 <= mu i) as Hpos.
  { intros i. unfold mu, rolloutMeasure. case_if_bool; lia. }
  apply (measure_reaches counts (expected, 0) (Z.to_nat (mu 0%nat)) f mu Hpos).
  - specialize (Hpos 0%nat). lia.
  - intros i Hi. destruct (Hdec i) as [[_ ?]|Hlt]; [done|].
    assert (mu i = 0) by (unfold mu; rewrite Hi; unfold rolloutMeasure; simpl; lia). lia.
  - intros i. destruct (Hdec i) as [[? _]|?]; [by left|right; lia].
Qed.

(** C5. A rollout respects its surge budget: with the replicas of the resource
    ([plainScaling]), from a settled state, and when the resource limits of the two
    deployments are equal, no reconcile of a rollout takes the total number of
    replicas above the larger of the expected ones plus the surge step and the
    total at the start. *)
Theorem rollout_within_surge (f : nat -> Deployment * Deployment) i :
  plainScaling -> goodState (f 0%nat) -> (forall j, rollout_step (f j) (f (S j))) ->
  compareDeployResourceLimitEqual (fst (f 0%nat)) (snd (f 0%nat)) = true ->
  fst (counts (f i)) + snd (counts (f i))
  <= Z.max (fst (counts (f 0%nat)) + snd (counts (f 0%nat))) (expected + surge).
Proof.
  intros Hp Hg Hstep Heq. destruct (budgets Hp) as (He0 & Hs0 & Hu1).
  set (t := fst (counts (f 0%nat)) + snd (counts (f 0%nat))).
  apply (rollout_invariant (fun c l => c + l <= Z.max t (expected + surge)) f Hp Hg Hstep); [lia|].
  intros cur last Hc Hl Hinv. rewrite Heq.
  pose proof (rolloutNext_surge _ _ _ He0 Hs0 Hu1 cur last Hc Hl).
  destruct (rolloutNext _ _ _ _ _ _). lia.
Qed.

(** C6. A rollout respects its availability budget: with the replicas of the
    resource ([plainScaling]) and from a settled state no reconcile takes the total
    number of replicas below the smaller of the expected ones minus the
    unavailability step and the total at the start. *)
Theorem rollout_keeps_available (f : nat -> Deployment * Deployment) i :
  plainScaling -> goodState (f 0%nat) -> (forall j, rollout_step (f j) (f (S j))) ->
  Z.min (fst (counts (f 0%nat)) + snd (counts (f 0%nat))) (expected - unavailable)
  <= fst (counts (f i)) + snd (counts (f i)).
Proof.
  intros Hp Hg Hstep. destruct (budgets Hp) as (He0 & Hs0 & Hu1).
  set (t := fst (counts (f 0%nat)) + snd (counts (f 0%nat))).
  apply (rollout_invariant (fun c l => Z.min t (expected - unavailable) <= c + l) f Hp Hg Hstep);
    [lia|].
  intros cur last Hc Hl Hinv.
  pose proof (rolloutNext_available _ _ _ He0 Hs0 Hu1
                (compareDeployResourceLimitEqual (fst (f 0%nat)) (snd (f 0%nat))) cur last Hc Hl).
  destruct (rolloutNext _ _ _ _ _ _). lia.
Qed.


(** A deployment controller that catches up at once. *)
Definition settle (d : Deployment) : Deployment :=
  mkDeployment (dep_Meta d) (dep_Spec d)
    (mkDStatus (om_Generation (dep_Meta d)) (getDeployReplicas d) (getDeployReplicas d)
       (getDeployReplicas d) (getDeployReplicas d) 0 []).

Definition reconcileOnce (s : Deployment * Deployment) : Deployment * Deployment :=
  match planNextScaleAction component mc (fst s) (snd s) with
  | Some (a, c, l) => let '(c', l') := applyScale a c l in (settle c', settle l')
  | None => s
  end.

(** Every pair has a next one. *)
Lemma reconcileOnce_step s : rollout_step s (reconcileOnce s).
Proof.
  unfold rollout_step, reconcileOnce, planNextScaleAction. rewrite Hst. cbn [mbind option_bind].
  eexists _, _, _. split; [done|].
  match goal with |- context [applyScale ?a ?c ?l] => destruct (applyScale a c l) as [c' l'] end.
  done.
Qed.
End Rollout.

(** ** Properties of single plans *)

Section Plans.
Context {US : Unstructured} {IS : IntStr}.
Context (component : MilvusComponent) (mc : Milvus).

Notation expected := (expectedReplicas component mc).

(** Replica counts stay in range for every kind of plan, when a forced update
    is not combined with an external autoscaler. *)
Definition planInputsOk (cur last : Deployment) : Prop :=
  validReplicas cur /\ validReplicas last /\ in_int32 expected /\
  0 <= hpaMinReplicas component mc <= int32_max /\
  (com_ImageUpdateMode (mi_Com mc) = ImageUpdateModeForce -> 0 <= expected).

Definition inRange (a : scaleAction) (cur last : Deployment) : Prop :=
  match sa_deploy a with
  | Some CurrentDeployment => 0 <= getDeployReplicas cur + sa_replicaChange a <= int32_max
  | Some LastDeployment => 0 <= getDeployReplicas last + sa_replicaChange a <= int32_max
  | None => sa_replicaChange a = 0
  end.

Ltac plan_cases :=
  repeat (simpl; match goal with
  | |- context [(?a <? ?b)%Z] => destruct (Z.ltb_spec a b)
  | |- context [(?a =? ?b)%Z] => destruct (Z.eqb_spec a b)
  | |- context [(?a <=? ?b)%Z] => destruct (Z.leb_spec a b)
  | |- context [if ?b then _ else _] => destruct b eqn:?
  end); simpl; try lia.

Lemma rollout_inRange cur last :
  planInputsOk cur last -> 0 <= expected -> inRange (planScaleForRollout component mc cur last) cur last.
Proof.
  intros (Hc & Hl & He & _) He0. unfold planScaleForRollout, inRange, validReplicas, in_int32 in *.
  pose proof (rolloutSteps_surge_nonneg (dsp_Strategy (dep_Spec cur)) expected) as Hs0.
  pose proof (rolloutSteps_unavailable_bounds (dsp_Strategy (dep_Spec cur)) expected) as Hu0.
  destruct (rolloutSteps _ _) as [s u]. simpl in *.
  set (x := getDeployReplicas cur) in *. set (y := getDeployReplicas last) in *.
  set (e := expected) in *. clearbody x y e.
  plan_cases.
Qed.

Lemma other_inRange cur last :
  planInputsOk cur last ->
  inRange (planScaleForHPA component mc cur last) cur last /\
  inRange (planScaleForExternalHPA component mc cur last) cur last /\
  (com_ImageUpdateMode (mi_Com mc) = ImageUpdateModeForce ->
   inRange (planScaleForForceUpgrade component mc cur last) cur last) /\
  (0 <= expected -> inRange (planScaleForNormalState component mc cur) cur last).
Proof.
  intros (Hc & Hl & He & Hm & Hf). unfold validReplicas, in_int32 in *.
  repeat split; try intros Hforce;
    unfold planScaleForHPA, planScaleForExternalHPA, planScaleForForceUpgrade,
      planScaleForNormalState, inRange;
    [ | |specialize (Hf Hforce)|];
    set (x := getDeployReplicas cur) in *; set (y := getDeployReplicas last) in *;
    rewrite ?(int32_of_id x), ?(int32_of_id y) by (unfold in_int32, int32_min; lia);
    set (hm := hpaMinReplicas component mc) in *; set (e := expected) in *;
    clearbody x y e hm; plan_cases; unfold int32_max in *; lia.
Qed.

Lemma plan_inRange cur last a c l :
  planInputsOk cur last -> planNextScaleAction component mc cur last = Some (a, c, l) ->
  inRange a c l.
Proof.
  intros Hok. unfold planNextScaleAction.
  destruct (GetDeploymentStrategy mc component) as [st|]; [|done]. cbn [mbind option_bind].
  intros [= <- <- <-].
  assert (planInputsOk (set_dep_Strategy cur st) (set_dep_Strategy last st)) as Hok' by exact Hok.
  destruct (other_inRange _ _ Hok') as (Hh & Hx & Hfo & Hn).
  unfold checkScaleKind. case_bool_decide as Ef; [by apply Hfo|].
  destruct (IsHPAEnabled component (mi_Spec mc)); [done|].
  destruct (Z.ltb_spec expected 0); [done|].
  destruct (0 <? getDeployReplicas last); [|by apply Hn]. by apply rollout_inRange.
Qed.

(** A rollout without surge never takes away more available pods than
    [maxUnavailable] allows.  Whatever the statuses of the deployments, if the
    planner scales the last deployment down, then the pods that are available
    now (counting at most the desired ones of each deployment) minus the pods
    it removes are still at least the expected replicas minus the
    unavailability step, and it removes no more than the deployment has. *)
Theorem noSurge_keeps_available cur last k :
  fst (rolloutSteps (dsp_Strategy (dep_Spec cur)) expected) = 0 ->
  planScaleForRollout component mc cur last = scaleLast (- k) ->
  let available := Z.min (dss_AvailableReplicas (dep_Status cur)) (getDeployReplicas cur)
                   + Z.min (dss_AvailableReplicas (dep_Status last)) (getDeployReplicas last) in
  0 < k <= getDeployReplicas last /\
  expected - snd (rolloutSteps (dsp_Strategy (dep_Spec cur)) expected) <= available - k.
Proof.
  unfold planScaleForRollout. destruct (rolloutSteps _ _) as [s u]. simpl. intros ->. simpl.
  case_if_bool; [done|]. case_if_bool; [|done]. unfold scaleLast. intros [= Hk]. lia.
Qed.

(** With an operator-managed autoscaler the old deployment gives up a
    replica only when the new one can carry the load: the planner scales the
    last deployment down one replica at a time, and only when the current one
    has at least as many ready pods as the last one has replicas and as the
    autoscaler's minimum. *)
Theorem hpa_scales_down_ready cur last change :
  planScaleForHPA component mc cur last = scaleLast change ->
  change = -1 /\ 0 < getDeployReplicas last <= dss_ReadyReplicas (dep_Status cur) /\
  hpaMinReplicas component mc <= dss_ReadyReplicas (dep_Status cur).
Proof.
  unfold planScaleForHPA.
  destruct (Z.ltb_spec (hpaMinReplicas component mc) (getDeployReplicas last));
    repeat case_if_bool; try done; intros [= <-]; lia.
Qed.

(** C35. Replica counts never wrap.  For every kind of plan on deployments with
    replica counts in [0, 2^31), with int32 settings and no forced update of an
    externally autoscaled component, the count written by [doScaleAction] is
    the exact sum, again in [0, 2^31), in spite of the conversion to int32. *)
Theorem plan_never_wraps cur last a c l :
  planInputsOk cur last -> planNextScaleAction component mc cur last = Some (a, c, l) ->
  let '(c', l') := applyScale a c l in
  validReplicas c' /\ validReplicas l' /\
  getDeployReplicas c' + getDeployReplicas l'
  = getDeployReplicas cur + getDeployReplicas last + sa_replicaChange a.
Proof.
  intros Hok Hplan. pose proof (plan_inRange _ _ _ _ _ Hok Hplan) as Hr.
  destruct Hok as (Hc & Hl & _). unfold planNextScaleAction in Hplan.
  destruct (GetDeploymentStrategy mc component) as [st|]; [|done].
  cbn [mbind option_bind] in Hplan. injection Hplan as _ <- <-.
  unfold applyScale, inRange in *. rewrite !getDeployReplicas_setStrategy in Hr.
  unfold validReplicas in *.
  destruct (Z.eqb_spec (sa_replicaChange a) 0) as [->|];
    [rewrite !getDeployReplicas_setStrategy; lia|].
  destruct (sa_deploy a) as [[]|]; [| |lia]; rewrite getDeployReplicas_scaled by done;
    rewrite !getDeployReplicas_setStrategy; lia.
Qed.

(** A forced update of a component with an external autoscaler (replicas -1
    and no HPA spec) plans a negative replica count for the current
    deployment. *)
Theorem force_with_external_hpa cur last a c l :
  com_ImageUpdateMode (mi_Com mc) = ImageUpdateModeForce -> expected = -1 -> validReplicas cur ->
  planNextScaleAction component mc cur last = Some (a, c, l) ->
  getDeployReplicas (fst (applyScale a c l)) = -1.
Proof.
  intros Hf He Hc. unfold planNextScaleAction.
  destruct (GetDeploymentStrategy mc component) as [st|]; [|done]. cbn [mbind option_bind].
  unfold checkScaleKind. rewrite bool_decide_eq_true_2 by done.
  intros [= <- <- <-]. unfold planScaleForForceUpgrade, validReplicas in *. rewrite He.
  rewrite getDeployReplicas_setStrategy.
  destruct (Z.eqb_spec (getDeployReplicas cur) (-1)); [lia|]. unfold applyScale. simpl.
  destruct (Z.eqb_spec (-1 - getDeployReplicas cur) 0); [lia|].
  unfold scaled, getDeployReplicas at 1, int32Ptr. simpl.
  rewrite getDeployReplicas_setStrategy, int32_of_id; [lia|]. unfold in_int32, int32_min, int32_max. lia.
Qed.
End Plans.

(** ** Witnesses *)

Section Witnesses.
#[local] Existing Instance concreteUnstructured.
#[local] Existing Instance concreteIntStr.

(** A query node going from three replicas of the old image to four of the new. *)
Definition exRollout (i : nat) : Deployment * Deployment :=
  Nat.iter i (reconcileOnce QueryNode (exMilvus 4))
    (exDeployment "1" "milvus:new" 0, exDeployment "0" "milvus:old" 3).

Definition exStrategy : DeploymentStrategy :=
  mkStrategy RollingUpdateDeploymentStrategyType
    (Some (mkRollingUpdate (Some (intOf 0)) (Some (intOf 1)))).

Lemma exStrategy_ok : GetDeploymentStrategy (exMilvus 4) QueryNode = Some exStrategy.
Proof. vm_compute. reflexivity. Qed.

Lemma exPlain : plainScaling QueryNode (exMilvus 4).
Proof. split; [done|]. split; [vm_compute; reflexivity|]. vm_compute. split; congruence. Qed.

Lemma exGood : goodState (exRollout 0).
Proof. repeat split; vm_compute; congruence. Qed.

Lemma exSteps i : rollout_step QueryNode (exMilvus 4) (exRollout i) (exRollout (S i)).
Proof. apply (reconcileOnce_step QueryNode (exMilvus 4) exStrategy exStrategy_ok). Qed.

Lemma rollout_converges_witness :
  exists n, Z.of_nat n <= 7 /\ forall m, (n <= m)%nat -> counts (exRollout m) = (4, 0).
Proof.
  assert (0 < fst (rolloutSteps exStrategy 4) \/ 0 < snd (rolloutSteps exStrategy 4)) as H
    by (left; vm_compute; reflexivity).
  exact (rollout_converges QueryNode (exMilvus 4) exStrategy exStrategy_ok exRollout exPlain H
           exGood exSteps).
Defined.

Lemma rollout_within_surge_witness : fst (counts (exRollout 3)) + snd (counts (exRollout 3)) <= 5.
Proof.
  exact (rollout_within_surge QueryNode (exMilvus 4) exStrategy exStrategy_ok exRollout 3 exPlain
           exGood exSteps eq_refl).
Defined.

Lemma rollout_keeps_available_witness : 3 <= fst (counts (exRollout 5)) + snd (counts (exRollout 5)).
Proof.
  exact (rollout_keeps_available QueryNode (exMilvus 4) exStrategy exStrategy_ok exRollout 5 exPlain
           exGood exSteps).
Defined.


Definition exNoSurge : DeploymentStrategy :=
  mkStrategy RollingUpdateDeploymentStrategyType
    (Some (mkRollingUpdate (Some (intOf 1)) (Some (intOf 0)))).

Lemma noSurge_keeps_available_witness : 0 < 1 <= 3 /\ 3 - 1 <= 3 - 1.
Proof.
  exact (noSurge_keeps_available QueryNode (exMilvus 3)
           (set_dep_Strategy (exDeployment "1" "milvus:new" 0) exNoSurge)
           (exDeployment "0" "milvus:old" 3) 1 eq_refl eq_refl).
Defined.

Lemma hpa_scales_down_ready_witness : -1 = -1 /\ 0 < 3 <= 3 /\ 2 <= 3.
Proof.
  exact (hpa_scales_down_ready QueryNode (exMilvusHPA 2) (exDeployment "1" "milvus:new" 3)
           (exDeployment "0" "milvus:old" 3) (-1) eq_refl).
Defined.

Definition exCur : Deployment := exDeployment "1" "milvus:new" 0.
Definition exLast : Deployment := exDeployment "0" "milvus:old" 3.

Lemma plan_never_wraps_witness :
  match planNextScaleAction QueryNode (exMilvus 4) exCur exLast with
  | Some (a, c, l) =>
      let '(c', l') := applyScale a c l in
      validReplicas c' /\ validReplicas l' /\
      getDeployReplicas c' + getDeployReplicas l'
      = getDeployReplicas exCur + getDeployReplicas exLast + sa_replicaChange a
  | None => False
  end.
Proof.
  destruct (planNextScaleAction QueryNode (exMilvus 4) exCur exLast) as [[[a c] l]|] eqn:E;
    [|by vm_compute in E].
  refine (plan_never_wraps QueryNode (exMilvus 4) exCur exLast a c l _ E).
  repeat split; vm_compute; congruence.
Defined.

Lemma force_with_external_hpa_witness :
  match planNextScaleAction QueryNode (exMilvusForce (-1)) exCur exLast with
  | Some (a, c, l) => getDeployReplicas (fst (applyScale a c l)) = -1
  | None => False
  end.
Proof.
  destruct (planNextScaleAction QueryNode (exMilvusForce (-1)) exCur exLast) as [[[a c] l]|] eqn:E;
    [|by vm_compute in E].
  refine (force_with_external_hpa QueryNode (exMilvusForce (-1)) exCur exLast a c l eq_refl eq_refl _ E).
  split; vm_compute; congruence.
Defined.
End Witnesses.
