(* ===== verification/K8sUtil.v ===== *)
(** * Kubernetes helpers of the rollout

    pkg/controllers/rollout_util.go, [K8sUtilImpl]: listing the workloads of a
    component, saving objects, marking the current rollout slot, and the
    stability of a deployment. *)
From S2P Require Import Prelude KubeTypes Libs ApiTypes Labels Effects Utils Components.

Local Open Scope string_scope.
Local Open Scope list_scope.
Local Open Scope Z_scope.

(** ** Pods and stability *)

Definition GetTerminatingPods (pods : list Pod) : list Pod :=
  filter (fun pod => is_Some (om_DeletionTimestamp (pod_Meta pod))) pods.

(** A running pod is listed once for every Ready condition that is not true. *)
Definition GetNotReadyPods (pods : list Pod) : list Pod :=
  concat ((fun pod =>
    if negb (bool_decide (pod_Phase pod = PodRunning)) then [pod]
    else (fun _ => pod) <$>
           filter (fun cond => pc_Type cond = PodReadyType /\ pc_Status cond <> ConditionTrue)
             (pod_Conditions pod)) <$> pods).

Fixpoint logicAnd_from (i : Z) (b : list bool) : bool * Z :=
  match b with
  | [] => (true, -1)
  | v :: b' => if negb v then (false, i) else logicAnd_from (i + 1) b'
  end.

Definition logicAnd (b : list bool) : bool * Z := logicAnd_from 0 b.

Definition stableReasons : list string :=
  ["has terminating pods"; "has not ready pods"; "pods less than expected replicas";
   "observed generation is not equal to generation"; "replicas is not equal to status replicas";
   "not all replicas updated"; "not all replicas available"; "not all replicas ready";
   "has unavailable replicas"].

Definition stableChecks (deploy : Deployment) (allPods : list Pod) : list bool :=
  let status := dep_Status deploy in
  let deployReplicas := getDeployReplicas deploy in
  [Z.of_nat (length (GetTerminatingPods allPods)) <? 1;
   Z.of_nat (length (GetNotReadyPods allPods)) <? 1;
   Z.of_nat (length allPods) =? deployReplicas;
   dss_ObservedGeneration status =? om_Generation (dep_Meta deploy);
   int32_of deployReplicas =? dss_Replicas status;
   dss_Replicas status =? dss_UpdatedReplicas status;
   dss_Replicas status =? dss_AvailableReplicas status;
   dss_Replicas status =? dss_ReadyReplicas status;
   dss_UnavailableReplicas status <? 1].

Definition DeploymentIsStable (deploy : Deployment) (allPods : list Pod) : bool * string :=
  let '(isStable, failedIndex) := logicAnd (stableChecks deploy allPods) in
  if isStable then (true, "")
  else (false, nth (Z.to_nat failedIndex) stableReasons "").

Definition GetDeploymentGroupId (deploy : Deployment) : prog Z :=
  let componentName := mget (dep_Labels deploy) AppLabelComponent in
  match Atoi (GetLabelGroupID componentName (dep_Labels deploy)) with
  | Some groupId => Ret groupId
  | None => Fail (EWrap "parse component group id" (ENew "strconv.Atoi: invalid syntax"))
  end.

(** ** Reading *)

(** The objects of a component that belong to no rollout slot. *)
Definition isOld (component : MilvusComponent) (labels : gmap string string) : bool :=
  MatchesDeploymentGroup component labels
  && bool_decide (GetLabelGroupID (Name component) labels = "").

Definition GetOldDeploy (mc : Milvus) (component : MilvusComponent) : prog Deployment :=
  deployList ← wrap ("list " +:+ Name component +:+ " deployments")
    (read (ListDeployments (mi_Namespace mc) (GetSelectorLabels component (mi_Name mc))));
  match filter (fun d => isOld component (dep_Labels d) = true) deployList with
  | [] => Fail (EKube KNotFound)
  | [d] => Ret d
  | deploys =>
      Fail (ENew ("unexpected: more than 1 old " +:+ Name component +:+ " deployment found "
                  +:+ Itoa (Z.of_nat (length deploys))
                  +:+ ", admin please fix this, leave only 1 deployment"))
  end.

Definition ListOldReplicaSets (mc : Milvus) (component : MilvusComponent) : prog (list ReplicaSet) :=
  l ← wrap "list component replica sets"
    (read (ListReplicaSets (mi_Namespace mc) (GetSelectorLabels component (mi_Name mc))));
  Ret (filter (fun rs => isOld component (om_Labels (rs_Meta rs)) = true) l).

Definition ListOldPods (mc : Milvus) (component : MilvusComponent) : prog (list Pod) :=
  l ← wrap "list component pods"
    (read (ListPods (mi_Namespace mc) (GetSelectorLabels component (mi_Name mc))));
  Ret (filter (fun pod => isOld component (om_Labels (pod_Meta pod)) = true) l).

Definition ListDeployPods (deploy : Deployment) : prog (list Pod) :=
  l ← wrap "list pods"
    (read (ListPods (om_Namespace (dep_Meta deploy)) (dsp_Selector (dep_Spec deploy))));
  Ret (filter (fun pod => pod_Reason pod <> "Evicted") l).

(** ** Writing *)

(** [CreateObject] creates the object unless the API server has it. *)
Definition CreateObject {B} (get : kread B) (create : kwrite) : prog unit :=
  r ← attempt (read get);
  match r with
  | inr _ => Ret tt
  | inl e => if negb (IsNotFound e) then Fail (EWrap "check object exist" e) else write create
  end.

Definition CreateRevisionObject (r : ControllerRevision) : prog unit :=
  CreateObject (GetRevision (om_Namespace (cr_Meta r)) (om_Name (cr_Meta r))) (CreateRevision r).
Definition CreateReplicaSetObject (r : ReplicaSet) : prog unit :=
  CreateObject (GetReplicaSet (om_Namespace (rs_Meta r)) (om_Name (rs_Meta r))) (CreateReplicaSet r).
Definition CreateDeploymentObject (d : Deployment) : prog unit :=
  CreateObject (GetDeployment (om_Namespace (dep_Meta d)) (om_Name (dep_Meta d))) (CreateDeployment d).

(** Deleting an object requeues, unless it is gone already. *)
Definition OrphanDelete (delete : kwrite) : prog unit :=
  r ← attempt (write delete);
  match r with
  | inr _ => Fail ErrRequeue
  | inl e => if IsNotFound e then Ret tt else Fail (EWrap "delete old object" e)
  end.

Definition UpdateAndRequeue (update : kwrite) : prog unit :=
  _ ← wrap "update object" (write update);
  Fail (EWrap "update and requeue" ErrRequeue).

Definition MarkMilvusComponentGroupId (mc : Milvus) (component : MilvusComponent) (groupId : Z)
    : prog unit :=
  if bool_decide (GetCurrentGroupId mc (GetStateKey component) = Itoa groupId) then Ret tt
  else UpdateAndRequeue (UpdateMilvus (SetCurrentGroupID mc (GetStateKey component) groupId)).

Section Saved.
Context {KL : KubeLib}.

Definition SaveObject (mc : Milvus) (name : string) (data : savedData) : prog unit :=
  let meta := mkMeta name (mi_Namespace mc) ∅ ∅ 0 "" "" [] None [] in
  match SetControllerReference (mi_Meta mc) meta with
  | None => Fail (EWrap "set controller reference" (ENew "already owned"))
  | Some meta => CreateRevisionObject (mkRevision meta 1 data)
  end.

Definition GetSavedObject (namespace name : string) : prog savedData :=
  r ← wrap "get saved object" (read (GetRevision namespace name));
  Ret (cr_Data r).
End Saved.

(** ** Lemmas *)

Lemma logicAnd_from_spec i l :
  fst (logicAnd_from i l) = forallb id l.
Proof.
  revert i. induction l as [|b l IH]; intros i; simpl; [done|]. destruct b; simpl; [apply IH|done].
Qed.

Lemma logicAnd_index i l k :
  logicAnd_from i l = (false, k) ->
  i <= k /\ nth (Z.to_nat (k - i)) l true = false /\ k < i + Z.of_nat (length l).
Proof.
  revert i. induction l as [|b l IH]; intros i; simpl; [done|].
  destruct b; simpl.
  - intros H. apply IH in H as (H1 & H2 & H3).
    replace (Z.to_nat (k - i)) with (S (Z.to_nat (k - (i + 1)))) by lia. split; [lia|]. split; [done|lia].
  - intros [= <-]. replace (Z.to_nat (i - i)) with 0%nat by lia. split; [lia|]. split; [done|lia].
Qed.

(** A stable deployment: its replica count, its pods and its status agree, and
    every pod is running. *)
Lemma stable_spec deploy pods :
  fst (DeploymentIsStable deploy pods) = true ->
  GetTerminatingPods pods = [] /\ GetNotReadyPods pods = [] /\
  Z.of_nat (length pods) = getDeployReplicas deploy /\
  dss_ObservedGeneration (dep_Status deploy) = om_Generation (dep_Meta deploy) /\
  dss_Replicas (dep_Status deploy) = int32_of (getDeployReplicas deploy) /\
  dss_UpdatedReplicas (dep_Status deploy) = int32_of (getDeployReplicas deploy) /\
  dss_AvailableReplicas (dep_Status deploy) = int32_of (getDeployReplicas deploy) /\
  dss_ReadyReplicas (dep_Status deploy) = int32_of (getDeployReplicas deploy).
Proof.
  unfold DeploymentIsStable, logicAnd.
  destruct (logicAnd_from 0 (stableChecks deploy pods)) as [b i] eqn:E.
  pose proof (logicAnd_from_spec 0 (stableChecks deploy pods)) as Hs. rewrite E in Hs. simpl in Hs.
  destruct b; [|done]. intros _. symmetry in Hs. unfold stableChecks, id in Hs.
  cbn [forallb] in Hs. repeat rewrite andb_true_iff in Hs. destruct_and! Hs.
  split; [apply nil_length_inv; lia|]. split; [apply nil_length_inv; lia|].
  repeat split; lia.
Qed.

(** An unstable deployment is reported with the reason of the first failing
    check. *)
Lemma unstable_reason deploy pods :
  fst (DeploymentIsStable deploy pods) = false ->
  exists i, (i < 9)%nat /\ nth i (stableChecks deploy pods) true = false /\
    snd (DeploymentIsStable deploy pods) = nth i stableReasons "".
Proof.
  unfold DeploymentIsStable, logicAnd.
  destruct (logicAnd_from 0 (stableChecks deploy pods)) as [b k] eqn:E.
  destruct b; [done|]. intros _. apply logicAnd_index in E as (H1 & H2 & H3).
  exists (Z.to_nat k). rewrite Z.sub_0_r in H2. simpl in H3. split; [lia|done].
Qed.
