(* ===== verification/Store.v ===== *)
(** * Executions against a store of objects

    The API server seen as a store of the Milvus resource and its deployments:
    a list returns the stored deployments with the given namespace and labels,
    a successful update or creation stores the object, and any call may fail
    without effect.  Other reads (pods, replica sets, saved objects) are
    answered arbitrarily.  [reach p s s'] says that running [p] from [s] passes
    through [s'], also when the operator stops in between; [safe] is the proof
    method for it. *)
From S2P Require Import Prelude KubeTypes ApiTypes UpgradeTypes Effects.

Local Open Scope Z_scope.

Record store := mkStore {
  s_mc : Milvus;
  s_deploys : list Deployment
}.

Definition dep_key (d : Deployment) : string * string := (om_Namespace (dep_Meta d), om_Name (dep_Meta d)).

(** The API server's list: namespace and label selector. *)
Definition selects (ns : string) (labels : gmap string string) (d : Deployment) : Prop :=
  om_Namespace (dep_Meta d) = ns /\ labels ⊆ dep_Labels d.

#[export] Instance selects_dec ns labels d : Decision (selects ns labels d).
Proof. unfold selects. apply _. Defined.

Definition update_deploy (d : Deployment) (l : list Deployment) : list Deployment :=
  (fun d0 => if decide (dep_key d0 = dep_key d) then d else d0) <$> l.

Definition apply_write (w : kwrite) (s : store) : store :=
  match w with
  | CreateDeployment d => mkStore (s_mc s) (s_deploys s ++ [d])
  | UpdateDeployment d => mkStore (s_mc s) (update_deploy d (s_deploys s))
  | OrphanDeleteDeployment d =>
      mkStore (s_mc s) (filter (fun d0 => dep_key d0 <> dep_key d) (s_deploys s))
  | UpdateMilvus m => mkStore m (s_deploys s)
  | UpdateMilvusStatus m => mkStore (set_mi_Status (s_mc s) (mi_Status m)) (s_deploys s)
  | DeleteDeployment d => mkStore (s_mc s) (filter (fun d0 => dep_key d0 <> dep_key d) (s_deploys s))
  | _ => s
  end.

(** Which answers the store gives to a read. *)
Definition read_ok {B} (r : kread B) (s : store) : B -> Prop :=
  match r in kread B' return B' -> Prop with
  | ListDeployments ns labels => fun l => l = filter (selects ns labels) (s_deploys s)
  | GetDeployment ns name => fun d => d ∈ s_deploys s /\ dep_key d = (ns, name)
  | GetMilvus ns name => fun m => m = s_mc s
  | _ => fun _ => True
  end.

(** A deployment is created under a new name and updated under an old one. *)
Definition write_ok (w : kwrite) (s : store) : Prop :=
  match w with
  | CreateDeployment d => dep_key d ∉ dep_key <$> s_deploys s
  | UpdateDeployment d => dep_key d ∈ dep_key <$> s_deploys s
  | _ => True
  end.

#[export] Instance write_ok_dec w s : Decision (write_ok w s).
Proof. destruct w; simpl; apply _. Defined.

(** Which answers a request may have, and the store after it succeeds. *)
Definition answers {B} (s : store) (q : kreq B) : B -> Prop :=
  match q in kreq B' return B' -> Prop with
  | Read r => read_ok r s
  | Write w => fun _ => write_ok w s
  end.

Definition post {B} (s : store) (q : kreq B) : store :=
  match q with Read _ => s | Write w => apply_write w s end.

(** ** Reachable stores *)

Fixpoint reach {A} (p : prog A) (s s' : store) : Prop :=
  s' = s \/
  match p with
  | Call q k =>
      (exists e, reach (k (inl e)) s s') \/
      (exists b, answers s q b /\ reach (k (inr b)) (post s q) s')
  | _ => False
  end.

(** [final p s s' o]: some execution of [p] from [s] ends in [s'] with [o]. *)
Fixpoint final {A} (p : prog A) (s s' : store) (o : outcome A) : Prop :=
  match p with
  | Ret a => s' = s /\ o = ORet a
  | Fail e => s' = s /\ o = OFail e
  | Panic => s' = s /\ o = OPanic
  | Call q k =>
      (exists e, final (k (inl e)) s s' o) \/
      (exists b, answers s q b /\ final (k (inr b)) (post s q) s' o)
  end.

Section Safe.
Context (I : store -> Prop).

Fixpoint safe {A} (p : prog A) (s : store) (Q : store -> outcome A -> Prop) : Prop :=
  match p with
  | Ret a => Q s (ORet a)
  | Fail e => Q s (OFail e)
  | Panic => Q s OPanic
  | Call q k =>
      (forall e, safe (k (inl e)) s Q) /\
      (forall b, answers s q b -> I (post s q) /\ safe (k (inr b)) (post s q) Q)
  end.

Lemma safe_reach {A} (p : prog A) Q : forall s s', I s -> safe p s Q -> reach p s s' -> I s'.
Proof.
  induction p as [a|e| |B q k IH]; intros s s' Hs; simpl; intros Hsafe [->|Hr]; try done.
  destruct Hsafe as [He Hb]. destruct Hr as [[e Hr]|(b & Hb' & Hr)]; [by eapply IH|].
  destruct (Hb b Hb') as [? ?]. by eapply IH.
Qed.

Lemma safe_final {A} (p : prog A) Q : forall s s' o, safe p s Q -> final p s s' o -> Q s' o.
Proof.
  induction p as [a|e| |B q k IH]; intros s s' o; simpl; intros Hsafe Hf;
    try (by destruct Hf as [-> ->]).
  destruct Hsafe as [He Hb]. destruct Hf as [[e Hr]|(b & Hb' & Hr)]; [by eapply IH|].
  destruct (Hb b Hb') as [? ?]. by eapply IH.
Qed.

Lemma safe_mono {A} (p : prog A) : forall s (Q Q' : store -> outcome A -> Prop),
  (forall s o, Q s o -> Q' s o) -> safe p s Q -> safe p s Q'.
Proof.
  induction p as [a|e| |B q k IH]; simpl; intros s Q Q' HQ; auto.
  intros [He Hb]. split; [intros e|intros b Hb'; destruct (Hb b Hb')]; eauto.
Qed.

(** A result is handed on, an error or a panic ends the program. *)
Lemma safe_bind {A B} (p : prog A) (f : A -> prog B) : forall s Q,
  safe p s (fun s' o => match o with
                        | ORet a => safe (f a) s' Q
                        | OFail e => Q s' (OFail e)
                        | OPanic => Q s' OPanic
                        end) ->
  safe (prog_bind f p) s Q.
Proof.
  induction p as [a|e| |C q k IH]; simpl; intros s Q H; auto.
  destruct H as [He Hb]. split; [auto|]. intros b Hb'. destruct (Hb b Hb'). auto.
Qed.

Lemma safe_attempt {A} (p : prog A) : forall s Q,
  safe p s (fun s' o => match o with
                        | ORet a => Q s' (ORet (inr a))
                        | OFail e => Q s' (ORet (inl e))
                        | OPanic => Q s' OPanic
                        end) ->
  safe (attempt p) s Q.
Proof.
  induction p as [a|e| |C q k IH]; simpl; intros s Q H; auto.
  destruct H as [He Hb]. split; [auto|]. intros b Hb'. destruct (Hb b Hb'). auto.
Qed.

Lemma safe_wrap {A} msg (p : prog A) : forall s Q,
  safe p s (fun s' o => match o with
                        | OFail e => Q s' (OFail (EWrap msg e))
                        | _ => Q s' o
                        end) ->
  safe (wrap msg p) s Q.
Proof.
  induction p as [a|e| |C q k IH]; simpl; intros s Q H; auto.
  destruct H as [He Hb]. split; [auto|]. intros b Hb'. destruct (Hb b Hb'). auto.
Qed.

Lemma safe_write_ok w s (Q : store -> outcome unit -> Prop) :
  (forall e, Q s (OFail (EKube e))) ->
  (write_ok w s -> I (apply_write w s) /\ Q (apply_write w s) (ORet tt)) -> safe (write w) s Q.
Proof. simpl. intros He HI. split; [done|]. intros [] Hw. by apply HI. Qed.

Lemma safe_write w s (Q : store -> outcome unit -> Prop) :
  (forall e, Q s (OFail (EKube e))) -> I (apply_write w s) -> Q (apply_write w s) (ORet tt) ->
  safe (write w) s Q.
Proof. intros He HI Hr. by apply safe_write_ok. Qed.

Lemma safe_read {B} (r : kread B) s (Q : store -> outcome B -> Prop) :
  I s -> (forall e, Q s (OFail (EKube e))) -> (forall b, read_ok r s b -> Q s (ORet b)) ->
  safe (read r) s Q.
Proof. simpl. intros HI He Hr. split; [done|]. auto. Qed.

Lemma safe_ret {A} (a : A) s Q : Q s (ORet a) -> safe (Ret a) s Q.
Proof. done. Qed.

Lemma safe_fail {A} e s (Q : store -> outcome A -> Prop) : Q s (OFail e) -> safe (Fail e) s Q.
Proof. done. Qed.

Lemma safe_deref {A} (o : option A) s (Q : store -> outcome A -> Prop) :
  (o = None -> Q s OPanic) -> (forall a, o = Some a -> Q s (ORet a)) -> safe (deref o) s Q.
Proof. destruct o; simpl; auto. Qed.
End Safe.

Lemma safe_mono_I {A} (I I' : store -> Prop) (p : prog A) Q :
  (forall s, I s -> I' s) -> forall s, safe I p s Q -> safe I' p s Q.
Proof.
  intros HI. induction p as [a|e| |B q k IH]; intros s; simpl; auto.
  intros [He Hb]. split; [auto|]. intros b Hb'. destruct (Hb b Hb'). auto.
Qed.

Lemma safe_conj {A} (I I' : store -> Prop) (p : prog A) : forall s (Q Q' : store -> outcome A -> Prop),
  safe I p s Q -> safe I' p s Q' -> safe (fun s => I s /\ I' s) p s (fun s o => Q s o /\ Q' s o).
Proof.
  induction p as [a|e| |B q k IH]; intros s Q Q'; simpl; auto. intros [He Hb] [He' Hb'].
  split; [auto|]. intros b Hok. destruct (Hb b Hok), (Hb' b Hok). auto.
Qed.

#[global] Arguments safe : simpl never.

(** One step of symbolic execution. *)
Ltac safe_step :=
  lazymatch goal with
  | |- safe _ (mbind _ _) _ _ => apply safe_bind
  | |- safe _ (wrap _ _) _ _ => apply safe_wrap
  | |- safe _ (attempt _) _ _ => apply safe_attempt
  | |- safe _ (Ret _) _ _ => apply safe_ret
  | |- safe _ (Fail _) _ _ => apply safe_fail
  | |- safe _ (deref _) _ _ => apply safe_deref
  | |- safe _ (read _) _ _ => apply safe_read
  | |- safe _ (write _) _ _ => apply safe_write
  end; cbv beta iota.
Ltac safe_steps := repeat safe_step.

(** ** Lemmas on stored deployments *)

Lemma elem_of_update_deploy d d' l :
  d' ∈ update_deploy d l ->
  (d' = d /\ exists d0, d0 ∈ l /\ dep_key d0 = dep_key d) \/ (d' ∈ l /\ dep_key d' <> dep_key d).
Proof.
  unfold update_deploy. rewrite list_elem_of_fmap. intros (d0 & -> & Hd0).
  case_decide; [left; eauto|by right].
Qed.

Lemma update_deploy_keys d l : dep_key <$> update_deploy d l = dep_key <$> l.
Proof.
  unfold update_deploy. rewrite <-list_fmap_compose. apply list_fmap_ext. intros i x _. simpl.
  by case_decide.
Qed.

(** ** A concrete API server

    Answers from the store, with a fixed list of pods; nothing else is found. *)
Definition store_read (pods : list Pod) {B} (r : kread B) (s : store) : kerr + B :=
  match r in kread B' return kerr + B' with
  | ListDeployments ns labels => inr (filter (selects ns labels) (s_deploys s))
  | GetMilvus _ _ => inr (s_mc s)
  | ListPods _ _ => inr pods
  | Now => inr 0
  | _ => inl KNotFound
  end.

Definition store_handler (pods : list Pod) : handler store :=
  mkHandler (fun B r s => store_read pods r s)
    (fun w s => if decide (write_ok w s) then (inr tt, apply_write w s) else (inl KConflict, s)).

(** Its runs are executions against the store. *)
Lemma run_final {A} pods (p : prog A) : forall s,
  final p s (fst (fst (run (store_handler pods) p s))) (snd (run (store_handler pods) p s)).
Proof.
  induction p as [a|e| |B q k IH]; intros s; simpl; try done.
  destruct (answer (store_handler pods) q s) as [x s'] eqn:E.
  assert (exists s'', run (store_handler pods) (k x) s' = s'') as [[[s'' tr] o] Er] by eauto.
  specialize (IH x s'). rewrite Er in *. simpl in *.
  destruct q as [B r|w]; simpl in E.
  - injection E as Ex <-. destruct x as [e|b]; [left; eauto|right].
    exists b. split; [|done]. destruct r; simpl in Ex; try discriminate Ex; try injection Ex as <-; done.
  - case_decide as Hw; injection E as <- <-; [right|left; eauto].
    exists tt. split; [done|]. exact IH.
Qed.

Lemma final_reach {A} (p : prog A) o : forall s s', final p s s' o -> reach p s s'.
Proof.
  induction p as [a|e| |B q k IH]; intros s s'; simpl; try (by intros [-> _]; left).
  intros [[e H]|(b & Hb & H)]; right; [left|right]; eauto.
Qed.

(** ** Views of the stored deployments *)

Lemma key_inj l d d' :
  NoDup (dep_key <$> l) -> d ∈ l -> d' ∈ l -> dep_key d = dep_key d' -> d = d'.
Proof.
  induction l as [|x l IH]; simpl; [by intros _ ?%not_elem_of_nil|].
  rewrite NoDup_cons, list_elem_of_fmap. intros [Hx Hnd] Hd Hd' Hk.
  apply elem_of_cons in Hd as [->|Hd]; apply elem_of_cons in Hd' as [->|Hd']; try done.
  - exfalso. eauto.
  - exfalso. apply Hx. exists d. auto.
  - auto.
Qed.

(** An update that agrees with the deployment it replaces on [f] keeps the
    list of the [f]s. *)
Lemma view_update {A} (f : Deployment -> A) d d0 l :
  NoDup (dep_key <$> l) -> d0 ∈ l -> dep_key d = dep_key d0 -> f d = f d0 ->
  f <$> update_deploy d l = f <$> l.
Proof.
  intros Hnd Hd0 Hk Hf. unfold update_deploy. rewrite <-list_fmap_compose.
  apply list_fmap_ext. intros i x Hx. simpl. case_decide as E; [|done].
  assert (x = d0) as ->; [|done].
  apply (key_inj l); [done| |done|congruence]. by eapply list_elem_of_lookup_2.
Qed.

Definition keysOk (s : store) : Prop := NoDup (dep_key <$> s_deploys s).

Lemma keys_filter_NoDup (P : Deployment -> Prop) `{forall d, Decision (P d)} l :
  NoDup (dep_key <$> l) -> NoDup (dep_key <$> filter P l).
Proof.
  induction l as [|d l IH]; [done|]. rewrite fmap_cons, NoDup_cons, filter_cons. intros [Hd Hl].
  case_decide; [|auto]. rewrite fmap_cons, NoDup_cons. split; [|auto].
  rewrite list_elem_of_fmap. intros (x & Ex & [_ Hx]%list_elem_of_filter). apply Hd, list_elem_of_fmap. eauto.
Qed.

Lemma keysOk_write w s :
  (forall d, w <> OrphanDeleteDeployment d) -> write_ok w s -> keysOk s -> keysOk (apply_write w s).
Proof.
  unfold keysOk. destruct w; simpl; intros Hnd Hok Hk; try done.
  - rewrite fmap_app. apply NoDup_app. split; [done|]. split; [|apply NoDup_singleton].
    intros x Hx Hx'. apply list_elem_of_singleton in Hx' as ->. done.
  - by rewrite update_deploy_keys.
  - by destruct (Hnd d).
  - by apply keys_filter_NoDup.
Qed.
