(* ===== verification/Group.v ===== *)
(** * Groups of functions that run concurrently

    pkg/controllers/groups.go and group_runner.go: a [Group] runs functions in
    goroutines of their own, waits for all of them and combines their errors.

    A goroutine's calls to the API server are those of its program, and the
    calls of a group are an interleaving of those of its members: [par]
    interleaves programs along a schedule.  A theorem about [Run] quantifies
    over all schedules, and over all orders in which the members finish. *)
From S2P Require Import Prelude KubeTypes ApiTypes Effects Examples.

Local Open Scope string_scope.
Local Open Scope list_scope.

(** ** Concurrent programs *)

(** A member of a group never fails: its outcome is a value. *)
Fixpoint settle {A} (p : prog A) : prog (outcome A) :=
  match p with
  | Ret a => Ret (ORet a)
  | Fail e => Ret (OFail e)
  | Panic => Ret OPanic
  | Call q k => Call q (fun x => settle (k x))
  end.

(** The first program that is scheduled performs its next call; when the
    schedule is used up the left one goes first. *)
Fixpoint par2 {A B} (p : prog A) : prog B -> list bool -> prog (A * B) :=
  fix par2_right (q : prog B) : list bool -> prog (A * B) :=
    fun sched =>
      match p, q with
      | Ret a, Ret b => Ret (a, b)
      | Fail e, _ => Fail e
      | _, Fail e => Fail e
      | Panic, _ | _, Panic => Panic
      | Call cp kp, Ret _ => Call cp (fun x => par2 (kp x) q (tail sched))
      | Ret _, Call cq kq => Call cq (fun x => par2_right (kq x) (tail sched))
      | Call cp kp, Call cq kq =>
          if default true (head sched)
          then Call cp (fun x => par2 (kp x) q (tail sched))
          else Call cq (fun x => par2_right (kq x) (tail sched))
      end.

Fixpoint par {A} (ps : list (prog A)) (scheds : list (list bool)) : prog (list A) :=
  match ps with
  | [] => Ret []
  | p :: ps' =>
      ab ← par2 p (par ps' (tail scheds)) (default [] (head scheds));
      Ret (fst ab :: snd ab)
  end.

(** ** Groups *)

(** [config.IsDebug()], and what [recover()] gives for a panic. *)
Class Process := { IsDebug : bool; recovered : string }.

Section Group.
Context {KM : KubeMessages} {PR : Process}.

(** The end of a goroutine of [Group.Go]: [g.errors] grows, or the process
    crashes. *)
Definition Go_end (errors : list err) (o : outcome unit) : option (list err) :=
  match o with
  | ORet _ => Some errors
  | OFail e => Some (errors ++ [e])
  | OPanic => if IsDebug then None else Some (errors ++ [ENew recovered])
  end.

Definition Go_all (done : list (outcome unit)) : option (list err) :=
  fold_left (fun errors o => es ← errors; Go_end es o) done (Some []).

Fixpoint WaitLoop (errors : list err) (errTexts : list string) : option err :=
  match errors with
  | [] => match errTexts with
          | [] => None
          | _ => Some (ENew ("groups error: " +:+ Join ";" errTexts))
          end
  | e :: errors' => if errors_Is e ErrRequeue then Some e else WaitLoop errors' (errTexts ++ [Error e])
  end.

(** [Group.Wait] after all functions have returned. *)
Definition Wait (errors : list err) : option err := WaitLoop errors [].

(** [done] are the outcomes in the order the functions finish. *)
Definition groupResult (msg : string) (done : list (outcome unit)) : prog unit :=
  match Go_all done with
  | None => Panic
  | Some errors => match Wait errors with None => Ret tt | Some e => Fail (EWrap msg e) end
  end.

(** How the goroutines are interleaved and the order in which they finish. *)
Record schedule := mkSchedule { sc_calls : list (list bool); sc_order : list nat }.

Definition inOrder {A} (order : list nat) (l : list A) : list A := omap (fun i => l !! i) order.

Definition runAll (msg : string) (sc : schedule) (funcs : list (prog unit)) : prog unit :=
  match funcs with
  | [] => Ret tt
  | _ => os ← par (settle <$> funcs) (sc_calls sc); groupResult msg (inOrder (sc_order sc) os)
  end.

(** [ParallelGroupRunner.Run]: the functions are called with the same
    arguments. *)
Definition Run (sc : schedule) (funcs : list (Milvus -> prog unit)) (mc : Milvus) : prog unit :=
  runAll "run group failed" sc ((fun f => f mc) <$> funcs).

(** [ParallelGroupRunner.RunDiffArgs]. *)
Definition RunDiffArgs (sc : schedule) (f : Milvus -> prog unit) (argsArray : list Milvus) : prog unit :=
  runAll "run group" sc (f <$> argsArray).

(** [ParallelGroupRunner.RunWithResult]: the result of each function at its
    own index.  A panic is not recovered there. *)
Definition RunWithResult {A} (sc : schedule) (funcs : list (Milvus -> prog A)) (mc : Milvus)
    : prog (list (err + A)) :=
  match funcs with
  | [] => Ret []
  | _ =>
      os ← par ((fun f => settle (f mc)) <$> funcs) (sc_calls sc);
      deref (mapM (fun o => match o with ORet a => Some (inr a) | OFail e => Some (inl e) | OPanic => None end) os)
  end.

(** ** Errors of a group *)
Definition outcome_err (o : outcome unit) : list err :=
  match o with ORet _ => [] | OFail e => [e] | OPanic => [ENew recovered] end.

Lemma Go_all_errors done :
  (IsDebug = false \/ OPanic ∉ done) -> Go_all done = Some (concat (outcome_err <$> done)).
Proof.
  intros Hok. unfold Go_all.
  assert (forall acc, fold_left (fun errors o => es ← errors; Go_end es o) done (Some acc)
            = Some (acc ++ concat (outcome_err <$> done))) as Hgen; [|apply Hgen].
  revert Hok. induction done as [|o done IH]; intros Hok acc; simpl; [by rewrite app_nil_r|].
  assert (Go_end acc o = Some (acc ++ outcome_err o)) as ->.
  { destruct o as [[]|e|]; simpl; [by rewrite app_nil_r|done|].
    destruct Hok as [->|Hok]; [done|]. destruct Hok. by apply elem_of_cons; left. }
  rewrite IH; [by rewrite <- app_assoc|]. destruct Hok as [?|Hok]; [by left|right].
  intros Hin. apply Hok. by apply elem_of_cons; right.
Qed.

Lemma WaitLoop_nil errors : forall texts, WaitLoop errors texts = None <-> errors = [] /\ texts = [].
Proof.
  induction errors as [|e errors IH]; intros texts; simpl.
  - destruct texts; split; try done. by intros [].
  - split; [|by intros []]. case_if_bool; [done|]. intros [_ Habs]%IH. by destruct texts.
Qed.

Lemma WaitLoop_requeue errors : forall texts e,
  WaitLoop errors texts = Some e ->
  errors_Is e ErrRequeue = existsb (fun x => errors_Is x ErrRequeue) errors.
Proof.
  induction errors as [|x errors IH]; intros texts e; simpl.
  - by destruct texts; intros [= <-].
  - destruct (errors_Is x ErrRequeue) eqn:E; [by intros [= <-]|]. apply IH.
Qed.
End Group.

(** ** Interleavings *)
Inductive interleave {A} : list A -> list A -> list A -> Prop :=
  | il_nil : interleave [] [] []
  | il_left x l l' t : interleave l l' t -> interleave (x :: l) l' (x :: t)
  | il_right x l l' t : interleave l l' t -> interleave l (x :: l') (x :: t).

Inductive shuffle {A} : list (list A) -> list A -> Prop :=
  | sh_nil : shuffle [] []
  | sh_cons l ls t t' : shuffle ls t -> interleave l t t' -> shuffle (l :: ls) t'.

Lemma interleave_perm {A} (l l' t : list A) : interleave l l' t -> t ≡ₚ l ++ l'.
Proof.
  induction 1 as [|x l l' t _ IH|x l l' t _ IH]; simpl; [done|by rewrite IH|].
  rewrite IH. apply Permutation_middle.
Qed.

Lemma shuffle_perm {A} (ls : list (list A)) t : shuffle ls t -> t ≡ₚ concat ls.
Proof.
  induction 1 as [|l ls t t' _ IH Hil]; simpl; [done|]. by rewrite (interleave_perm _ _ _ Hil), IH.
Qed.

(** The events of a member occur in the group's trace in their order. *)
Lemma interleave_sublist {A} (l l' t : list A) : interleave l l' t -> l `sublist_of` t /\ l' `sublist_of` t.
Proof. induction 1 as [|x l l' t _ [? ?]|x l l' t _ [? ?]]; split; by repeat constructor. Qed.

Lemma shuffle_sublist {A} (ls : list (list A)) t l : shuffle ls t -> l ∈ ls -> l `sublist_of` t.
Proof.
  induction 1 as [|l0 ls t t' _ IH Hil]; intros Hin; [by apply elem_of_nil in Hin|].
  destruct (interleave_sublist _ _ _ Hil) as [Hl Ht]. apply elem_of_cons in Hin as [->|Hin]; [done|].
  etrans; [by apply IH|done].
Qed.

(** A program that only returns. *)
Fixpoint total {A} (p : prog A) : Prop :=
  match p with
  | Ret _ => True
  | Fail _ | Panic => False
  | Call _ k => forall x, total (k x)
  end.

Lemma settle_total {A} (p : prog A) : total (settle p).
Proof. by induction p. Qed.

Lemma settle_exec {A} (p : prog A) : forall tr o,
  exec (settle p) tr o -> exists o', o = ORet o' /\ exec p tr o'.
Proof.
  induction p as [a|e| |B q k IH]; simpl; intros tr o Hex; [destruct Hex as [-> ->]; by eauto..|].
  destruct Hex as (x & tr' & -> & Hex). destruct (IH x tr' o Hex) as (o' & -> & Hex'). eauto 6.
Qed.

Lemma total_bind {A B} (p : prog A) (f : A -> prog B) :
  total p -> (forall a, total (f a)) -> total (prog_bind f p).
Proof. induction p as [a|e| |C q k IH]; simpl; try done; auto. Qed.

Lemma par2_spec {A B} (p : prog A) : forall (q : prog B) sched,
  total p -> total q -> total (par2 p q sched) /\
  forall tr o, exec (par2 p q sched) tr o ->
  exists a b tp tq, o = ORet (a, b) /\ exec p tp (ORet a) /\ exec q tq (ORet b) /\ interleave tp tq tr.
Proof.
  induction p as [a|e| |Cp cp kp IHp]; [|done..|];
    induction q as [b|e| |Cq cq kq IHq]; intros sched Hp Hq; try done.
  - split; [done|]. intros tr o [-> ->]. exists a, b, [], []. repeat split; constructor.
  - split; simpl; [intros x; by apply IHq|]. intros tr o (x & tr' & -> & Hex).
    destruct (IHq x (tail sched) Hp (Hq x)) as [_ HI].
    destruct (HI tr' o Hex) as (a' & b & tp & tq & -> & Ha & Hb & Hil).
    exists a', b, tp, (Ev cq x :: tq). split; [done|]. split; [done|]. split; [simpl; eauto|by constructor].
  - split; simpl; [intros x; by apply IHp|]. intros tr o (x & tr' & -> & Hex).
    destruct (IHp x (Ret b) (tail sched) (Hp x) Hq) as [_ HI].
    destruct (HI tr' o Hex) as (a & b' & tp & tq & -> & Ha & Hb & Hil).
    exists a, b', (Ev cp x :: tp), tq. split; [done|]. split; [simpl; eauto|]. split; [done|by constructor].
  - simpl. destruct (default true (head sched)); split; simpl.
    + intros x. by apply IHp.
    + intros tr o (x & tr' & -> & Hex). destruct (IHp x (Call cq kq) (tail sched) (Hp x) Hq) as [_ HI].
      destruct (HI tr' o Hex) as (a & b' & tp & tq & -> & Ha & Hb & Hil).
      exists a, b', (Ev cp x :: tp), tq. split; [done|]. split; [simpl; eauto|]. split; [done|by constructor].
    + intros x. by apply IHq.
    + intros tr o (x & tr' & -> & Hex). destruct (IHq x (tail sched) Hp (Hq x)) as [_ HI].
      destruct (HI tr' o Hex) as (a & b' & tp & tq & -> & Ha & Hb & Hil).
      exists a, b', tp, (Ev cq x :: tq). split; [done|]. split; [done|]. split; [simpl; eauto|by constructor].
Qed.

Lemma exec_bind {A B} (p : prog A) (f : A -> prog B) : forall tr o,
  exec (prog_bind f p) tr o ->
  exists tr1 o1 tr2, tr = tr1 ++ tr2 /\ exec p tr1 o1 /\
    match o1 with
    | ORet a => exec (f a) tr2 o
    | OFail e => tr2 = [] /\ o = OFail e
    | OPanic => tr2 = [] /\ o = OPanic
    end.
Proof.
  induction p as [a|e| |C q k IH]; simpl; intros tr o Hex.
  - by exists [], (ORet a), tr.
  - destruct Hex as [-> ->]. by exists [], (OFail e), [].
  - destruct Hex as [-> ->]. by exists [], OPanic, [].
  - destruct Hex as (x & tr' & -> & Hex). destruct (IH x tr' o Hex) as (tr1 & o1 & tr2 & -> & H1 & H2).
    exists (Ev q x :: tr1), o1, tr2. split; [done|]. split; [simpl; eauto|done].
Qed.

Lemma par_spec {A} (ps : list (prog A)) : forall scheds,
  Forall total ps -> total (par ps scheds) /\
  forall tr o, exec (par ps scheds) tr o ->
  exists l trs, o = ORet l /\ length l = length ps /\ length trs = length ps /\ shuffle trs tr /\
    forall i p, ps !! i = Some p -> exists t a, trs !! i = Some t /\ l !! i = Some a /\ exec p t (ORet a).
Proof.
  induction ps as [|p ps IH]; intros scheds Hall; simpl.
  { split; [done|]. intros tr o [-> ->]. exists [], []. repeat split; [constructor|done]. }
  inversion Hall as [|? ? Hp Hps]; subst.
  destruct (IH (tail scheds) Hps) as [Htot Hex]. destruct (par2_spec p _ (default [] (head scheds)) Hp Htot) as [Ht2 Hex2].
  split; [by apply total_bind|]. intros tr o He. apply exec_bind in He as (tr1 & o1 & tr2 & -> & He1 & He2).
  destruct (Hex2 tr1 o1 He1) as (a & l & tp & tq & -> & Ha & Hl & Hil). destruct He2 as [-> ->]. rewrite app_nil_r.
  destruct (Hex tq _ Hl) as (l' & trs & [= <-] & Hlen & Hlen' & Hsh & Hi).
  exists (a :: l), (tp :: trs). split; [done|]. split; [simpl; lia|]. split; [simpl; lia|].
  split; [by econstructor|]. intros [|i] p' Hp'; simpl in *; [simplify_eq; by eauto|by apply Hi].
Qed.

Lemma inOrder_perm {A} order (l : list A) n : (length l <= n)%nat -> order ≡ₚ seq 0 n -> inOrder order l ≡ₚ l.
Proof.
  intros Hn Hp. unfold inOrder. rewrite Hp. clear Hp.
  replace n with (length l + (n - length l))%nat by lia. rewrite seq_app, omap_app. simpl.
  assert (omap (fun i => l !! i) (seq (length l) (n - length l)) = []) as ->.
  { assert (forall k start, (length l <= start)%nat -> omap (fun i => l !! i) (seq start k) = []) as Hnone.
    { induction k as [|k IH]; intros start Hs; simpl; [done|]. rewrite lookup_ge_None_2 by lia. apply IH. lia. }
    by apply Hnone. }
  rewrite app_nil_r. clear Hn. induction l as [|x l IH] using rev_ind; [done|].
  rewrite length_app. simpl. rewrite Nat.add_1_r, seq_S, omap_app. simpl.
  rewrite lookup_app_r by lia. rewrite Nat.sub_diag. simpl. f_equiv.
  transitivity (omap (fun i => l !! i) (seq 0 (length l))); [|exact IH]. clear IH. apply reflexive_eq, list_omap_ext.
  apply Forall_Forall2_diag, Forall_forall. intros i Hi%elem_of_seq. by rewrite lookup_app_l by lia.
Qed.

Section GroupProofs.
Context {KM : KubeMessages} {PR : Process}.

(** What a group returns, from the outcomes of its members in any order. *)
Lemma groupResult_spec msg (os done : list (outcome unit)) tr o :
  IsDebug = false -> done ≡ₚ os -> exec (groupResult msg done) tr o ->
  tr = [] /\ (o = ORet tt \/ exists e, o = OFail e) /\
  (o = ORet tt <-> forall x, x ∈ os -> x = ORet tt) /\
  ((exists e, o = OFail e /\ errors_Is e ErrRequeue = true) <->
   exists e, OFail e ∈ os /\ errors_Is e ErrRequeue = true).
Proof.
  intros Hdbg Hperm Hex. unfold groupResult in Hex. rewrite Go_all_errors in Hex by (by left).
  set (errors := concat (outcome_err <$> done)) in *.
  assert (errors = [] <-> forall x, x ∈ os -> x = ORet tt) as Hnil.
  { setoid_rewrite <- Hperm. unfold errors. clear. induction done as [|o done IH]; simpl.
    - split; [intros _ x Hx; by apply elem_of_nil in Hx|done].
    - split.
      + intros [Ho Hd]%app_eq_nil x [->|Hx]%elem_of_cons; [by destruct o as [[]| |]|by apply IH].
      + intros Hall. rewrite (Hall o) by (by apply elem_of_cons; left). simpl.
        apply IH. intros x Hx. apply Hall. by apply elem_of_cons; right. }
  assert (existsb (fun x => errors_Is x ErrRequeue) errors = true <->
          exists e, OFail e ∈ os /\ errors_Is e ErrRequeue = true) as Hreq.
  { setoid_rewrite <- Hperm. rewrite existsb_exists. unfold errors. setoid_rewrite <- list_elem_of_In.
    setoid_rewrite elem_of_list_concat_fmap. split.
    - intros (e & (o' & Ho' & He) & Hr). destruct o' as [u|e'|]; simpl in He.
      + by apply elem_of_nil in He.
      + apply list_elem_of_singleton in He as ->. eauto.
      + apply list_elem_of_singleton in He as ->. rewrite errors_Is_requeue in Hr. by apply bool_decide_eq_true in Hr.
    - intros (e & Ho' & Hr). exists e. split; [|done]. exists (OFail e). split; [done|]. by apply list_elem_of_singleton. }
  unfold Wait in Hex. destruct (WaitLoop errors []) as [e|] eqn:HW; destruct Hex as [-> ->].
  - pose proof (WaitLoop_requeue _ _ _ HW) as He. rewrite <- He in Hreq. split; [done|]. split; [by right; eauto|].
    assert (errors <> []) as Hne by (intros E; by rewrite E in HW).
    split; [split; [done|by intros ?%Hnil]|]. rewrite <- Hreq. split.
    + intros (e' & [= <-] & Hr). exact Hr.
    + intros Hr. exists (EWrap msg e). split; [done|]. exact Hr.
  - apply WaitLoop_nil in HW as [HW _]. split; [done|]. split; [by left|]. split; [by rewrite <- Hnil|].
    rewrite <- Hreq, HW. split; [by intros (? & ? & _)|done].
Qed.

Lemma runAll_spec msg sc funcs n tr o :
  IsDebug = false -> (length funcs <= n)%nat -> sc_order sc ≡ₚ seq 0 n -> exec (runAll msg sc funcs) tr o ->
  exists trs os,
    length trs = length funcs /\ length os = length funcs /\ shuffle trs tr /\
    (forall i f, funcs !! i = Some f -> exists t x, trs !! i = Some t /\ os !! i = Some x /\ exec f t x) /\
    (o = ORet tt \/ exists e, o = OFail e) /\
    (o = ORet tt <-> forall x, x ∈ os -> x = ORet tt) /\
    ((exists e, o = OFail e /\ errors_Is e ErrRequeue = true) <->
     exists e, OFail e ∈ os /\ errors_Is e ErrRequeue = true).
Proof.
  intros Hdbg Hn Horder Hex. destruct funcs as [|f0 funcs0] eqn:Hf.
  { destruct Hex as [-> ->]. exists [], []. split; [done|]. split; [done|]. split; [constructor|].
    split; [done|]. split; [by left|]. split; [split; [by intros _ x Hx%elem_of_nil|done]|].
    split; [by intros (e & ? & _)|by intros (e & Hx%elem_of_nil & _)]. }
  rewrite <- Hf in *. assert (runAll msg sc funcs =
    (os ← par (settle <$> funcs) (sc_calls sc); groupResult msg (inOrder (sc_order sc) os))) as Erun by (by rewrite Hf).
  rewrite Erun in Hex. clear Erun Hf f0 funcs0.
  apply exec_bind in Hex as (tr1 & o1 & tr2 & -> & H1 & H2).
  destruct (par_spec (settle <$> funcs) (sc_calls sc)) as [_ Hpar].
  { apply Forall_fmap, Forall_true. intros f. apply settle_total. }
  destruct (Hpar tr1 o1 H1) as (os & trs & -> & Hlo & Hlt & Hsh & Hi). rewrite length_fmap in Hlo, Hlt.
  assert (inOrder (sc_order sc) os ≡ₚ os) as Hord by (apply (inOrder_perm _ _ n); [by rewrite Hlo|done]).
  destruct (groupResult_spec msg os _ tr2 o Hdbg Hord H2) as (-> & Ho). rewrite app_nil_r.
  exists trs, os. split; [done|]. split; [done|]. split; [done|]. split; [|exact Ho].
  intros i f Hfi. destruct (Hi i (settle f)) as (t & a & Ht & Ha & Hexf).
  { by rewrite list_lookup_fmap, Hfi. }
  destruct (settle_exec f t _ Hexf) as (x & [= ->] & Hx). by eauto.
Qed.

(** C22. A group calls every function on the same resource, interleaving their
    requests in any way; it returns no error exactly when none of them failed
    or panicked, and an error that asks for a requeue exactly when one of them
    did, whatever the order in which they finish. *)
Theorem Run_reports sc funcs mc tr o :
  IsDebug = false -> sc_order sc ≡ₚ seq 0 (length funcs) -> exec (Run sc funcs mc) tr o ->
  exists trs os,
    length trs = length funcs /\ length os = length funcs /\ shuffle trs tr /\
    (forall i f, funcs !! i = Some f -> exists t x, trs !! i = Some t /\ os !! i = Some x /\ exec (f mc) t x) /\
    (o = ORet tt \/ exists e, o = OFail e) /\
    (o = ORet tt <-> forall x, x ∈ os -> x = ORet tt) /\
    ((exists e, o = OFail e /\ errors_Is e ErrRequeue = true) <->
     exists e, OFail e ∈ os /\ errors_Is e ErrRequeue = true).
Proof.
  intros Hdbg Horder Hex.
  unfold Run in Hex. assert (length ((fun f => f mc) <$> funcs) <= length funcs)%nat as Hn by (by rewrite length_fmap).
  destruct (runAll_spec _ sc _ _ tr o Hdbg Hn Horder Hex) as (trs & os & H1 & H2 & H3 & H4 & H5).
  rewrite length_fmap in H1, H2. exists trs, os. split; [done|]. split; [done|]. split; [done|]. split; [|exact H5].
  intros i f Hi. apply H4. by rewrite list_lookup_fmap, Hi.
Qed.
End GroupProofs.

(** ** A concrete group *)
Definition exProcess : Process := {| IsDebug := false; recovered := "panic" |}.
Definition exErrorText : KubeMessages := {| kerr_Error := fun _ => "api error" |}.

(** Reads the clock, then asks for a requeue. *)
Definition exRequeues (_ : Milvus) : prog unit := read Now ≫= fun _ => Fail (EWrap "not ready" ErrRequeue).
Definition exPanics (_ : Milvus) : prog unit := read Now ≫= fun _ => Panic.
Definition exSchedule : schedule := mkSchedule [[false; true]; []] [1; 0].

Lemma Run_reports_witness : exists tr e, errors_Is e ErrRequeue = true /\
  exec (@Run exErrorText exProcess exSchedule [exRequeues; exPanics] (exMilvus 1)) tr (OFail e).
Proof.
  pose (x := @inr kerr Z 7%Z). pose (tr := [Ev (Read Now) x; Ev (Read Now) x]).
  pose (o := @OFail unit (EWrap "run group failed" (EWrap "not ready" ErrRequeue))).
  assert (exec (@Run exErrorText exProcess exSchedule [exRequeues; exPanics] (exMilvus 1)) tr o) as Hex.
  { exists x, [Ev (Read Now) x]. split; [done|]. exists x, []. split; [done|]. by split. }
  destruct (@Run_reports exErrorText exProcess exSchedule [exRequeues; exPanics] (exMilvus 1) tr o
              eq_refl (Permutation_swap 0 1 []) Hex) as (trs & os & H1 & H2 & H3 & H4 & _ & _ & H5).
  destruct H5 as [_ H5]. exists tr, (EWrap "run group failed" (EWrap "not ready" ErrRequeue)). by split.
Defined.
