(* ===== verification/Calls.v ===== *)
(** * The calls a program can make

    [calls P p] bounds the requests of a program independently of their answers.
    It passes through sequencing, error handling and groups of goroutines, in any
    interleaving. *)
From S2P Require Import Prelude KubeTypes ApiTypes Effects Group.

(** [calls P p]: every call [p] can make satisfies [P], whatever the answers. *)
Section Calls.
Context (P : forall B, kreq B -> Prop).

Fixpoint calls {A} (p : prog A) : Prop :=
  match p with
  | Call q k => P _ q /\ forall x, calls (k x)
  | _ => True
  end.

Lemma calls_exec {A} (p : prog A) : forall tr o,
  calls p -> exec p tr o -> Forall (fun ev => match ev with Ev q _ => P _ q end) tr.
Proof.
  induction p as [a|e| |B q k IH]; simpl; intros tr o Hc Hex; try (destruct Hex as [-> _]; constructor).
  destruct Hex as (x & tr' & -> & Hex), Hc as [Hq Hk]. constructor; [done|]. by eapply IH.
Qed.

Lemma calls_bind {A B} (p : prog A) (f : A -> prog B) :
  calls p -> (forall a, calls (f a)) -> calls (prog_bind f p).
Proof. induction p as [a|e| |C q k IH]; simpl; auto. intros [Hq Hk] Hf. split; auto. Qed.

Lemma calls_attempt {A} (p : prog A) : calls p -> calls (attempt p).
Proof. induction p as [a|e| |C q k IH]; simpl; auto. intros [Hq Hk]. split; auto. Qed.

Lemma calls_wrap {A} msg (p : prog A) : calls p -> calls (wrap msg p).
Proof. induction p as [a|e| |C q k IH]; simpl; auto. intros [Hq Hk]. split; auto. Qed.

Lemma calls_settle {A} (p : prog A) : calls p -> calls (settle p).
Proof. induction p as [a|e| |C q k IH]; simpl; auto. intros [Hq Hk]. split; auto. Qed.

Lemma calls_read {B} (r : kread B) : P _ (Read r) -> calls (read r).
Proof. intros H. split; [done|]. by intros []. Qed.
Lemma calls_write w : P _ (Write w) -> calls (write w).
Proof. intros H. split; [done|]. by intros []. Qed.
Lemma calls_deref {A} (o : option A) : calls (deref o).
Proof. by destruct o. Qed.

Lemma calls_par2 {A B} (p : prog A) : forall (q : prog B) sched, calls p -> calls q -> calls (par2 p q sched).
Proof.
  induction p as [a|e| |Cp cp kp IHp]; induction q as [b|e'| |Cq cq kq IHq]; intros sched Hp Hq; simpl; try done;
    try (destruct (default true (head sched)); simpl); try (split; [apply Hp || apply Hq|]; intros x;
      first [apply IHp; [apply Hp|done]|apply IHq; [done|apply Hq]]).
Qed.

Lemma calls_par {A} (ps : list (prog A)) : forall scheds, Forall calls ps -> calls (par ps scheds).
Proof.
  induction ps as [|p ps IH]; intros scheds Hall; [done|]. apply Forall_cons in Hall as [Hp Hps].
  apply calls_bind; [|done]. by apply calls_par2; auto.
Qed.

Lemma calls_Run `{KubeMessages} `{Process} sc funcs mc :
  Forall (fun f : Milvus -> prog unit => calls (f mc)) funcs -> calls (Run sc funcs mc).
Proof.
  intros Hall. unfold Run, runAll. destruct funcs as [|f funcs]; [done|]. cbn [fmap list_fmap].
  apply calls_bind.
  - apply calls_par. change (Forall calls (settle <$> ((fun f => f mc) <$> (f :: funcs)))).
    rewrite <- list_fmap_compose. apply Forall_fmap. eapply Forall_impl; [exact Hall|]. intros g Hg. by apply calls_settle.
  - intros os. unfold groupResult. by repeat case_match.
Qed.
End Calls.
#[global] Arguments calls : simpl never.

Ltac calls_step :=
  lazymatch goal with
  | |- calls _ (mbind _ _) => apply calls_bind; [|intros ?]
  | |- calls _ (prog_bind _ _) => apply calls_bind; [|intros ?]
  | |- calls _ (wrap _ _) => apply calls_wrap
  | |- calls _ (attempt _) => apply calls_attempt
  | |- calls _ (Ret _) => exact I
  | |- calls _ (Fail _) => exact I
  | |- calls _ Panic => exact I
  | |- calls _ (deref _) => apply calls_deref
  | |- calls _ (read _) => apply calls_read
  | |- calls _ (write _) => apply calls_write
  | |- calls _ (if ?b then _ else _) => destruct b
  | |- calls _ (match ?x with _ => _ end) => destruct x
  end; cbv beta.
Ltac calls_steps := repeat calls_step.

(** ** Calls that depend on the answers

    [callsIn R P p]: every call satisfies [P] when the answers satisfy [R]. *)
Section CallsIn.
Context (R : forall B, kread B -> B -> Prop) (P : forall B, kreq B -> Prop).

Definition admissible {B} (q : kreq B) (x : kerr + B) : Prop :=
  match x with inl _ => True | inr b => answer_ok R q b end.

Fixpoint callsIn {A} (p : prog A) : Prop :=
  match p with
  | Call q k => P _ q /\ forall x, admissible q x -> callsIn (k x)
  | _ => True
  end.

Lemma calls_callsIn {A} (p : prog A) : calls P p -> callsIn p.
Proof. induction p as [a|e| |B q k IH]; [done..|]. intros [Hq Hk]. split; auto. Qed.

Lemma callsIn_bind {A B} (p : prog A) (f : A -> prog B) :
  callsIn p -> (forall a, callsIn (f a)) -> callsIn (prog_bind f p).
Proof. induction p as [a|e| |C q k IH]; simpl; auto. intros [Hq Hk] Hf. split; auto. Qed.

Lemma callsIn_settle {A} (p : prog A) : callsIn p -> callsIn (settle p).
Proof. induction p as [a|e| |C q k IH]; simpl; auto. intros [Hq Hk]. split; auto. Qed.

Lemma callsIn_par2 {A B} (p : prog A) : forall (q : prog B) sched, callsIn p -> callsIn q -> callsIn (par2 p q sched).
Proof.
  induction p as [a|e| |Cp cp kp IHp]; induction q as [b|e'| |Cq cq kq IHq]; intros sched Hp Hq; simpl; try done;
    try (destruct (default true (head sched)); simpl); try (split; [apply Hp || apply Hq|]; intros x Hx;
      first [apply IHp; [by apply Hp|done]|apply IHq; [done|by apply Hq]]).
Qed.

Lemma callsIn_par {A} (ps : list (prog A)) : forall scheds, Forall callsIn ps -> callsIn (par ps scheds).
Proof.
  induction ps as [|p ps IH]; intros scheds Hall; [done|]. apply Forall_cons in Hall as [Hp Hps].
  apply callsIn_bind; [|done]. by apply callsIn_par2; auto.
Qed.

Lemma callsIn_Run `{KubeMessages} `{Process} sc funcs mc :
  Forall (fun f : Milvus -> prog unit => callsIn (f mc)) funcs -> callsIn (Run sc funcs mc).
Proof.
  intros Hall. unfold Run, runAll. destruct funcs as [|f funcs]; [done|]. cbn [fmap list_fmap].
  apply callsIn_bind.
  - apply callsIn_par. change (Forall callsIn (settle <$> ((fun f => f mc) <$> (f :: funcs)))).
    rewrite <- list_fmap_compose. apply Forall_fmap. eapply Forall_impl; [exact Hall|]. intros g Hg. by apply callsIn_settle.
  - intros os. unfold groupResult. by repeat case_match.
Qed.
End CallsIn.
#[global] Arguments callsIn : simpl never.

Definition writesIn (P : kwrite -> Prop) (B : Type) (q : kreq B) : Prop :=
  match q with Write w => P w | Read _ => True end.

(** A bound on the writes of every execution is one on the calls. *)
Lemma wp_callsIn (R : forall B, kread B -> B -> Prop) (P : kwrite -> Prop) {A} (p : prog A) :
  wp R p (fun ws _ => Forall P ws) -> callsIn R (writesIn P) p.
Proof.
  cut (forall ws0, wp R p (fun ws _ => Forall P (ws0 ++ ws)) -> Forall P ws0 /\ callsIn R (writesIn P) p).
  { intros H Hwp. by apply (H []). }
  induction p as [a|e| |B q k IH]; intros ws0 Hwp.
  1-3: change (Forall P (ws0 ++ [])) in Hwp; rewrite app_nil_r in Hwp; split; [done|exact I].
  destruct Hwp as [He Hb].
  assert (forall x, admissible R q x -> Forall P (ws0 ++ req_write q) /\ callsIn R (writesIn P) (k x)) as Hk.
  { intros [e|b] Hx; apply IH; (eapply wp_mono; [|apply He || by apply Hb]); intros ws o Hws; rewrite <- (assoc_L (++)); exact Hws. }
  destruct (Hk (inl KNotFound) I) as [[H0 H1]%Forall_app _]. split; [done|]. split; [|intros x Hx; by apply Hk].
  destruct q; [done|]. by inversion H1.
Qed.

Lemma callsIn_wp (R : forall B, kread B -> B -> Prop) (P : kwrite -> Prop) {A} (p : prog A) :
  callsIn R (writesIn P) p -> wp R p (fun ws _ => Forall P ws).
Proof.
  cut (forall Q : list kwrite -> outcome A -> Prop, (forall ws o, Forall P ws -> Q ws o) ->
         callsIn R (writesIn P) p -> wp R p Q); [eauto|].
  induction p as [a|e| |B q k IH]; intros Q HQ Hc; [by apply HQ..|]. destruct Hc as [Hq Hk].
  split; intros; (apply IH; [|by apply Hk]); intros ws o Hws; apply HQ; destruct q; simpl; by try constructor.
Qed.
