(* ===== verification/DeployUtil.v ===== *)
(** * Operations on the two deployments of a component

    The effectful half of pkg/controllers/deploy_ctrl_util.go
    ([DeployControllerBizUtilImpl]): finding the current and the last
    deployment, creating them, detecting and preparing a rollout, and scaling.
    Metadata helpers come from deployment_updater.go.

    A [Milvus] is passed by value here as in the source, but its label and
    annotation maps are shared there: every write to them below is followed by
    an update of the resource and an error return, so no later read sees it. *)
From S2P Require Import Prelude KubeTypes Libs ApiTypes Labels Effects.
From S2P Require Import Utils Components RollingUpdate ScalePlanner K8sUtil.

Local Open Scope string_scope.
Local Open Scope list_scope.
Local Open Scope Z_scope.

(** ** Metadata *)

Definition preservedMetadataPrefixes : list string :=
  ["kubectl.kubernetes.io/"; MilvusIO; "deployment.kubernetes.io/"].

Definition isPreservedKey (key : string) : bool :=
  existsb (fun prefix => HasPrefix key prefix) preservedMetadataPrefixes.

Definition preserveExistingMetadataPrefixes (desired existing : gmap string string)
    : gmap string string :=
  MergeLabels [desired] ∪ filter (fun kv => isPreservedKey (fst kv) = true) existing.

Definition preserveExistingMetadataKeys (desired existing : gmap string string) (keys : list string)
    : gmap string string :=
  fold_left
    (fun result key =>
       match result !! key with
       | Some _ => result
       | None => match existing !! key with Some value => <[key := value]> result | None => result end
       end) keys (MergeLabels [desired]).

Definition desiredDeploymentLabels (instance : string) (component : MilvusComponent)
    (rolloutSlot : string) (existing : gmap string string) : gmap string string :=
  let selector := GetSelectorLabels component instance in
  let labels := match DeploymentGroupOf component with
                | None => selector
                | Some g => MergeLabels [dg_Labels g; selector]
                end in
  let labels := preserveExistingMetadataPrefixes labels existing in
  if bool_decide (rolloutSlot = "") then labels
  else SetGroupIDStr (Name component) labels rolloutSlot.

Definition desiredDeploymentAnnotations (component : MilvusComponent) (existing : gmap string string)
    : gmap string string :=
  match DeploymentGroupOf component with
  | None => MergeAnnotations [existing]
  | Some g => preserveExistingMetadataPrefixes (dg_Annotations g) existing
  end.

(** ** The rendered pod template

    [updatePodTemplate] of deployment_updater.go renders the pod template of a
    component into an existing one; the rollout logic only compares and copies
    its result, so it is an interface here.  [None] is a panic (a nil
    component). *)
Class PodTemplateUpdater := {
  updatePodTemplate :
    Milvus -> MilvusComponent -> PodTemplateSpec -> gmap string string -> bool ->
    option PodTemplateSpec
}.

Definition emptyTemplate : PodTemplateSpec :=
  mkTemplate ∅ ∅ (mkPodSpec [] [] [] "" None [] [] ∅ [] "" "" false "" None None).

Definition oneMonthSeconds : Z := 24 * 30 * 60 * 60.

Definition dep_Annotations (d : Deployment) : gmap string string := om_Annotations (dep_Meta d).
Definition set_dep_Labels (d : Deployment) (l : gmap string string) : Deployment :=
  set_dep_Meta d (set_Labels (dep_Meta d) l).
Definition set_dep_Annotations (d : Deployment) (a : gmap string string) : Deployment :=
  set_dep_Meta d (set_Annotations (dep_Meta d) a).

Section DeployUtil.
Context {US : Unstructured} {IS : IntStr} {KL : KubeLib} {PU : PodTemplateUpdater}.
Context (component : MilvusComponent).

Definition RenderPodTemplateWithoutGroupID (mc : Milvus) (currentTemplate : option PodTemplateSpec)
    (forceUpdateAll : bool) : prog PodTemplateSpec :=
  let ret := default emptyTemplate currentTemplate in
  let appLabels := GetSelectorLabels component (mi_Name mc) in
  let isCreating := bool_decide (currentTemplate = None) in
  let isStopped := ReplicasValue (GetReplicas component (mi_Spec mc)) =? 0 in
  deref (updatePodTemplate mc component ret appLabels (forceUpdateAll || isCreating || isStopped)).

(** ** Finding the deployments *)

Definition componentDeployIsCurrentGroup (mc : Milvus) (deploy : Deployment) : bool :=
  bool_decide (GetLabelGroupID (Name component) (dep_Labels deploy)
               = GetCurrentGroupId mc (GetStateKey component)).

(** The loop over the one or two items; the error is the one for two current
    deployments. *)
Fixpoint pickDeploys (mc : Milvus) (items : list Deployment) (current last : option Deployment)
    : prog (option Deployment * option Deployment) :=
  match items with
  | [] => Ret (current, last)
  | d :: items' =>
      if componentDeployIsCurrentGroup mc d then
        match current with
        | Some _ => Fail (ENew "unexpected: more than 1 deployment is for current group id, admin please fix this by setting a current deployment")
        | None => pickDeploys mc items' (Some d) last
        end
      else pickDeploys mc items' current (Some d)
  end.

(** The deployments of the component that belong to a rollout slot. *)
Definition isSlotted (d : Deployment) : bool :=
  MatchesDeploymentGroup component (dep_Labels d)
  && negb (bool_decide (GetLabelGroupID (Name component) (dep_Labels d) = "")).

Definition selectDeploys (mc : Milvus) (deploys : list Deployment) : prog (Deployment * Deployment) :=
  let items := filter (fun d => isSlotted d = true) deploys in
  if 2 <? Z.of_nat (length items) then
    Fail (ENew ("unexpected: more than 2 " +:+ GetDisplayName component +:+ " deployments found "
                +:+ Itoa (Z.of_nat (length items))
                +:+ ", admin please fix this, leave only 2 deployments"))
  else if Z.of_nat (length items) <? 1 then Fail ErrNotFound
  else
    picked ← pickDeploys mc items None None;
    match picked with
    | (None, _) => Fail (ENew "unexpected: no deployment is for current group id, admin please fix this by setting a current deployment")
    | (Some current, Some last) => Ret (current, last)
    | (Some _, None) =>
        if negb (bool_decide (GetCurrentGroupId mc (GetStateKey component) = "0"))
        then Fail (ENew "unexpected: first deployment is not for group 0, admin please fix this by setting a last deployment for group 0")
        else Fail ErrNoLastDeployment
    end.

Definition GetDeploys (mc : Milvus) : prog (Deployment * Deployment) :=
  deploys ← wrap "list querynode deployments"
    (read (ListDeployments (mi_Namespace mc) (GetSelectorLabels component (mi_Name mc))));
  selectDeploys mc deploys.

(** ** Creating a deployment *)

Definition formatComponentDeployName (mc : Milvus) (groupId : Z) : string :=
  GetDeploymentName component (mi_Name mc) +:+ "-" +:+ Itoa groupId.

Definition set_first_image (t : PodTemplateSpec) (image : string) : option PodTemplateSpec :=
  match ps_Containers (pt_Spec t) with
  | [] => None
  | c :: cs =>
      let c' := mkContainer (ct_Name c) image (ct_ImagePullPolicy c) (ct_Command c) (ct_Args c)
                  (ct_Env c) (ct_Ports c) (ct_VolumeMounts c) (ct_Resources c)
                  (ct_SecurityContext c) (ct_StartupProbe c) (ct_LivenessProbe c)
                  (ct_ReadinessProbe c) (ct_Lifecycle c) (ct_TerminationMessagePath c)
                  (ct_TerminationMessagePolicy c) in
      let s := pt_Spec t in
      Some (mkTemplate (pt_Labels t) (pt_Annotations t)
              (mkPodSpec (ps_InitContainers s) (c' :: cs) (ps_Volumes s) (ps_SchedulerName s)
                 (ps_Affinity s) (ps_Tolerations s) (ps_TopologySpreadConstraints s)
                 (ps_NodeSelector s) (ps_ImagePullSecrets s) (ps_ServiceAccountName s)
                 (ps_PriorityClassName s) (ps_HostNetwork s) (ps_DNSPolicy s) (ps_SecurityContext s)
                 (ps_TerminationGracePeriodSeconds s)))
  end.

Definition dummyImage (mc : Milvus) : string :=
  if bool_decide (com_DummyImage (mi_Com mc) = "") then "dummy" else com_DummyImage (mi_Com mc).

(** The deployment [CreateDeploy] assembles from its metadata (with the owner
    reference), its template and its strategy: no replicas, the labels of the
    component and its slot; a group adds its own labels and annotations. *)
Definition newDeployment (mc : Milvus) (groupId : Z) (meta : ObjectMeta) (template : PodTemplateSpec)
    (strategy : DeploymentStrategy) (paused : bool) : Deployment :=
  let labels := SetGroupID (Name component) (GetSelectorLabels component (mi_Name mc)) groupId in
  let meta := match DeploymentGroupOf component with
              | Some g => set_Annotations (set_Labels meta (MergeLabels [dg_Labels g; labels]))
                            (MergeAnnotations [dg_Annotations g])
              | None => set_Labels meta labels
              end in
  mkDeployment meta
    (mkDSpec (int32Ptr 0) labels
       (set_pt_Labels template (MergeLabels [pt_Labels template; labels])) strategy 30 paused
       (int32Ptr oneMonthSeconds))
    zeroDeploymentStatus.

Definition CreateDeploy (mc : Milvus) (podTemplate : option PodTemplateSpec) (groupId : Z)
    : prog unit :=
  template ← match podTemplate with
             | None => RenderPodTemplateWithoutGroupID mc None true
             | Some t => Ret t
             end;
  template ← (if negb (groupId =? 0) then deref (set_first_image template (dummyImage mc))
              else Ret template);
  let meta := mkMeta (formatComponentDeployName mc groupId) (mi_Namespace mc) ∅ ∅ 0 "" "" [] None [] in
  match SetControllerReference (mi_Meta mc) meta with
  | None => Fail (EWrap "set controller reference" (ENew "already owned"))
  | Some meta =>
      strategy ← deref (GetDeploymentStrategy mc component);
      comSpec ← deref (GetMergedComponentSpec mc component);
      write (CreateDeployment (newDeployment mc groupId meta template strategy (csp_Paused comSpec)))
  end.

(** ** Comparing pod templates *)

Definition isPodTemplateEqual (currentDeployment : Deployment) (podTemplate : PodTemplateSpec) : bool :=
  let clear t := set_pt_Labels t (SetGroupIDStr (Name component) (pt_Labels t) "") in
  DeepEqual (clear (dsp_Template (dep_Spec currentDeployment))) (clear podTemplate).

Definition IsPodTemplateChanged (currentDeployment : Deployment) (podTemplate : PodTemplateSpec) : bool :=
  negb (isPodTemplateEqual currentDeployment podTemplate).

Definition ShouldRollback (currentDeploy lastDeploy : Deployment) (podTemplate : PodTemplateSpec)
    : bool :=
  if isPodTemplateEqual currentDeploy podTemplate then false
  else isPodTemplateEqual lastDeploy podTemplate.

(** ** The end of a rollout *)

Definition rolloutFinishedChecks (mc : Milvus) (cur last : Deployment) : list bool :=
  [GetLeastReplicasRegardingHPA component (mi_Spec mc) <=? ReplicasValue (dsp_Replicas (dep_Spec cur));
   dss_ObservedGeneration (dep_Status cur) =? om_Generation (dep_Meta cur);
   dss_ObservedGeneration (dep_Status last) =? om_Generation (dep_Meta last);
   int32_of (getDeployReplicas cur) =? dss_UpdatedReplicas (dep_Status cur);
   dss_UpdatedReplicas (dep_Status cur) =? dss_Replicas (dep_Status cur);
   dss_UpdatedReplicas (dep_Status cur) =? dss_AvailableReplicas (dep_Status cur);
   getDeployReplicas last =? 0;
   dss_Replicas (dep_Status last) =? 0].

Definition LastRolloutFinished (mc : Milvus) (currentDeployment lastDeployment : Deployment)
    : prog bool :=
  if negb (IsComponentRolling mc (GetStateKey component)) then Ret true
  else if negb (fst (logicAnd (rolloutFinishedChecks mc currentDeployment lastDeployment)))
  then Ret false
  else
    pods ← ListDeployPods lastDeployment;
    match pods with
    | _ :: _ => Ret false
    | [] =>
        _ ← UpdateAndRequeue (UpdateMilvus (SetComponentRolling mc (GetStateKey component) false));
        Ret false
    end.

(** ** The start of a rollout *)

Definition updatePodTemplateTwoDeployMode (currentDeployment : Deployment)
    (podTemplate : PodTemplateSpec) : Deployment :=
  let currentGroupIdStr := GetLabelGroupID (Name component) (dep_Labels currentDeployment) in
  set_dep_Template currentDeployment
    (set_pt_Labels podTemplate
       (SetGroupIDStr (Name component) (pt_Labels podTemplate) currentGroupIdStr)).

Definition RenewDeployAnnotation (mc : Milvus) (currentDeploy : Deployment) : Deployment * bool :=
  let currentGen := mget (dep_Annotations currentDeploy) AnnotationMilvusGeneration in
  let expectedGen := Itoa (om_Generation (mi_Meta mc)) in
  if bool_decide (currentGen = expectedGen) then (currentDeploy, false)
  else (set_dep_Annotations currentDeploy
          (<[AnnotationMilvusGeneration := expectedGen]> (dep_Annotations currentDeploy)), true).

Definition PrepareNewRollout (mc : Milvus) (currentDeployment : Deployment)
    (podTemplate : PodTemplateSpec) : prog unit :=
  let currentGroupIdStr := GetLabelGroupID (Name component) (dep_Labels currentDeployment) in
  let d := updatePodTemplateTwoDeployMode currentDeployment podTemplate in
  let d := fst (RenewDeployAnnotation mc d) in
  _ ← wrap "updateDeployTemplate failed" (write (UpdateDeployment d));
  let mc := SetCurrentGroupIDStr mc (GetStateKey component) currentGroupIdStr in
  let mc := SetComponentRolling mc (GetStateKey component) true in
  UpdateAndRequeue (UpdateMilvus mc).

(** ** Scaling *)

Definition checkLastDeploymentStable (lastDeployment : Deployment) : prog unit :=
  lastDeployPods ← wrap "list last deploy pods" (ListDeployPods lastDeployment);
  match DeploymentIsStable lastDeployment lastDeployPods with
  | (true, _) => Ret tt
  | (false, reason) => Fail (EWrap ("last deploy is not stable[" +:+ reason +:+ "]") ErrRequeue)
  end.

Definition podCountsReady (pod : Pod) : bool :=
  bool_decide (om_DeletionTimestamp (pod_Meta pod) = None)
  && bool_decide (pod_Phase pod = PodRunning)
  && match list_find (fun c => pc_Type c = PodReadyType) (pod_Conditions pod) with
     | Some (_, cond) => bool_decide (pc_Status cond = ConditionTrue)
     | None => false
     end.

(** The relaxed stability of the current deployment when its pods may be
    unavailable: its last scaling was observed and nothing terminates. *)
Definition observedScale (currentDeployment : Deployment) (pods : list Pod) : bool :=
  let st := dep_Status currentDeployment in
  (dss_ObservedGeneration st =? om_Generation (dep_Meta currentDeployment))
  && (dss_Replicas st =? getDeployReplicas currentDeployment)
  && (dss_UpdatedReplicas st =? dss_Replicas st)
  && (Z.of_nat (length pods) =? getDeployReplicas currentDeployment)
  && bool_decide (GetTerminatingPods pods = []).

Definition checkDeploymentsStable (currentDeployment lastDeployment : Deployment)
    (allowUnavailable : bool) : prog unit :=
  _ ← checkLastDeploymentStable lastDeployment;
  currentDeployPods ← wrap "list current deploy pods" (ListDeployPods currentDeployment);
  let readyPods := Z.of_nat (length (filter (fun p => podCountsReady p = true) currentDeployPods)) in
  if allowUnavailable
     && (readyPods <? dss_AvailableReplicas (dep_Status currentDeployment))
  then Fail (EWrap "current deploy available replicas exceed ready pods" ErrRequeue)
  else
    let '(isStable, reason) := DeploymentIsStable currentDeployment currentDeployPods in
    let isStable :=
      if negb isStable && allowUnavailable then observedScale currentDeployment currentDeployPods
      else isStable in
    if isStable then Ret tt
    else Fail (EWrap ("current deploy is not stable[" +:+ reason +:+ "]") ErrRequeue).

Definition checkCanScaleNow (mc : Milvus) (currentDeployment lastDeployment : Deployment) : prog unit :=
  let kind := checkScaleKind component mc lastDeployment in
  if bool_decide (kind = scaleKindHPA) || bool_decide (kind = scaleKindForce) then Ret tt
  else
    strategy ← deref (GetDeploymentStrategy mc component);
    let expected := expectedReplicas component mc in
    let '(surge, unavailable) := rolloutSteps strategy expected in
    if negb (bool_decide (kind = scaleKindRollout)) then
      if (surge =? 0) && (getDeployReplicas currentDeployment <? expected)
      then wrap "check deployments stable" (checkLastDeploymentStable lastDeployment)
      else Ret tt
    else
      wrap "check deployments stable"
        (checkDeploymentsStable currentDeployment lastDeployment ((surge =? 0) && (0 <? unavailable))).

Definition markDeployAsCurrent (mc : Milvus) (currentDeployment : Deployment) : prog unit :=
  groupId ← wrap "get deployment group id" (GetDeploymentGroupId currentDeployment);
  wrap ("mark group id to " +:+ Itoa groupId) (MarkMilvusComponentGroupId mc component groupId).

Definition doScaleAction (action : scaleAction) (cur last : Deployment) : prog unit :=
  if sa_replicaChange action =? 0 then Ret tt
  else
    target ← deref (sa_deploy action);
    let d := match target with CurrentDeployment => cur | LastDeployment => last end in
    UpdateAndRequeue (UpdateDeployment (scaled d (sa_replicaChange action))).

Definition ScaleDeployments (mc : Milvus) (currentDeployment lastDeployment : Deployment) : prog unit :=
  _ ← markDeployAsCurrent mc currentDeployment;
  _ ← checkCanScaleNow mc currentDeployment lastDeployment;
  plan ← deref (planNextScaleAction component mc currentDeployment lastDeployment);
  let '(action, cur, last) := plan in
  doScaleAction action cur last.
End DeployUtil.
