(* ===== verification/DeployCtrl.v ===== *)
(** * The deploy controller

    pkg/controllers/deploy_ctrl.go ([DeployControllerImpl] and
    [DeployControllerBizImpl]), deploy_mode_changer.go and
    rolling_mode_status_updater.go: the reconcile of one component workload,
    from the choice of the deploy mode to the scaling of its two
    deployments.  Reconciling a component in one-deployment mode is a
    [DeployController] of its own, a parameter here.

    The client refreshes an object it has written with the server's answer;
    the model keeps the object that was sent, which matters only after a
    successful status update, where the two agree on everything read later. *)
From S2P Require Import Prelude KubeTypes Libs ApiTypes Labels Effects Utils.
From S2P Require Import Components RollingUpdate ScalePlanner K8sUtil DeployUtil.

Local Open Scope string_scope.
Local Open Scope list_scope.
Local Open Scope Z_scope.

Definition set_rs_Meta (r : ReplicaSet) (m : ObjectMeta) : ReplicaSet :=
  mkReplicaSet m (rs_Selector r) (rs_Template r).

Definition set_pod_Labels (p : Pod) (l : gmap string string) : Pod :=
  mkPod (set_Labels (pod_Meta p) l) (pod_Phase p) (pod_Reason p) (pod_Conditions p)
    (pod_ContainerStatuses p).

(** Metadata of an object to be created again: no UID nor resource version. *)
Definition recreatedMeta (m : ObjectMeta) (name : string) (labels : gmap string string) : ObjectMeta :=
  mkMeta name (om_Namespace m) labels (om_Annotations m) (om_Generation m) "" ""
    (om_OwnerReferences m) (om_DeletionTimestamp m) (om_Finalizers m).

(** ** Changing to two deployments *)

Section ModeChanger.
Context {KL : KubeLib}.
Context (component : MilvusComponent).

Definition formatSaveOldDeployName (mc : Milvus) : string :=
  match DeploymentGroupOf component with
  | None => Name component +:+ "-" +:+ mi_Name mc +:+ "-old-deploy"
  | Some g => Name component +:+ "-" +:+ mi_Name mc +:+ "-" +:+ dg_Name g +:+ "-old-deploy"
  end.

Definition formatSaveOldReplicaSetListName (mc : Milvus) : string :=
  match DeploymentGroupOf component with
  | None => Name component +:+ "-" +:+ mi_Name mc +:+ "-old-replicas"
  | Some g => Name component +:+ "-" +:+ mi_Name mc +:+ "-" +:+ dg_Name g +:+ "-old-replicas"
  end.

Definition MarkDeployModeChanging (mc : Milvus) (changing : bool) : prog unit :=
  if Bool.eqb (IsChangingMode mc (GetStateKey component)) changing then Ret tt
  else wrap "marking changing deploy mode"
         (UpdateAndRequeue (UpdateMilvus (SetChangingMode mc (GetStateKey component) changing))).

Definition SaveDeleteOldDeploy (mc : Milvus) : prog unit :=
  r ← attempt (GetOldDeploy mc component);
  match r with
  | inr oldDeploy =>
      _ ← wrap "save old deploy"
            (SaveObject mc (formatSaveOldDeployName mc) (SavedDeployment oldDeploy));
      wrap "orphan delete old deploy" (OrphanDelete (OrphanDeleteDeployment oldDeploy))
  | inl e => if IsNotFound e then Ret tt else Fail (EWrap "get old deployments" e)
  end.

(** All replica sets are deleted; the error returned is that of the last one
    that failed. *)
Fixpoint deleteReplicaSets (items : list ReplicaSet) (ret : option err) : prog unit :=
  match items with
  | [] => match ret with None => Ret tt | Some e => Fail e end
  | rs :: items' =>
      r ← attempt (OrphanDelete (OrphanDeleteReplicaSet rs));
      deleteReplicaSets items'
        (match r with
         | inr _ => ret
         | inl e => Some (EWrap ("deleting old replica set[" +:+ om_Name (rs_Meta rs) +:+ "]") e)
         end)
  end.

Definition SaveDeleteOldReplicaSet (mc : Milvus) : prog unit :=
  replicasets ← wrap "list old replica sets" (ListOldReplicaSets mc component);
  _ ← wrap "save old replicaset list"
        (SaveObject mc (formatSaveOldReplicaSetListName mc) (SavedReplicaSets replicasets));
  deleteReplicaSets replicasets None.

Fixpoint updatePods (pods : list Pod) : prog unit :=
  match pods with
  | [] => Ret tt
  | pod :: pods' =>
      _ ← wrap "update old pod labels"
            (write (UpdatePod (set_pod_Labels pod
                                 (SetGroupID (Name component) (om_Labels (pod_Meta pod)) 0))));
      updatePods pods'
  end.

Definition UpdateOldPodLabels (mc : Milvus) : prog unit :=
  pods ← wrap "list old pods" (ListOldPods mc component);
  updatePods pods.

(** [name-hash] becomes [name-0-hash]. *)
Definition recoveredReplicaSetName (name : string) : option string :=
  let splitedName := Split "-" name in
  if (length splitedName <? 2)%nat then None
  else
    let rsHash := default "" (last splitedName) in
    let deployName := Join "-" (take (length splitedName - 1) splitedName) in
    Some (deployName +:+ "-0-" +:+ rsHash).

Definition recoveredReplicaSet (rs : ReplicaSet) (name : string) : ReplicaSet :=
  let set l := SetGroupID (Name component) l 0 in
  mkReplicaSet (recreatedMeta (rs_Meta rs) name (set (om_Labels (rs_Meta rs))))
    (set (rs_Selector rs)) (set_pt_Labels (rs_Template rs) (set (pt_Labels (rs_Template rs)))).

Fixpoint recoverReplicaSetList (items : list ReplicaSet) : prog unit :=
  match items with
  | [] => Ret tt
  | rs :: items' =>
      match recoveredReplicaSetName (om_Name (rs_Meta rs)) with
      | None => Fail (ENew ("invalid old replica set name: " +:+ om_Name (rs_Meta rs)))
      | Some name =>
          _ ← wrap "recover old replica set" (CreateReplicaSetObject (recoveredReplicaSet rs name));
          recoverReplicaSetList items'
      end
  end.

Definition RecoverReplicaSets (mc : Milvus) : prog unit :=
  data ← wrap "list old replica sets"
    (GetSavedObject (mi_Namespace mc) (formatSaveOldReplicaSetListName mc));
  match data with
  | SavedReplicaSets l => recoverReplicaSetList l
  | SavedDeployment _ | SavedStatefulSet _ =>
      Fail (EWrap "list old replica sets" (EWrap "unmarshal saved object" (ENew "wrong kind")))
  end.

Definition recoveredDeploy (d : Deployment) : Deployment :=
  let set l := SetGroupID (Name component) l 0 in
  let s := dep_Spec d in
  mkDeployment (recreatedMeta (dep_Meta d) (dep_Name d +:+ "-0") (set (dep_Labels d)))
    (mkDSpec (dsp_Replicas s) (set (dsp_Selector s))
       (set_pt_Labels (dsp_Template s) (set (pt_Labels (dsp_Template s)))) (dsp_Strategy s)
       (dsp_MinReadySeconds s) (dsp_Paused s) (dsp_ProgressDeadlineSeconds s))
    (dep_Status d).

Definition RecoverDeploy (mc : Milvus) : prog unit :=
  data ← wrap "get old deploy" (GetSavedObject (mi_Namespace mc) (formatSaveOldDeployName mc));
  match data with
  | SavedDeployment d => wrap "recover old deploy" (CreateDeploymentObject (recoveredDeploy d))
  | SavedReplicaSets _ | SavedStatefulSet _ =>
      Fail (EWrap "get old deploy" (EWrap "unmarshal saved object" (ENew "wrong kind")))
  end.

Definition MarkCurrentDeploy (mc : Milvus) : prog unit :=
  if bool_decide (GetCurrentGroupId mc (GetStateKey component) = "0") then Ret tt
  else wrap "mark current deploy"
         (UpdateAndRequeue (UpdateMilvus (SetCurrentGroupID mc (GetStateKey component) 0))).

Definition changeModeToV2Steps : list (string * (Milvus -> prog unit)) :=
  [("save and delete old deploy", SaveDeleteOldDeploy);
   ("save and delete old replica set", SaveDeleteOldReplicaSet);
   ("update old pod labels", UpdateOldPodLabels);
   ("recover replica sets", RecoverReplicaSets);
   ("recover deploy", RecoverDeploy);
   ("mark current deploy", MarkCurrentDeploy)].

Fixpoint runSteps (i : Z) (steps : list (string * (Milvus -> prog unit))) (mc : Milvus) : prog unit :=
  match steps with
  | [] => Ret tt
  | (name, f) :: steps' =>
      _ ← wrap ("step[no." +:+ Itoa i +:+ "][" +:+ name +:+ "]") (f mc);
      runSteps (i + 1) steps' mc
  end.

Definition ChangeToTwoDeployMode (mc : Milvus) : prog unit := runSteps 0 changeModeToV2Steps mc.
End ModeChanger.

(** ** The deploy mode *)

Definition checkDeployModeInCluster (component : MilvusComponent) (mc : Milvus)
    : prog ComponentDeployMode :=
  r ← attempt (GetOldDeploy mc component);
  match r with
  | inr _ => Ret OneDeployMode
  | inl e => if IsNotFound e then Ret TwoDeployMode else Fail (EWrap "get deployments" e)
  end.

Definition CheckDeployMode (component : MilvusComponent) (mc : Milvus) : prog ComponentDeployMode :=
  let mode := st_RollingMode (mi_Status mc) in
  if (mode =? RollingModeV3) || ((mode =? RollingModeV2) && Is component QueryNode)
  then Ret TwoDeployMode
  else if IsChangingMode mc (GetStateKey component) then Ret OneDeployMode
  else wrap "check rolling mode in cluster" (checkDeployModeInCluster component mc).

Section RollingModeStatus.
Context {SV : Semver}.

(** [StatefulSetEnabled] is defined on a nil query node. *)
Definition GetExpectedTwoDeployComponents (spec : MilvusSpec) : list MilvusComponent :=
  if com_RollingMode (spec_Com spec) =? RollingModeV3 then
    filter (fun w => IsIdleClusterStandalone spec w = false) (GetComponentWorkloadsBySpec spec)
  else if bool_decide (spec_Mode spec = MilvusModeStandalone) then []
  else
    filter (fun w => Is w QueryNode = true /\ QueryNode_StatefulSetEnabled (com_QueryNode (spec_Com spec)) = false)
      (GetComponentWorkloadsBySpec spec).

Fixpoint allTwoDeploy (components : list MilvusComponent) (mc : Milvus) : prog bool :=
  match components with
  | [] => Ret true
  | c :: cs =>
      deployMode ← wrap "check deploy mode" (CheckDeployMode c mc);
      if bool_decide (deployMode = TwoDeployMode) then allTwoDeploy cs mc else Ret false
  end.

Definition set_RollingMode (m : Milvus) (mode : Z) : Milvus :=
  let s := mi_Status m in
  set_mi_Status m
    (mkStatus (st_Status s) (st_Conditions s) (st_Endpoint s) (st_IngressStatus s)
       (st_ComponentsDeployStatus s) (st_DeploymentGroupsDeployStatus s) mode
       (st_ObservedGeneration s) (st_CurrentImage s) (st_CurrentVersion s)).

(** [Update] writes through the pointer it is given: the result is the
    resource as the caller sees it afterwards. *)
Definition RollingModeStatus_Update (mc : Milvus) : prog Milvus :=
  if st_RollingMode (mi_Status mc) =? com_RollingMode (mi_Com mc) then Ret mc
  else
    updated ← wrap "check updated" (allTwoDeploy (GetExpectedTwoDeployComponents (mi_Spec mc)) mc);
    if updated : bool then
      let mc := set_RollingMode mc (com_RollingMode (mi_Com mc)) in
      _ ← wrap "update milvus status" (write (UpdateMilvusStatus mc));
      Ret mc
    else Ret mc.
End RollingModeStatus.

(** ** Handlers *)

Section Handlers.
Context {SV : Semver} {US : Unstructured} {IS : IntStr} {KL : KubeLib} {PU : PodTemplateUpdater}.
Context (component : MilvusComponent).

Definition IsUpdating (mc : Milvus) : prog bool :=
  if IsChangingMode mc (GetStateKey component) then Ret false
  else
    stopping ← deref (isMilvusStoppingForReconcile mc);
    if stopping : bool then Ret false
    else if st_ObservedGeneration (mi_Status mc) <? om_Generation (mi_Meta mc) then Ret true
    else
      match GetMilvusConditionByType (mi_Status mc) MilvusUpdated with
      | None => Ret true
      | Some cond => Ret (negb (bool_decide (mc_Status cond = ConditionTrue)))
      end.

Definition IsPaused (mc : Milvus) : prog bool :=
  if csp_Paused (com_ComponentSpec (mi_Com mc)) then Ret true
  else
    spec ← deref (GetComponentSpec component (mi_Spec mc));
    Ret (csp_Paused spec).

(** One deployment of [reconcileDeploymentGroupMetadata]: what it is updated
    to, or [None] when it is in sync. *)
Definition desiredMetadata (mc : Milvus) (deployment : Deployment) : option Deployment :=
  let rolloutSlot := GetLabelGroupID (Name component) (dep_Labels deployment) in
  let labels := desiredDeploymentLabels (mi_Name mc) component rolloutSlot (dep_Labels deployment) in
  let annotations := desiredDeploymentAnnotations component (dep_Annotations deployment) in
  if DeepEqual labels (dep_Labels deployment) && DeepEqual annotations (dep_Annotations deployment)
  then None
  else Some (set_dep_Annotations (set_dep_Labels deployment labels) annotations).

Fixpoint syncMetadata (mc : Milvus) (deployments : list Deployment) (updated : bool) : prog bool :=
  match deployments with
  | [] => Ret updated
  | d :: ds =>
      match desiredMetadata mc d with
      | None => syncMetadata mc ds updated
      | Some d' =>
          _ ← wrap "update deployment group metadata" (write (UpdateDeployment d'));
          syncMetadata mc ds true
      end
  end.

Definition reconcileDeploymentGroupMetadata (mc : Milvus) (deployments : list Deployment) : prog unit :=
  match DeploymentGroupOf component with
  | None => Ret tt
  | Some _ =>
      updated ← syncMetadata mc deployments false;
      if negb updated then Ret tt
      else Fail (EWrap "deployment group metadata updated" ErrRequeue)
  end.

Definition HandleCreate (mc : Milvus) : prog unit :=
  r ← attempt (GetDeploys component mc);
  match r with
  | inr (cur, last) => reconcileDeploymentGroupMetadata mc [cur; last]
  | inl ErrNotFound =>
      _ ← wrap ("mark milvus " +:+ Name component +:+ " group id to 0")
            (MarkMilvusComponentGroupId mc component 0);
      wrap ("create " +:+ Name component +:+ " deployment 0") (CreateDeploy component mc None 0)
  | inl ErrNoLastDeployment => CreateDeploy component mc None 1
  | inl e => Fail (EWrap ("get " +:+ Name component +:+ " deploys") e)
  end.

Definition stopDeployIfNot (deploy : Deployment) : prog unit :=
  if negb (getDeployReplicas deploy =? 0) then
    wrap "stop current deployment"
      (write (UpdateDeployment (set_dep_Replicas deploy (int32Ptr 0))))
  else Ret tt.

Definition HandleStop (mc : Milvus) : prog unit :=
  deploys ← wrap "get querynode deploys" (GetDeploys component mc);
  _ ← wrap "stop current deployment" (stopDeployIfNot (fst deploys));
  _ ← wrap "stop last deployment" (stopDeployIfNot (snd deploys));
  if negb (IsComponentRolling mc (GetStateKey component)) then Ret tt
  else write (UpdateMilvus (SetComponentRolling mc (GetStateKey component) false)).

Definition HandleScaling (mc : Milvus) : prog unit :=
  deploys ← wrap "get querynode deploys" (GetDeploys component mc);
  ScaleDeployments component mc (fst deploys) (snd deploys).

Definition HandleRolling (mc : Milvus) : prog unit :=
  deploys ← wrap ("get [" +:+ Name component +:+ "] deploys") (GetDeploys component mc);
  let '(currentDeploy, lastDeploy) := deploys in
  podTemplate ← RenderPodTemplateWithoutGroupID component mc
                  (Some (dsp_Template (dep_Spec currentDeploy))) false;
  if ShouldRollback component currentDeploy lastDeploy podTemplate
  then PrepareNewRollout component mc lastDeploy podTemplate
  else
    lastRolloutFinished ← wrap "check last rollout"
      (LastRolloutFinished component mc currentDeploy lastDeploy);
    if negb lastRolloutFinished then Ret tt
    else if IsPodTemplateChanged component currentDeploy podTemplate then
      PrepareNewRollout component mc
        (if 0 <? getDeployReplicas currentDeploy then lastDeploy else currentDeploy) podTemplate
    else Ret tt.

Definition HandleManualMode (mc : Milvus) : prog unit :=
  deploys ← wrap ("get [" +:+ Name component +:+ "] deploys") (GetDeploys component mc);
  let currentDeploy := fst deploys in
  podTemplate ← RenderPodTemplateWithoutGroupID component mc
                  (Some (dsp_Template (dep_Spec currentDeploy))) true;
  let templateChanged := IsPodTemplateChanged component currentDeploy podTemplate in
  if negb (getDeployReplicas currentDeploy =? 0) then
    if templateChanged
    then Fail (EWrap ("[" +:+ Name component
                      +:+ "]'s active deployment pod template is out of sync in manual mode") ErrRequeue)
    else Ret tt
  else
    let '(d, renewed) := RenewDeployAnnotation mc currentDeploy in
    let d := if templateChanged then updatePodTemplateTwoDeployMode component d podTemplate else d in
    if negb (renewed || templateChanged) then Ret tt
    else UpdateAndRequeue (UpdateDeployment d).

(** ** Reconcile *)

Context (oneDeployModeReconcile : Milvus -> MilvusComponent -> prog unit).

(** The component in two-deployment mode: everything after the switch on the
    deploy mode. *)
Definition reconcileTwoDeploy (mc : Milvus) : prog unit :=
  _ ← wrap "handle create" (HandleCreate mc);
  paused ← IsPaused mc;
  if paused : bool then Ret tt
  else if com_EnableManualMode (mi_Com mc) then HandleManualMode mc
  else if (ReplicasValue (GetReplicas component (mi_Spec mc)) =? 0)
          && (negb (IsHPAEnabled component (mi_Spec mc)) || isUpgradeStopping mc)
  then HandleStop mc
  else
    _ ← wrap "handle rolling" (HandleRolling mc);
    wrap "handle scaling" (HandleScaling mc).

Definition Reconcile (mc : Milvus) : prog unit :=
  mc ← wrap "update milvus rolling mode status" (RollingModeStatus_Update mc);
  deployMode ← wrap "check deploy mode" (CheckDeployMode component mc);
  match deployMode with
  | OneDeployMode =>
      isUpdating ← wrap "check if updating" (IsUpdating mc);
      if isUpdating : bool then oneDeployModeReconcile mc component
      else
        _ ← MarkDeployModeChanging component mc true;
        _ ← wrap "change to two deployment mode" (ChangeToTwoDeployMode component mc);
        _ ← MarkDeployModeChanging component mc false;
        reconcileTwoDeploy mc
  | TwoDeployMode =>
      _ ← MarkDeployModeChanging component mc false;
      reconcileTwoDeploy mc
  | DeployModeUnknown => Fail (ENew "unknown deploy mode: 0")
  end.
End Handlers.
