(* ===== verification/DeployProofs.v ===== *)
(** * Correctness of the deploy controller

    Which deployments [GetDeploys] takes for the current and the last one, and
    what a reconcile in two-deployment mode does to the store: the deployment
    of the slot that is not current has no replicas unless a rollout is in
    progress, at every point of every reconcile ([reconcile_keeps_invariant]);
    a paused component is not changed; manual mode never touches a running
    deployment; a stopped component ends with no replicas. *)
From S2P Require Import Prelude KubeTypes Libs ApiTypes Labels Effects Utils Components.
From S2P Require Import RollingUpdate ScalePlanner K8sUtil Store Calls DeployUtil DeployCtrl Examples.

Local Open Scope string_scope.
Local Open Scope list_scope.
Local Open Scope Z_scope.

(** ** Classification of the deployments *)

Section Select.
Context (component : MilvusComponent).

Notation slotted := (fun d => isSlotted component d = true).

Lemma selectDeploys_cases mc ds :
  (exists c l, selectDeploys component mc ds = Ret (c, l) /\
     (filter slotted ds = [c; l] \/ filter slotted ds = [l; c]) /\
     componentDeployIsCurrentGroup component mc c = true /\
     componentDeployIsCurrentGroup component mc l = false) \/
  (selectDeploys component mc ds = Fail ErrNotFound /\ filter slotted ds = []) \/
  (exists c, selectDeploys component mc ds = Fail ErrNoLastDeployment /\ filter slotted ds = [c] /\
     componentDeployIsCurrentGroup component mc c = true /\
     GetCurrentGroupId mc (GetStateKey component) = "0") \/
  (exists msg, selectDeploys component mc ds = Fail (ENew msg) /\ filter slotted ds <> []).
Proof.
  unfold selectDeploys.
  destruct (filter slotted ds) as [|a [|b [|c items]]]; simpl.
  - right; left. done.
  - destruct (componentDeployIsCurrentGroup component mc a) eqn:Ea; simpl.
    + case_bool_decide; simpl; [right; right; left; eauto|right; right; right; eauto].
    + right; right; right. eauto.
  - destruct (componentDeployIsCurrentGroup component mc a) eqn:Ea,
      (componentDeployIsCurrentGroup component mc b) eqn:Eb; simpl.
    + right; right; right. eauto.
    + left. exists a, b. auto.
    + left. exists b, a. auto.
    + right; right; right. eauto.
  - right; right; right. rewrite (proj2 (Z.ltb_lt 2 _)) by lia. eauto.
Qed.

Lemma selectDeploys_ret mc ds c l :
  selectDeploys component mc ds = Ret (c, l) ->
  (filter slotted ds = [c; l] \/ filter slotted ds = [l; c]) /\
  componentDeployIsCurrentGroup component mc c = true /\
  componentDeployIsCurrentGroup component mc l = false.
Proof.
  intros H. destruct (selectDeploys_cases mc ds) as [(c' & l' & H' & Hp & Hc & Hl)|[[H' _]|[(? & H' & _)|(? & H' & _)]]];
    rewrite H in H'; [|done..]. by injection H' as -> ->.
Qed.
End Select.

(** ** The store invariant *)

Section Invariant.
Context {SV : Semver} {US : Unstructured} {IS : IntStr} {KL : KubeLib} {PU : PodTemplateUpdater}.
Context (component : MilvusComponent).

(** The deployments of the component that have a rollout slot. *)
Definition ours (mc : Milvus) (d : Deployment) : Prop :=
  selects (mi_Namespace mc) (GetSelectorLabels component (mi_Name mc)) d /\
  isSlotted component d = true.

Definition slot (d : Deployment) : string := GetLabelGroupID (Name component) (dep_Labels d).

Definition isCurrent (mc : Milvus) (d : Deployment) : bool :=
  componentDeployIsCurrentGroup component mc d.

Definition rolling (mc : Milvus) : bool := IsComponentRolling mc (GetStateKey component).

(** The slots are 0 and 1, and the deployment that is not current has no
    replicas unless a rollout is in progress. *)
Record storeInv (s : store) : Prop := {
  inv_slots d : d ∈ s_deploys s -> ours (s_mc s) d -> slot d = "0" \/ slot d = "1";
  inv_idle d : d ∈ s_deploys s -> ours (s_mc s) d -> isCurrent (s_mc s) d = false ->
    rolling (s_mc s) = false -> getDeployReplicas d = 0
}.

(** What the handlers know after [GetDeploys]. *)
Definition picked (s : store) (c l : Deployment) : Prop :=
  c ∈ s_deploys s /\ l ∈ s_deploys s /\ ours (s_mc s) c /\ ours (s_mc s) l /\
  isCurrent (s_mc s) c = true /\ isCurrent (s_mc s) l = false /\
  forall d, d ∈ s_deploys s -> ours (s_mc s) d -> d = c \/ d = l.

Lemma filter_slotted_elem s d :
  d ∈ filter (fun d => isSlotted component d = true)
        (filter (selects (mi_Namespace (s_mc s)) (GetSelectorLabels component (mi_Name (s_mc s))))
           (s_deploys s)) <->
  d ∈ s_deploys s /\ ours (s_mc s) d.
Proof. rewrite !list_elem_of_filter. unfold ours. tauto. Qed.

Lemma safe_GetDeploys I s (Q : store -> outcome (Deployment * Deployment) -> Prop) :
  I s ->
  (forall c l, picked s c l -> Q s (ORet (c, l))) ->
  ((forall d, d ∈ s_deploys s -> ~ ours (s_mc s) d) -> Q s (OFail ErrNotFound)) ->
  Q s (OFail ErrNoLastDeployment) ->
  (forall e, Q s (OFail (EWrap "list querynode deployments" e))) ->
  (forall msg, Q s (OFail (ENew msg))) ->
  safe I (GetDeploys component (s_mc s)) s Q.
Proof.
  intros HI Hret Hnf Hnl Hlist Hmsg. unfold GetDeploys.
  safe_steps; [done|auto|].
  intros ds Hds. simpl in Hds. subst ds.
  destruct (selectDeploys_cases component (s_mc s)
    (filter (selects (mi_Namespace (s_mc s)) (GetSelectorLabels component (mi_Name (s_mc s))))
       (s_deploys s))) as [(c & l & -> & Hp & Hc & Hl)|[[-> Hn]|[(c & -> & _)|(msg & -> & _)]]];
    safe_steps; auto.
  - apply Hret. pose proof (filter_slotted_elem s) as He.
    assert (forall d, d ∈ s_deploys s /\ ours (s_mc s) d <-> d = c \/ d = l) as He'.
    { intros d. rewrite <-He. destruct Hp as [-> | ->]; set_solver. }
    pose proof (proj2 (He' c) (or_introl eq_refl)) as [Hc1 Hc2].
    pose proof (proj2 (He' l) (or_intror eq_refl)) as [Hl1 Hl2].
    repeat split; try done; try apply Hc2; try apply Hl2. intros d Hd Ho. apply He'. done.
  - apply Hnf. intros d Hd Ho. pose proof (proj2 (filter_slotted_elem s d) (conj Hd Ho)) as Hin.
    rewrite Hn in Hin. by apply not_elem_of_nil in Hin.
Qed.

(** ** Writes that keep the invariant *)

Lemma inv_update s d :
  storeInv s ->
  (ours (s_mc s) d -> slot d = "0" \/ slot d = "1") ->
  (ours (s_mc s) d -> isCurrent (s_mc s) d = false -> rolling (s_mc s) = false ->
   getDeployReplicas d = 0) ->
  storeInv (apply_write (UpdateDeployment d) s).
Proof.
  intros [Hs Hi] H1 H2. split; simpl; intros d' [[-> _]|[Hd' _]]%elem_of_update_deploy; eauto.
Qed.

(** An update that keeps labels, namespace and replicas. *)
Lemma inv_update_same s d d0 :
  storeInv s -> d0 ∈ s_deploys s ->
  dep_Labels d = dep_Labels d0 -> om_Namespace (dep_Meta d) = om_Namespace (dep_Meta d0) ->
  getDeployReplicas d = getDeployReplicas d0 ->
  storeInv (apply_write (UpdateDeployment d) s).
Proof.
  intros Hinv Hd0 Hl Hn Hr.
  assert (ours (s_mc s) d <-> ours (s_mc s) d0) as Ho.
  { unfold ours, selects, isSlotted. by rewrite Hl, Hn. }
  apply inv_update; [done|..]; rewrite Ho; unfold slot, isCurrent, componentDeployIsCurrentGroup;
    rewrite ?Hl, ?Hr; apply Hinv; done.
Qed.

Lemma inv_create s d :
  storeInv s -> slot d = "0" \/ slot d = "1" -> getDeployReplicas d = 0 ->
  storeInv (apply_write (CreateDeployment d) s).
Proof.
  intros [Hs Hi] H1 H2. split; simpl; intros d' [Hd'|Hd'%list_elem_of_singleton]%elem_of_app; subst; eauto.
Qed.

(** A write of the resource that keeps its name and does not end a rollout
    while the other deployment has replicas. *)
Lemma inv_milvus s m :
  storeInv s -> mi_Name m = mi_Name (s_mc s) -> mi_Namespace m = mi_Namespace (s_mc s) ->
  (forall d, d ∈ s_deploys s -> ours (s_mc s) d -> isCurrent m d = false -> rolling m = false ->
     getDeployReplicas d = 0) ->
  storeInv (apply_write (UpdateMilvus m) s).
Proof.
  intros [Hs Hi] Hn Hns H. split; simpl; unfold ours; rewrite Hn, Hns; eauto.
Qed.

(** ** Handlers

    [kept s]: a handler that returns has kept the invariant and the resource. *)
Definition kept (s : store) {A} (s' : store) (o : outcome A) : Prop :=
  match o with ORet _ => storeInv s' /\ s_mc s' = s_mc s | _ => True end.

Lemma safe_UpdateAndRequeue I w s (Q : store -> outcome unit -> Prop) :
  (forall s e, Q s (OFail e)) -> I (apply_write w s) -> safe I (UpdateAndRequeue w) s Q.
Proof.
  intros Hf HI. unfold UpdateAndRequeue. safe_steps; auto.
Qed.

Lemma kept_fail s {A} s' e : kept s (A:=A) s' (OFail e).
Proof. done. Qed.
#[local] Hint Resolve kept_fail : core.

(** *** Creation *)

Lemma desiredMetadata_keeps mc d d' :
  desiredMetadata component mc d = Some d' -> slot d <> "" ->
  slot d' = slot d /\ dep_Spec d' = dep_Spec d /\ dep_key d' = dep_key d.
Proof.
  unfold desiredMetadata, slot. case_if_bool; [done|]. intros [= <-] Hs. split; [|done].
  unfold dep_Labels at 1. simpl. unfold desiredDeploymentLabels.
  rewrite bool_decide_eq_false_2 by done.
  rewrite GetLabelGroupID_set. by rewrite decide_True.
Qed.

Lemma safe_syncMetadata ds : forall s upd,
  storeInv s ->
  (forall d, d ∈ ds -> (slot d = "0" \/ slot d = "1") /\
     (isCurrent (s_mc s) d = false -> rolling (s_mc s) = false -> getDeployReplicas d = 0)) ->
  safe storeInv (syncMetadata component (s_mc s) ds upd) s (kept s).
Proof.
  induction ds as [|d ds IH]; intros s upd Hinv Hds; cbn [syncMetadata]; [safe_steps; done|].
  destruct (desiredMetadata component (s_mc s) d) as [d'|] eqn:E; cycle 1.
  { apply IH; [done|]. intros. apply Hds. by right. }
  destruct (Hds d (ltac:(by left))) as [Hslot Hidle].
  apply desiredMetadata_keeps in E as (Es & Espec & _); [|by destruct Hslot as [-> | ->]].
  assert (storeInv (apply_write (UpdateDeployment d') s)) as Hinv'.
  { apply inv_update; [done|by rewrite Es|]. intros _. unfold isCurrent, componentDeployIsCurrentGroup.
    fold (slot d'). rewrite Es. unfold getDeployReplicas. rewrite Espec. apply Hidle. }
  safe_steps; [auto|done|].
  apply (IH (apply_write (UpdateDeployment d') s)); [done|]. simpl. intros. apply Hds. by right.
Qed.

Lemma slot_created mc groupId :
  GetLabelGroupID (Name component)
    (SetGroupID (Name component) (GetSelectorLabels component (mi_Name mc)) groupId) = Itoa groupId.
Proof. unfold SetGroupID. rewrite GetLabelGroupID_set. by rewrite decide_True. Qed.

Lemma GetLabelGroupID_merge_r a b :
  is_Some (b !! GetComponentGroupIdLabel (Name component)) ->
  GetLabelGroupID (Name component) (MergeLabels [a; b]) = GetLabelGroupID (Name component) b.
Proof.
  intros [x Hx]. unfold GetLabelGroupID, mget. rewrite MergeLabels_lookup_2.
  by rewrite (lookup_union_Some_l b a _ x Hx), Hx.
Qed.

Lemma newDeployment_slot mc groupId meta t st p :
  slot (newDeployment component mc groupId meta t st p) = Itoa groupId.
Proof.
  unfold slot, dep_Labels, newDeployment. simpl.
  destruct (DeploymentGroupOf component) as [g|]; simpl; [|apply slot_created].
  rewrite GetLabelGroupID_merge_r; [apply slot_created|].
  unfold SetGroupID, SetGroupIDStr. rewrite lookup_insert_eq. eauto.
Qed.

Lemma safe_CreateDeploy s template groupId :
  storeInv s -> groupId = 0 \/ groupId = 1 ->
  safe storeInv (CreateDeploy component (s_mc s) template groupId) s (kept s).
Proof.
  intros Hinv Hg. unfold CreateDeploy, RenderPodTemplateWithoutGroupID. safe_step.
  eapply safe_mono with (Q := fun s' _ => s' = s).
  2:{ destruct template; safe_steps; done. }
  intros s' [t|e|] ->; try done. safe_step.
  eapply safe_mono with (Q := fun s' _ => s' = s).
  2:{ destruct (negb (groupId =? 0)); safe_steps; done. }
  intros s' [t'|e|] ->; try done.
  destruct (SetControllerReference _ _) as [meta|]; [|safe_steps; done].
  safe_steps; [done|]. intros st _. safe_steps; [done|]. intros cs _.
  assert (forall d, slot d = Itoa groupId -> getDeployReplicas d = 0 ->
            storeInv (apply_write (CreateDeployment d) s)) as Hc.
  { intros d Hd Hr. apply inv_create; [done| |done]. rewrite Hd. by destruct Hg as [-> | ->]; [left|right]. }
  specialize (Hc _ (newDeployment_slot (s_mc s) groupId meta t' st (csp_Paused cs)) eq_refl).
  safe_steps; done.
Qed.

Lemma safe_HandleCreate s :
  storeInv s -> safe storeInv (HandleCreate component (s_mc s)) s (kept s).
Proof.
  intros Hinv. unfold HandleCreate. safe_steps.
  apply safe_GetDeploys; [done|..]; try (intros; safe_steps; done).
  - intros c l (Hc & Hl & Hoc & Hol & Hcc & Hcl & _).
    unfold reconcileDeploymentGroupMetadata.
    destruct (DeploymentGroupOf component) as [g|]; [|safe_steps; done].
    safe_step. eapply safe_mono; [|apply safe_syncMetadata; [done|]].
    + intros s' [b|e|] H; try done. destruct (negb b); safe_steps; done.
    + intros d [->|[->|[]%not_elem_of_nil]%elem_of_cons]%elem_of_cons; split;
        try (by apply (inv_slots _ Hinv)); intros; by eapply (inv_idle _ Hinv).
  - intros Hno. unfold MarkMilvusComponentGroupId.
    case_bool_decide.
    + safe_steps. eapply safe_mono; [|apply safe_CreateDeploy; [done|by left]].
      by intros s' [].
    + safe_steps. apply safe_UpdateAndRequeue; [done|].
      apply inv_milvus; try done. intros d Hd Ho. by destruct (Hno d Hd).
  - apply safe_CreateDeploy; [done|by right].
Qed.

(** *** Manual mode *)

(** [RenewDeployAnnotation] and the template update leave labels, identity and
    replicas alone. *)
Definition sameShape (d d' : Deployment) : Prop :=
  dep_Labels d' = dep_Labels d /\ dep_key d' = dep_key d /\
  dsp_Replicas (dep_Spec d') = dsp_Replicas (dep_Spec d).

Lemma RenewDeployAnnotation_shape mc d : sameShape d (fst (RenewDeployAnnotation mc d)).
Proof. unfold RenewDeployAnnotation. by case_bool_decide. Qed.

Lemma updateTemplate_shape d t : sameShape d (updatePodTemplateTwoDeployMode component d t).
Proof. done. Qed.

Lemma inv_update_shape s d d0 :
  storeInv s -> d0 ∈ s_deploys s -> sameShape d0 d ->
  storeInv (apply_write (UpdateDeployment d) s).
Proof.
  intros Hinv Hd0 (Hl & Hk & Hr). apply (inv_update_same s d d0); try done.
  - by injection Hk.
  - unfold getDeployReplicas. by rewrite Hr.
Qed.

Lemma safe_render s t force (Q : store -> outcome PodTemplateSpec -> Prop) :
  (forall t', Q s (ORet t')) -> Q s OPanic ->
  safe storeInv (RenderPodTemplateWithoutGroupID component (s_mc s) t force) s Q.
Proof. intros. unfold RenderPodTemplateWithoutGroupID. safe_steps; auto. Qed.

Lemma safe_HandleManualMode s :
  storeInv s -> safe storeInv (HandleManualMode component (s_mc s)) s (kept s).
Proof.
  intros Hinv. unfold HandleManualMode. safe_steps. apply safe_GetDeploys; try done.
  intros c l (Hc & _). simpl fst. safe_step. apply safe_render; [|done]. intros t.
  destruct (negb (getDeployReplicas c =? 0)).
  { destruct (IsPodTemplateChanged component c t); safe_steps; done. }
  pose proof (RenewDeployAnnotation_shape (s_mc s) c) as Hshape.
  destruct (RenewDeployAnnotation (s_mc s) c) as [d renewed]. simpl in Hshape.
  destruct (negb _); [safe_steps; done|].
  apply safe_UpdateAndRequeue; [done|]. apply (inv_update_shape s _ c); [done..|].
  by destruct (IsPodTemplateChanged component c t).
Qed.

(** *** Stop *)

(** Every slotted deployment is stopped, except those of a list. *)
Definition stoppedExcept (s : store) (X : list Deployment) : Prop :=
  forall d, d ∈ s_deploys s -> ours (s_mc s) d -> getDeployReplicas d = 0 \/ d ∈ X.

Lemma safe_stopDeployIfNot s d X :
  storeInv s -> slot d = "0" \/ slot d = "1" -> stoppedExcept s (d :: X) ->
  safe storeInv (stopDeployIfNot d) s
    (fun s' o => match o with
                 | ORet _ => storeInv s' /\ s_mc s' = s_mc s /\ stoppedExcept s' X
                 | _ => True
                 end).
Proof.
  intros Hinv Hslot Hst. unfold stopDeployIfNot.
  destruct (Z.eqb_spec (getDeployReplicas d) 0) as [E|E]; cbv beta iota delta [negb].
  - safe_steps. split; [done|]. split; [done|]. intros d' Hd' Ho.
    destruct (Hst d' Hd' Ho) as [?|[->|?]%elem_of_cons]; auto.
  - set (d0 := set_dep_Replicas d (int32Ptr 0)).
    assert (storeInv (apply_write (UpdateDeployment d0) s)) as Hinv'.
    { by apply inv_update. }
    safe_steps; [done|done|]. split; [done|]. split; [done|].
    intros d' [[-> _]|[Hd' Hk]]%elem_of_update_deploy Ho; [by left|].
    destruct (Hst d' Hd' Ho) as [?|[->|?]%elem_of_cons]; auto. done.
Qed.

Definition stopped {A} (s' : store) (o : outcome A) : Prop :=
  match o with
  | ORet _ => storeInv s' /\ stoppedExcept s' [] /\ rolling (s_mc s') = false
  | _ => True
  end.

Lemma rolling_cleared mc : rolling (SetComponentRolling mc (GetStateKey component) false) = false.
Proof. unfold rolling. rewrite IsComponentRolling_set. by rewrite decide_True. Qed.

Lemma rolling_started mc : rolling (SetComponentRolling mc (GetStateKey component) true) = true.
Proof. unfold rolling. rewrite IsComponentRolling_set. by rewrite decide_True. Qed.

Lemma safe_HandleStop s :
  storeInv s -> safe storeInv (HandleStop component (s_mc s)) s stopped.
Proof.
  intros Hinv. unfold HandleStop. safe_steps. apply safe_GetDeploys; try done.
  intros c l (Hc & Hl & Hoc & Hol & _ & _ & Hall). simpl fst. simpl snd. safe_steps.
  pose proof (inv_slots _ Hinv _ Hc Hoc) as Hsc. pose proof (inv_slots _ Hinv _ Hl Hol) as Hsl.
  assert (stoppedExcept s [c; l]) as Hst.
  { intros d Hd Ho. right. destruct (Hall d Hd Ho) as [-> | ->]; set_solver. }
  eapply safe_mono; [|by apply (safe_stopDeployIfNot s c [l])].
  intros s1 [[]|e|]; simpl; try done. intros (Hinv1 & Hmc1 & Hst1). safe_steps.
  eapply safe_mono; [|by apply (safe_stopDeployIfNot s1 l [])].
  intros s2 [[]|e|]; simpl; try done. intros (Hinv2 & Hmc2 & Hst2).
  fold (rolling (s_mc s)). destruct (rolling (s_mc s)) eqn:Er; cbv beta iota delta [negb].
  - set (m := SetComponentRolling (s_mc s) (GetStateKey component) false).
    assert (s_mc s2 = s_mc s) as Hmc by congruence.
    assert (storeInv (apply_write (UpdateMilvus m) s2)) as Hinv3.
    { apply inv_milvus; try done; [by rewrite Hmc..|].
      intros d Hd Ho _ _. destruct (Hst2 d Hd Ho) as [?|H]; [done|]. by apply not_elem_of_nil in H. }
    safe_steps; [done|done|]. split; [done|]. split; [|apply rolling_cleared].
    intros d Hd Ho. apply (Hst2 d Hd). rewrite Hmc. exact Ho.
  - safe_steps. split; [done|]. split; [done|]. by rewrite Hmc2, Hmc1.
Qed.

(** *** Rollouts *)

Lemma safe_PrepareNewRollout s d t :
  storeInv s -> d ∈ s_deploys s ->
  safe storeInv (PrepareNewRollout component (s_mc s) d t) s (kept s).
Proof.
  intros Hinv Hd. unfold PrepareNewRollout.
  pose proof (RenewDeployAnnotation_shape (s_mc s) (updatePodTemplateTwoDeployMode component d t)) as Hs1.
  destruct (RenewDeployAnnotation (s_mc s) (updatePodTemplateTwoDeployMode component d t)) as [d' b].
  simpl fst in *.
  assert (storeInv (apply_write (UpdateDeployment d') s)) as Hinv'.
  { apply (inv_update_shape s d' d); try done. }
  safe_steps; [done|done|]. apply safe_UpdateAndRequeue; [done|].
  apply inv_milvus; try done.
  - unfold SetComponentRolling. by case_bool_decide.
  - unfold SetComponentRolling. by case_bool_decide.
  - intros d'' _ _ _ Hr. by rewrite rolling_started in Hr.
Qed.

Lemma safe_LastRolloutFinished s c l :
  storeInv s -> picked s c l ->
  safe storeInv (LastRolloutFinished component (s_mc s) c l) s (fun s' o => s' = s \/ exists e, o = OFail e).
Proof.
  intros Hinv (Hc & Hl & Hoc & Hol & Hcc & Hcl & Hall). unfold LastRolloutFinished.
  case_if_bool; [safe_steps; by left|]. case_if_bool; [safe_steps; by left|].
  unfold ListDeployPods. safe_steps; [done|by left|]. intros pods _. safe_steps.
  destruct (filter _ pods); [|safe_steps; by left].
  safe_step. apply safe_UpdateAndRequeue; [eauto|].
  apply inv_milvus; try done. intros d Hd Ho Hcur _.
  change (isCurrent (s_mc s) d = false) in Hcur.
  destruct (Hall d Hd Ho) as [-> | ->]; [congruence|].
  apply negb_false_iff in E0. unfold logicAnd in E0. rewrite logicAnd_from_spec in E0.
  unfold rolloutFinishedChecks, id in E0. cbn [forallb] in E0.
  repeat rewrite andb_true_iff in E0. destruct_and! E0. lia.
Qed.

Lemma safe_HandleRolling s :
  storeInv s -> safe storeInv (HandleRolling component (s_mc s)) s (kept s).
Proof.
  intros Hinv. unfold HandleRolling. safe_steps. apply safe_GetDeploys; try done.
  intros c l Hp. safe_steps. apply safe_render; [|done]. intros t.
  pose proof Hp as (Hc & Hl & _).
  case_if_bool; [by apply safe_PrepareNewRollout|]. safe_steps.
  eapply safe_mono; [|by apply (safe_LastRolloutFinished s c l)].
  intros s' [b|e|] [->|[e' He]]; try done.
  destruct (negb b); [safe_steps; done|].
  destruct (IsPodTemplateChanged component c t); [|safe_steps; done].
  apply safe_PrepareNewRollout; [done|]. by destruct (0 <? getDeployReplicas c).
Qed.

(** *** Scaling *)

(** The last deployment is scaled only when it has replicas. *)
Lemma plan_last_pos mc cur last a c l :
  planNextScaleAction component mc cur last = Some (a, c, l) ->
  sa_deploy a = Some LastDeployment -> getDeployReplicas last <> 0.
Proof.
  unfold planNextScaleAction. destruct (GetDeploymentStrategy mc component) as [st|]; [|done].
  cbn [mbind option_bind]. intros [= <- _ _].
  unfold checkScaleKind. repeat case_if_bool; try case_match;
    unfold planScaleForHPA, planScaleForExternalHPA, planScaleForRollout,
      planScaleForForceUpgrade, planScaleForNormalState;
    change (getDeployReplicas (set_dep_Strategy last st)) with (getDeployReplicas last);
    try (destruct (rolloutSteps _ _) as [su un]);
    repeat case_if_bool; simpl; intros; try done; lia.
Qed.

Lemma plan_deploys mc cur last a c l :
  planNextScaleAction component mc cur last = Some (a, c, l) ->
  exists st, c = set_dep_Strategy cur st /\ l = set_dep_Strategy last st.
Proof.
  unfold planNextScaleAction. destruct (GetDeploymentStrategy mc component) as [st|]; [|done].
  cbn [mbind option_bind]. intros [= _ <- <-]. eauto.
Qed.

Lemma selector_component mc d :
  ours mc d -> mget (dep_Labels d) AppLabelComponent = Name component.
Proof.
  intros [[_ Hsel] _]. unfold mget.
  assert (GetSelectorLabels component (mi_Name mc) !! AppLabelComponent = Some (Name component)) as H.
  { unfold GetSelectorLabels. destruct (DeploymentGroupOf component); [rewrite lookup_insert_ne by done|];
      unfold NewComponentAppLabels; by rewrite lookup_insert_ne, lookup_insert_eq. }
  by rewrite (lookup_weaken _ _ _ _ H Hsel).
Qed.

(** The current deployment is already marked: its slot is the current one. *)
Lemma safe_markDeployAsCurrent s c (Q : store -> outcome unit -> Prop) :
  storeInv s -> c ∈ s_deploys s -> ours (s_mc s) c -> isCurrent (s_mc s) c = true ->
  Q s (ORet tt) -> safe storeInv (markDeployAsCurrent component (s_mc s) c) s Q.
Proof.
  intros Hinv Hc Ho Hcur HQ. unfold markDeployAsCurrent, GetDeploymentGroupId.
  rewrite (selector_component _ _ Ho). fold (slot c).
  unfold isCurrent, componentDeployIsCurrentGroup in Hcur. apply bool_decide_eq_true in Hcur.
  fold (slot c) in Hcur. unfold MarkMilvusComponentGroupId. rewrite <-Hcur.
  destruct (inv_slots _ Hinv _ Hc Ho) as [-> | ->]; simpl Atoi; cbv iota; safe_steps; done.
Qed.

Lemma safe_checkLast s l (Q : store -> outcome unit -> Prop) :
  storeInv s -> Q s (ORet tt) -> (forall e, Q s (OFail e)) ->
  safe storeInv (checkLastDeploymentStable l) s Q.
Proof.
  intros Hinv H1 H2. unfold checkLastDeploymentStable, ListDeployPods.
  safe_steps; [done|auto|]. intros pods _. safe_steps.
  destruct (DeploymentIsStable l _) as [[] r]; safe_steps; auto.
Qed.

Lemma safe_checkCanScaleNow s c l (Q : store -> outcome unit -> Prop) :
  storeInv s -> Q s (ORet tt) -> (forall e, Q s (OFail e)) -> Q s OPanic ->
  safe storeInv (checkCanScaleNow component (s_mc s) c l) s Q.
Proof.
  intros Hinv H1 H2 H3. unfold checkCanScaleNow.
  case_if_bool; [safe_steps; auto|]. safe_steps; [auto|]. intros st _.
  destruct (rolloutSteps _ _) as [su un]. case_if_bool.
  - case_if_bool; safe_steps; auto. apply safe_checkLast; auto.
  - unfold checkDeploymentsStable, ListDeployPods. safe_steps. apply safe_checkLast; auto.
    safe_steps; [done|auto|]. intros pods _. safe_steps.
    case_if_bool; [safe_steps; auto|]. destruct (DeploymentIsStable c _) as [st' r].
    case_if_bool; safe_steps; auto.
Qed.

Lemma safe_HandleScaling s :
  storeInv s -> safe storeInv (HandleScaling component (s_mc s)) s (kept s).
Proof.
  intros Hinv. unfold HandleScaling. safe_steps. apply safe_GetDeploys; try done.
  intros c l (Hc & Hl & Hoc & Hol & Hcc & Hcl & _). simpl fst. simpl snd.
  unfold ScaleDeployments. safe_step. apply safe_markDeployAsCurrent; try done. safe_step.
  apply safe_checkCanScaleNow; try done. safe_step; apply safe_deref; [done|].
  intros [[a c'] l'] Hplan. unfold doScaleAction.
  destruct (Z.eqb_spec (sa_replicaChange a) 0); [safe_steps; done|].
  safe_steps; [done|]. intros target Htarget.
  apply safe_UpdateAndRequeue; [done|].
  destruct (plan_deploys _ _ _ _ _ _ Hplan) as (st & -> & ->).
  destruct target; apply inv_update; try done.
  - intros _. change (slot c = "0" \/ slot c = "1"). by apply (inv_slots _ Hinv).
  - intros _ H. change (isCurrent (s_mc s) c = false) in H. congruence.
  - intros _. change (slot l = "0" \/ slot l = "1"). by apply (inv_slots _ Hinv).
  - intros _ _ Hr. destruct (plan_last_pos _ _ _ _ _ _ Hplan Htarget). by apply (inv_idle _ Hinv).
Qed.

Lemma safe_IsPaused s (Q : store -> outcome bool -> Prop) :
  (forall b, Q s (ORet b)) -> Q s OPanic -> safe storeInv (IsPaused component (s_mc s)) s Q.
Proof. intros. unfold IsPaused. case_if_bool; safe_steps; auto. intros; safe_steps; auto. Qed.

Lemma safe_reconcileTwoDeploy s :
  storeInv s -> safe storeInv (reconcileTwoDeploy component (s_mc s)) s (fun _ _ => True).
Proof.
  intros Hinv. unfold reconcileTwoDeploy. safe_steps.
  eapply safe_mono; [|by apply safe_HandleCreate]. intros s1 [[]|e|] Hk; [|done|done].
  destruct Hk as [Hinv1 Hmc]. rewrite <-Hmc. safe_steps. apply safe_IsPaused; [|done]. intros b.
  destruct b; [safe_steps; done|].
  destruct (com_EnableManualMode (mi_Com (s_mc s1))).
  { eapply safe_mono; [|by apply safe_HandleManualMode]. done. }
  case_if_bool.
  { eapply safe_mono; [|by apply safe_HandleStop]. done. }
  safe_steps. eapply safe_mono; [|by apply safe_HandleRolling]. intros s2 [[]|e|] Hk; [|done|done].
  destruct Hk as [Hinv2 Hmc2]. rewrite <-Hmc2. safe_steps.
  eapply safe_mono; [|by apply safe_HandleScaling]. by intros ? [].
Qed.

(** ** The whole reconcile *)

(** In rolling mode 3 every component is in two-deployment mode. *)
Definition modeV3 (mc : Milvus) : Prop :=
  st_RollingMode (mi_Status mc) = RollingModeV3 /\ com_RollingMode (mi_Com mc) = RollingModeV3.

Lemma safe_Reconcile one s :
  storeInv s -> modeV3 (s_mc s) ->
  safe storeInv (Reconcile component one (s_mc s)) s (fun _ _ => True).
Proof.
  intros Hinv [Hst Hcom]. unfold Reconcile, RollingModeStatus_Update, CheckDeployMode.
  rewrite Hst, Hcom. cbv beta iota zeta delta [Z.eqb RollingModeV3 Pos.eqb orb]. safe_steps.
  rewrite Hst. cbv beta iota zeta delta [Z.eqb RollingModeV3 Pos.eqb orb]. safe_steps.
  unfold MarkDeployModeChanging. case_if_bool; safe_steps.
  - by apply safe_reconcileTwoDeploy.
  - apply safe_UpdateAndRequeue; [done|]. apply inv_milvus; try done.
    intros d Hd Ho. unfold isCurrent, componentDeployIsCurrentGroup, rolling.
    rewrite GetCurrentGroupId_setChanging. apply (inv_idle _ Hinv); done.
Qed.

(** ** The end of a rollout *)

(** The current deployment runs at least the least replicas of the spec, all
    updated and available, both statuses are up to date, and the last
    deployment has no replicas left in spec and status. *)
Record completed (mc : Milvus) (cur last : Deployment) : Prop := {
  co_least : GetLeastReplicasRegardingHPA component (mi_Spec mc) <= getDeployReplicas cur;
  co_cur_observed : dss_ObservedGeneration (dep_Status cur) = om_Generation (dep_Meta cur);
  co_last_observed : dss_ObservedGeneration (dep_Status last) = om_Generation (dep_Meta last);
  co_updated : dss_UpdatedReplicas (dep_Status cur) = int32_of (getDeployReplicas cur);
  co_replicas : dss_Replicas (dep_Status cur) = dss_UpdatedReplicas (dep_Status cur);
  co_available : dss_AvailableReplicas (dep_Status cur) = dss_UpdatedReplicas (dep_Status cur);
  co_last : getDeployReplicas last = 0;
  co_last_replicas : dss_Replicas (dep_Status last) = 0
}.

(** How a rollout may end: the component is asked to stop and has no replicas, or
    its current deployment is complete. *)
Definition endedAt (s : store) : Prop :=
  (ReplicasValue (GetReplicas component (mi_Spec (s_mc s))) = 0 /\
   forall d, d ∈ s_deploys s -> ours (s_mc s) d -> getDeployReplicas d = 0) \/
  (exists c l, picked s c l /\ completed (s_mc s) c l).

Definition markKept (s : store) : Prop := rolling (s_mc s) = true \/ endedAt s.

(** Requests that leave the mark on the resource. *)
Definition keepsMark (B : Type) (q : kreq B) : Prop :=
  match q with Write (UpdateMilvus m) => rolling m = true | _ => True end.

Lemma safe_marked {A} (p : prog A) : forall s,
  calls keepsMark p -> rolling (s_mc s) = true -> safe markKept p s (fun s' _ => rolling (s_mc s') = true).
Proof.
  induction p as [a|e| |B q k IH]; intros s Hc Hr; [done..|]. destruct Hc as [Hq Hk].
  split; [intros e; by apply IH|]. intros b _.
  assert (rolling (s_mc (post s q)) = true) as Hr' by (destruct q as [B r|[]]; done).
  split; [by left|]. by apply IH.
Qed.

Lemma rolling_setCurrent m g : rolling (SetCurrentGroupIDStr m (GetStateKey component) g) = rolling m.
Proof. done. Qed.

Lemma safe_both {A} (p : prog A) s (Q : store -> outcome A -> Prop) :
  safe storeInv p s Q -> calls keepsMark p -> rolling (s_mc s) = true ->
  safe (fun s => storeInv s /\ markKept s) p s (fun s' o => Q s' o /\ rolling (s_mc s') = true).
Proof. intros Hs Hc Hr. apply safe_conj; [done|by apply safe_marked]. Qed.

Ltac mark_steps :=
  repeat first [calls_step | progress (unfold UpdateAndRequeue)]; try done.

Lemma mark_GetDeploys mc : calls keepsMark (GetDeploys component mc).
Proof.
  unfold GetDeploys. mark_steps. destruct (selectDeploys_cases component mc a)
    as [(c & l & -> & _)|[[-> _]|[(c & -> & _)|(msg & -> & _)]]]; done.
Qed.

Lemma mark_sync mc ds : forall upd, calls keepsMark (syncMetadata component mc ds upd).
Proof. induction ds as [|d ds IH]; intros upd; cbn [syncMetadata]; mark_steps; apply IH. Qed.

Lemma mark_render mc t force : calls keepsMark (RenderPodTemplateWithoutGroupID component mc t force).
Proof. unfold RenderPodTemplateWithoutGroupID. mark_steps. Qed.

Lemma mark_CreateDeploy mc t g : calls keepsMark (CreateDeploy component mc t g).
Proof. unfold CreateDeploy. mark_steps. apply mark_render. Qed.

Lemma mark_group mc g : rolling mc = true -> calls keepsMark (MarkMilvusComponentGroupId mc component g).
Proof. intros Hr. unfold MarkMilvusComponentGroupId. mark_steps. Qed.

Lemma mark_HandleCreate mc : rolling mc = true -> calls keepsMark (HandleCreate component mc).
Proof.
  intros Hr. unfold HandleCreate, reconcileDeploymentGroupMetadata.
  mark_steps; auto using mark_GetDeploys, mark_sync, mark_group, mark_CreateDeploy.
Qed.

Lemma mark_HandleManual mc : calls keepsMark (HandleManualMode component mc).
Proof.
  unfold HandleManualMode. cbv zeta. mark_steps; auto using mark_GetDeploys, mark_render.
Qed.

Lemma mark_Prepare mc d t : calls keepsMark (PrepareNewRollout component mc d t).
Proof. unfold PrepareNewRollout. cbv zeta. mark_steps. apply rolling_started. Qed.

Lemma mark_HandleScaling mc : rolling mc = true -> calls keepsMark (HandleScaling component mc).
Proof.
  intros Hr. unfold HandleScaling, ScaleDeployments, markDeployAsCurrent, checkCanScaleNow, checkDeploymentsStable,
    checkLastDeploymentStable, ListDeployPods, doScaleAction, GetDeploymentGroupId. cbv zeta.
  mark_steps; auto using mark_GetDeploys, mark_group.
Qed.

Lemma checks_completed mc c l :
  fst (logicAnd (rolloutFinishedChecks component mc c l)) = true -> completed mc c l.
Proof.
  unfold logicAnd. rewrite logicAnd_from_spec. unfold rolloutFinishedChecks, id. cbn [forallb].
  rewrite !andb_true_iff. intros H. destruct_and! H.
  change (ReplicasValue (dsp_Replicas (dep_Spec c))) with (getDeployReplicas c) in *. split; lia.
Qed.

(** The write that ends a rollout touches the mark only. *)
Lemma picked_unmark s c l :
  picked s c l -> picked (apply_write (UpdateMilvus (SetComponentRolling (s_mc s) (GetStateKey component) false)) s) c l.
Proof. done. Qed.

Lemma ended_LastRolloutFinished s c l :
  rolling (s_mc s) = true -> picked s c l ->
  safe markKept (LastRolloutFinished component (s_mc s) c l) s (fun s' o => s' = s \/ exists e, o = OFail e).
Proof.
  intros Hr Hp. unfold LastRolloutFinished. case_if_bool; [safe_steps; by left|]. case_if_bool; [safe_steps; by left|].
  apply negb_false_iff, checks_completed in E0.
  unfold ListDeployPods. safe_steps; [by left|by left|]. intros pods _. safe_steps.
  destruct (filter _ pods); [|safe_steps; by left]. safe_step. apply safe_UpdateAndRequeue; [eauto|].
  right. right. exists c, l. split; [by apply picked_unmark|]. by destruct E0; split.
Qed.

Lemma ended_HandleRolling s :
  storeInv s -> rolling (s_mc s) = true ->
  safe (fun s => storeInv s /\ markKept s) (HandleRolling component (s_mc s)) s
    (fun s' o => kept s s' o /\ (forall a, o = ORet a -> rolling (s_mc s') = true)).
Proof.
  intros Hinv Hr. apply safe_conj; [by apply safe_HandleRolling|].
  unfold HandleRolling. safe_steps. apply safe_GetDeploys; try (by left); try done.
  intros c l Hp. unfold RenderPodTemplateWithoutGroupID. safe_steps; [done|]. intros t _.
  assert (forall d, safe markKept (PrepareNewRollout component (s_mc s) d t) s
                      (fun s' o => forall a : unit, o = ORet a -> rolling (s_mc s') = true)) as Hprep.
  { intros d. eapply safe_mono; [|by apply safe_marked; [apply mark_Prepare|]]. done. }
  case_if_bool; [apply Hprep|]. safe_steps. eapply safe_mono; [|by apply (ended_LastRolloutFinished s c l)].
  intros s1 [b|e|] [-> |[e' He]]; try done.
  destruct (negb b); [by safe_steps|]. case_if_bool; [apply Hprep|by safe_steps].
Qed.

Lemma ended_HandleStop s :
  storeInv s -> rolling (s_mc s) = true -> ReplicasValue (GetReplicas component (mi_Spec (s_mc s))) = 0 ->
  safe (fun s => storeInv s /\ markKept s) (HandleStop component (s_mc s)) s (fun _ _ => True).
Proof.
  intros Hinv Hr Hz. unfold HandleStop. safe_steps. apply safe_GetDeploys; try done; [by split; [|left]|].
  intros c l (Hc & Hl & Hoc & Hol & _ & _ & Hall). simpl fst. simpl snd. safe_steps.
  pose proof (inv_slots _ Hinv _ Hc Hoc) as Hsc. pose proof (inv_slots _ Hinv _ Hl Hol) as Hsl.
  assert (stoppedExcept s [c; l]) as Hst.
  { intros d Hd Ho. right. destruct (Hall d Hd Ho) as [-> | ->]; set_solver. }
  assert (forall d, calls keepsMark (stopDeployIfNot d)) as Hm by (intros d; unfold stopDeployIfNot; mark_steps).
  eapply safe_mono; [|apply safe_both; [by apply (safe_stopDeployIfNot s c [l])|done|done]].
  intros s1 [[]|e|] [Hs1 Hr1]; simpl; try done. destruct Hs1 as (Hinv1 & Hmc1 & Hst1). safe_steps.
  eapply safe_mono; [|apply safe_both; [by apply (safe_stopDeployIfNot s1 l [])|done|done]].
  intros s2 [[]|e|] [Hs2 Hr2]; simpl; try done. destruct Hs2 as (Hinv2 & Hmc2 & Hst2).
  assert (s_mc s2 = s_mc s) as Hmc by congruence. rewrite <- Hmc. clear Hst1 Hr1 Hinv1 Hmc1 Hmc2.
  assert (forall d, d ∈ s_deploys s2 -> ours (s_mc s2) d -> getDeployReplicas d = 0) as Hnone.
  { intros d Hd Ho. destruct (Hst2 d Hd Ho) as [?|H]; [done|]. by apply not_elem_of_nil in H. }
  case_if_bool; [by safe_steps|]. apply safe_write; [done| |done]. split.
  - apply inv_milvus; try done. intros d Hd Ho _ _. by apply Hnone.
  - right. left. split; [by rewrite Hmc|]. exact Hnone.
Qed.

Lemma ended_reconcileTwoDeploy s :
  storeInv s -> rolling (s_mc s) = true ->
  safe (fun s => storeInv s /\ markKept s) (reconcileTwoDeploy component (s_mc s)) s (fun _ _ => True).
Proof.
  intros Hinv Hr. unfold reconcileTwoDeploy. safe_steps.
  eapply safe_mono; [|apply safe_both; [by apply safe_HandleCreate|by apply mark_HandleCreate|done]].
  intros s1 [[]|e|] [Hk Hr1]; [|done|done]. destruct Hk as [Hinv1 Hmc]. rewrite <-Hmc. safe_steps.
  assert (forall b, safe (fun s => storeInv s /\ markKept s)
    (if b : bool then Ret tt
     else if com_EnableManualMode (mi_Com (s_mc s1)) then HandleManualMode component (s_mc s1)
     else if (ReplicasValue (GetReplicas component (mi_Spec (s_mc s1))) =? 0)
             && (negb (IsHPAEnabled component (mi_Spec (s_mc s1))) || isUpgradeStopping (s_mc s1))
     then HandleStop component (s_mc s1)
     else _ ← wrap "handle rolling" (HandleRolling component (s_mc s1));
          wrap "handle scaling" (HandleScaling component (s_mc s1))) s1 (fun _ _ => True)) as Hrest.
  { intros []; [by safe_steps|]. case_if_bool.
    { eapply safe_mono; [|apply safe_both; [by apply safe_HandleManualMode|apply mark_HandleManual|done]]. done. }
    case_if_bool; [apply andb_true_iff in E0 as [E0 _]; apply ended_HandleStop; [done..|lia]|].
    safe_steps. eapply safe_mono; [|by apply ended_HandleRolling]. intros s2 [[]|e|] [Hk Hr2]; [|done|done].
    destruct Hk as [Hinv2 Hmc2]. specialize (Hr2 tt eq_refl). rewrite <-Hmc2. safe_steps.
    eapply safe_mono; [|apply safe_both; [by apply safe_HandleScaling|by apply mark_HandleScaling|done]]. by intros ? []. }
  unfold IsPaused. case_if_bool; safe_steps; [apply (Hrest true)|done|]. intros spec _. safe_steps. apply Hrest.
Qed.

Lemma ended_Reconcile one s :
  storeInv s -> modeV3 (s_mc s) -> rolling (s_mc s) = true ->
  safe (fun s => storeInv s /\ markKept s) (Reconcile component one (s_mc s)) s (fun _ _ => True).
Proof.
  intros Hinv [Hst Hcom] Hr. unfold Reconcile, RollingModeStatus_Update, CheckDeployMode.
  rewrite Hst, Hcom. cbv beta iota zeta delta [Z.eqb RollingModeV3 Pos.eqb orb]. safe_steps.
  rewrite Hst. cbv beta iota zeta delta [Z.eqb RollingModeV3 Pos.eqb orb]. safe_steps.
  unfold MarkDeployModeChanging. case_if_bool; safe_steps; [by apply ended_reconcileTwoDeploy|].
  apply safe_UpdateAndRequeue; [done|]. split; [|left; exact Hr]. apply inv_milvus; try done.
  intros d Hd Ho. unfold isCurrent, componentDeployIsCurrentGroup, rolling.
  rewrite GetCurrentGroupId_setChanging. apply (inv_idle _ Hinv); done.
Qed.

(** ** What a reconcile does not touch *)

(** [grows f s s']: the deployments of [s] are still there with the same [f],
    and those that were added have no replicas. *)
Definition grows {A} (f : Deployment -> A) (s s' : store) : Prop :=
  keysOk s' /\
  exists new, Forall (fun d => getDeployReplicas d = 0) new /\
    f <$> s_deploys s' = (f <$> s_deploys s) ++ (f <$> new).

(** The identity and spec of a deployment; and what manual mode must keep of
    it: its replicas and, when it runs, its spec. *)
Definition specView (d : Deployment) := (dep_key d, dep_Spec d).
Definition runningView (d : Deployment) :=
  (dep_key d, getDeployReplicas d, if decide (getDeployReplicas d = 0) then None else Some (dep_Spec d)).

Lemma grows_refl {A} (f : Deployment -> A) s : keysOk s -> grows f s s.
Proof. intros Hk. split; [done|]. exists []. split; [constructor|]. simpl. by rewrite app_nil_r. Qed.

Lemma grows_update {A} (f : Deployment -> A) s0 s d d0 :
  grows f s0 s -> d0 ∈ s_deploys s -> dep_key d = dep_key d0 -> f d = f d0 ->
  grows f s0 (apply_write (UpdateDeployment d) s).
Proof.
  intros [Hk (new & Hz & Hv)] Hd0 Hkey Hf. split.
  - unfold keysOk. simpl. by rewrite update_deploy_keys.
  - exists new. split; [done|]. simpl. by rewrite (view_update f d d0) by done.
Qed.

Lemma grows_create {A} (f : Deployment -> A) s0 s d :
  grows f s0 s -> write_ok (CreateDeployment d) s -> getDeployReplicas d = 0 ->
  grows f s0 (apply_write (CreateDeployment d) s).
Proof.
  intros [Hk (new & Hz & Hv)] Hw Hr. split; [by apply keysOk_write|].
  exists (new ++ [d]). split; [by apply Forall_app_2; [|apply Forall_singleton]|].
  simpl. by rewrite !fmap_app, Hv, (assoc_L (++)).
Qed.

(** A coarser view grows as well. *)
Lemma grows_specView s s' : grows specView s s' -> grows runningView s s'.
Proof.
  intros [Hk (new & Hz & Hv)]. split; [done|]. exists new. split; [done|].
  apply (f_equal (fmap (fun ks : (string * string) * DeploymentSpec =>
    (ks.1, ReplicasValue (dsp_Replicas ks.2),
     if decide (ReplicasValue (dsp_Replicas ks.2) = 0) then None else Some ks.2)))) in Hv.
  rewrite !fmap_app, <-!list_fmap_compose in Hv. exact Hv.
Qed.

Definition grown (s0 s : store) {A} (s' : store) (o : outcome A) : Prop :=
  match o with ORet _ => grows specView s0 s' /\ s_mc s' = s_mc s | _ => True end.

Lemma safe_syncMetadata_grows s0 ds : forall s upd,
  grows specView s0 s -> (forall d, d ∈ ds -> slot d <> "" /\ specView d ∈ specView <$> s_deploys s) ->
  safe (grows specView s0) (syncMetadata component (s_mc s) ds upd) s (grown s0 s).
Proof.
  induction ds as [|d ds IH]; intros s upd Hg Hds; cbn [syncMetadata]; [safe_steps; done|].
  destruct (desiredMetadata component (s_mc s) d) as [d'|] eqn:E; cycle 1.
  { apply IH; [done|]. intros. apply Hds. by right. }
  destruct (Hds d (ltac:(by left))) as [Hslot (d0 & Hd0 & Hin)%list_elem_of_fmap].
  apply desiredMetadata_keeps in E as (_ & Espec & Ekey); [|done].
  pose proof (f_equal fst Hd0) as Hkey. pose proof (f_equal snd Hd0) as Hspec.
  cbn [fst snd specView] in Hkey, Hspec.
  assert (specView d' = specView d0) as Hv by (unfold specView; congruence).
  assert (grows specView s0 (apply_write (UpdateDeployment d') s)) as Hg'
    by (apply (grows_update specView s0 s d' d0); try done; congruence).
  safe_steps; [done|done|].
  eapply safe_mono; [|apply (IH (apply_write (UpdateDeployment d') s) true); [done|]].
  - by intros s' [].
  - intros d1 Hd1. destruct (Hds d1 (ltac:(by right))) as [? Hd1']. split; [done|].
    simpl. rewrite (view_update specView d' d0) by (done || apply Hg || congruence). done.
Qed.

Lemma safe_CreateDeploy_grows s0 s template groupId :
  grows specView s0 s ->
  safe (grows specView s0) (CreateDeploy component (s_mc s) template groupId) s (grown s0 s).
Proof.
  intros Hg. unfold CreateDeploy, RenderPodTemplateWithoutGroupID. safe_step.
  eapply safe_mono with (Q := fun s' _ => s' = s); [|destruct template; safe_steps; done].
  intros s' [t|e|] ->; try done. safe_step.
  eapply safe_mono with (Q := fun s' _ => s' = s);
    [|destruct (negb (groupId =? 0)); safe_steps; done].
  intros s' [t'|e|] ->; try done.
  destruct (SetControllerReference _ _) as [meta|]; [|safe_steps; done].
  safe_step. apply safe_deref; [done|]. intros st _. safe_step. apply safe_deref; [done|].
  intros cs _. apply safe_write_ok; [done|]. intros Hw.
  assert (grows specView s0 (apply_write (CreateDeployment
            (newDeployment component (s_mc s) groupId meta t' st (csp_Paused cs))) s))
    by (by apply grows_create). done.
Qed.

Lemma safe_HandleCreate_grows s :
  keysOk s ->
  safe (grows specView s) (HandleCreate component (s_mc s)) s (grown s s).
Proof.
  intros Hk. pose proof (grows_refl specView s Hk) as Hg.
  unfold HandleCreate. safe_steps.
  apply safe_GetDeploys; [done|..]; try (intros; safe_steps; done).
  - intros c l (Hc & Hl & Hoc & Hol & _). unfold reconcileDeploymentGroupMetadata.
    destruct (DeploymentGroupOf component) as [g|]; [|safe_steps; done].
    safe_step. eapply safe_mono; [|apply safe_syncMetadata_grows; [done|]].
    + intros s' [b|e|] H; try done. destruct (negb b); safe_steps; done.
    + assert (forall d, ours (s_mc s) d -> slot d <> "") as Hs.
      { intros d [_ Hd]. unfold isSlotted in Hd. apply andb_true_iff in Hd as [_ Hd].
        by apply negb_true_iff, bool_decide_eq_false in Hd. }
      intros d [->|[->|[]%not_elem_of_nil]%elem_of_cons]%elem_of_cons; (split; [by apply Hs|]);
        apply list_elem_of_fmap; eauto.
  - intros Hno. unfold MarkMilvusComponentGroupId. case_bool_decide.
    + safe_steps. eapply safe_mono; [|by apply safe_CreateDeploy_grows]. by intros s' [].
    + safe_steps. apply safe_UpdateAndRequeue; done.
  - by apply safe_CreateDeploy_grows.
Qed.

Lemma safe_manual_grows s0 s :
  grows runningView s0 s ->
  safe (grows runningView s0) (HandleManualMode component (s_mc s)) s (fun _ _ => True).
Proof.
  intros Hg. unfold HandleManualMode. safe_steps. apply safe_GetDeploys; try done.
  intros c l (Hc & _). simpl fst. safe_step.
  unfold RenderPodTemplateWithoutGroupID. apply safe_deref; [done|]. intros t _.
  destruct (Z.eqb_spec (getDeployReplicas c) 0) as [E|E]; cbv beta iota delta [negb].
  2:{ destruct (IsPodTemplateChanged component c t); safe_steps; done. }
  pose proof (RenewDeployAnnotation_shape (s_mc s) c) as Hs.
  destruct (RenewDeployAnnotation (s_mc s) c) as [d renewed]. simpl in Hs.
  case_if_bool; [safe_steps; done|]. apply safe_UpdateAndRequeue; [done|].
  set (d' := if IsPodTemplateChanged component c t then _ else d).
  assert (sameShape c d') as (_ & Hkey & Hrep) by (unfold d'; by case_if_bool).
  assert (getDeployReplicas d' = getDeployReplicas c) as Hr
    by (unfold getDeployReplicas; by rewrite Hrep).
  apply (grows_update runningView s0 s d' c); try done.
  unfold runningView. rewrite Hkey, Hr, E. done.
Qed.

(** ** Claims *)


(** C14. Stopping a component really stops it: when [HandleStop] returns without
    error, every deployment of the component that has a rollout slot has zero
    replicas and no rollout is marked in progress. *)
Theorem HandleStop_stops s s' :
  storeInv s -> final (HandleStop component (s_mc s)) s s' (ORet tt) ->
  (forall d, d ∈ s_deploys s' -> ours (s_mc s') d -> getDeployReplicas d = 0) /\
  rolling (s_mc s') = false.
Proof.
  intros Hinv Hf. pose proof (safe_final storeInv _ _ _ _ _ (safe_HandleStop s Hinv) Hf) as H.
  destruct H as (_ & Hst & Hr). split; [|done].
  intros d Hd Ho. destruct (Hst d Hd Ho) as [?|H]; [done|]. by apply not_elem_of_nil in H.
Qed.

(** A paused component is left alone: whatever a reconcile in
    two-deployment mode does, the deployments of the store keep their specs,
    and the only deployments it adds have zero replicas. *)
Theorem paused_keeps_specs s s' :
  keysOk s ->
  csp_Paused (com_ComponentSpec (mi_Com (s_mc s))) = true \/
  (exists cs, GetComponentSpec component (mi_Spec (s_mc s)) = Some cs /\ csp_Paused cs = true) ->
  reach (reconcileTwoDeploy component (s_mc s)) s s' -> grows specView s s'.
Proof.
  intros Hk Hp.
  apply (safe_reach (grows specView s) _ (fun _ _ => True)); [by apply grows_refl|].
  unfold reconcileTwoDeploy. safe_steps.
  eapply safe_mono; [|by apply safe_HandleCreate_grows]. intros s1 [[]|e|] H; [|done|done].
  destruct H as [Hg Hmc]. safe_steps. unfold IsPaused.
  destruct Hp as [-> | (cs & -> & Hcs)]; [safe_steps; done|].
  case_if_bool; safe_steps; [done|done|]. intros ? [= <-]. safe_steps. rewrite Hcs. safe_steps. done.
Qed.

(** Manual mode never touches a running deployment: with
    [enableManualMode] no reconcile changes the replicas of any deployment, and
    the spec of a deployment that has replicas stays as it is; added
    deployments have zero replicas. *)
Theorem manual_keeps_running s s' :
  keysOk s -> com_EnableManualMode (mi_Com (s_mc s)) = true ->
  reach (reconcileTwoDeploy component (s_mc s)) s s' -> grows runningView s s'.
Proof.
  intros Hk Hm.
  apply (safe_reach (grows runningView s) _ (fun _ _ => True)); [by apply grows_refl|].
  unfold reconcileTwoDeploy. safe_steps.
  eapply safe_mono; [|eapply safe_mono_I; [apply grows_specView|by apply safe_HandleCreate_grows]].
  intros s1 [[]|e|] H; [|done|done]. destruct H as [Hg%grows_specView Hmc]. safe_steps.
  unfold IsPaused. rewrite <-Hmc in Hm |- *. rewrite Hm.
  case_if_bool; safe_steps; [done|done|]. intros cs _. safe_steps.
  destruct (csp_Paused cs); [safe_steps; done|]. by apply safe_manual_grows.
Qed.

(** The two deployments are found exactly when they are well defined:
    [GetDeploys] returns a pair iff the listed deployments of the component's
    group that carry a slot are exactly two, the first of the pair in the slot
    the Milvus resource names as current and the other not. *)
Theorem selectDeploys_iff mc ds c l :
  selectDeploys component mc ds = Ret (c, l) <->
  (filter (fun d => isSlotted component d = true) ds = [c; l] \/
   filter (fun d => isSlotted component d = true) ds = [l; c]) /\
  isCurrent mc c = true /\ isCurrent mc l = false.
Proof.
  split; [apply selectDeploys_ret|]. intros (Hf & Hc & Hl). unfold isCurrent in *.
  unfold selectDeploys. destruct Hf as [-> | ->]; simpl; by rewrite ?Hc, ?Hl; simpl; rewrite ?Hc, ?Hl.
Qed.

(** C15. A rollout ends only when it is complete or the component is stopped.  In
    rolling mode 3, from a store that satisfies the invariant and marks a rollout as
    in progress, every store that a reconcile passes through without the mark,
    whichever calls fail, either is one of a component that is asked to have no
    replicas and none of whose deployments has any, or its current deployment
    runs at least the least replicas of the spec, all updated and available, both
    statuses are up to date, and the last deployment has no replicas left in spec
    and status. *)
Theorem rollout_ends_complete one s s' :
  storeInv s -> modeV3 (s_mc s) -> rolling (s_mc s) = true ->
  reach (Reconcile component one (s_mc s)) s s' -> rolling (s_mc s') = false -> endedAt s'.
Proof.
  intros Hinv Hm Hr Hreach Hf.
  destruct (safe_reach (fun s => storeInv s /\ markKept s) _ _ s s' (conj Hinv (or_introl Hr))
              (ended_Reconcile one s Hinv Hm Hr) Hreach) as [_ [Hr'|He]]; [congruence|done].
Qed.

(** A new rollout is announced in two writes, the deployment first: in any
    execution [PrepareNewRollout] updates the target deployment with the new
    template carrying the deployment's own slot, and only if that succeeds
    updates the Milvus resource, naming that slot as current and marking the
    component as rolling.  It never ends without an error, so the reconcile is
    run again before anything is scaled. *)
Theorem PrepareNewRollout_order mc d t tr o :
  exec (PrepareNewRollout component mc d t) tr o ->
  exists d' m',
    (writes tr = [UpdateDeployment d'] \/ writes tr = [UpdateDeployment d'; UpdateMilvus m']) /\
    dep_key d' = dep_key d /\ dsp_Replicas (dep_Spec d') = dsp_Replicas (dep_Spec d) /\
    GetLabelGroupID (Name component) (pt_Labels (dsp_Template (dep_Spec d'))) = slot d /\
    pt_Spec (dsp_Template (dep_Spec d')) = pt_Spec t /\
    GetCurrentGroupId m' (GetStateKey component) = slot d /\ rolling m' = true /\
    exists e, o = OFail e.
Proof.
  intros Hex.
  set (d' := fst (RenewDeployAnnotation mc (updatePodTemplateTwoDeployMode component d t))).
  set (m' := SetComponentRolling (SetCurrentGroupIDStr mc (GetStateKey component) (slot d))
               (GetStateKey component) true).
  exists d', m'.
  assert (dsp_Template (dep_Spec d') = set_pt_Labels t (SetGroupIDStr (Name component) (pt_Labels t) (slot d)))
    as Ht by (unfold d', RenewDeployAnnotation; by case_bool_decide).
  pose proof (RenewDeployAnnotation_shape mc (updatePodTemplateTwoDeployMode component d t)) as (_ & Hk & Hr).
  fold d' in Hk, Hr. rewrite Ht. simpl. rewrite GetLabelGroupID_set, decide_True by done.
  assert (rolling m' = true) as Hroll by apply rolling_started.
  assert (GetCurrentGroupId m' (GetStateKey component) = slot d) as ->.
  { unfold m'. assert (forall m b, GetCurrentGroupId (SetComponentRolling m (GetStateKey component) b)
      (GetStateKey component) = GetCurrentGroupId m (GetStateKey component)) as ->
      by (intros m []; unfold SetComponentRolling; by repeat case_bool_decide).
    rewrite GetCurrentGroupId_set. by rewrite decide_True. }
  assert ((writes tr = [UpdateDeployment d'] \/ writes tr = [UpdateDeployment d'; UpdateMilvus m']) /\
          exists e, o = OFail e) as [? ?].
  { revert Hex. apply (wp_exec_any _ (fun ws o => (ws = _ \/ ws = _) /\ exists e, o = OFail e)).
    unfold PrepareNewRollout, UpdateAndRequeue. wp_steps; intros; simpl; eauto. }
  repeat split; done.
Qed.

(** Answers to pod lists in which the pods of the last deployment do not make
    it stable. *)
Definition lastUnstable (last : Deployment) (B : Type) (r : kread B) : B -> Prop :=
  match r in kread B' return B' -> Prop with
  | ListPods ns labels => fun pods =>
      ns = om_Namespace (dep_Meta last) -> labels = dsp_Selector (dep_Spec last) ->
      fst (DeploymentIsStable last (filter (fun pod => pod_Reason pod <> "Evicted") pods)) = false
  | _ => fun _ => True
  end.

(** A rollout is not scaled on top of unfinished work: during a rollout,
    unless the pods the API server reports for the last deployment make it
    stable (none terminating, all running and ready, as many as desired, the
    status up to date), [ScaleDeployments] updates no deployment at all. *)
Theorem rollout_scales_when_stable mc cur last tr o d :
  checkScaleKind component mc last = scaleKindRollout ->
  exec (ScaleDeployments component mc cur last) tr o ->
  Forall (event_ok (lastUnstable last)) tr -> UpdateDeployment d ∉ writes tr.
Proof.
  intros Hk Hex Hok.
  refine (wp_exec (lastUnstable last) _ (fun ws _ => UpdateDeployment d ∉ ws) tr o _ Hex Hok).
  clear Hex Hok. unfold ScaleDeployments, markDeployAsCurrent, GetDeploymentGroupId.
  wp_step. wp_step. wp_step.
  destruct (Atoi _) as [g|]; wp_steps; [|by intros ?%not_elem_of_nil].
  unfold MarkMilvusComponentGroupId, UpdateAndRequeue.
  case_bool_decide; cycle 1; [wp_steps; simpl; intros; set_solver|]. wp_steps.
  unfold checkCanScaleNow. rewrite Hk. cbv beta iota zeta delta [orb negb].
  rewrite !bool_decide_eq_false_2, bool_decide_eq_true_2 by done. wp_steps; [set_solver|].
  intros st _. destruct (rolloutSteps st _) as [su un].
  unfold checkDeploymentsStable, checkLastDeploymentStable, ListDeployPods.
  wp_steps; [set_solver|]. intros pods Hpods. wp_steps.
  specialize (Hpods eq_refl eq_refl).
  destruct (DeploymentIsStable last _) as [[] r]; [done|]. wp_steps. set_solver.
Qed.
End Invariant.

(** ** Witnesses *)

Section Witnesses.
#[local] Existing Instance concreteSemver.
#[local] Existing Instance concreteUnstructured.
#[local] Existing Instance concreteIntStr.
#[local] Existing Instance concreteKubeLib.
#[local] Instance exUpdater : PodTemplateUpdater := {| updatePodTemplate := exRender |}.

Definition exCurrent (m : Milvus) : Milvus := SetCurrentGroupIDStr m "querynode" "0".

(** Slot 0 is current and runs two pods of an old image; slot 1 is empty. *)
Definition exStore (m : Milvus) : store :=
  mkStore (exCurrent m) [exDeployment "0" "milvus:old" 2; exDeployment "1" "dummy" 0].

Definition noOne (m : Milvus) (c : MilvusComponent) : prog unit := Ret tt.

(** After the reconcile against the concrete server. *)
Definition exAfter (p : prog unit) (s : store) : store := fst (fst (run (store_handler []) p s)).

Lemma exAfter_reach p s : reach p s (exAfter p s).
Proof. eapply final_reach, run_final. Qed.

Lemma exStore_inv m : storeInv QueryNode (exStore m).
Proof.
  split; intros d; simpl; intros [->|[->|[]%not_elem_of_nil]%elem_of_cons]%elem_of_cons.
  - intros _. left. vm_compute. reflexivity.
  - intros _. right. vm_compute. reflexivity.
  - intros _ H. exfalso. revert H. unfold isCurrent, componentDeployIsCurrentGroup, exCurrent.
    rewrite GetCurrentGroupId_set. rewrite decide_True by (vm_compute; reflexivity).
    by vm_compute.
  - intros _ _ _. vm_compute. reflexivity.
Qed.

Lemma exStore_keys m : keysOk (exStore m).
Proof. unfold keysOk. simpl. apply (bool_decide_unpack _). vm_compute. exact I. Qed.


(** The example is not idle: the reconcile starts a rollout to slot 1. *)
Example exAfter_rolls :
  GetCurrentGroupId (s_mc (exAfter (Reconcile QueryNode noOne (exCurrent (exMilvus 2)))
                             (exStore (exMilvus 2)))) "querynode" = "1".
Proof. vm_compute. reflexivity. Qed.

Definition exStop : store := exStore (exMilvus 0).

Lemma HandleStop_stops_witness :
  final (HandleStop QueryNode (s_mc exStop)) exStop
    (exAfter (HandleStop QueryNode (s_mc exStop)) exStop) (ORet tt) /\
  (forall d, d ∈ s_deploys (exAfter (HandleStop QueryNode (s_mc exStop)) exStop) ->
     ours QueryNode (s_mc (exAfter (HandleStop QueryNode (s_mc exStop)) exStop)) d ->
     getDeployReplicas d = 0) /\
  rolling QueryNode (s_mc (exAfter (HandleStop QueryNode (s_mc exStop)) exStop)) = false.
Proof.
  assert (snd (run (store_handler []) (HandleStop QueryNode (s_mc exStop)) exStop) = ORet tt) as Ho
    by (vm_compute; reflexivity).
  pose proof (run_final [] (HandleStop QueryNode (s_mc exStop)) exStop) as Hf. rewrite Ho in Hf.
  split; [exact Hf|]. exact (HandleStop_stops QueryNode exStop _ (exStore_inv _) Hf).
Defined.

Definition exPausedMilvus : Milvus :=
  exWithCom (set_com_QueryNode (exCom 2)
    (Some (mkQueryNode (mkComponent (mkComponentSpec true ∅ ∅ "" "" [] None None [] [] "" ∅ None [] []
       None None [] None "" "" false "" None None None) (Some 2) None [] []) [] None))).

Lemma paused_keeps_specs_witness :
  grows specView (exStore exPausedMilvus)
    (exAfter (reconcileTwoDeploy QueryNode (exCurrent exPausedMilvus)) (exStore exPausedMilvus)).
Proof.
  refine (paused_keeps_specs QueryNode (exStore exPausedMilvus) _ (exStore_keys _) _ (exAfter_reach _ _)).
  right. eexists. split; reflexivity.
Defined.

Definition exManualMilvus : Milvus := exWithCom (with_EnableManualMode (exCom 2) true).

Lemma manual_keeps_running_witness :
  grows runningView (exStore exManualMilvus)
    (exAfter (reconcileTwoDeploy QueryNode (exCurrent exManualMilvus)) (exStore exManualMilvus)).
Proof.
  exact (manual_keeps_running QueryNode (exStore exManualMilvus) _ (exStore_keys _) eq_refl
           (exAfter_reach _ _)).
Defined.

(** A finished rollout: slot 0 runs, slot 1 is empty, the rolling label is set. *)
Definition exFinishing : store := exStore (SetComponentRolling (exMilvus 2) "querynode" true).

Definition exFinished : store := exAfter (Reconcile QueryNode noOne (s_mc exFinishing)) exFinishing.

Lemma rollout_ends_complete_witness :
  rolling QueryNode (s_mc exFinishing) = true /\ rolling QueryNode (s_mc exFinished) = false /\ endedAt QueryNode exFinished.
Proof.
  assert (rolling QueryNode (s_mc exFinishing) = true) as Hr by (vm_compute; reflexivity).
  assert (rolling QueryNode (s_mc exFinished) = false) as Hf by (vm_compute; reflexivity).
  split; [exact Hr|]. split; [exact Hf|].
  refine (rollout_ends_complete QueryNode noOne exFinishing exFinished (exStore_inv _) _ Hr (exAfter_reach _ _) Hf).
  split; vm_compute; reflexivity.
Defined.

Lemma PrepareNewRollout_order_witness :
  exists d' m', GetCurrentGroupId m' "querynode" = "1" /\ rolling QueryNode m' = true /\
    dep_key d' = ("ns", "mi-milvus-querynode-1").
Proof.
  destruct (PrepareNewRollout_order QueryNode (exCurrent (exMilvus 2)) (exDeployment "1" "dummy" 0)
              (exTemplate ∅ "milvus:new") _ _
              (run_exec (store_handler []) _ (exStore (exMilvus 2))))
    as (d' & m' & _ & Hk & _ & _ & _ & Hc & Hr & _).
  exists d', m'. split; [exact Hc|]. split; [exact Hr|exact Hk].
Defined.

(** During a rollout with no pods reported for the three replicas of slot 0. *)
Definition exWaiting := run (store_handler [])
  (ScaleDeployments QueryNode (SetCurrentGroupIDStr (exMilvus 4) "querynode" "1")
     (exDeployment "1" "milvus:new" 0) (exDeployment "0" "milvus:old" 3))
  (mkStore (SetCurrentGroupIDStr (exMilvus 4) "querynode" "1") []).

Lemma rollout_scales_when_stable_witness :
  UpdateDeployment (exDeployment "1" "milvus:new" 1) ∉ writes (snd (fst exWaiting)).
Proof.
  apply (rollout_scales_when_stable QueryNode (SetCurrentGroupIDStr (exMilvus 4) "querynode" "1")
           (exDeployment "1" "milvus:new" 0) (exDeployment "0" "milvus:old" 3) _ _ _ eq_refl
           (run_exec _ _ _)).
  match goal with |- Forall ?P ?l => let l' := eval vm_compute in l in change (Forall P l') end.
  repeat constructor.
Defined.
End Witnesses.
