(* ===== verification/DependencyGraph.v ===== *)
(** * Dependencies between components in a rolling image update

    pkg/controllers/dependency_graph.go, the dependency methods of
    components.go and [RollingUpdateImageDependencyReady] of
    deployment_updater.go: a component takes a new image only after the
    components it depends on have it.  The theorems: the reversed graph, used
    for a downgrade, is the converse of the graph; and an update can always be
    carried through, because the deployed components have an order in which
    every component comes after its dependencies. *)
From S2P Require Import Prelude KubeTypes Libs ApiTypes Labels Utils Components Examples.

Local Open Scope string_scope.
Local Open Scope list_scope.
Local Open Scope Z_scope.

(** ** The graph

    A [map[MilvusComponent][]MilvusComponent]: an association list whose first
    entry of a key counts. *)
Definition cmap : Type := list (MilvusComponent * list MilvusComponent).

Definition cmap_get (m : cmap) (c : MilvusComponent) : list MilvusComponent :=
  default [] (snd <$> (snd <$> list_find (fun kv => fst kv = c) m)).

Record dependencyGraphImpl := mkGraph {
  dependencies : cmap;
  reversedDependencies : cmap
}.

Definition newDependencyGraphImpl : dependencyGraphImpl := mkGraph [] [].

Definition AddDependency (d : dependencyGraphImpl) (component : MilvusComponent)
    (deps : list MilvusComponent) : dependencyGraphImpl :=
  mkGraph ((component, deps) :: dependencies d)
    (fold_left (fun rev dep => (dep, cmap_get rev dep ++ [component]) :: rev) deps
       (reversedDependencies d)).

Definition clear_group (c : MilvusComponent) : MilvusComponent :=
  mkMilvusComponent (Name c) (FieldName c) (DefaultPort c) None.

Definition graph_GetDependencies (d : dependencyGraphImpl) (c : MilvusComponent)
    : list MilvusComponent := cmap_get (dependencies d) (clear_group c).

Definition GetReversedDependencies (d : dependencyGraphImpl) (c : MilvusComponent)
    : list MilvusComponent := cmap_get (reversedDependencies d) (clear_group c).

Definition buildGraph (edges : list (MilvusComponent * list MilvusComponent)) : dependencyGraphImpl :=
  fold_left (fun d e => AddDependency d (fst e) (snd e)) edges newDependencyGraphImpl.

Definition clusterEdges : list (MilvusComponent * list MilvusComponent) :=
  [(IndexNode, []); (RootCoord, [IndexNode]); (DataCoord, [RootCoord]); (IndexCoord, [DataCoord]);
   (QueryCoord, [IndexCoord]); (QueryNode, [QueryCoord]); (DataNode, [QueryNode]); (Proxy, [DataNode])].
Definition mixCoordEdges : list (MilvusComponent * list MilvusComponent) :=
  [(IndexNode, []); (MixCoord, [IndexNode]); (QueryNode, [MixCoord]); (DataNode, [QueryNode]);
   (Proxy, [DataNode])].
Definition streamingEdges : list (MilvusComponent * list MilvusComponent) :=
  [(MixCoord, []); (StreamingNode, [MixCoord]); (QueryNode, [StreamingNode]); (DataNode, [QueryNode]);
   (Proxy, [DataNode])].
Definition upgrade26Edges : list (MilvusComponent * list MilvusComponent) :=
  [(StreamingNode, []); (MixCoord, [StreamingNode]); (QueryNode, [MixCoord]); (DataNode, [QueryNode]);
   (Proxy, [DataNode])].

Definition clusterDependencyGraph := buildGraph clusterEdges.
Definition mixCoordClusterDependencyGraph := buildGraph mixCoordEdges.
Definition streamingNodeClusterDependencyGraph := buildGraph streamingEdges.
Definition upgrade26ClusterDependencyGraph := buildGraph upgrade26Edges.

Section BySpec.
Context {SV : Semver}.

Definition GetDependenciesFor2_6Upgrade (c : MilvusComponent) (spec : MilvusSpec)
    : list MilvusComponent :=
  if negb (bool_decide (spec_Mode spec = MilvusModeCluster)) then []
  else graph_GetDependencies upgrade26ClusterDependencyGraph c.

Definition GetDependencies (c : MilvusComponent) (spec : MilvusSpec) : list MilvusComponent :=
  if negb (bool_decide (spec_Mode spec = MilvusModeCluster)) then []
  else
    let isDowngrade :=
      bool_decide (com_ImageUpdateMode (spec_Com spec) = ImageUpdateModeRollingDowngrade) in
    let depGraph := clusterDependencyGraph in
    let depGraph := if UseMixCoord spec then mixCoordClusterDependencyGraph else depGraph in
    let depGraph := if UseStreamingNode spec then streamingNodeClusterDependencyGraph else depGraph in
    if isDowngrade then GetReversedDependencies depGraph c else graph_GetDependencies depGraph c.

Definition IsUpgradingTo26 (m : Milvus) : bool :=
  IsVersionGreaterThan2_6 (mi_Spec m) && negb (IsCurrentImageVersionGreaterThan2_6 m).

Definition imageDependencies (m : Milvus) (c : MilvusComponent) : list MilvusComponent :=
  if IsUpgradingTo26 m then GetDependenciesFor2_6Upgrade c (mi_Spec m)
  else GetDependencies c (mi_Spec m).

Definition RollingUpdateImageDependencyReady (m : Milvus) (component : MilvusComponent) : bool :=
  if st_ObservedGeneration (mi_Status m) <? om_Generation (mi_Meta m) then false
  else if bool_decide (Name component = "cdc") then true
  else if UseCdc (mi_Spec m) && negb (IsImageUpdated Cdc m) then false
  else forallb (fun dep => IsImageUpdated dep m) (imageDependencies m component).
End BySpec.

(** ** The reversed graph is the converse *)

Lemma cmap_get_cons m c l c' : cmap_get ((c, l) :: m) c' = if decide (c = c') then l else cmap_get m c'.
Proof.
  unfold cmap_get. simpl. case_decide; [done|].
  by destruct (list_find (fun kv => fst kv = c') m) as [[]|].
Qed.

Lemma reverse_fold component deps : forall rev x y,
  y ∈ cmap_get (fold_left (fun r dep => (dep, cmap_get r dep ++ [component]) :: r) deps rev) x <->
  y ∈ cmap_get rev x \/ (x ∈ deps /\ y = component).
Proof.
  induction deps as [|d deps IH]; intros rev x y; simpl.
  - split; [by left|]. intros [?|[?%not_elem_of_nil _]]; done.
  - rewrite IH, cmap_get_cons. case_decide as E; [subst x|].
    + rewrite elem_of_app, list_elem_of_singleton, elem_of_cons. naive_solver.
    + rewrite elem_of_cons. naive_solver.
Qed.

Definition converse (g : dependencyGraphImpl) : Prop :=
  forall x y, x ∈ cmap_get (dependencies g) y <-> y ∈ cmap_get (reversedDependencies g) x.

Lemma AddDependency_converse g c deps :
  converse g -> cmap_get (dependencies g) c = [] -> converse (AddDependency g c deps).
Proof.
  intros Hg Hc x y. simpl. rewrite reverse_fold, cmap_get_cons. case_decide as E.
  - subst y. split; [auto|]. intros [H|[? _]]; [|done]. apply Hg in H. rewrite Hc in H.
    by apply not_elem_of_nil in H.
  - rewrite (Hg x y). split; [auto|]. by intros [?|[_ ->]].
Qed.

(** Adding every component once gives a graph and its converse. *)
Lemma build_converse edges : forall g,
  converse g -> NoDup (fst <$> edges) ->
  (forall c, c ∈ fst <$> edges -> cmap_get (dependencies g) c = []) ->
  converse (fold_left (fun d e => AddDependency d (fst e) (snd e)) edges g).
Proof.
  induction edges as [|[c deps] edges IH]; intros g Hg Hnd Hno; simpl; [done|].
  apply NoDup_cons in Hnd as [Hc Hnd]. apply IH; [|done|].
  - apply AddDependency_converse; [done|]. apply Hno. by left.
  - intros c' Hc'. simpl. rewrite cmap_get_cons, decide_False by (intros ->; done).
    apply Hno. by right.
Qed.

(** The graph a downgrade follows is the converse of the one an upgrade
    follows: in a graph built by adding every component once, [x] is among the
    dependencies of [y] exactly when [y] is among the reversed dependencies of
    [x], whatever deployment groups the two workloads belong to. *)
Theorem reversed_is_converse edges x y :
  NoDup (fst <$> edges) ->
  clear_group x ∈ graph_GetDependencies (buildGraph edges) y <->
  clear_group y ∈ GetReversedDependencies (buildGraph edges) x.
Proof.
  intros Hnd. unfold graph_GetDependencies, GetReversedDependencies.
  apply (build_converse edges); [|done|done].
  intros a b. simpl. split; intros ?%not_elem_of_nil; done.
Qed.

(** ** An update order *)

(** Every component comes after its dependencies. *)
Fixpoint topological (deps : MilvusComponent -> list MilvusComponent)
    (seen order : list MilvusComponent) : bool :=
  match order with
  | [] => true
  | c :: order' =>
      forallb (fun d => bool_decide (d ∈ seen)) (deps c) && topological deps (c :: seen) order'
  end.

Lemma topological_spec deps order : forall seen,
  topological deps seen order = true ->
  forall pre c post, order = pre ++ c :: post ->
  forall d, d ∈ deps c -> d ∈ seen \/ d ∈ pre.
Proof.
  induction order as [|x order IH]; intros seen H pre c post E d Hd.
  - by destruct pre.
  - simpl in H. apply andb_true_iff in H as [Hf Ht]. destruct pre as [|p pre]; injection E as -> E.
    + left. rewrite forallb_forall in Hf. apply (bool_decide_eq_true (d ∈ seen)), Hf.
      by apply list_elem_of_In.
    + destruct (IH _ Ht _ _ _ E d Hd) as [[->|?]%elem_of_cons|?]; [right; left|left|right; right]; done.
Qed.

(** The order in which the components of a spec can be updated. *)
Definition updateOrder (upgrading26 streaming mix down : bool) : list MilvusComponent :=
  let up :=
    if upgrading26 then [StreamingNode; MixCoord; QueryNode; DataNode; Proxy]
    else if streaming then [IndexNode; MixCoord; StreamingNode; QueryNode; DataNode; Proxy]
    else if mix then [IndexNode; MixCoord; QueryNode; DataNode; Proxy]
    else [IndexNode; RootCoord; DataCoord; IndexCoord; QueryCoord; QueryNode; DataNode; Proxy] in
  [Cdc; MilvusStandalone] ++ if down && negb upgrading26 then rev up else up.

Section Order.
Context {SV : Semver}.

(** The streaming node is deployed together with a mixed coordinator. *)
Definition coordsConsistent (spec : MilvusSpec) : Prop :=
  UseStreamingNode spec = true -> IsVersionGreaterThan2_6 spec = true \/ UseMixCoord spec = true.

Definition isDowngrade (spec : MilvusSpec) : bool :=
  bool_decide (com_ImageUpdateMode (spec_Com spec) = ImageUpdateModeRollingDowngrade).

Definition specOrder (m : Milvus) : list MilvusComponent :=
  updateOrder (IsUpgradingTo26 m) (UseStreamingNode (mi_Spec m)) (UseMixCoord (mi_Spec m))
    (isDowngrade (mi_Spec m)).

Lemma specOrder_topological m :
  spec_Mode (mi_Spec m) = MilvusModeCluster ->
  topological (imageDependencies m) [] (specOrder m) = true.
Proof.
  intros Hm. unfold specOrder, imageDependencies, GetDependenciesFor2_6Upgrade, GetDependencies.
  rewrite bool_decide_eq_true_2 by done. fold (isDowngrade (mi_Spec m)).
  destruct (IsUpgradingTo26 m), (UseStreamingNode (mi_Spec m)), (UseMixCoord (mi_Spec m)),
    (isDowngrade (mi_Spec m)); vm_compute; reflexivity.
Qed.

Lemma UseStreamingNode_26 spec : IsVersionGreaterThan2_6 spec = true -> UseStreamingNode spec = true.
Proof. unfold UseStreamingNode. by intros ->. Qed.

Lemma specOrder_complete m c :
  coordsConsistent (mi_Spec m) -> c ∈ GetComponentsBySpec (mi_Spec m) -> c ∈ specOrder m.
Proof.
  intros Hcons. unfold GetComponentsBySpec, specOrder, IsUpgradingTo26.
  pose proof (UseStreamingNode_26 (mi_Spec m)) as Hs. unfold coordsConsistent in Hcons.
  destruct (UseCdc (mi_Spec m)), (negb (bool_decide (spec_Mode (mi_Spec m) = MilvusModeCluster))),
    (IsVersionGreaterThan2_6 (mi_Spec m)), (UseMixCoord (mi_Spec m)), (UseStreamingNode (mi_Spec m)),
    (isDowngrade (mi_Spec m)), (IsCurrentImageVersionGreaterThan2_6 m);
    try (by specialize (Hs eq_refl)); try (by destruct (Hcons eq_refl));
    intros Hc; apply (bool_decide_unpack _);
    revert c Hc; apply Forall_forall; apply (bool_decide_unpack _); vm_compute; exact I.
Qed.

(** Dependencies of deployed components are deployed. *)
Lemma imageDependencies_deployed m c d :
  spec_Mode (mi_Spec m) = MilvusModeCluster -> coordsConsistent (mi_Spec m) ->
  c ∈ GetComponentsBySpec (mi_Spec m) -> d ∈ imageDependencies m c ->
  d ∈ GetComponentsBySpec (mi_Spec m).
Proof.
  intros Hm Hcons. unfold imageDependencies, GetDependenciesFor2_6Upgrade, GetDependencies,
    GetComponentsBySpec, IsUpgradingTo26.
  pose proof (UseStreamingNode_26 (mi_Spec m)) as Hs. unfold coordsConsistent in Hcons.
  rewrite (bool_decide_eq_true_2 (spec_Mode (mi_Spec m) = MilvusModeCluster)) by done.
  fold (isDowngrade (mi_Spec m)).
  destruct (UseCdc (mi_Spec m)), (IsVersionGreaterThan2_6 (mi_Spec m)), (UseMixCoord (mi_Spec m)),
    (UseStreamingNode (mi_Spec m)), (isDowngrade (mi_Spec m)), (IsCurrentImageVersionGreaterThan2_6 m);
    try (by specialize (Hs eq_refl)); try (by destruct (Hcons eq_refl));
    intros Hc; revert d; apply Forall_forall;
    revert c Hc; apply Forall_forall; apply (bool_decide_unpack _); vm_compute; exact I.
Qed.

(** The first element of a list with a property. *)
Lemma first_such {A} (f : A -> bool) (l : list A) x :
  x ∈ l -> f x = true ->
  exists pre c post, l = pre ++ c :: post /\ f c = true /\ forall d, d ∈ pre -> f d = false.
Proof.
  induction l as [|y l IH]; intros Hx Hf; [by apply not_elem_of_nil in Hx|].
  destruct (f y) eqn:E.
  - exists [], y, l. split; [done|]. split; [done|]. by intros d ?%not_elem_of_nil.
  - apply elem_of_cons in Hx as [->|Hx]; [congruence|].
    destruct (IH Hx Hf) as (pre & c & post & -> & Hc & Hpre).
    exists (y :: pre), c, post. split; [done|]. split; [done|].
    intros d [->|Hd]%elem_of_cons; auto.
Qed.

(** C3. A rolling image update never gets stuck on its own dependencies.  In
    cluster mode, for an observed spec whose streaming node comes with a mixed
    coordinator, as long as some deployed component does not run the new image
    there is a deployed component that does not run it and whose dependencies
    are ready, for upgrades, downgrades and the upgrade to 2.6 alike. *)
Theorem image_update_progress m :
  spec_Mode (mi_Spec m) = MilvusModeCluster -> coordsConsistent (mi_Spec m) ->
  om_Generation (mi_Meta m) <= st_ObservedGeneration (mi_Status m) ->
  (exists c, c ∈ GetComponentsBySpec (mi_Spec m) /\ IsImageUpdated c m = false) ->
  exists c, c ∈ GetComponentsBySpec (mi_Spec m) /\ IsImageUpdated c m = false /\
    RollingUpdateImageDependencyReady m c = true.
Proof.
  intros Hm Hcons Hgen (c0 & Hc0 & Hu0).
  unfold RollingUpdateImageDependencyReady. rewrite (proj2 (Z.ltb_ge _ _)) by lia.
  destruct (UseCdc (mi_Spec m) && negb (IsImageUpdated Cdc m)) eqn:Ecdc.
  { apply andb_true_iff in Ecdc as [Huse Hcdc]. exists Cdc.
    split; [unfold GetComponentsBySpec; rewrite Huse; set_solver|].
    split; [by apply negb_true_iff|done]. }
  set (f c := bool_decide (c ∈ GetComponentsBySpec (mi_Spec m)) && negb (IsImageUpdated c m)).
  destruct (first_such f (specOrder m) c0) as (pre & c & post & Hord & Hf & Hpre).
  { by apply specOrder_complete. }
  { unfold f. rewrite Hu0, bool_decide_eq_true_2; done. }
  unfold f in Hf. apply andb_true_iff in Hf as [Hc%bool_decide_eq_true Hu%negb_true_iff].
  exists c. split; [done|]. split; [done|]. case_if_bool; [done|].
  apply forallb_forall. intros d Hd%list_elem_of_In.
  destruct (topological_spec _ _ _ (specOrder_topological m Hm) pre c post Hord d Hd) as [H|H];
    [by apply not_elem_of_nil in H|].
  specialize (Hpre d H). unfold f in Hpre.
  rewrite bool_decide_eq_true_2 in Hpre by (by apply (imageDependencies_deployed m c)).
  by apply negb_false_iff in Hpre.
Qed.

(** Without a mixed coordinator a streaming node blocks the update: with
    separate coordinators and streaming mode (before 2.6, cluster mode, no
    downgrade), the streaming node depends on the mixed coordinator, which the
    spec does not deploy, so that, as no status is ever recorded for it, the
    streaming node is never ready for the new image. *)
Theorem streaming_without_mixcoord_blocks m :
  spec_Mode (mi_Spec m) = MilvusModeCluster -> isDowngrade (mi_Spec m) = false ->
  IsVersionGreaterThan2_6 (mi_Spec m) = false ->
  UseStreamingNode (mi_Spec m) = true -> UseMixCoord (mi_Spec m) = false ->
  st_ComponentsDeployStatus (mi_Status m) !! "mixcoord" = None ->
  StreamingNode ∈ GetComponentsBySpec (mi_Spec m) /\ MixCoord ∉ GetComponentsBySpec (mi_Spec m) /\
  RollingUpdateImageDependencyReady m StreamingNode = false.
Proof.
  intros Hm Hd Hv Hs Hx Hst. split; [|split].
  - unfold GetComponentsBySpec. rewrite (bool_decide_eq_true_2 (spec_Mode _ = _)), Hv, Hs, Hx by done.
    destruct (UseCdc (mi_Spec m)); apply (bool_decide_unpack _); vm_compute; exact I.
  - unfold GetComponentsBySpec. rewrite (bool_decide_eq_true_2 (spec_Mode _ = _)), Hv, Hs, Hx by done.
    destruct (UseCdc (mi_Spec m)); apply (bool_decide_unpack _); vm_compute; exact I.
  - unfold RollingUpdateImageDependencyReady, imageDependencies, IsUpgradingTo26, GetDependencies.
    rewrite Hv, Hs, (bool_decide_eq_true_2 (spec_Mode _ = _)) by done.
    fold (isDowngrade (mi_Spec m)). rewrite Hd. simpl.
    case_if_bool; [done|]. case_if_bool; [done|].
    unfold IsImageUpdated. simpl. rewrite Hst. case_if_bool; [done|]. simpl.
    by case_if_bool.
Qed.
End Order.

(** ** Witnesses *)

Section Witnesses.
#[local] Existing Instance concreteSemver.

Lemma reversed_is_converse_witness :
  clear_group MixCoord ∈ graph_GetDependencies (buildGraph mixCoordEdges) QueryNode <->
  clear_group QueryNode ∈ GetReversedDependencies (buildGraph mixCoordEdges) MixCoord.
Proof.
  apply (reversed_is_converse mixCoordEdges MixCoord QueryNode).
  apply (bool_decide_unpack _). vm_compute. exact I.
Defined.

Lemma image_update_progress_witness :
  exists c, c ∈ GetComponentsBySpec (exSpec 2) /\ IsImageUpdated c (exMilvus 2) = false /\
    RollingUpdateImageDependencyReady (exMilvus 2) c = true.
Proof.
  apply (image_update_progress (exMilvus 2)).
  - reflexivity.
  - intros _. right. vm_compute. reflexivity.
  - vm_compute. discriminate.
  - exists MixCoord. split; [|vm_compute; reflexivity].
    apply (bool_decide_unpack _). vm_compute. exact I.
Defined.

(** Separate coordinators and a streaming node. *)
Definition exStreaming : Milvus :=
  exWithCom (set_com_StreamingNode
    (set_com_RootCoord (set_com_MixCoord (exCom 1) None) (Some (exComponent (Some 1))))
    (Some (mkStreamingNode (exComponent (Some 1)) []))).

Lemma streaming_without_mixcoord_blocks_witness :
  StreamingNode ∈ GetComponentsBySpec (mi_Spec exStreaming) /\
  MixCoord ∉ GetComponentsBySpec (mi_Spec exStreaming) /\
  RollingUpdateImageDependencyReady exStreaming StreamingNode = false.
Proof.
  apply (streaming_without_mixcoord_blocks exStreaming); vm_compute; reflexivity.
Defined.
End Witnesses.
