(* ===== verification/SpecProofs.v ===== *)
(** * Properties of the spec and status helpers

    Conditions of a Milvus status, merging of environment variables, the
    replicas of a workload, and the names and keys that keep the workloads of
    an instance apart. *)
From S2P Require Import Prelude KubeTypes Libs ApiTypes Labels Sha256 Effects Utils.
From S2P Require Import Components Examples RollingUpdate ScalePlanner K8sUtil DeployUtil.

Local Open Scope string_scope.
Local Open Scope list_scope.
Local Open Scope Z_scope.

(** ** Conditions *)

(** A condition list as the operator keeps it: every type once, none empty. *)
Definition conditionsOk (conds : list MilvusCondition) : Prop :=
  NoDup (mc_Type <$> conds) /\ "" ∉ mc_Type <$> conds.

(** The first condition of a type, as [GetMilvusConditionByType] finds it. *)
Definition conditionOf (ty : string) (conds : list MilvusCondition) : option MilvusCondition :=
  snd <$> list_find (fun x => mc_Type x = ty) conds.

Lemma valid_conditions_id (conds : list MilvusCondition) :
  "" ∉ mc_Type <$> conds -> filter (fun x => mc_Type x <> "") conds = conds.
Proof.
  intros H. apply filter_all. intros x Hx E. apply H.
  apply list_elem_of_fmap. by exists x.
Qed.

Lemma upsert_ok now c conds :
  mc_Type c <> "" -> conditionsOk conds -> conditionsOk (upsert now c conds).
Proof.
  intros Hc [Hnd He]. unfold conditionsOk. rewrite upsert_types. case_decide as Hin.
  - by rewrite app_nil_r.
  - split.
    + apply NoDup_app. split; [done|]. split; [|apply NoDup_singleton].
      intros x Hx ->%list_elem_of_singleton. done.
    + rewrite elem_of_app, list_elem_of_singleton. naive_solver.
Qed.

(** Recording a condition keeps the status well formed and changes exactly
    that condition: every type still occurs once and none is empty; the
    condition of the type has the new status, reason and message, with the
    time of the change when one of them changed and its old time otherwise;
    every other type keeps its condition; and recording it again at a later
    time changes nothing. *)
Theorem UpdateCondition_records now now' status c :
  conditionsOk (st_Conditions status) -> mc_Type c <> "" ->
  let status' := UpdateCondition now status c in
  conditionsOk (st_Conditions status') /\
  (forall ty, conditionOf ty (st_Conditions status') =
     if decide (ty = mc_Type c) then
       match conditionOf ty (st_Conditions status) with
       | Some cp =>
           if decide (mc_Status cp = mc_Status c /\ mc_Reason cp = mc_Reason c
                      /\ mc_Message cp = mc_Message c) then Some cp
           else Some (mkCondition ty (mc_Status c) (Some now) (mc_Reason c) (mc_Message c))
       | None => Some (mkCondition ty (mc_Status c) (Some now) (mc_Reason c) (mc_Message c))
       end
     else conditionOf ty (st_Conditions status)) /\
  UpdateCondition now' status' c = status'.
Proof.
  intros Hok Hc. unfold UpdateCondition.
  rewrite valid_conditions_id by apply Hok. rewrite bool_decide_eq_false_2 by done. simpl.
  pose proof (upsert_ok now c _ Hc Hok) as Hok'.
  split; [done|]. split; [intros ty; apply upsert_find|].
  rewrite valid_conditions_id by apply Hok'. by rewrite upsert_idem.
Qed.

(** ** Readiness of the dependencies *)

Definition dependencyTypes : list string := [EtcdReady; StorageReady; MsgStreamReady].

Lemma isDependencyCondition_elem ty : isDependencyCondition ty = true <-> ty ∈ dependencyTypes.
Proof.
  unfold isDependencyCondition, dependencyTypes.
  rewrite !orb_true_iff, !bool_decide_eq_true, !elem_of_cons, elem_of_nil. naive_solver.
Qed.

(** The dependency types that are true, in a list where types are unique. *)
Definition trueTypes (conds : list MilvusCondition) : list string :=
  mc_Type <$> filter (fun c => mc_Status c = ConditionTrue
                               /\ isDependencyCondition (mc_Type c) = true) conds.

Lemma trueTypes_NoDup (conds : list MilvusCondition) : NoDup (mc_Type <$> conds) -> NoDup (trueTypes conds).
Proof.
  intros H. unfold trueTypes. induction conds as [|c conds IH]; [constructor|].
  rewrite fmap_cons, NoDup_cons in H. destruct H as [Hn Hd]. rewrite filter_cons.
  case_decide; [|by apply IH]. rewrite fmap_cons. constructor; [|by apply IH].
  intros (x & Hx & [_ Hin]%list_elem_of_filter)%list_elem_of_fmap. apply Hn.
  apply list_elem_of_fmap. eauto.
Qed.

Lemma trueTypes_elem conds ty :
  ty ∈ trueTypes conds <->
  ty ∈ dependencyTypes /\ exists c, c ∈ conds /\ mc_Type c = ty /\ mc_Status c = ConditionTrue.
Proof.
  unfold trueTypes. rewrite list_elem_of_fmap. setoid_rewrite list_elem_of_filter.
  setoid_rewrite isDependencyCondition_elem. naive_solver.
Qed.

Lemma IsDependencyReady_spec (conds : list MilvusCondition) :
  NoDup (mc_Type <$> conds) ->
  IsDependencyReady conds = true <-> forall ty, ty ∈ dependencyTypes -> ty ∈ trueTypes conds.
Proof.
  intros Hnd. unfold IsDependencyReady. rewrite Nat.eqb_eq.
  assert (length (trueTypes conds)
          = length (filter (fun c => mc_Status c = ConditionTrue
                                     /\ isDependencyCondition (mc_Type c) = true) conds)) as <-
    by apply length_fmap.
  pose proof (trueTypes_NoDup conds Hnd) as Ht.
  assert (trueTypes conds ⊆ dependencyTypes) as Hsub by (intros ty [? _]%trueTypes_elem; done).
  assert (NoDup dependencyTypes) as Hd by (apply (bool_decide_unpack _); vm_compute; exact I).
  split.
  - intros Hl ty Hty. assert (trueTypes conds ≡ₚ dependencyTypes) as ->; [|done].
    apply submseteq_length_Permutation; [by apply NoDup_submseteq|]. simpl. lia.
  - intros Hall. change 3%nat with (length dependencyTypes). apply Nat.le_antisymm.
    + apply submseteq_length, NoDup_submseteq; [done|]. intros ty. apply Hall.
    + apply submseteq_length, NoDup_submseteq; [done|]. exact Hsub.
Qed.

(** The fold of [GetNotReadyDependencyConditions], from any start. *)
Lemma notReady_fold (conds : list MilvusCondition) : forall (ret : gmap string (option MilvusCondition)) ty,
  NoDup (mc_Type <$> conds) ->
  fold_left
    (fun ret iter =>
       if isDependencyCondition (mc_Type iter) then
         if bool_decide (mc_Status iter = ConditionTrue) then delete (mc_Type iter) ret
         else <[mc_Type iter := Some iter]> ret
       else ret) conds ret !! ty
  = match conditionOf ty conds with
    | Some c => if isDependencyCondition ty then
                  if bool_decide (mc_Status c = ConditionTrue) then None else Some (Some c)
                else ret !! ty
    | None => ret !! ty
    end.
Proof.
  unfold conditionOf. induction conds as [|c conds IH]; intros ret ty; [done|].
  rewrite fmap_cons, NoDup_cons. intros [Hn Hd]. cbn [fold_left]. rewrite (IH _ _ Hd).
  simpl. destruct (decide (mc_Type c = ty)) as [<-|Hne].
  - rewrite (proj2 (list_find_None _ conds)).
    2:{ apply Forall_forall. intros x Hx Heq. apply Hn. rewrite <-Heq.
        apply list_elem_of_fmap. eauto. }
    simpl. destruct (isDependencyCondition (mc_Type c)); [|done].
    case_bool_decide; [by rewrite lookup_delete_eq|by rewrite lookup_insert_eq].
  - destruct (list_find (fun x => mc_Type x = ty) conds) as [[i x]|]; simpl;
      repeat case_match; rewrite ?lookup_delete_ne, ?lookup_insert_ne by done; done.
Qed.

Lemma conditionOf_elem (conds : list MilvusCondition) c :
  NoDup (mc_Type <$> conds) -> c ∈ conds -> conditionOf (mc_Type c) conds = Some c.
Proof.
  unfold conditionOf. induction conds as [|x conds IH]; [by intros _ ?%not_elem_of_nil|].
  rewrite fmap_cons, NoDup_cons. intros [Hn Hd] [->|Hc]%elem_of_cons; simpl.
  - by rewrite decide_True.
  - rewrite decide_False; [|intros E; apply Hn; rewrite E; apply list_elem_of_fmap; eauto].
    specialize (IH Hd Hc). destruct (list_find _ conds) as [[]|]; done.
Qed.

Lemma conditionOf_Some conds ty c : conditionOf ty conds = Some c -> c ∈ conds /\ mc_Type c = ty.
Proof.
  unfold conditionOf. destruct (list_find _ conds) as [[i x]|] eqn:E; [|done].
  intros [= <-]. apply list_find_Some in E as (Hx & Ht & _).
  split; [by eapply list_elem_of_lookup_2|done].
Qed.

(** The two readings of the dependency conditions agree: on a status where
    every type occurs once, [IsDependencyReady] holds exactly when
    [GetNotReadyDependencyConditions] has nothing to report, which is when
    etcd, storage and message stream each have a condition that is true. *)
Theorem dependency_ready_iff (conds : list MilvusCondition) :
  NoDup (mc_Type <$> conds) ->
  (IsDependencyReady conds = true <-> GetNotReadyDependencyConditions conds = ∅) /\
  (IsDependencyReady conds = true <->
   forall ty, ty ∈ [EtcdReady; StorageReady; MsgStreamReady] ->
     exists c, conditionOf ty conds = Some c /\ mc_Status c = ConditionTrue).
Proof.
  intros Hnd.
  assert (IsDependencyReady conds = true <->
          forall ty, ty ∈ dependencyTypes ->
            exists c, conditionOf ty conds = Some c /\ mc_Status c = ConditionTrue) as Hready.
  { rewrite IsDependencyReady_spec by done. apply forall_proper. intros ty.
    rewrite trueTypes_elem. split.
    - intros H Hty. destruct (H Hty) as [_ (c & Hc & <- & Hs)]. exists c.
      split; [by apply conditionOf_elem|done].
    - intros H Hty. split; [done|]. destruct (H Hty) as (c & [? ?]%conditionOf_Some & Hs). eauto. }
  split; [|done]. rewrite Hready, map_empty. unfold GetNotReadyDependencyConditions.
  setoid_rewrite notReady_fold; [|done]. split.
  - intros H ty. destruct (decide (ty ∈ dependencyTypes)) as [Hty|Hty].
    + destruct (H ty Hty) as (c & -> & Hs). apply isDependencyCondition_elem in Hty.
      by rewrite Hty, bool_decide_eq_true_2.
    + destruct (isDependencyCondition ty) eqn:E; [by apply isDependencyCondition_elem in E|].
      assert (({[ EtcdReady := None; StorageReady := None; MsgStreamReady := None ]}
               : gmap string (option MilvusCondition)) !! ty = None) as ->.
      { unfold dependencyTypes in Hty. rewrite !not_elem_of_cons in Hty.
        destruct Hty as (? & ? & ? & _). by rewrite !lookup_insert_ne, lookup_singleton_ne by congruence. }
      by destruct (conditionOf ty conds).
  - intros H ty Hty. specialize (H ty). rewrite (proj2 (isDependencyCondition_elem ty) Hty) in H.
    destruct (conditionOf ty conds) as [c|].
    + exists c. split; [done|]. by case_bool_decide.
    + exfalso. revert H. unfold dependencyTypes in Hty. rewrite !elem_of_cons, elem_of_nil in Hty.
      destruct Hty as [->|[->|[->|[]]]]; vm_compute; discriminate.
Qed.

(** ** Merging *)

(** Merged environment variables override by name: for every name, the
    variable that takes effect in [MergeEnvVar src dst] (the last one of that
    name, as in a container) is that of [dst] if [dst] sets the name and that
    of [src] otherwise. *)
Theorem MergeEnvVar_effective src dst name :
  let effective l := last (filter (fun e => Some (ev_Name e) = Some name) l) in
  effective (MergeEnvVar src dst)
  = match effective dst with Some e => Some e | None => effective src end.
Proof. exact (merge_by_last (fun e => Some (ev_Name e)) name src dst). Qed.

(** ** Replicas of a workload *)

(** Decide an equation between a field after a write and before it. *)
Ltac solve_field com :=
  simpl; try done; match goal with |- context [?f com] => destruct (f com) end; done.

Section Workloads.
Context {SV : Semver}.

Lemma groups_of_field c spec :
  c ∈ AllComponents ->
  GetDeploymentGroups c spec = default [] (groupsField (spec_Com spec) (FieldName c)).
Proof.
  revert c. apply Forall_forall. repeat apply Forall_cons_2; try apply Forall_nil_2; reflexivity.
Qed.

Lemma FieldName_inj c c' :
  c ∈ AllComponents -> c' ∈ AllComponents -> FieldName c = FieldName c' -> c = c'.
Proof.
  intros Hc. revert c'. apply (proj1 (Forall_forall (fun c' => FieldName c = FieldName c' -> c = c') _)).
  revert c Hc. apply Forall_forall.
  apply (bool_decide_unpack _). vm_compute. exact I.
Qed.

Lemma Name_inj c c' :
  c ∈ AllComponents -> c' ∈ AllComponents -> Name c = Name c' -> c = c'.
Proof.
  intros Hc. revert c'. apply (proj1 (Forall_forall (fun c' => Name c = Name c' -> c = c') _)).
  revert c Hc. apply Forall_forall.
  apply (bool_decide_unpack _). vm_compute. exact I.
Qed.

Lemma table_no_group c : c ∈ AllComponents -> DeploymentGroupOf c = None.
Proof.
  revert c. apply Forall_forall. apply (bool_decide_unpack _). vm_compute. exact I.
Qed.

(** What [GetComponentsBySpec] reads of the component specs. *)
Lemma GetComponentsBySpec_ext spec com :
  com_ComponentSpec com = com_ComponentSpec (spec_Com spec) ->
  com_StreamingMode com = com_StreamingMode (spec_Com spec) ->
  (is_Some (com_MixCoord com) <-> is_Some (com_MixCoord (spec_Com spec))) ->
  (is_Some (com_Cdc com) <-> is_Some (com_Cdc (spec_Com spec))) ->
  (is_Some (com_StreamingNode com) <-> is_Some (com_StreamingNode (spec_Com spec))) ->
  GetComponentsBySpec (set_spec_Com spec com) = GetComponentsBySpec spec.
Proof.
  intros H1 H2 H3 H4 H5.
  unfold GetComponentsBySpec, UseCdc, UseMixCoord, UseStreamingNode, IsVersionGreaterThan2_6.
  simpl. by rewrite H1, H2, (bool_decide_ext _ _ H3), (bool_decide_ext _ _ H4),
    (bool_decide_ext _ _ H5).
Qed.

Lemma GetComponentsBySpec_update spec f upd :
  GetComponentsBySpec (set_spec_Com spec (update_component (spec_Com spec) f upd))
  = GetComponentsBySpec spec.
Proof.
  apply GetComponentsBySpec_ext; destruct f; try done; simpl; by rewrite fmap_is_Some.
Qed.

Lemma GetComponentsBySpec_groups spec f gs :
  GetComponentsBySpec (set_spec_Com spec (set_groupsField (spec_Com spec) f gs))
  = GetComponentsBySpec spec.
Proof.
  apply GetComponentsBySpec_ext; destruct f; try done; simpl; by rewrite fmap_is_Some.
Qed.

Lemma componentField_update com f upd f' :
  componentField (update_component com f upd) f'
  = if decide (f = f') then upd <$> componentField com f' else componentField com f'.
Proof.
  destruct f, f'; solve_field com.
Qed.

Lemma groupsField_update com f upd f' :
  groupsField (update_component com f upd) f' = groupsField com f'.
Proof.
  destruct f, f'; solve_field com.
Qed.

Lemma groupsField_groups com f gs f' :
  groupsField (set_groupsField com f gs) f'
  = if decide (f = f') then (fun _ => gs) <$> groupsField com f' else groupsField com f'.
Proof.
  destruct f, f'; solve_field com.
Qed.

Lemma componentField_groups com f gs f' :
  componentField (set_groupsField com f gs) f' = componentField com f'.
Proof.
  destruct f, f'; solve_field com.
Qed.

Lemma set_group_replicas_spec groups name r :
  name ∈ dg_Name <$> groups ->
  exists gs g, set_group_replicas groups name r = Some gs /\ g ∈ groups /\ dg_Name g = name /\
    set_dg_Replicas g r ∈ gs /\ forall h, h ∈ groups -> dg_Name h <> name -> h ∈ gs.
Proof.
  induction groups as [|h groups IH]; [by intros ?%not_elem_of_nil|].
  intros Hin. cbn [set_group_replicas]. case_bool_decide as E.
  - exists (set_dg_Replicas h r :: groups), h. repeat split; try done; try set_solver.
  - rewrite fmap_cons, elem_of_cons in Hin. destruct Hin as [Hin|Hin]; [congruence|].
    destruct (IH Hin) as (gs & g & -> & Hg & Hn & Hgs & Hrest).
    exists (h :: gs), g. repeat split; try done; set_solver.
Qed.

(** What identifies a workload: the component and its group. *)
Definition workloadId (w : MilvusComponent) : string * option string :=
  (Name w, dg_Name <$> DeploymentGroupOf w).

(** The new spec differs from the old one in the replicas of one workload. *)
Definition replicasWritten (w : MilvusComponent) (r : option Z) (spec spec' : MilvusSpec) : Prop :=
  (exists w', w' ∈ GetComponentWorkloadsBySpec spec' /\ workloadId w' = workloadId w /\
              GetReplicas w' spec' = r) /\
  (forall v, v ∈ GetComponentWorkloadsBySpec spec -> workloadId v <> workloadId w ->
     v ∈ GetComponentWorkloadsBySpec spec' /\ GetReplicas v spec' = GetReplicas v spec).

Lemma SetReplicas_component spec c comp r :
  c ∈ GetComponentsBySpec spec -> GetDeploymentGroups c spec = [] ->
  componentField (spec_Com spec) (FieldName c) = Some comp ->
  replicasWritten c r spec
    (set_spec_Com spec (update_component (spec_Com spec) (FieldName c)
                          (fun comp => set_co_Replicas comp r))).
Proof.
  intros Hc Hg Hcomp. pose proof (GetComponentsBySpec_table _ _ Hc) as Ht. split.
  - exists c. split; [|split; [done|]].
    + apply workloads_elem. exists c. rewrite GetComponentsBySpec_update. split; [done|]. left.
      split; [|done]. rewrite groups_of_field in Hg |- * by done. simpl.
      by rewrite groupsField_update.
    + unfold GetReplicas. rewrite (table_no_group c Ht). simpl.
      by rewrite componentField_update, decide_True, Hcomp.
  - intros v (c' & Hc' & Hv)%workloads_elem Hne.
    pose proof (GetComponentsBySpec_table _ _ Hc') as Ht'. split.
    + apply workloads_elem. exists c'. rewrite GetComponentsBySpec_update. split; [done|].
      rewrite groups_of_field in Hv |- * by done. simpl. by rewrite groupsField_update.
    + destruct Hv as [[_ ->]|(g' & _ & ->)]; [|done]. unfold GetReplicas.
      rewrite (table_no_group c' Ht'). simpl. rewrite componentField_update, decide_False; [done|].
      intros ->%FieldName_inj; done.
Qed.

Lemma SetReplicas_group spec c g groups gs r :
  c ∈ GetComponentsBySpec spec -> groupsField (spec_Com spec) (FieldName c) = Some groups ->
  g ∈ groups -> set_group_replicas groups (dg_Name g) r = Some gs ->
  replicasWritten (set_group c g) r spec
    (set_spec_Com spec (set_groupsField (spec_Com spec) (FieldName c) gs)).
Proof.
  intros Hc Egs Hg Hset. pose proof (GetComponentsBySpec_table _ _ Hc) as Ht.
  destruct (set_group_replicas_spec groups (dg_Name g) r) as (gs' & g0 & E & Hg0 & Hn & Hgs & Hrest);
    [apply list_elem_of_fmap; eauto|]. simplify_eq. split.
  - exists (set_group c (set_dg_Replicas g0 r)). split; [|split; [|done]].
    + apply workloads_elem. exists c. rewrite GetComponentsBySpec_groups. split; [done|]. right.
      exists (set_dg_Replicas g0 r). rewrite groups_of_field by done. simpl.
      by rewrite groupsField_groups, decide_True, Egs.
    + unfold workloadId. simpl. by rewrite Hn.
  - intros v (c' & Hc' & Hv)%workloads_elem Hne.
    pose proof (GetComponentsBySpec_table _ _ Hc') as Ht'. split.
    + apply workloads_elem. exists c'. rewrite GetComponentsBySpec_groups. split; [done|].
      rewrite groups_of_field in Hv |- * by done. simpl.
      rewrite groupsField_groups. case_decide as Ef; [|done].
      apply FieldName_inj in Ef as ->; [|done..]. rewrite Egs in Hv |- *. simpl in Hv |- *.
      destruct Hv as [[-> _]|(h & Hh & ->)]; [by apply not_elem_of_nil in Hg0|].
      right. exists h. split; [|done]. apply Hrest; [done|]. intros E'. apply Hne.
      unfold workloadId. simpl. by rewrite E'.
    + destruct Hv as [[_ ->]|(g' & _ & ->)]; [|done]. unfold GetReplicas.
      rewrite (table_no_group c' Ht'). simpl. by rewrite componentField_groups.
Qed.

(** [SetReplicas] on a workload of the spec. *)
Lemma SetReplicas_written spec w r :
  w ∈ GetComponentWorkloadsBySpec spec -> is_Some (componentField (spec_Com spec) (FieldName w)) ->
  exists spec', SetReplicas w spec r = inr spec' /\ replicasWritten w r spec spec'.
Proof.
  intros (c & Hc & Hw)%workloads_elem [comp Hcomp].
  pose proof (GetComponentsBySpec_table _ _ Hc) as Ht.
  destruct Hw as [[Hg ->]|(g & Hg & ->)]; unfold SetReplicas; simpl in Hcomp |- *; rewrite Hcomp.
  - rewrite (table_no_group c Ht). eexists. split; [done|]. by eapply SetReplicas_component.
  - rewrite groups_of_field in Hg by done.
    destruct (groupsField (spec_Com spec) (FieldName c)) as [groups|] eqn:Egs;
      simpl in Hg; [|by apply not_elem_of_nil in Hg].
    destruct (set_group_replicas_spec groups (dg_Name g) r) as (gs & g0 & E & _);
      [apply list_elem_of_fmap; eauto|].
    rewrite E. eexists. split; [done|]. by eapply SetReplicas_group.
Qed.

(** Writing replicas sets exactly one workload: for a workload of the spec
    whose component is configured, [SetReplicas] succeeds; in the new spec the
    workload of the same component and group has the given replicas, and every
    workload of another component or group is still there with its
    replicas. *)
Theorem SetReplicas_sets spec w r :
  w ∈ GetComponentWorkloadsBySpec spec -> is_Some (componentField (spec_Com spec) (FieldName w)) ->
  exists spec', SetReplicas w spec r = inr spec' /\
    (exists w', w' ∈ GetComponentWorkloadsBySpec spec' /\ workloadId w' = workloadId w /\
                GetReplicas w' spec' = r) /\
    (forall v, v ∈ GetComponentWorkloadsBySpec spec -> workloadId v <> workloadId w ->
       v ∈ GetComponentWorkloadsBySpec spec' /\ GetReplicas v spec' = GetReplicas v spec).
Proof. exact (SetReplicas_written spec w r). Qed.

(** ** Names and keys *)

(** Component names have no dash. *)
Fixpoint dashFree (s : string) : bool :=
  match s with
  | EmptyString => true
  | String a s => negb (bool_decide (a = "-"%char)) && dashFree s
  end.

Lemma table_dashFree c : c ∈ AllComponents -> dashFree (Name c) = true.
Proof.
  revert c. apply Forall_forall. apply (bool_decide_unpack _). vm_compute. exact I.
Qed.

(** The part of a name after the component. *)
Definition suffixOf (g : option DeploymentGroup) : string :=
  match g with None => "" | Some g => "-" +:+ dg_Name g end.

Lemma GetDeploymentName_app c instance :
  GetDeploymentName c instance
  = (instance +:+ "-milvus-") +:+ (Name c +:+ suffixOf (DeploymentGroupOf c)).
Proof.
  unfold GetDeploymentName, suffixOf. apply to_list_inj.
  destruct (DeploymentGroupOf c); rewrite !to_list_app, ?app_nil_r, <-?app_assoc; done.
Qed.

Lemma dashFree_split a : forall b x y,
  dashFree a = true -> dashFree b = true ->
  a +:+ suffixOf x = b +:+ suffixOf y -> a = b /\ suffixOf x = suffixOf y.
Proof.
  induction a as [|ch a IH]; intros b x y Ha Hb.
  - destruct b as [|ch' b]; [done|]. intros E. exfalso.
    destruct x as [g|]; simpl in E; [|done]. injection E as <- _. done.
  - destruct b as [|ch' b].
    + intros E. exfalso. destruct y as [g|]; simpl in E; [|done]. injection E as -> _. done.
    + simpl in Ha, Hb. apply andb_true_iff in Ha as [_ Ha]. apply andb_true_iff in Hb as [_ Hb].
      intros [= -> E]. destruct (IH b x y Ha Hb E) as [-> ->]. done.
Qed.

(** Within a component the group names are distinct. *)
Definition groupNamesDistinct (spec : MilvusSpec) : Prop :=
  forall c, c ∈ GetComponentsBySpec spec -> NoDup (dg_Name <$> GetDeploymentGroups c spec).

Lemma GetDeploymentName_inj spec w w' instance :
  groupNamesDistinct spec ->
  w ∈ GetComponentWorkloadsBySpec spec -> w' ∈ GetComponentWorkloadsBySpec spec ->
  GetDeploymentName w instance = GetDeploymentName w' instance -> w = w'.
Proof.
  intros Hnd (c & Hc & Hw)%workloads_elem (c' & Hc' & Hw')%workloads_elem.
  rewrite !GetDeploymentName_app. intros E%app_cancel_l.
  pose proof (GetComponentsBySpec_table _ _ Hc) as Ht.
  pose proof (GetComponentsBySpec_table _ _ Hc') as Ht'.
  assert (Name w = Name c /\ Name w' = Name c') as [En En'] by naive_solver.
  rewrite En, En' in E.
  apply dashFree_split in E as [->%Name_inj E]; try done; try (by apply table_dashFree).
  destruct Hw as [[Hg ->]|(g & Hg & ->)], Hw' as [[Hg' ->]|(g' & Hg' & ->)]; try done.
  - rewrite Hg in Hg'. by apply not_elem_of_nil in Hg'.
  - rewrite Hg' in Hg. by apply not_elem_of_nil in Hg.
  - change ("-" +:+ dg_Name g = "-" +:+ dg_Name g') in E. apply app_cancel_l in E. f_equal.
    apply list_elem_of_lookup in Hg as [i Hi], Hg' as [j Hj].
    assert (i = j) as ->; [|congruence].
    apply (NoDup_lookup (dg_Name <$> GetDeploymentGroups c' spec) i j (dg_Name g)); [by apply Hnd| |].
    + by rewrite list_lookup_fmap, Hi.
    + by rewrite list_lookup_fmap, Hj, E.
Qed.

(** No two rollout slots share a deployment: for a spec whose components
    have distinct group names, the deployments that [CreateDeploy] names for
    the slots 0 and 1 of its workloads all have different names. *)
Theorem slot_names_distinct mc w w' i j :
  groupNamesDistinct (mi_Spec mc) ->
  w ∈ GetComponentWorkloadsBySpec (mi_Spec mc) -> w' ∈ GetComponentWorkloadsBySpec (mi_Spec mc) ->
  (i = 0 \/ i = 1) -> (j = 0 \/ j = 1) ->
  formatComponentDeployName w mc i = formatComponentDeployName w' mc j -> w = w' /\ i = j.
Proof.
  intros Hnd Hw Hw' Hi Hj E. unfold formatComponentDeployName in E.
  assert (i = j) as <-.
  { apply (f_equal String.list_ascii_of_string) in E. rewrite !to_list_app in E.
    apply (f_equal last) in E. destruct Hi as [->| ->], Hj as [->| ->]; try done;
      vm_compute (String.list_ascii_of_string (Itoa _)) in E;
      rewrite !(assoc_L (++)), !last_snoc in E; congruence. }
  split; [|done]. apply app_cancel_r in E. by eapply GetDeploymentName_inj.
Qed.

(** The keys of the rollout state stay within Kubernetes' limits: for every
    workload, however long its group name, the part after the prefix of each
    label or annotation key that [GetStateKey] is put in has at most 63
    characters. *)
Theorem state_keys_bounded spec w :
  w ∈ GetComponentWorkloadsBySpec spec ->
  (String.length (getChangingModeLabel (GetStateKey w)) <= String.length MilvusIO + 63 /\
   String.length (GetComponentCurrentGroupIDLabel (GetStateKey w)) <= String.length MilvusIO + 63 /\
   String.length (GetRollingIdLabelByComponent (GetStateKey w)) <= String.length MilvusIO + 63)%nat.
Proof.
  intros (c & Hc & Hw)%workloads_elem.
  pose proof (GetComponentsBySpec_table _ _ Hc) as Ht.
  assert (String.length (GetStateKey w) <= 30)%nat as Hk.
  { assert (String.length (Name c) <= 13)%nat as Hn.
    { clear Hc Hw. revert c Ht. apply Forall_forall. apply (bool_decide_unpack _). vm_compute. exact I. }
    unfold GetStateKey. destruct Hw as [[_ ->]|(g & _ & ->)].
    - rewrite (table_no_group c Ht). lia.
    - simpl. rewrite !string_length_app, hex_length, length_take, Sum256_length. simpl. lia. }
  unfold getChangingModeLabel, GetComponentCurrentGroupIDLabel, GetRollingIdLabelByComponent.
  rewrite !string_length_app. simpl. lia.
Qed.
End Workloads.

(** ** Witnesses *)

Section Witnesses.
#[local] Existing Instance concreteSemver.

Definition exConditions : list MilvusCondition :=
  [mkCondition EtcdReady ConditionTrue (Some 1) "" ""; mkCondition StorageReady ConditionTrue (Some 1) "" "";
   mkCondition MsgStreamReady ConditionFalse (Some 1) "MsgStreamNotReady" ""].

Definition exPulsarReady : MilvusCondition := mkCondition MsgStreamReady ConditionTrue None "" "".

Definition exStatusWith (conds : list MilvusCondition) : MilvusStatus := set_Conditions exStatus conds.

Lemma UpdateCondition_records_witness :
  conditionsOk (st_Conditions (UpdateCondition 7 (exStatusWith exConditions) exPulsarReady)) /\
  conditionOf MsgStreamReady (st_Conditions (UpdateCondition 7 (exStatusWith exConditions) exPulsarReady))
  = Some (mkCondition MsgStreamReady ConditionTrue (Some 7) "" "").
Proof.
  destruct (UpdateCondition_records 7 8 (exStatusWith exConditions) exPulsarReady) as (H & Hof & _).
  - split; apply (bool_decide_unpack _); vm_compute; exact I.
  - discriminate.
  - split; [exact H|]. rewrite Hof. vm_compute. reflexivity.
Defined.

Lemma dependency_ready_iff_witness :
  IsDependencyReady exConditions = true <-> GetNotReadyDependencyConditions exConditions = ∅.
Proof.
  apply (dependency_ready_iff exConditions).
  apply (bool_decide_unpack _). vm_compute. exact I.
Defined.

(** A query node with two deployment groups. *)
Definition exGroup (name : string) : DeploymentGroup :=
  mkGroup name (Some 2) ∅ ∅ [] None None None None.

Definition exGrouped : Milvus :=
  exWithCom (set_com_QueryNode (exCom 1)
    (Some (mkQueryNode (exComponent None) [exGroup "b"; exGroup "a"] None))).

Lemma SetReplicas_sets_witness :
  exists spec', SetReplicas (set_group QueryNode (exGroup "a")) (mi_Spec exGrouped) (Some 5) = inr spec' /\
    exists w', w' ∈ GetComponentWorkloadsBySpec spec' /\ workloadId w' = ("querynode", Some "a") /\
      GetReplicas w' spec' = Some 5.
Proof.
  destruct (SetReplicas_sets (mi_Spec exGrouped) (set_group QueryNode (exGroup "a")) (Some 5))
    as (spec' & H & Hw & _).
  - apply (bool_decide_unpack _). vm_compute. exact I.
  - eexists. reflexivity.
  - exists spec'. split; [exact H|exact Hw].
Defined.

Lemma slot_names_distinct_witness :
  formatComponentDeployName (set_group QueryNode (exGroup "a")) exGrouped 0
  <> formatComponentDeployName (set_group QueryNode (exGroup "b")) exGrouped 1.
Proof.
  intros E. apply (slot_names_distinct exGrouped) in E.
  - destruct E as [_ E]. discriminate E.
  - intros c Hc. apply GetComponentsBySpec_table in Hc. revert c Hc. apply Forall_forall.
    apply (bool_decide_unpack _). vm_compute. exact I.
  - apply (bool_decide_unpack _). vm_compute. exact I.
  - apply (bool_decide_unpack _). vm_compute. exact I.
  - left. reflexivity.
  - right. reflexivity.
Defined.

Lemma state_keys_bounded_witness :
  (String.length (getChangingModeLabel (GetStateKey (set_group QueryNode (exGroup "a"))))
   <= String.length MilvusIO + 63)%nat.
Proof.
  apply (state_keys_bounded (mi_Spec exGrouped) (set_group QueryNode (exGroup "a"))).
  apply (bool_decide_unpack _). vm_compute. exact I.
Defined.
End Witnesses.
