(* ===== verification/UpgradeFsm.v ===== *)
(** * The upgrade state machine

    pkg/controllers/milvusupgrade_fsm.go and milvusupgrade_controller.go: an
    upgrade stops Milvus, backs its metadata up, migrates it and starts the new
    version; a rollback stops it, restores the metadata and starts the old
    version.

    A state function mutates the upgrade and the Milvus resource it is given,
    also when it returns an error: it maps the pair [fsm] to the pair after the
    call and its result, where the state [UpgradeStatePending] (the empty
    string) means that the machine stops for now. *)
From S2P Require Import Prelude KubeTypes Libs ApiTypes UpgradeTypes Labels Effects Utils.
From S2P Require Import Components.

Local Open Scope string_scope.
Local Open Scope list_scope.
Local Open Scope Z_scope.

(** The time package's RFC 3339 layout in the operator's time zone; times are
    nanoseconds since the epoch. *)
Class GoTime := {
  FormatRFC3339 : Z -> string;
  ParseRFC3339 : string -> option Z
}.

(** The data of the migration template, and text/template on the file the
    operator is configured with; [None] is an error. *)
Record migrationConfig := mkMigration {
  mg_Command : string;
  mg_SourceVersion : string;
  mg_TargetVersion : string;
  mg_Endpoints : list string;
  mg_RootPath : string;
  mg_MetaSubPath : string;
  mg_KvSubPath : string
}.

Class MigrationTemplate := { GetTemplatedValues : migrationConfig -> option string }.

Definition ConditionCheckingUpgrationState : string := "CheckingUpgrationState".
Definition ConditionUpgraded : string := "Upgraded".
Definition ConditionRollbacked : string := "Rollbacked".

Definition LabelUpgrade : string := MilvusIO +:+ "upgrade".
Definition LabelTaskKind : string := MilvusIO +:+ "task-kind".
Definition BackupMetaKind : string := "backup-meta".
Definition UpdateMetaKind : string := "update-meta".
Definition RollbackMetaKind : string := "rollback-meta".
Definition migrationConfFilename : string := "migration.yaml".

Definition RemovePrefixV (version : string) : string :=
  match version with String "v"%char rest => rest | _ => version end.

(** ** Replicas recorded by component *)

Definition GetMilvusReplicas (c : MilvusComponent) (r : MilvusReplicas) : Z :=
  match FieldName c with
  | MixCoordField => mr_MixCoord r
  | RootCoordField => mr_RootCoord r
  | DataCoordField => mr_DataCoord r
  | QueryCoordField => mr_QueryCoord r
  | IndexCoordField => mr_IndexCoord r
  | DataNodeField => mr_DataNode r
  | QueryNodeField => mr_QueryNode r
  | IndexNodeField => mr_IndexNode r
  | StreamingNodeField => mr_StreamingNode r
  | ProxyField => mr_Proxy r
  | StandaloneField => mr_Standalone r
  | CdcField => mr_Cdc r
  end.

Definition SetStatusReplicas (c : MilvusComponent) (r : MilvusReplicas) (n : Z) : MilvusReplicas :=
  let f := FieldName c in
  let pick (g : ComponentField) (old : Z) := if decide (f = g) then n else old in
  mkReplicas (pick ProxyField (mr_Proxy r)) (pick MixCoordField (mr_MixCoord r))
    (pick RootCoordField (mr_RootCoord r)) (pick DataCoordField (mr_DataCoord r))
    (pick IndexCoordField (mr_IndexCoord r)) (pick QueryCoordField (mr_QueryCoord r))
    (pick DataNodeField (mr_DataNode r)) (pick IndexNodeField (mr_IndexNode r))
    (pick QueryNodeField (mr_QueryNode r)) (pick StreamingNodeField (mr_StreamingNode r))
    (pick StandaloneField (mr_Standalone r)) (pick CdcField (mr_Cdc r)).

(** ** The pair of resources *)

Record fsm := mkFsm { f_upgrade : MilvusUpgrade; f_milvus : Milvus }.

Definition set_status (s : fsm) (f : MilvusUpgradeStatus -> MilvusUpgradeStatus) : fsm :=
  mkFsm (with_status (f_upgrade s) f) (f_milvus s).
Definition set_milvus (s : fsm) (m : Milvus) : fsm := mkFsm (f_upgrade s) m.
Definition f_status (s : fsm) : MilvusUpgradeStatus := up_Status (f_upgrade s).
Definition f_spec (s : fsm) : MilvusUpgradeSpec := up_Spec (f_upgrade s).

(** [milvus.Spec.Com.Image = image]. *)
Definition set_image (m : Milvus) (image : string) : Milvus :=
  let com := mi_Com m in
  set_mi_Spec m (set_spec_Com (mi_Spec m)
    (set_com_head com (set_csp_Image (com_ComponentSpec com) image) (com_ImageUpdateMode com)
       (com_EnableRollingUpdate com) (com_UpdateConfigMapOnly com) (com_RollingMode com)
       (com_StreamingMode com))).

(** [_ = component.SetReplicas(milvus.Spec, replicas)]: errors are ignored. *)
Definition trySetReplicas (c : MilvusComponent) (spec : MilvusSpec) (replicas : option Z)
    : MilvusSpec :=
  match SetReplicas c spec replicas with inl _ => spec | inr spec' => spec' end.

(** The result of a state function. *)
Definition stateResult : Type := fsm * (err + MilvusUpgradeState).

Section Fsm.
Context {SV : Semver} {US : Unstructured} {KL : KubeLib} {MC : MetaConditions}
  {KM : KubeMessages} {GT : GoTime} {MT : MigrationTemplate}.

(** ** Recording, stopping and starting *)

(** One component of the loop of [recordOldInfo]. *)
Definition recordComponent (spec : MilvusSpec) (recordComponentReplicas recordGroups : bool)
    (s : MilvusUpgradeStatus) (component : MilvusComponent) : MilvusUpgradeStatus :=
  let replicas := default 1 (GetReplicas component spec) in
  match DeploymentGroupOf component with
  | None =>
      if recordComponentReplicas
      then set_ReplicasBeforeUpgrade
             (Some (SetStatusReplicas component (default zeroReplicas (ut_ReplicasBeforeUpgrade s))
                      replicas)) s
      else s
  | Some g =>
      if negb recordGroups then s
      else
        let groups := default ∅ (ut_DeploymentGroupReplicasBeforeUpgrade s) in
        let byGroup := default ∅ (groups !! Name component) in
        set_GroupReplicas (Some (<[Name component := <[dg_Name g := replicas]> byGroup]> groups)) s
  end.

Definition recordOldInfo (s : MilvusUpgradeStatus) (milvus : Milvus) : MilvusUpgradeStatus :=
  let recordComponentReplicas := bool_decide (ut_ReplicasBeforeUpgrade s = None) in
  let recordGroups := bool_decide (ut_DeploymentGroupReplicasBeforeUpgrade s = None) in
  if negb recordComponentReplicas && negb recordGroups then s
  else
    let s := if recordComponentReplicas then set_ReplicasBeforeUpgrade (Some zeroReplicas) s else s in
    let s := if recordGroups then set_GroupReplicas (Some ∅) s else s in
    let s := fold_left (recordComponent (mi_Spec milvus) recordComponentReplicas recordGroups)
               (GetComponentWorkloadsBySpec (mi_Spec milvus)) s in
    if bool_decide (ut_SourceImage s = "")
    then set_SourceImage (csp_Image (com_ComponentSpec (mi_Com milvus))) s
    else s.

Definition annotatedCluster (c : MilvusCluster) (value : string) : MilvusCluster :=
  set_mcl_Meta c (set_Annotations (mcl_Meta c) (<[UpgradeAnnotation := value]> (mcl_Annotations c))).

Definition annotateAlphaCR (milvus : Milvus) (value : string) : prog unit :=
  match list_find (fun o => or_Kind o = "MilvusCluster") (om_OwnerReferences (mi_Meta milvus)) with
  | None => Ret tt
  | Some (_, owner) =>
      alphaCR ← read (GetMilvusCluster (mi_Namespace milvus) (or_Name owner));
      write (UpdateMilvusCluster (annotatedCluster alphaCR value))
  end.

Definition stoppedSpec (spec : MilvusSpec) : MilvusSpec :=
  fold_left (fun spec component => trySetReplicas component spec (int32Ptr 0))
    (GetComponentWorkloadsBySpec spec) spec.

Definition stoppedMilvus (milvus : Milvus) : Milvus :=
  set_mi_Annotations (set_mi_Spec milvus (stoppedSpec (mi_Spec milvus)))
    (<[upgradeStoppingAnnotation := TrueStr]> (mi_Annotations milvus)).

(** The Milvus resource is changed by the time an error of the update is
    returned, but it is not used after an error. *)
Definition stopMilvus (milvus : Milvus) : prog Milvus :=
  match list_find (fun component => GetReplicas component (mi_Spec milvus) = Some (-1))
          (GetComponentWorkloadsBySpec (mi_Spec milvus)) with
  | Some (_, component) =>
      Fail (ENew ("cannot stop externally managed workload " +:+ GetDisplayName component
                  +:+ ": suspend its HPA and set replicas to a static value before MilvusUpgrade"))
  | None =>
      _ ← wrap "annotate alpha cr" (annotateAlphaCR milvus AnnotationUpgrading);
      _ ← write (UpdateMilvus (stoppedMilvus milvus));
      Ret (stoppedMilvus milvus)
  end.

Definition isMilvusStopping (milvus : Milvus) : bool :=
  forallb
    (fun component =>
       if IsHPAEnabled component (mi_Spec milvus) && negb (isUpgradeStopping milvus) then false
       else bool_decide (GetReplicas component (mi_Spec milvus) = Some 0))
    (GetComponentWorkloadsBySpec (mi_Spec milvus)).

Definition isComponentsDeregistered (milvus : Milvus) : prog bool :=
  match ParseRFC3339 (mget (mi_Annotations milvus) StoppedAtAnnotation) with
  | None => Ret true
  | Some t =>
      now ← read Now;
      Ret (60 * 1000000000 <? now - t)
  end.

Definition listAllDeployments (milvus : Milvus) : prog (list Deployment) :=
  wrap "list milvus deployments"
    (read (ListDeployments (mi_Namespace milvus) {[AppLabelInstance := mi_Name milvus]})).

(** A deployment that does not keep Milvus from being stopped. *)
Definition deploymentStopped (d : Deployment) : bool :=
  if dss_ObservedGeneration (dep_Status d) <? om_Generation (dep_Meta d) then false
  else
    match dsp_Replicas (dep_Spec d) with
    | None => false
    | Some r => negb ((0 <? r) || (0 <? dss_Replicas (dep_Status d)))
    end.

Definition isMilvusStopped (milvus : Milvus) : prog (Milvus * bool) :=
  match mi_Annotations milvus !! StoppedAtAnnotation with
  | Some _ =>
      stopped ← isComponentsDeregistered milvus;
      Ret (milvus, stopped)
  | None =>
      deployments ← listAllDeployments milvus;
      if forallb deploymentStopped deployments then
        now ← read Now;
        let milvus' := set_mi_Annotations milvus
                         (<[StoppedAtAnnotation := FormatRFC3339 now]> (mi_Annotations milvus)) in
        _ ← write (UpdateMilvus milvus');
        Ret (milvus', false)
      else Ret (milvus, false)
  end.

(** The loop of [startMilvus] over the workloads; [None] is the workload whose
    group has no recorded replicas. *)
Fixpoint restoreReplicas (s : MilvusUpgradeStatus) (workloads : list MilvusComponent)
    (spec : MilvusSpec) : MilvusComponent + MilvusSpec :=
  match workloads with
  | [] => inr spec
  | component :: rest =>
      let replica :=
        match DeploymentGroupOf component with
        | Some g =>
            byGroup ← default ∅ (ut_DeploymentGroupReplicasBeforeUpgrade s) !! Name component;
            byGroup !! dg_Name g
        | None =>
            Some (int32_of (GetMilvusReplicas component
                              (default zeroReplicas (ut_ReplicasBeforeUpgrade s))))
        end in
      match replica with
      | None => inl component
      | Some r => restoreReplicas s rest (trySetReplicas component spec (Some r))
      end
  end.

Definition startedMilvus (milvus : Milvus) (spec : MilvusSpec) : Milvus :=
  set_mi_Annotations (set_mi_Spec milvus spec)
    (delete StoppedAtAnnotation (delete upgradeStoppingAnnotation (mi_Annotations milvus))).

Definition startMilvus (s : fsm) : prog (fsm * (err + unit)) :=
  let s := match ut_ReplicasBeforeUpgrade (f_status s) with
           | None => set_status s (set_ReplicasBeforeUpgrade (Some zeroReplicas))
           | Some _ => s
           end in
  let milvus := f_milvus s in
  match restoreReplicas (f_status s) (GetComponentWorkloadsBySpec (mi_Spec milvus)) (mi_Spec milvus) with
  | inl component =>
      Ret (s, inl (ENew ("replicas before upgrade not recorded for deployment group "
                         +:+ GetDisplayName component)))
  | inr spec =>
      let milvus' := startedMilvus milvus spec in
      r ← attempt (_ ← wrap "restore replicas" (write (UpdateMilvus milvus'));
                   wrap "annotate alpha cr" (annotateAlphaCR milvus' AnnotationUpgraded));
      Ret (set_milvus s milvus', r)
  end.
(** ** Migration tasks *)

Record taskConfig := mkTask { tc_Command : string; tc_Kind : string }.

Definition formatUpgradeObjName (upgradeName taskKind : string) : string :=
  upgradeName +:+ "-" +:+ taskKind.

(** [createSubObjectOrIgnore]: the object with its owner, or the error of
    [SetControllerReference]. *)
Definition createSubObjectOrIgnore (upgrade : MilvusUpgrade) (meta : ObjectMeta)
    (ensure : ObjectMeta -> kwrite) : prog unit :=
  match SetControllerReference (up_Meta upgrade) meta with
  | None => Fail (EWrap "set controller reference" (ENew "already owned"))
  | Some meta' => write (ensure meta')
  end.

(** Metadata of an object of the upgrade. *)
Definition upgradeObjMeta (upgrade : MilvusUpgrade) (name : string) (labels : gmap string string)
    : ObjectMeta :=
  mkMeta name (om_Namespace (up_Meta upgrade)) labels ∅ 0 "" "" [] None [].

Definition migrationConf (upgrade : MilvusUpgrade) (milvus : Milvus) (taskConf : taskConfig)
    : migrationConfig :=
  let conf := default [] (spec_Conf (mi_Spec milvus)) in
  let value (field fallback : string) := default fallback (NestedString conf ["etcd"; field]) in
  mkMigration (tc_Command taskConf) (RemovePrefixV (us_SourceVersion (up_Spec upgrade)))
    (RemovePrefixV (us_TargetVersion (up_Spec upgrade)))
    (elems (etcd_Endpoints (dep_Etcd (spec_Dep (mi_Spec milvus)))))
    (value "rootPath" (mi_Name milvus)) (value "metaSubPath" "meta") (value "kvSubPath" "kv").

Definition createConfigMap (upgrade : MilvusUpgrade) (milvus : Milvus) (taskConf : taskConfig)
    : prog unit :=
  match GetTemplatedValues (migrationConf upgrade milvus taskConf) with
  | None => Fail (ENew "template")
  | Some confYaml =>
      createSubObjectOrIgnore upgrade
        (upgradeObjMeta upgrade (formatUpgradeObjName (om_Name (up_Meta upgrade)) (tc_Kind taskConf))
           {[LabelUpgrade := om_Name (up_Meta upgrade); LabelTaskKind := tc_Kind taskConf]})
        (fun meta => EnsureConfigMap (mkConfigMap meta {[migrationConfFilename := confYaml]}))
  end.

Definition taskContainer (upgrade : MilvusUpgrade) (taskConf : taskConfig) : Container :=
  mkContainer (tc_Kind taskConf) (us_ToolImage (up_Spec upgrade)) ""
    ["/milvus/bin/meta-migration"] ["-config"; "/milvus/configs/migration.yaml"] [] []
    [mkMount "backup" false "/milvus/data" "";
     mkMount "config" false "/milvus/configs/migration.yaml" "migration.yaml"]
    (mkRes ∅ ∅) None None None None None "" "".

Definition startTaskPod (upgrade : MilvusUpgrade) (milvus : Milvus) (taskConf : taskConfig)
    : prog unit :=
  _ ← createConfigMap upgrade milvus taskConf;
  let name := formatUpgradeObjName (om_Name (up_Meta upgrade)) (tc_Kind taskConf) in
  createSubObjectOrIgnore upgrade
    (upgradeObjMeta upgrade name
       {[LabelUpgrade := om_Name (up_Meta upgrade); LabelTaskKind := tc_Kind taskConf;
         AppLabelManagedBy := ManagerName]})
    (fun meta => EnsurePod (mkTaskPod meta "Never" [taskContainer upgrade taskConf]
       [mkVolume "backup" (VPersistentVolumeClaim (ut_BackupPVC (up_Status upgrade)));
        mkVolume "config" (VConfigMap name None)])).

(** Sets [Status.BackupPVC] before it can fail. *)
Definition startBakupMetaPod (s : fsm) : prog (fsm * (err + unit)) :=
  let given := us_BackupPVC (f_spec s) in
  let name := om_Name (up_Meta (f_upgrade s)) in
  let s := set_status s (set_BackupPVC (if bool_decide (given = "") then name else given)) in
  let upgrade := f_upgrade s in
  r ← attempt
        (_ ← (if bool_decide (given = "") then
                match SetControllerReference (up_Meta upgrade)
                        (upgradeObjMeta upgrade name {[LabelUpgrade := name]}) with
                | None => Fail (EWrap "set controller reference" (ENew "already owned"))
                | Some meta =>
                    wrap "create backup pvc"
                      (write (EnsureClaim (mkClaim meta ["ReadWriteOnce"] "10Gi")))
                end
              else Ret tt);
         startTaskPod upgrade (f_milvus s) (mkTask "backup" BackupMetaKind));
  Ret (s, r).

Definition startUpdateMetaPod (upgrade : MilvusUpgrade) (milvus : Milvus) : prog unit :=
  startTaskPod upgrade milvus (mkTask "run" UpdateMetaKind).

Definition startRollbackMetaPod (upgrade : MilvusUpgrade) (milvus : Milvus) : prog unit :=
  startTaskPod upgrade milvus (mkTask "rollback" RollbackMetaKind).

(** ** State functions *)

(** What the first pod of a task tells. *)
Inductive podPhase := NoPod | PodDone | PodActive | PodBroken.

Definition doOnPodPhase (pods : list Pod) : podPhase :=
  match pods with
  | [] => NoPod
  | pod :: _ =>
      if bool_decide (pod_Phase pod = PodSucceeded) then PodDone
      else if bool_decide (pod_Phase pod = PodRunning) || bool_decide (pod_Phase pod = PodPending)
      then PodActive
      else PodBroken
  end.

(** [handlePod]: the callbacks are the branches on the phase. *)
Definition handlePod (s : fsm) (kind : string)
    (onNoPod onSuccess onFailure : prog stateResult) : prog stateResult :=
  r ← attempt (read (ListPods (om_Namespace (up_Meta (f_upgrade s)))
                       {[LabelUpgrade := om_Name (up_Meta (f_upgrade s)); LabelTaskKind := kind]}));
  match r with
  | inl e => Ret (s, inl (EWrap ("list pod for " +:+ kind) e))
  | inr pods =>
      match doOnPodPhase pods with
      | NoPod => onNoPod
      | PodDone => onSuccess
      | PodActive => Ret (s, inr UpgradeStatePending)
      | PodBroken => onFailure
      end
  end.

(** Stop Milvus, or go on once it is stopped: the common part of
    [OldVersionStopping] and [RollbackNewVersionStopping]. *)
Definition stopThen (s : fsm) (next : MilvusUpgradeState) : prog stateResult :=
  r ← attempt (isMilvusStopped (f_milvus s));
  match r with
  | inl e => Ret (s, inl (EWrap "check milvus is stopped" e))
  | inr (milvus, stopped) =>
      Ret (set_milvus s milvus, inr (if stopped : bool then next else UpgradeStatePending))
  end.

Definition doStop (s : fsm) : prog stateResult :=
  r ← attempt (stopMilvus (f_milvus s));
  match r with
  | inl e => Ret (s, inl (EWrap "stop milvus" e))
  | inr milvus => Ret (set_milvus s milvus, inr UpgradeStatePending)
  end.

Definition OldVersionStopping (s : fsm) : prog stateResult :=
  if negb (isMilvusStopping (f_milvus s))
  then doStop (set_status s (fun st => recordOldInfo st (f_milvus s)))
  else stopThen s UpgradeStateBackupMeta.

Definition RollbackNewVersionStopping (s : fsm) : prog stateResult :=
  if negb (isMilvusStopping (f_milvus s)) then doStop s
  else stopThen s UpgradeStateRollbackRestoringOldMeta.

Definition BackupMeta (s : fsm) : prog stateResult :=
  handlePod s BackupMetaKind
    ('(s', r) ← startBakupMetaPod s;
     Ret (s', match r with
              | inl e => inl (EWrap "start backup-meta pod" e)
              | inr _ => inr UpgradeStatePending
              end))
    (Ret (set_status s (set_MetaBackuped true), inr UpgradeStateUpdatingMeta))
    (Ret (s, inr UpgradeStateBakupMetaFailed)).

(** The state returned together with an error is dropped by the caller. *)
Definition UpdatingMeta (s : fsm) : prog stateResult :=
  if negb (ut_MetaStorageChanged (f_status s)) then
    let s := set_status s (set_MetaStorageChanged true) in
    r ← attempt (startUpdateMetaPod (f_upgrade s) (f_milvus s));
    Ret (s, match r with
            | inl e => inl (EWrap "start update-meta pod" e)
            | inr _ => inr UpgradeStatePending
            end)
  else
    handlePod s UpdateMetaKind
      (Ret (s, inl (ENew "cannot find update-meta pod")))
      (Ret (s, inr UpgradeStateNewVersionStarting))
      (Ret (s, inr UpgradeStateUpdateMetaFailed)).

Definition RollbackRestoringOldMeta (s : fsm) : prog stateResult :=
  if negb (ut_MetaBackuped (f_status s)) then Ret (s, inr UpgradeStateRollbackOldVersionStarting)
  else
    handlePod s RollbackMetaKind
      (r ← attempt (startRollbackMetaPod (f_upgrade s) (f_milvus s));
       Ret (s, match r with
               | inl e => inl (EWrap "start backup-meta pod" e)
               | inr _ => inr UpgradeStatePending
               end))
      (Ret (s, inr UpgradeStateRollbackOldVersionStarting))
      (Ret (s, inr UpgradeStateRollbackFailed)).

Definition StartingMilvusNewVersion (s : fsm) : prog stateResult :=
  '(s', r) ← startMilvus (set_milvus s (set_image (f_milvus s) (us_TargetImage (f_spec s))));
  Ret (s', match r with inl e => inl e | inr _ => inr UpgradeStateSucceeded end).

Definition RollbackOldVersionStarting (s : fsm) : prog stateResult :=
  '(s', r) ← startMilvus (set_milvus s (set_image (f_milvus s) (ut_SourceImage (f_status s))));
  Ret (s', match r with inl e => inl e | inr _ => inr UpgradeStateRollbackSucceeded end).

Definition HandleUpgradeFailed (s : fsm) : prog stateResult :=
  if us_RollbackIfFailed (f_spec s) then
    Ret (set_status s (fun st => set_State UpgradeStateRollbackNewVersionStopping
                                   (set_IsRollbacking true st)),
         inr UpgradeStateRollbackNewVersionStopping)
  else Ret (s, inr UpgradeStatePending).

Definition HandleBakupMetaFailed (s : fsm) : prog stateResult :=
  if us_MaxRetry (f_spec s) <? ut_RetriedTimes (f_status s) + 1 then HandleUpgradeFailed s
  else
    r ← attempt (write (DeletePods (om_Namespace (up_Meta (f_upgrade s)))
                          {[LabelUpgrade := om_Name (up_Meta (f_upgrade s));
                            LabelTaskKind := BackupMetaKind]}));
    match r with
    | inl e => Ret (s, inl (EWrap "delete backup-meta pod" e))
    | inr _ =>
        Ret (set_status s (fun st => set_RetriedTimes (ut_RetriedTimes st + 1)
                                       (set_State UpgradeStateBackupMeta st)),
             inr UpgradeStatePending)
    end.

(** ** The machine *)

(** The table of [NewMilvusUpgradeReconciler]: not found, nil or a function. *)
Definition stateFuncMap (st : MilvusUpgradeState) : option (option (fsm -> prog stateResult)) :=
  match st with
  | UpgradeStateOldVersionStopping => Some (Some OldVersionStopping)
  | UpgradeStateBackupMeta => Some (Some BackupMeta)
  | UpgradeStateUpdatingMeta => Some (Some UpdatingMeta)
  | UpgradeStateNewVersionStarting => Some (Some StartingMilvusNewVersion)
  | UpgradeStateSucceeded => Some None
  | UpgradeStateBakupMetaFailed => Some (Some HandleBakupMetaFailed)
  | UpgradeStateUpdateMetaFailed => Some (Some HandleUpgradeFailed)
  | UpgradeStateRollbackNewVersionStopping => Some (Some RollbackNewVersionStopping)
  | UpgradeStateRollbackRestoringOldMeta => Some (Some RollbackRestoringOldMeta)
  | UpgradeStateRollbackOldVersionStarting => Some (Some RollbackOldVersionStarting)
  | UpgradeStateRollbackSucceeded => Some None
  | UpgradeStateRollbackFailed => Some None
  | UpgradeStatePending | UpgradeStateOther _ => None
  end.

Definition notRollbackStates : list MilvusUpgradeState :=
  [UpgradeStatePending; UpgradeStateOldVersionStopping; UpgradeStateBackupMeta;
   UpgradeStateUpdatingMeta; UpgradeStateNewVersionStarting; UpgradeStateSucceeded;
   UpgradeStateBakupMetaFailed; UpgradeStateUpdateMetaFailed].

Definition isStateIn (state : MilvusUpgradeState) (states : list MilvusUpgradeState) : bool :=
  existsb (fun s => bool_decide (s = state)) states.

Definition DetermineCurrentState (upgrade : MilvusUpgrade) : MilvusUpgrade :=
  let st := up_Status upgrade in
  if ut_IsRollbacking st || bool_decide (us_Operation (up_Spec upgrade) = OperationRollback) then
    if isStateIn (ut_State st) notRollbackStates then
      with_status upgrade (fun st => set_State UpgradeStateRollbackNewVersionStopping
                                       (set_IsRollbacking true st))
    else upgrade
  else if bool_decide (ut_State st = UpgradeStatePending) then
    with_status upgrade (set_State UpgradeStateOldVersionStopping)
  else upgrade.

Definition updateCondition (upgrade : MilvusUpgrade) (e : option err) : MilvusUpgrade :=
  let st := up_Status upgrade in
  let condition :=
    mkUCondition (if ut_IsRollbacking st then ConditionRollbacked else ConditionUpgraded)
      (GetConditionStatus (bool_decide (ut_State st = UpgradeStateSucceeded)
                           || bool_decide (ut_State st = UpgradeStateRollbackSucceeded)))
      (stateString (ut_State st))
      (match e with Some e => Error e | None => "" end) in
  with_status upgrade (fun st => set_ut_Conditions (SetStatusCondition (ut_Conditions st) condition) st).

(** The loop of [RunStateMachine]; it ends with the upgrade, the error it
    returns and the value of [err] that the deferred [updateCondition] sees.
    [None] is the loop out of fuel. *)
Fixpoint stateLoop (fuel : nat) (nextState : MilvusUpgradeState) (s : fsm)
    : prog (option (MilvusUpgrade * option err * option err)) :=
  match fuel with
  | O => Ret None
  | S fuel' =>
      let s := set_status s (set_State nextState) in
      match stateFuncMap nextState with
      | None =>
          Ret (Some (f_upgrade s,
                     Some (ENew ("Unexpected upgrade state[" +:+ stateString nextState +:+ "]")),
                     None))
      | Some None => Ret (Some (f_upgrade s, None, None))
      | Some (Some stateFunc) =>
          '(s', r) ← stateFunc s;
          match r with
          | inl e => Ret (Some (f_upgrade s', Some e, Some e))
          | inr next =>
              if bool_decide (next = UpgradeStatePending) then Ret (Some (f_upgrade s', None, None))
              else stateLoop fuel' next s'
          end
      end
  end.

(** As many rounds as there are states. *)
Definition loopFuel : nat := 13.

Definition RunStateMachine (upgrade : MilvusUpgrade) : prog (option (MilvusUpgrade * option err)) :=
  let upgrade := DetermineCurrentState upgrade in
  let ref := us_Milvus (up_Spec upgrade) in
  r ← attempt (read (GetMilvus (ref_Namespace ref) (ref_Name ref)));
  match r with
  | inl e =>
      let condition := mkUCondition ConditionCheckingUpgrationState ConditionFalse "GetMilvusFailed"
                         (Error e) in
      Ret (Some (with_status upgrade
                   (fun st => set_ut_Conditions (SetStatusCondition (ut_Conditions st) condition) st),
                 Some e))
  | inr milvus =>
      let upgrade := with_status upgrade
        (fun st => set_ut_Conditions (RemoveStatusCondition (ut_Conditions st)
                                        ConditionCheckingUpgrationState) st) in
      res ← stateLoop loopFuel (ut_State (up_Status upgrade)) (mkFsm upgrade milvus);
      Ret (match res with
           | None => None
           | Some (upgrade', returned, seen) => Some (updateCondition upgrade' seen, returned)
           end)
  end.

(** [unhealthySyncInterval] of the requeue is kept as a flag. *)
Record upgradeResult := mkUpgradeResult { ur_Requeue : bool; ur_Err : option err }.

Definition upgrade_Reconcile (namespace name : string) : prog (option upgradeResult) :=
  r ← attempt (read (GetUpgrade namespace name));
  match r with
  | inl e => Ret (Some (mkUpgradeResult false (if IsNotFound e then None else Some e)))
  | inr upgrade =>
      res ← RunStateMachine upgrade;
      match res with
      | None => Ret None
      | Some (upgrade', e) =>
          let e := EWrap "failed to do upgrade" <$> e in
          u ← attempt (write (UpdateUpgradeStatus upgrade'));
          match u with
          | inl errUpdate =>
              Ret (Some (mkUpgradeResult false
                (Some (EWrap ("failed to update status, with continueUpgrade err["
                              +:+ match e with Some e => Error e | None => "%!s(<nil>)" end +:+ "]")
                         errUpdate))))
          | inr _ => Ret (Some (mkUpgradeResult (NeedRequeue (ut_State (up_Status upgrade'))) e))
          end
      end
  end.
End Fsm.
