(* ===== verification/UpgradeProofs.v ===== *)
(** * Properties of the upgrade state machine

    The machine ends every run; metadata is migrated only after it was backed
    up, and no task starts before Milvus was stopped; a rollback is final; and
    an upgrade whose migration pod is missing is stuck. *)
From S2P Require Import Prelude KubeTypes Libs ApiTypes UpgradeTypes Labels Effects Utils.
From S2P Require Import Components Examples SpecProofs UpgradeFsm.

Local Open Scope string_scope.
Local Open Scope list_scope.
Local Open Scope Z_scope.

(** ** The graph of states *)

(** The successors of a state within a run. *)
Definition successors (st : MilvusUpgradeState) : list MilvusUpgradeState :=
  match st with
  | UpgradeStateOldVersionStopping => [UpgradeStateBackupMeta]
  | UpgradeStateBackupMeta => [UpgradeStateUpdatingMeta; UpgradeStateBakupMetaFailed]
  | UpgradeStateUpdatingMeta => [UpgradeStateNewVersionStarting; UpgradeStateUpdateMetaFailed]
  | UpgradeStateNewVersionStarting => [UpgradeStateSucceeded]
  | UpgradeStateBakupMetaFailed => [UpgradeStateRollbackNewVersionStopping]
  | UpgradeStateUpdateMetaFailed => [UpgradeStateRollbackNewVersionStopping]
  | UpgradeStateRollbackNewVersionStopping => [UpgradeStateRollbackRestoringOldMeta]
  | UpgradeStateRollbackRestoringOldMeta =>
      [UpgradeStateRollbackOldVersionStarting; UpgradeStateRollbackFailed]
  | UpgradeStateRollbackOldVersionStarting => [UpgradeStateRollbackSucceeded]
  | _ => []
  end.

(** The rounds a run can still take from a state. *)
Definition roundsLeft (st : MilvusUpgradeState) : nat :=
  match st with
  | UpgradeStateOldVersionStopping => 9
  | UpgradeStateBackupMeta => 8
  | UpgradeStateUpdatingMeta => 7
  | UpgradeStateBakupMetaFailed => 6
  | UpgradeStateUpdateMetaFailed => 6
  | UpgradeStateNewVersionStarting => 6
  | UpgradeStateRollbackNewVersionStopping => 5
  | UpgradeStateRollbackRestoringOldMeta => 4
  | UpgradeStateRollbackOldVersionStarting => 3
  | _ => 1
  end.

Lemma successors_decrease st st' : st' ∈ successors st -> (roundsLeft st' < roundsLeft st)%nat.
Proof. destruct st; simpl; rewrite ?elem_of_cons, ?elem_of_nil; intuition (subst; simpl; lia). Qed.

(** A rollback goes on as one. *)
Lemma successors_final st st' :
  st' ∈ successors st -> st ∉ notRollbackStates -> st' ∉ notRollbackStates.
Proof.
  intros Hs Hn. destruct st;
    try (exfalso; apply Hn; apply (bool_decide_unpack _); exact I);
    simpl in Hs; rewrite ?elem_of_cons, ?elem_of_nil in Hs; destruct_or?; subst; try done;
    apply (bool_decide_unpack _); exact I.
Qed.

(** States in which the metadata has been backed up. *)
Definition backedUpStates : list MilvusUpgradeState :=
  [UpgradeStateUpdatingMeta; UpgradeStateNewVersionStarting; UpgradeStateSucceeded;
   UpgradeStateUpdateMetaFailed].

(** The invariant of a status in a state, with the retries allowed. *)
Record statusInv (maxRetry : Z) (st : MilvusUpgradeState) (s : MilvusUpgradeStatus) : Prop := mkInv {
  inv_backedUp : st ∈ backedUpStates -> ut_MetaBackuped s = true;
  inv_changed : ut_MetaStorageChanged s = true -> ut_MetaBackuped s = true;
  inv_rollback : st ∉ notRollbackStates -> ut_IsRollbacking s = true;
  inv_retries : ut_RetriedTimes s <= Z.max 0 maxRetry
}.

Definition upgradeOk (u : MilvusUpgrade) : Prop :=
  statusInv (us_MaxRetry (up_Spec u)) (ut_State (up_Status u)) (up_Status u).

(** The writes that start the migration of the metadata. *)
Definition startsMigration (w : kwrite) : Prop :=
  match w with
  | EnsurePod p => UpdateMetaKind ∈ ct_Name <$> tp_Containers p
  | _ => False
  end.

Section Machine.
Context {SV : Semver} {US : Unstructured} {KL : KubeLib} {MC : MetaConditions}
  {KM : KubeMessages} {GT : GoTime} {MT : MigrationTemplate}.

(** What a state function does from a status that satisfies the invariant. *)
Record stepOk (st : MilvusUpgradeState) (s : fsm) (ws : list kwrite) (s' : fsm)
    (r : err + MilvusUpgradeState) : Prop := mkStepOk {
  step_spec : f_spec s' = f_spec s;
  step_inv : statusInv (us_MaxRetry (f_spec s)) (ut_State (f_status s')) (f_status s');
  step_final : st ∉ notRollbackStates -> ut_State (f_status s') ∉ notRollbackStates;
  step_rollback : ut_IsRollbacking (f_status s) = true -> ut_IsRollbacking (f_status s') = true;
  step_backup : ut_MetaBackuped (f_status s) = true -> ut_MetaBackuped (f_status s') = true;
  step_migration : Exists startsMigration ws -> ut_MetaBackuped (f_status s') = true;
  step_next : forall next, r = inr next -> next <> UpgradeStatePending ->
    next ∈ successors st /\
    statusInv (us_MaxRetry (f_spec s)) next (set_State next (f_status s'))
}.

Definition stepPost (st : MilvusUpgradeState) (s : fsm) (ws : list kwrite) (o : outcome stateResult)
    : Prop := exists s' r, o = ORet (s', r) /\ stepOk st s ws s' r.

(** A status that agrees with another on what the invariant reads. *)
Definition sameCore (s s' : MilvusUpgradeStatus) : Prop :=
  ut_State s' = ut_State s /\ ut_MetaBackuped s' = ut_MetaBackuped s /\
  ut_MetaStorageChanged s' = ut_MetaStorageChanged s /\
  ut_IsRollbacking s' = ut_IsRollbacking s /\ ut_RetriedTimes s' = ut_RetriedTimes s.

Lemma statusInv_core mx st s s' : sameCore s s' -> statusInv mx st s -> statusInv mx st s'.
Proof. intros (_ & H1 & H2 & H3 & H4) []. split; rewrite ?H1, ?H2, ?H3, ?H4; auto. Qed.

Lemma statusInv_State mx st st' s : statusInv mx st s -> statusInv mx st (set_State st' s).
Proof. intros []. by split. Qed.

(** A step that keeps the core of the status and starts no migration: it may
    stop, fail, or go on to a successor whose invariant holds. *)
Lemma stepPost_core st s ws s' r :
  ut_State (f_status s) = st -> statusInv (us_MaxRetry (f_spec s)) st (f_status s) ->
  f_spec s' = f_spec s -> sameCore (f_status s) (f_status s') ->
  Forall (fun w => ~ startsMigration w) ws ->
  (forall next, r = inr next -> next <> UpgradeStatePending ->
     next ∈ successors st /\
     statusInv (us_MaxRetry (f_spec s)) next (f_status s)) ->
  stepPost st s ws (ORet (s', r)).
Proof.
  intros Hst Hinv Hspec Hcore Hws Hnext. exists s', r. split; [done|].
  pose proof Hcore as (H0 & H1 & H2 & H3 & H4).
  split; [done| |by rewrite H0, Hst|by rewrite H3|by rewrite H1| |].
  { rewrite H0, Hst. by eapply statusInv_core. }
  { intros [w [Hw Hm]]%Exists_exists. rewrite Forall_forall in Hws. by destruct (Hws w Hw). }
  intros next Hr Hne. destruct (Hnext next Hr Hne) as [? ?]. split; [done|].
  apply statusInv_State. by eapply statusInv_core.
Qed.

(** The invariant of a successor from that of a state, where no flag is read. *)
Lemma statusInv_next mx st st' s :
  statusInv mx st s -> (st' ∈ backedUpStates -> ut_MetaBackuped s = true) ->
  (st' ∉ notRollbackStates -> ut_IsRollbacking s = true) -> statusInv mx st' s.
Proof. intros [] ? ?. by split. Qed.

(** ** Programs that start no migration *)

Definition quiet {A} (ws : list kwrite) (o : outcome A) : Prop :=
  Forall (fun w => ~ startsMigration w) ws /\ o <> OPanic.

Lemma quiet_bind {A B} (p : prog A) (f : A -> prog B) :
  wp anyAnswer p quiet -> (forall a, wp anyAnswer (f a) quiet) -> wp anyAnswer (prog_bind f p) quiet.
Proof.
  intros Hp Hf. apply wp_bind. eapply wp_mono; [|exact Hp].
  intros ws [a|e|] [Hws Ho]; [|by split|done].
  eapply wp_mono; [|apply Hf]. intros ws' o' [Hws' Ho']. split; [|done]. by apply Forall_app.
Qed.

Lemma quiet_attempt {A} (p : prog A) : wp anyAnswer p quiet -> wp anyAnswer (attempt p) quiet.
Proof. intros Hp. apply wp_attempt. eapply wp_mono; [|exact Hp]. by intros ws [a|e|] [? ?]. Qed.

Lemma quiet_wrap {A} msg (p : prog A) : wp anyAnswer p quiet -> wp anyAnswer (wrap msg p) quiet.
Proof. intros Hp. apply wp_wrap. eapply wp_mono; [|exact Hp]. by intros ws [a|e|] [? ?]. Qed.

Lemma quiet_write w : ~ startsMigration w -> wp anyAnswer (write w) quiet.
Proof. intros Hw. apply wp_write; [intros e|]; (split; [by repeat constructor|done]). Qed.

Lemma quiet_read {B} (r : kread B) : wp anyAnswer (read r) quiet.
Proof. apply wp_read; intros; (split; [constructor|done]). Qed.

Lemma quiet_ret {A} (a : A) : wp anyAnswer (Ret a) quiet.
Proof. apply wp_ret. split; [constructor|done]. Qed.

Lemma quiet_fail {A} e : wp anyAnswer (Fail (A:=A) e) quiet.
Proof. apply wp_fail. split; [constructor|done]. Qed.

(** Symbolic execution of a quiet program. *)
Ltac quiet_step :=
  lazymatch goal with
  | |- wp _ (mbind _ _) _ => apply quiet_bind; [|intros ?]
  | |- wp _ (wrap _ _) _ => apply quiet_wrap
  | |- wp _ (attempt _) _ => apply quiet_attempt
  | |- wp _ (Ret _) _ => apply quiet_ret
  | |- wp _ (Fail _) _ => apply quiet_fail
  | |- wp _ (read _) _ => apply quiet_read
  | |- wp _ (write _) _ => apply quiet_write; [by intros ?]
  | |- wp _ (match ?x with _ => _ end) _ => destruct x
  end; cbv beta iota zeta.
Ltac quiet_steps := cbv beta iota zeta; repeat quiet_step.

Lemma quiet_annotate m v : wp anyAnswer (annotateAlphaCR m v) quiet.
Proof. unfold annotateAlphaCR. quiet_steps. Qed.

Lemma quiet_stopMilvus m : wp anyAnswer (stopMilvus m) quiet.
Proof. unfold stopMilvus. quiet_steps. apply quiet_annotate. Qed.

Lemma quiet_isMilvusStopped m : wp anyAnswer (isMilvusStopped m) quiet.
Proof. unfold isMilvusStopped, isComponentsDeregistered, listAllDeployments. quiet_steps. Qed.

Lemma quiet_task u m cmd kind :
  kind <> UpdateMetaKind -> wp anyAnswer (startTaskPod u m (mkTask cmd kind)) quiet.
Proof.
  intros Hk. unfold startTaskPod, createConfigMap, createSubObjectOrIgnore. quiet_steps.
  apply quiet_write. simpl. rewrite list_elem_of_singleton. congruence.
Qed.

(** ** The state functions *)

(** A quiet program whose error is a value, followed by the rest. *)
Lemma wp_quiet_then {A B} (p : prog A) (f : err + A -> prog B) (Q : list kwrite -> outcome B -> Prop) :
  wp anyAnswer p quiet ->
  (forall ws r, Forall (fun w => ~ startsMigration w) ws ->
     wp anyAnswer (f r) (fun ws' o => Q (ws ++ ws') o)) ->
  wp anyAnswer (prog_bind f (attempt p)) Q.
Proof.
  intros Hp Hf. apply wp_bind, wp_attempt. eapply wp_mono; [|exact Hp].
  intros ws [a|e|] [Hws Ho]; [apply Hf; done..|done].
Qed.

Section Step.
Context (s : fsm) (st : MilvusUpgradeState).
Hypothesis (Hst : ut_State (f_status s) = st).
Hypothesis (Hinv : statusInv (us_MaxRetry (f_spec s)) st (f_status s)).

(** A step that ends with an error or stops for now. *)
Lemma stepPost_stop ws s' r :
  f_spec s' = f_spec s -> sameCore (f_status s) (f_status s') ->
  Forall (fun w => ~ startsMigration w) ws ->
  (forall next, r = inr next -> next = UpgradeStatePending) -> stepPost st s ws (ORet (s', r)).
Proof.
  intros. eapply stepPost_core; try done. intros next Hr Hne. exfalso. eauto.
Qed.

Lemma stepPost_next ws s' next :
  f_spec s' = f_spec s -> sameCore (f_status s) (f_status s') ->
  Forall (fun w => ~ startsMigration w) ws -> next ∈ successors st ->
  (next ∈ backedUpStates -> ut_MetaBackuped (f_status s) = true) ->
  (next ∉ notRollbackStates -> ut_IsRollbacking (f_status s) = true) ->
  stepPost st s ws (ORet (s', inr next)).
Proof.
  intros ? ? ? Hn Hb Hr. eapply stepPost_core; try done. intros ? [= <-] _. split; [done|].
  by eapply statusInv_next.
Qed.

Lemma step_doStop s0 :
  f_spec s0 = f_spec s -> sameCore (f_status s) (f_status s0) ->
  wp anyAnswer (doStop s0) (stepPost st s).
Proof.
  intros Hs Hc. unfold doStop. apply wp_quiet_then; [apply quiet_stopMilvus|].
  intros ws [e|m] Hws; apply wp_ret; rewrite app_nil_r; apply stepPost_stop; try done; naive_solver.
Qed.

Lemma step_stopThen next :
  next ∈ successors st ->
  (next ∈ backedUpStates -> ut_MetaBackuped (f_status s) = true) ->
  (next ∉ notRollbackStates -> ut_IsRollbacking (f_status s) = true) ->
  wp anyAnswer (stopThen s next) (stepPost st s).
Proof.
  intros Hn Hb Hr. unfold stopThen. apply wp_quiet_then; [apply quiet_isMilvusStopped|].
  intros ws [e|[m stopped]] Hws; apply wp_ret; rewrite app_nil_r.
  - apply stepPost_stop; try done; naive_solver.
  - destruct stopped; [by apply stepPost_next|apply stepPost_stop; try done; naive_solver].
Qed.

(** The branches of [handlePod]. *)
Lemma step_handlePod kind onNoPod onSuccess onFailure :
  wp anyAnswer onNoPod (stepPost st s) -> wp anyAnswer onSuccess (stepPost st s) ->
  wp anyAnswer onFailure (stepPost st s) ->
  wp anyAnswer (handlePod s kind onNoPod onSuccess onFailure) (stepPost st s).
Proof.
  intros H1 H2 H3. unfold handlePod. apply wp_bind, wp_attempt, wp_read; simpl.
  - intros e. apply wp_ret. apply stepPost_stop; try done; naive_solver.
  - intros pods _. destruct (doOnPodPhase pods); try done.
    apply wp_ret. apply stepPost_stop; try done; naive_solver.
Qed.

Lemma step_HandleUpgradeFailed :
  UpgradeStateRollbackNewVersionStopping ∈ successors st ->
  wp anyAnswer (HandleUpgradeFailed s) (stepPost st s).
Proof.
  intros Hsucc. unfold HandleUpgradeFailed. case_if_bool; apply wp_ret;
    [|apply stepPost_stop; try done; naive_solver].
  eexists _, _. split; [reflexivity|]. destruct Hinv as [H1 H2 H3 H4].
  split; simpl; try done.
  - split; simpl; try done. by apply (bool_decide_unpack _).
  - intros _. by apply (bool_decide_unpack _).
  - by intros ?%Exists_nil.
  - intros next [= <-] _. split; [done|]. split; simpl; try done. by apply (bool_decide_unpack _).
Qed.
End Step.

Lemma sameCore_refl s : sameCore s s.
Proof. done. Qed.

Lemma sameCore_trans a b c : sameCore a b -> sameCore b c -> sameCore a c.
Proof. unfold sameCore. naive_solver congruence. Qed.

Lemma recordComponent_core spec b1 b2 s c : sameCore s (recordComponent spec b1 b2 s c).
Proof. unfold recordComponent. destruct (DeploymentGroupOf c), b1, b2; done. Qed.

Lemma recordOldInfo_core s m : sameCore s (recordOldInfo s m).
Proof.
  unfold recordOldInfo. case_if_bool; [done|].
  set (b1 := bool_decide (ut_ReplicasBeforeUpgrade s = None)). set (b2 := bool_decide (ut_DeploymentGroupReplicasBeforeUpgrade s = None)).
  assert (forall ws s0, sameCore s0 (fold_left (recordComponent (mi_Spec m) b1 b2) ws s0)) as Hfold.
  { induction ws as [|c ws IH]; intros s0; [done|]. simpl.
    eapply sameCore_trans; [|apply IH]. apply recordComponent_core. }
  eapply sameCore_trans; [|case_if_bool; [|apply sameCore_refl]; done].
  eapply sameCore_trans; [|apply Hfold]. by destruct b1, b2.
Qed.

(** [startMilvus] ends, keeps the core of the status and is quiet. *)
Lemma wp_startMilvus s :
  wp anyAnswer (startMilvus s)
    (fun ws o => exists s' r, o = ORet (s', r) /\ f_spec s' = f_spec s /\
       sameCore (f_status s) (f_status s') /\ Forall (fun w => ~ startsMigration w) ws).
Proof.
  unfold startMilvus.
  set (s0 := match ut_ReplicasBeforeUpgrade (f_status s) with None => _ | Some _ => s end).
  assert (f_spec s0 = f_spec s /\ sameCore (f_status s) (f_status s0)) as [Hs Hc]
    by (unfold s0; by destruct (ut_ReplicasBeforeUpgrade (f_status s))).
  destruct (restoreReplicas _ _ _) as [c|spec].
  - apply wp_ret. eexists _, _. split; [reflexivity|]. by repeat split; try apply Hc.
  - apply wp_quiet_then.
    + quiet_steps. apply quiet_annotate.
    + intros ws r Hws. apply wp_ret. rewrite app_nil_r. eexists _, _. split; [reflexivity|].
      by repeat split; try apply Hc.
Qed.

Lemma wp_startBakupMetaPod s :
  wp anyAnswer (startBakupMetaPod s)
    (fun ws o => exists s' r, o = ORet (s', r) /\ f_spec s' = f_spec s /\
       sameCore (f_status s) (f_status s') /\ Forall (fun w => ~ startsMigration w) ws).
Proof.
  unfold startBakupMetaPod. apply wp_quiet_then.
  - quiet_steps; by apply quiet_task.
  - intros ws r Hws. apply wp_ret. rewrite app_nil_r. eexists _, _. split; [reflexivity|]. done.
Qed.

Section Functions.
Context (s : fsm) (st : MilvusUpgradeState).
Hypothesis (Hst : ut_State (f_status s) = st).
Hypothesis (Hinv : statusInv (us_MaxRetry (f_spec s)) st (f_status s)).

Lemma step_start s0 next :
  f_spec s0 = f_spec s -> f_status s0 = f_status s -> next ∈ successors st ->
  (next ∈ backedUpStates -> ut_MetaBackuped (f_status s) = true) ->
  (next ∉ notRollbackStates -> ut_IsRollbacking (f_status s) = true) ->
  wp anyAnswer
    ('(s', r) ← startMilvus s0;
     Ret (s', match r with inl e => inl e | inr _ => inr next end)) (stepPost st s).
Proof.
  intros Hs Hf Hn Hb Hr. apply wp_bind. eapply wp_mono; [|apply wp_startMilvus].
  intros ws o (s' & r & -> & Hs' & Hc & Hws). apply wp_ret. rewrite app_nil_r.
  rewrite Hf in Hc. rewrite Hs in Hs'.
  destruct r; [apply stepPost_stop; try done; naive_solver|by apply stepPost_next].
Qed.

Lemma step_BackupMeta :
  st = UpgradeStateBackupMeta -> wp anyAnswer (BackupMeta s) (stepPost st s).
Proof.
  intros ->. unfold BackupMeta. apply step_handlePod; [done..| | |].
  - apply wp_bind. eapply wp_mono; [|apply wp_startBakupMetaPod].
    intros ws o (s' & r & -> & Hs' & Hc & Hws). apply wp_ret. rewrite app_nil_r.
    apply stepPost_stop; try done. destruct r; naive_solver.
  - apply wp_ret. eexists _, _. split; [reflexivity|]. destruct Hinv as [H1 H2 H3 H4].
    split; simpl; try done.
    + split; simpl;
        change (up_Status (f_upgrade s)) with (f_status s); rewrite ?Hst; done.
    + by change (up_Status (f_upgrade s)) with (f_status s); rewrite Hst.
    + intros next [= <-] _. split; [apply (bool_decide_unpack _); exact I|].
      split; simpl; try done. intros H. exfalso. apply H. apply (bool_decide_unpack _). exact I.
  - apply wp_ret. apply stepPost_next; try done.
    + apply (bool_decide_unpack _); exact I.
    + intros H. exfalso. revert H. apply (bool_decide_unpack _); exact I.
    + intros H. exfalso. apply H. apply (bool_decide_unpack _); exact I.
Qed.

Lemma step_UpdatingMeta :
  st = UpgradeStateUpdatingMeta -> wp anyAnswer (UpdatingMeta s) (stepPost st s).
Proof.
  intros ->. assert (ut_MetaBackuped (f_status s) = true) as Hb.
  { apply (inv_backedUp _ _ _ Hinv). apply (bool_decide_unpack _). exact I. }
  unfold UpdatingMeta. case_if_bool.
  - apply wp_bind, wp_attempt.
    assert (forall (ws : list kwrite) r, (forall next, r = inr next -> next = UpgradeStatePending) ->
              stepPost UpgradeStateUpdatingMeta s ws
                (ORet (set_status s (set_MetaStorageChanged true), r))) as Hpost.
    { intros ws r Hr. eexists _, _. split; [reflexivity|]. destruct Hinv as [H1 H2 H3 H4].
      split; simpl; try done.
      - split; simpl;
        change (up_Status (f_upgrade s)) with (f_status s); rewrite ?Hst; done.
      - by change (up_Status (f_upgrade s)) with (f_status s); rewrite Hst.
      - intros next ? ?. exfalso. eauto. }
    eapply (wp_mono _ _ (fun ws o => o <> OPanic)).
    + intros ws [a|e|] Ho; [| |done]; apply wp_ret; apply Hpost; naive_solver.
    + unfold startUpdateMetaPod, startTaskPod, createConfigMap, createSubObjectOrIgnore.
      repeat (wp_step || case_match || intros ? || done).
  - apply step_handlePod; [done..| | |]; apply wp_ret.
    + apply stepPost_stop; try done; naive_solver.
    + apply stepPost_next; try done; [apply (bool_decide_unpack _); exact I|].
      intros H. exfalso. apply H. apply (bool_decide_unpack _); exact I.
    + apply stepPost_next; try done; [apply (bool_decide_unpack _); exact I|].
      intros H. exfalso. apply H. apply (bool_decide_unpack _); exact I.
Qed.

Lemma step_HandleBakupMetaFailed :
  st = UpgradeStateBakupMetaFailed -> wp anyAnswer (HandleBakupMetaFailed s) (stepPost st s).
Proof.
  intros ->. unfold HandleBakupMetaFailed. destruct (us_MaxRetry (f_spec s) <? ut_RetriedTimes (f_status s) + 1) eqn:Hmax.
  { apply step_HandleUpgradeFailed; [done..|]. apply (bool_decide_unpack _); exact I. }
  apply Z.ltb_ge in Hmax. apply wp_quiet_then; [apply quiet_write; by intros ?|].
  intros ws [e|[]] Hws; apply wp_ret; rewrite app_nil_r;
    [apply stepPost_stop; try done; naive_solver|].
  eexists _, _. split; [reflexivity|]. destruct Hinv as [H1 H2 H3 H4].
  split; simpl; try done.
  - split; simpl; try done.
    + intros H. exfalso. revert H. apply (bool_decide_unpack _); exact I.
    + intros H. exfalso. apply H. apply (bool_decide_unpack _); exact I.
    + change (up_Status (f_upgrade s)) with (f_status s). lia.
  - intros H. exfalso. apply H. apply (bool_decide_unpack _); exact I.
  - intros [w [Hw Hm]]%Exists_exists. rewrite Forall_forall in Hws. by destruct (Hws w Hw).
  - intros next [= <-]. done.
Qed.

End Functions.

(** Every state function is a step. *)
Lemma step_stateFunc s st f :
  ut_State (f_status s) = st -> statusInv (us_MaxRetry (f_spec s)) st (f_status s) ->
  stateFuncMap st = Some (Some f) -> wp anyAnswer (f s) (stepPost st s).
Proof.
  intros Hst Hinv. assert (Hrb := inv_rollback _ _ _ Hinv). assert (Hbk := inv_backedUp _ _ _ Hinv).
  destruct st; simpl; intros [= <-].
  - unfold OldVersionStopping. case_if_bool.
    + by apply step_doStop; [..|apply recordOldInfo_core].
    + apply step_stopThen; try done; [apply (bool_decide_unpack _); exact I|..];
        intros H; exfalso; [revert H|apply H]; apply (bool_decide_unpack _); exact I.
  - by apply step_BackupMeta.
  - by apply step_UpdatingMeta.
  - apply step_start; try done; [apply (bool_decide_unpack _); exact I|..].
    + intros _. apply Hbk. apply (bool_decide_unpack _); exact I.
    + intros H; exfalso; apply H; apply (bool_decide_unpack _); exact I.
  - by apply step_HandleBakupMetaFailed.
  - apply step_HandleUpgradeFailed; try done. apply (bool_decide_unpack _); exact I.
  - unfold RollbackNewVersionStopping. case_if_bool; [by apply step_doStop|].
    apply step_stopThen; try done; [apply (bool_decide_unpack _); exact I|..].
    + intros H; exfalso; revert H; apply (bool_decide_unpack _); exact I.
    + intros _. apply Hrb. apply (bool_decide_unpack _); exact I.
  - assert (ut_IsRollbacking (f_status s) = true) as Hr
      by (apply Hrb, (bool_decide_unpack _); exact I).
    unfold RollbackRestoringOldMeta. case_if_bool.
    + apply wp_ret. apply stepPost_next; try done; [apply (bool_decide_unpack _); exact I|].
      intros H; exfalso; revert H; apply (bool_decide_unpack _); exact I.
    + apply step_handlePod; [done..| | |].
      * apply wp_quiet_then; [by apply quiet_task|]. intros ws r Hws. apply wp_ret.
        rewrite app_nil_r. apply stepPost_stop; try done. destruct r; naive_solver.
      * apply wp_ret. apply stepPost_next; try done; [apply (bool_decide_unpack _); exact I|].
        intros H; exfalso; revert H; apply (bool_decide_unpack _); exact I.
      * apply wp_ret. apply stepPost_next; try done; [apply (bool_decide_unpack _); exact I|].
        intros H; exfalso; revert H; apply (bool_decide_unpack _); exact I.
  - apply step_start; try done; [apply (bool_decide_unpack _); exact I|..].
    + intros H; exfalso; revert H; apply (bool_decide_unpack _); exact I.
    + intros _. apply Hrb. apply (bool_decide_unpack _); exact I.
Qed.

(** ** The loop *)

(** What a run of the loop from a status does: it ends, keeps the invariant,
    never leaves a rollback, and migrates only what is backed up. *)
Definition loopPost (st : MilvusUpgradeState) (s : fsm) (ws : list kwrite)
    (o : outcome (option (MilvusUpgrade * option err * option err))) : Prop :=
  exists u e seen, o = ORet (Some (u, e, seen)) /\ up_Spec u = f_spec s /\ upgradeOk u /\
    (st ∉ notRollbackStates -> ut_State (up_Status u) ∉ notRollbackStates) /\
    (ut_IsRollbacking (f_status s) = true -> ut_IsRollbacking (up_Status u) = true) /\
    (ut_MetaBackuped (f_status s) = true -> ut_MetaBackuped (up_Status u) = true) /\
    (Exists startsMigration ws -> ut_MetaBackuped (up_Status u) = true).

Lemma loop_spec fuel : forall st s,
  (roundsLeft st <= fuel)%nat -> statusInv (us_MaxRetry (f_spec s)) st (f_status s) ->
  wp anyAnswer (stateLoop fuel st s) (loopPost st s).
Proof.
  induction fuel as [|fuel IH]; intros st s Hfuel Hinv; [by destruct st; simpl in Hfuel; lia|].
  cbn [stateLoop]. set (s0 := set_status s (set_State st)).
  assert (statusInv (us_MaxRetry (f_spec s0)) st (f_status s0)) as Hinv0 by by apply statusInv_State.
  assert (forall e seen, loopPost st s [] (ORet (Some (f_upgrade s0, e, seen)))) as Hstop.
  { intros e seen. eexists _, _, _. split; [reflexivity|]. repeat split; try apply Hinv; try done.
    by intros ?%Exists_nil. }
  destruct (stateFuncMap st) as [[f|]|] eqn:Ef; [|by apply wp_ret|by apply wp_ret].
  apply wp_bind. eapply wp_mono; [|apply (step_stateFunc s0 st f eq_refl Hinv0 Ef)].
  intros ws o (s' & r & -> & [Hspec Hi Hfin Hroll Hback Hmig Hnext]).
  assert (forall e seen, loopPost st s ws (ORet (Some (f_upgrade s', e, seen)))) as Hend.
  { intros e seen. eexists _, _, _. split; [reflexivity|]. split; [exact Hspec|].
    split; [unfold upgradeOk; change (up_Spec (f_upgrade s')) with (f_spec s'); by rewrite Hspec|].
    done. }
  destruct r as [e|next]; [apply wp_ret; rewrite app_nil_r; apply Hend|].
  case_bool_decide as Hp; [apply wp_ret; rewrite app_nil_r; apply Hend|].
  destruct (Hnext next eq_refl Hp) as [Hsucc Hinv']. pose proof (successors_decrease _ _ Hsucc).
  eapply wp_mono; [|apply (IH next s'); [lia|]].
  - intros ws' o (u & e & seen & -> & Hs' & Hok & Hf & Hr & Hb & Hm).
    eexists _, _, _. split; [reflexivity|]. split; [by rewrite Hs', Hspec|]. split; [done|].
    split; [|split; [auto|split; [auto|]]].
    + intros Hst. apply Hf. by eapply successors_final.
    + intros [Hw|Hw]%Exists_app; auto.
  - rewrite Hspec. destruct Hinv' as [H1 H2 H3 H4]. by split.
Qed.

(** ** The machine *)

Lemma DetermineCurrentState_ok u :
  upgradeOk u ->
  upgradeOk (DetermineCurrentState u) /\ up_Spec (DetermineCurrentState u) = up_Spec u /\
  (ut_IsRollbacking (up_Status u) = true ->
   ut_IsRollbacking (up_Status (DetermineCurrentState u)) = true /\
   ut_State (up_Status (DetermineCurrentState u)) ∉ notRollbackStates) /\
  (ut_MetaBackuped (up_Status (DetermineCurrentState u)) = ut_MetaBackuped (up_Status u)).
Proof.
  intros [H1 H2 H3 H4]. unfold DetermineCurrentState. destruct (_ || _) eqn:Er.
  - destruct (isStateIn _ _) eqn:Ein.
    + split; [|split; [done|]]; [split; simpl; try done; by apply (bool_decide_unpack _)|].
      split; [|done]. intros _. split; [done|]. by apply (bool_decide_unpack _).
    + split; [done|]. split; [done|]. split; [|done]. intros Hr. split; [done|].
      intros Hin. unfold isStateIn in Ein. apply not_true_iff_false in Ein. apply Ein.
      apply existsb_exists. exists (ut_State (up_Status u)).
      split; [by apply list_elem_of_In|by apply bool_decide_eq_true].
  - apply orb_false_iff in Er as [Er _]. case_bool_decide as Ep.
    + split; [|by rewrite Er]. split; simpl; try done.
      * intros H; exfalso; revert H; apply (bool_decide_unpack _); exact I.
      * intros H; exfalso; apply H; apply (bool_decide_unpack _); exact I.
    + by rewrite Er.
Qed.

(** One run of the machine from an upgrade that satisfies the invariant. *)
Lemma run_spec u tr o :
  upgradeOk u -> exec (RunStateMachine u) tr o ->
  exists u' e, o = ORet (Some (u', e)) /\ up_Spec u' = up_Spec u /\ upgradeOk u' /\
    (ut_IsRollbacking (up_Status u) = true ->
     ut_IsRollbacking (up_Status u') = true /\ ut_State (up_Status u') ∉ notRollbackStates) /\
    (Exists startsMigration (writes tr) -> ut_MetaBackuped (up_Status u') = true).
Proof.
  intros Hok. destruct (DetermineCurrentState_ok u Hok) as (Hd & Hspec & Hroll & Hback).
  apply (wp_exec_any _ (fun ws o => exists u' e, o = ORet (Some (u', e)) /\ up_Spec u' = up_Spec u /\
    upgradeOk u' /\ (ut_IsRollbacking (up_Status u) = true ->
      ut_IsRollbacking (up_Status u') = true /\ ut_State (up_Status u') ∉ notRollbackStates) /\
    (Exists startsMigration ws -> ut_MetaBackuped (up_Status u') = true))).
  unfold RunStateMachine. apply wp_bind, wp_attempt, wp_read; simpl.
  - intros e. apply wp_ret. eexists _, _. split; [reflexivity|]. simpl. split; [done|].
    split; [by destruct Hd; split|]. split; [done|]. by intros ?%Exists_nil.
  - intros m _. apply wp_bind. set (s := mkFsm _ m).
    eapply wp_mono; [|apply (loop_spec loopFuel _ s)].
    + intros ws o' (u' & e & seen & -> & Hs & Hu' & Hfin & Hr & Hb & Hm). apply wp_ret.
      rewrite app_nil_r. eexists _, _. split; [reflexivity|]. simpl.
      split; [by rewrite Hs|]. split; [by destruct Hu'; split|]. split; [|done].
      intros Hrb. destruct (Hroll Hrb). split; [by apply Hr|by apply Hfin].
    + unfold loopFuel. destruct (ut_State _); simpl; lia.
    + destruct Hd as [H1 H2 H3 H4]. by split.
Qed.

(** ** Upgrades over time

    An upgrade starts with an empty status; then the operator runs the machine
    and the user edits the spec, in any order. *)
Definition freshStatus : MilvusUpgradeStatus :=
  mkUpgradeStatus UpgradeStatePending [] "" false false false None None "" 0.

Inductive upgradeReach : MilvusUpgrade -> Prop :=
  | reach_create meta spec : upgradeReach (mkUpgrade meta spec freshStatus)
  | reach_run u tr u' e :
      upgradeReach u -> exec (RunStateMachine u) tr (ORet (Some (u', e))) -> upgradeReach u'
  | reach_edit u meta spec :
      upgradeReach u -> us_MaxRetry spec = us_MaxRetry (up_Spec u) ->
      upgradeReach (mkUpgrade meta spec (up_Status u)).

Lemma reach_ok u : upgradeReach u -> upgradeOk u.
Proof.
  induction 1 as [meta spec|u tr u' e _ IH Hex|u meta spec _ IH Hmax].
  - split; simpl; [..|lia]; intros H; exfalso; [revert H| |apply H]; try done;
      apply (bool_decide_unpack _); exact I.
  - destruct (run_spec u tr _ IH Hex) as (? & ? & [= <- <-] & _ & Hok & _). done.
  - destruct IH as [H1 H2 H3 H4]. split; simpl; rewrite ?Hmax; done.
Qed.

(** C27. Every run of the upgrade machine ends: for an upgrade reached by any
    sequence of runs and edits of its spec, whatever the API server answers,
    the loop of [RunStateMachine] stops within its bound of rounds with an
    upgrade to store and an optional error, and never panics. *)
Theorem upgrade_run_ends u tr o :
  upgradeReach u -> exec (RunStateMachine u) tr o -> exists u' e, o = ORet (Some (u', e)).
Proof.
  intros Hu Hex. destruct (run_spec u tr o (reach_ok u Hu) Hex) as (u' & e & -> & _). eauto.
Qed.


(** A rollback is final: once a reachable upgrade is rolling back, every
    later run leaves it rolling back, in one of the states of the rollback,
    whatever operation the spec asks for. *)
Theorem rollback_is_final u tr u' e :
  upgradeReach u -> ut_IsRollbacking (up_Status u) = true ->
  exec (RunStateMachine u) tr (ORet (Some (u', e))) ->
  ut_IsRollbacking (up_Status u') = true /\ ut_State (up_Status u') ∉ notRollbackStates.
Proof.
  intros Hu Hr Hex.
  destruct (run_spec u tr _ (reach_ok u Hu) Hex) as (? & ? & [= <- <-] & _ & _ & Hroll & _). auto.
Qed.

(** ** Stopping first *)

(** Answers with a Milvus that is not stopped: replicas left, or no record of
    when it stopped. *)
Definition notStopped (B : Type) (r : kread B) (b : B) : Prop :=
  match r in kread B' return B' -> Prop with
  | GetMilvus _ _ => fun m => isMilvusStopping m = false \/ mi_Annotations m !! StoppedAtAnnotation = None
  | _ => fun _ => True
  end b.

Definition isTaskPod (w : kwrite) : Prop := match w with EnsurePod _ => True | _ => False end.

Definition noPods {A} (ws : list kwrite) (o : outcome A) : Prop := Forall (fun w => ~ isTaskPod w) ws.

Lemma noPods_doStop s : wp notStopped (doStop s) noPods.
Proof.
  unfold doStop, stopMilvus, annotateAlphaCR, noPods.
  repeat (wp_step || case_match || intros ? || (repeat constructor; by intros ?)).
Qed.

(** Not stopped, [OldVersionStopping] stops for now and starts nothing. *)
Lemma notStopped_step s :
  isMilvusStopping (f_milvus s) = false \/ mi_Annotations (f_milvus s) !! StoppedAtAnnotation = None ->
  wp notStopped (OldVersionStopping s)
    (fun ws o => noPods ws o /\
       forall s' next, o = ORet (s', inr next) -> next = UpgradeStatePending).
Proof.
  intros Hs. unfold OldVersionStopping. destruct (isMilvusStopping (f_milvus s)); simpl.
  - destruct Hs as [Hs|Hs]; [done|]. unfold stopThen, isMilvusStopped. rewrite Hs.
    unfold listAllDeployments, noPods.
    repeat (wp_step || case_match || intros ? || split || (repeat constructor; by intros ?)
            || (simplify_eq; done)).
  - unfold doStop, stopMilvus, annotateAlphaCR, noPods.
    repeat (wp_step || case_match || intros ? || split || (repeat constructor; by intros ?)
            || (simplify_eq; done)).
Qed.

(** C31. Nothing touches the metadata before Milvus is stopped: in a run that
    starts an upgrade or goes on stopping the old version, if the Milvus
    resource the API server returns still asks for replicas, or has no record
    of the time its last pod was gone, then no task pod is started. *)
Theorem no_task_before_stop u tr o :
  ut_IsRollbacking (up_Status u) = false -> us_Operation (up_Spec u) <> OperationRollback ->
  ut_State (up_Status u) = UpgradeStatePending \/
  ut_State (up_Status u) = UpgradeStateOldVersionStopping ->
  exec (RunStateMachine u) tr o -> Forall (event_ok notStopped) tr ->
  forall p, EnsurePod p ∉ writes tr.
Proof.
  intros Hr Hop Hst Hex Hev p Hp.
  assert (ut_State (up_Status (DetermineCurrentState u)) = UpgradeStateOldVersionStopping) as Hd.
  { unfold DetermineCurrentState. rewrite Hr, bool_decide_eq_false_2 by done. simpl.
    case_bool_decide; [done|]. by destruct Hst. }
  assert (noPods (writes tr) o) as Hno.
  { apply (wp_exec notStopped (RunStateMachine u) noPods tr o); [|done..].
    unfold RunStateMachine. apply wp_bind, wp_attempt, wp_read; simpl; [intros; constructor|].
    intros m Hm. rewrite Hd. apply wp_bind. unfold loopFuel. cbn [stateLoop stateFuncMap].
    apply wp_bind. eapply wp_mono; [|by apply notStopped_step].
    intros ws o' [Hws Hnext]. destruct o' as [[s' [e|next]]|e|]; try done.
    - apply wp_ret. cbv beta iota. apply wp_ret. by rewrite !app_nil_r.
    - rewrite (Hnext s' next eq_refl), bool_decide_eq_true_2 by done.
      apply wp_ret. cbv beta iota. apply wp_ret. by rewrite !app_nil_r. }
  unfold noPods in Hno. rewrite Forall_forall in Hno. by apply (Hno _ Hp).
Qed.

(** ** What the machine gets wrong *)

(** Answers without a pod. *)
Definition noPodListed (B : Type) (r : kread B) (b : B) : Prop :=
  match r in kread B' return B' -> Prop with
  | ListPods _ _ => fun pods => pods = []
  | _ => fun _ => True
  end b.

(** An upgrade whose update-meta pod could not be started is stuck: once
    the status says that the metadata is being changed, a run that finds no
    pod writes nothing, returns an error, and leaves the upgrade in
    [UpdatingMeta]; the state [UpdateMetaFailed] that [UpdatingMeta] returns
    along with its error is dropped, so not even [RollbackIfFailed] helps. *)
Theorem update_meta_stuck u tr u' e :
  ut_State (up_Status u) = UpgradeStateUpdatingMeta ->
  ut_MetaStorageChanged (up_Status u) = true -> ut_IsRollbacking (up_Status u) = false ->
  us_Operation (up_Spec u) <> OperationRollback ->
  exec (RunStateMachine u) tr (ORet (Some (u', e))) -> Forall (event_ok noPodListed) tr ->
  writes tr = [] /\ is_Some e /\ ut_State (up_Status u') = UpgradeStateUpdatingMeta /\
  ut_MetaStorageChanged (up_Status u') = true /\ ut_IsRollbacking (up_Status u') = false.
Proof.
  intros Hst Hch Hr Hop Hex Hev.
  assert (DetermineCurrentState u = u) as Hd.
  { unfold DetermineCurrentState. rewrite Hr, (bool_decide_eq_false_2 (us_Operation _ = _)) by done.
    simpl. by rewrite bool_decide_eq_false_2 by congruence. }
  apply (wp_exec noPodListed (RunStateMachine u) (fun ws o => forall u' e, o = ORet (Some (u', e)) ->
    ws = [] /\ is_Some e /\ ut_State (up_Status u') = UpgradeStateUpdatingMeta /\
    ut_MetaStorageChanged (up_Status u') = true /\ ut_IsRollbacking (up_Status u') = false)
    tr _) with (u' := u') (e := e) in Hex; try done.
  unfold RunStateMachine. rewrite Hd. apply wp_bind, wp_attempt, wp_read; simpl.
  - intros ke. apply wp_ret. intros ? ? [= <- <-]. simpl. by rewrite Hst, Hch, Hr.
  - intros m _. rewrite Hst. apply wp_bind. unfold loopFuel. cbn [stateLoop stateFuncMap].
    apply wp_bind. unfold UpdatingMeta. simpl. rewrite Hch. simpl. unfold handlePod.
    apply wp_bind, wp_attempt, wp_read; simpl.
    + intros ke. apply wp_ret, wp_ret, wp_ret. intros ? ? [= <- <-]. simpl. by rewrite Hch, Hr.
    + intros pods ->. simpl. apply wp_ret, wp_ret, wp_ret. intros ? ? [= <- <-]. simpl.
      by rewrite Hch, Hr.
Qed.
End Machine.

(** ** Witnesses

    A concrete API server that returns one Milvus resource and one list of
    pods, no deployments, and accepts every write. *)

Definition exMetaConditions : MetaConditions :=
  {| SetStatusCondition := fun cs c => List.filter (fun x => negb (bool_decide (uc_Type x = uc_Type c))) cs ++ [c];
     RemoveStatusCondition := fun cs ty => List.filter (fun x => negb (bool_decide (uc_Type x = ty))) cs |}.
Definition exKubeMessages : KubeMessages := {| kerr_Error := fun _ => "api error" |}.
Definition exGoTime : GoTime := {| FormatRFC3339 := Itoa; ParseRFC3339 := Atoi |}.
Definition exMigrationTemplate : MigrationTemplate :=
  {| GetTemplatedValues := fun conf => Some (mg_Command conf) |}.

Definition exRead (m : Milvus) (pods : list Pod) (B : Type) (r : kread B) (_ : unit) : kerr + B :=
  match r in kread B' return kerr + B' with
  | GetMilvus _ _ => inr m
  | ListPods _ _ => inr pods
  | ListDeployments _ _ => inr []
  | Now => inr 0
  | _ => inl KNotFound
  end.

Definition exServer (m : Milvus) (pods : list Pod) : handler unit :=
  mkHandler (exRead m pods) (fun _ s => (inr tt, s)).

Definition exUpgradeSpec (op : MilvusOperation) : MilvusUpgradeSpec :=
  mkUpgradeSpec op (mkRef "ns" "mi") "v2.1.4" "v2.2.0" "milvusdb/milvus:v2.2.0" "tool" 3 true "".

Definition exUpgradeMeta : ObjectMeta := mkMeta "up" "ns" ∅ ∅ 1 "uid-up" "1" [] None [].

Definition exUpgrade (op : MilvusOperation) (st : MilvusUpgradeStatus) : MilvusUpgrade :=
  mkUpgrade exUpgradeMeta (exUpgradeSpec op) st.

Section Witnesses.
#[local] Existing Instance concreteSemver.
#[local] Existing Instance concreteUnstructured.
#[local] Existing Instance concreteKubeLib.
#[local] Existing Instance exMetaConditions.
#[local] Existing Instance exKubeMessages.
#[local] Existing Instance exGoTime.
#[local] Existing Instance exMigrationTemplate.

(** A run against the concrete server: its trace and its outcome. *)
Definition exTrace (m : Milvus) (pods : list Pod) (u : MilvusUpgrade) : list event :=
  snd (fst (run (exServer m pods) (RunStateMachine u) tt)).
Definition exOutcome (m : Milvus) (pods : list Pod) (u : MilvusUpgrade)
    : outcome (option (MilvusUpgrade * option err)) :=
  snd (run (exServer m pods) (RunStateMachine u) tt).
Definition exAfter (m : Milvus) (pods : list Pod) (u : MilvusUpgrade) : MilvusUpgrade :=
  match exOutcome m pods u with ORet (Some (u', _)) => u' | _ => u end.

Lemma exRun m pods u e :
  exOutcome m pods u = ORet (Some (exAfter m pods u, e)) ->
  exec (RunStateMachine u) (exTrace m pods u) (ORet (Some (exAfter m pods u, e))).
Proof. intros <-. apply run_exec. Qed.

Definition exNewUpgrade : MilvusUpgrade := exUpgrade OperationUpgrade freshStatus.

Lemma upgrade_run_ends_witness :
  exists u' e, exOutcome (exMilvus 2) [] exNewUpgrade = ORet (Some (u', e)).
Proof.
  apply (upgrade_run_ends exNewUpgrade (exTrace (exMilvus 2) [] exNewUpgrade)).
  - apply reach_create.
  - apply run_exec.
Defined.

(** The Milvus resource stopped for more than a minute, a succeeded pod, and
    the upgrade once its backup pod has succeeded. *)
Definition exStopped : Milvus :=
  set_mi_Annotations (stoppedMilvus (exMilvus 2))
    (<[StoppedAtAnnotation := "-90000000000"]> (mi_Annotations (stoppedMilvus (exMilvus 2)))).

Definition exPodPhase (phase : string) : Pod := mkPod emptyMeta phase "" [] [].

Definition exBacking : MilvusUpgrade := exAfter exStopped [] exNewUpgrade.

Lemma exBacking_reach : upgradeReach exBacking.
Proof.
  eapply (reach_run exNewUpgrade); [apply reach_create|].
  apply (exRun exStopped [] exNewUpgrade None). vm_compute. reflexivity.
Qed.


(** A rollback asked for at once: the first run stops Milvus. *)
Definition exRollback : MilvusUpgrade :=
  exAfter (exMilvus 2) [] (exUpgrade OperationRollback freshStatus).

Lemma rollback_is_final_witness :
  ut_IsRollbacking (up_Status (exAfter exStopped [] exRollback)) = true /\
  ut_State (up_Status (exAfter exStopped [] exRollback)) ∉ notRollbackStates.
Proof.
  apply (rollback_is_final exRollback (exTrace exStopped [] exRollback)
           (exAfter exStopped [] exRollback) None).
  - eapply (reach_run (exUpgrade OperationRollback freshStatus)); [apply reach_create|].
    apply (exRun (exMilvus 2) [] (exUpgrade OperationRollback freshStatus) None).
    vm_compute. reflexivity.
  - vm_compute. reflexivity.
  - apply exRun. vm_compute. reflexivity.
Defined.

Lemma no_task_before_stop_witness :
  EnsurePod (mkTaskPod exUpgradeMeta "Never" [] []) ∉ writes (exTrace (exMilvus 2) [] exNewUpgrade).
Proof.
  apply (no_task_before_stop exNewUpgrade (exTrace (exMilvus 2) [] exNewUpgrade)
           (exOutcome (exMilvus 2) [] exNewUpgrade)).
  - reflexivity.
  - discriminate.
  - left. reflexivity.
  - apply run_exec.
  - repeat constructor; vm_compute; left; reflexivity.
Defined.

(** The update-meta pod could not be started. *)
Definition exStuck : MilvusUpgrade :=
  exUpgrade OperationUpgrade
    (mkUpgradeStatus UpgradeStateUpdatingMeta [] "img" true true false (Some zeroReplicas) (Some ∅) "up" 0).

Lemma update_meta_stuck_witness :
  writes (exTrace exStopped [] exStuck) = [] /\
  ut_State (up_Status (exAfter exStopped [] exStuck)) = UpgradeStateUpdatingMeta.
Proof.
  destruct (update_meta_stuck exStuck (exTrace exStopped [] exStuck) (exAfter exStopped [] exStuck)
              (Some (ENew "cannot find update-meta pod"))) as (H1 & _ & H2 & _).
  - reflexivity.
  - reflexivity.
  - reflexivity.
  - discriminate.
  - apply exRun. vm_compute. reflexivity.
  - vm_compute (exTrace _ _ _). repeat constructor.
  - split; [exact H1|exact H2].
Defined.
End Witnesses.
