(* ===== verification/UpgradeRestore.v ===== *)
(** * What an upgrade restores

    [recordOldInfo] and [stopMilvus] before the upgrade, [startMilvus] after
    it: the replicas of every workload come back. *)
From S2P Require Import Prelude KubeTypes Libs ApiTypes UpgradeTypes Labels Effects Utils.
From S2P Require Import Components Examples SpecProofs UpgradeFsm UpgradeProofs.

Local Open Scope string_scope.
Local Open Scope list_scope.
Local Open Scope Z_scope.

(** ** Identities of workloads *)

Lemma insert_stable_key {A} (key : A -> string) x l :
  key <$> insert_stable key x l = insert_stable id (key x) (key <$> l).
Proof.
  induction l as [|y l IH]; [done|]. cbn [insert_stable]. rewrite fmap_cons. cbn [insert_stable].
  unfold id at 1 2. case_match; rewrite ?fmap_cons; [by rewrite IH|done].
Qed.

Lemma SliceStable_key {A} (key : A -> string) l :
  key <$> SliceStable key l = SliceStable id (key <$> l).
Proof.
  induction l as [|x l IH]; [done|]. simpl SliceStable. rewrite insert_stable_key.
  fold (SliceStable key l). by rewrite IH.
Qed.

(** The identities of a component's workloads, from its group names. *)
Definition idsOf (c : MilvusComponent) (names : list string) : list (string * option string) :=
  match names with
  | [] => [(Name c, None)]
  | _ => (fun n => (Name c, Some n)) <$> SliceStable id names
  end.

Section Ids.
Context {SV : Semver}.

Lemma workload_ids spec :
  workloadId <$> GetComponentWorkloadsBySpec spec
  = concat ((fun c => idsOf c (dg_Name <$> GetDeploymentGroups c spec)) <$> GetComponentsBySpec spec).
Proof.
  unfold GetComponentWorkloadsBySpec.
  assert (forall c, c ∈ GetComponentsBySpec spec ->
            workloadId <$> workloadsOf spec c = idsOf c (dg_Name <$> GetDeploymentGroups c spec)) as H.
  { intros c Hc. unfold workloadsOf, idsOf.
    destruct (GetDeploymentGroups c spec) as [|g gs] eqn:E.
    - simpl. unfold workloadId. by rewrite (table_no_group c) by (by eapply GetComponentsBySpec_table).
    - rewrite fmap_cons. rewrite <-fmap_cons, <-SliceStable_key, <-!list_fmap_compose. done. }
  induction (GetComponentsBySpec spec) as [|c cs IH]; [done|]. rewrite !fmap_cons. simpl.
  rewrite fmap_app, H by (by left). f_equal. apply IH. intros c' Hc'. apply H. by right.
Qed.

Lemma workload_ids_NoDup spec :
  groupNamesDistinct spec -> NoDup (workloadId <$> GetComponentWorkloadsBySpec spec).
Proof.
  intros Hg. rewrite workload_ids. unfold groupNamesDistinct in Hg.
  pose proof (GetComponentsBySpec_NoDup spec) as Hnd. revert Hg Hnd.
  generalize (GetComponentsBySpec spec) as cs.
  induction cs as [|c cs IH]; intros Hg Hnd; [constructor|].
  rewrite fmap_cons in Hnd. rewrite fmap_cons. apply NoDup_cons in Hnd as [Hn Hnd]. simpl.
  assert (forall c' names id, id ∈ idsOf c' names -> fst id = Name c') as Hname.
  { intros c' names id. unfold idsOf. destruct names; [by intros ->%list_elem_of_singleton|].
    by intros (n & -> & _)%list_elem_of_fmap. }
  apply NoDup_app. split; [|split].
  - unfold idsOf. specialize (Hg c ltac:(by left)).
    destruct (dg_Name <$> GetDeploymentGroups c spec) as [|n ns]; [apply NoDup_singleton|].
    apply NoDup_fmap_2; [by intros ? ? [=]|]. by rewrite SliceStable_perm.
  - intros id Hid (c' & Hc' & Hin)%elem_of_list_concat_fmap. apply Hn.
    apply Hname in Hid, Hin. apply list_elem_of_fmap. exists c'. split; [congruence|done].
  - apply IH; [|done]. intros c' Hc'. apply Hg. by right.
Qed.

(** What a write of replicas leaves alone. *)
Lemma set_group_replicas_names groups name r gs :
  set_group_replicas groups name r = Some gs -> dg_Name <$> gs = dg_Name <$> groups.
Proof.
  revert gs. induction groups as [|g groups IH]; intros gs; [done|]. cbn [set_group_replicas].
  case_bool_decide; [by intros [= <-]|].
  destruct (set_group_replicas groups name r) as [gs'|]; [|done]. intros [= <-].
  rewrite !fmap_cons. f_equal. by apply IH.
Qed.

Lemma trySetReplicas_keeps w spec r :
  GetComponentsBySpec (trySetReplicas w spec r) = GetComponentsBySpec spec /\
  com_ComponentSpec (spec_Com (trySetReplicas w spec r)) = com_ComponentSpec (spec_Com spec) /\
  (forall f, dg_Name <$> default [] (groupsField (spec_Com (trySetReplicas w spec r)) f)
             = dg_Name <$> default [] (groupsField (spec_Com spec) f)) /\
  (forall f, is_Some (componentField (spec_Com (trySetReplicas w spec r)) f)
             <-> is_Some (componentField (spec_Com spec) f)).
Proof.
  unfold trySetReplicas, SetReplicas.
  destruct (componentField (spec_Com spec) (FieldName w)); [|done].
  destruct (DeploymentGroupOf w) as [g|].
  - destruct (groupsField (spec_Com spec) (FieldName w)) as [groups|] eqn:Eg; [|done].
    destruct (set_group_replicas groups (dg_Name g) r) as [gs|] eqn:Es; [|done].
    rewrite GetComponentsBySpec_groups. split; [done|]. split; [by destruct (FieldName w)|].
    split; intros f; simpl; [|by rewrite componentField_groups].
    rewrite groupsField_groups. case_decide as Ef; [|done]. rewrite <-Ef, Eg. simpl.
    by eapply set_group_replicas_names.
  - rewrite GetComponentsBySpec_update. split; [done|]. split; [by destruct (FieldName w)|].
    split; intros f; simpl; [by rewrite groupsField_update|].
    rewrite componentField_update. case_decide; [by rewrite fmap_is_Some|done].
Qed.

(** Writes to a list of workloads, as [startMilvus] and [stopMilvus] do. *)
Definition setAll (r : MilvusComponent -> option Z) (ws : list MilvusComponent) (spec : MilvusSpec)
    : MilvusSpec := fold_left (fun spec w => trySetReplicas w spec (r w)) ws spec.

Lemma setAll_keeps r ws : forall spec,
  GetComponentsBySpec (setAll r ws spec) = GetComponentsBySpec spec /\
  com_ComponentSpec (spec_Com (setAll r ws spec)) = com_ComponentSpec (spec_Com spec) /\
  (forall f, dg_Name <$> default [] (groupsField (spec_Com (setAll r ws spec)) f)
             = dg_Name <$> default [] (groupsField (spec_Com spec) f)) /\
  (forall f, is_Some (componentField (spec_Com (setAll r ws spec)) f)
             <-> is_Some (componentField (spec_Com spec) f)).
Proof.
  induction ws as [|w ws IH]; intros spec; [done|]. simpl.
  destruct (trySetReplicas_keeps w spec (r w)) as (H1 & H2 & H3 & H4).
  destruct (IH (trySetReplicas w spec (r w))) as (I1 & I2 & I3 & I4).
  fold (setAll r ws (trySetReplicas w spec (r w))).
  split; [by rewrite I1|]. split; [by rewrite I2|]. split; intros f; [by rewrite I3|by rewrite I4].
Qed.

Lemma setAll_ids r ws spec :
  workloadId <$> GetComponentWorkloadsBySpec (setAll r ws spec)
  = workloadId <$> GetComponentWorkloadsBySpec spec.
Proof.
  destruct (setAll_keeps r ws spec) as (H1 & _ & H3 & _). rewrite !workload_ids, H1.
  f_equal. apply list_fmap_ext. intros i c Hc.
  assert (c ∈ AllComponents) as Ht
    by (eapply GetComponentsBySpec_table, list_elem_of_lookup_2, Hc).
  by rewrite !groups_of_field, H3 by done.
Qed.

(** Every workload is configured. *)
Definition configured (spec : MilvusSpec) : Prop :=
  forall w, w ∈ GetComponentWorkloadsBySpec spec -> is_Some (componentField (spec_Com spec) (FieldName w)).

(** After the writes every written workload has its replicas, the others keep
    theirs. *)
Lemma setAll_sets r ws : forall spec,
  NoDup (workloadId <$> ws) ->
  (forall w, w ∈ ws -> w ∈ GetComponentWorkloadsBySpec spec /\
                       is_Some (componentField (spec_Com spec) (FieldName w))) ->
  (forall w, w ∈ ws -> exists w', w' ∈ GetComponentWorkloadsBySpec (setAll r ws spec) /\
     workloadId w' = workloadId w /\ GetReplicas w' (setAll r ws spec) = r w) /\
  (forall v, v ∈ GetComponentWorkloadsBySpec spec -> workloadId v ∉ workloadId <$> ws ->
     v ∈ GetComponentWorkloadsBySpec (setAll r ws spec) /\
     GetReplicas v (setAll r ws spec) = GetReplicas v spec).
Proof.
  induction ws as [|w ws IH]; intros spec Hnd Hin.
  { split; [by intros w ?%not_elem_of_nil|done]. }
  rewrite fmap_cons in Hnd. apply NoDup_cons in Hnd as [Hn Hnd].
  destruct (Hin w) as [Hw Hc]; [by left|].
  destruct (SetReplicas_written spec w (r w) Hw Hc) as (spec1 & E & (w' & Hw' & Hid & Hr) & Hframe).
  change (setAll r (w :: ws) spec) with (setAll r ws (trySetReplicas w spec (r w))).
  destruct (trySetReplicas_keeps w spec (r w)) as (_ & _ & _ & Hcf).
  unfold trySetReplicas in *. rewrite E in *.
  destruct (IH spec1 Hnd) as [Hset Hkeep].
  { intros v Hv. destruct (Hin v) as [Hv' Hvc]; [by right|]. split; [|by apply Hcf].
    apply Hframe; [done|]. intros Heq. apply Hn. rewrite <-Heq. apply list_elem_of_fmap. eauto. }
  split.
  - intros v [->|Hv]%elem_of_cons; [|by apply Hset].
    exists w'. destruct (Hkeep w' Hw') as [? ?]; [by rewrite Hid|]. split; [done|]. split; congruence.
  - intros v Hv Hnot. rewrite fmap_cons, not_elem_of_cons in Hnot. destruct Hnot as [H1 H2].
    destruct (Hframe v Hv H1) as [Hv1 Hvr]. destruct (Hkeep v Hv1 H2). split; [done|congruence].
Qed.
End Ids.

(** ** The record *)

(** The replicas a status has recorded for a workload. *)
Definition recorded (s : MilvusUpgradeStatus) (w : MilvusComponent) : option Z :=
  match DeploymentGroupOf w with
  | Some g =>
      byGroup ← default ∅ (ut_DeploymentGroupReplicasBeforeUpgrade s) !! Name w;
      byGroup !! dg_Name g
  | None => Some (GetMilvusReplicas w (default zeroReplicas (ut_ReplicasBeforeUpgrade s)))
  end.

Lemma GetMilvusReplicas_set c w r n :
  GetMilvusReplicas w (SetStatusReplicas c r n)
  = if decide (FieldName c = FieldName w) then n else GetMilvusReplicas w r.
Proof. unfold GetMilvusReplicas, SetStatusReplicas. by destruct (FieldName c), (FieldName w). Qed.

(** Name and field identify a component. *)
Definition sameTable (c w : MilvusComponent) : Prop := Name c = Name w <-> FieldName c = FieldName w.

Lemma recordComponent_recorded spec s c w :
  sameTable c w ->
  recorded (recordComponent spec true true s c) w
  = if decide (workloadId c = workloadId w) then Some (default 1 (GetReplicas c spec))
    else recorded s w.
Proof.
  intros Ht. unfold recordComponent, recorded, workloadId.
  destruct (DeploymentGroupOf c) as [g|], (DeploymentGroupOf w) as [g'|]; simpl.
  - destruct (decide (Name c = Name w)) as [En|En].
    + rewrite En, lookup_insert_eq. simpl.
      destruct (decide (dg_Name g = dg_Name g')) as [Eg|Eg].
      * by rewrite Eg, lookup_insert_eq, decide_True.
      * rewrite lookup_insert_ne, decide_False by congruence.
        by destruct (default ∅ (ut_DeploymentGroupReplicasBeforeUpgrade s) !! Name w).
    + by rewrite lookup_insert_ne, decide_False by congruence.
  - by rewrite decide_False by congruence.
  - by rewrite decide_False by congruence.
  - rewrite GetMilvusReplicas_set.
    destruct (decide (FieldName c = FieldName w)) as [Ef|Ef].
    + rewrite decide_True; [done|]. f_equal. by apply Ht.
    + rewrite decide_False; [done|]. intros [= En]. by apply Ef, Ht.
Qed.

Lemma fold_recorded spec s ws w :
  (forall c w, c ∈ ws -> w ∈ ws -> sameTable c w) -> NoDup (workloadId <$> ws) -> w ∈ ws ->
  recorded (fold_left (recordComponent spec true true) ws s) w
  = Some (default 1 (GetReplicas w spec)).
Proof.
  induction ws as [|c ws IH] using rev_ind; intros Ht Hnd Hw; [by apply not_elem_of_nil in Hw|].
  rewrite fold_left_app. simpl. rewrite recordComponent_recorded by (apply Ht; set_solver).
  rewrite fmap_app in Hnd. apply NoDup_app in Hnd as (Hnd & Hdis & _).
  apply elem_of_app in Hw as [Hw|Hw%list_elem_of_singleton].
  - rewrite decide_False; [apply IH; try done; intros; apply Ht; set_solver|].
    intros E. apply (Hdis (workloadId w)); [apply list_elem_of_fmap; eauto|].
    rewrite <-E. by apply list_elem_of_singleton.
  - subst. by rewrite decide_True.
Qed.

(** What a rollback reads of a status. *)
Definition sameRecord (s s' : MilvusUpgradeStatus) : Prop :=
  ut_ReplicasBeforeUpgrade s' = ut_ReplicasBeforeUpgrade s /\
  ut_DeploymentGroupReplicasBeforeUpgrade s' = ut_DeploymentGroupReplicasBeforeUpgrade s /\
  ut_SourceImage s' = ut_SourceImage s.

Section Restore.
Context {SV : Semver} {US : Unstructured} {KL : KubeLib} {MC : MetaConditions}
  {KM : KubeMessages} {GT : GoTime} {MT : MigrationTemplate}.

Lemma restoreReplicas_setAll s ws : forall spec,
  (forall w, w ∈ ws -> exists z, recorded s w = Some z /\ in_int32 z) ->
  restoreReplicas s ws spec = inr (setAll (recorded s) ws spec).
Proof.
  induction ws as [|w ws IH]; intros spec H; [done|].
  destruct (H w) as (z & Hz & Hi); [by left|]. cbn [restoreReplicas setAll fold_left].
  fold (setAll (recorded s) ws (trySetReplicas w spec (recorded s w))).
  rewrite Hz. unfold recorded in Hz. destruct (DeploymentGroupOf w) as [g|].
  - rewrite Hz. apply IH. intros. apply H. by right.
  - injection Hz as ->. rewrite int32_of_id by done. apply IH. intros. apply H. by right.
Qed.

Lemma workload_sameTable spec spec' c w :
  c ∈ GetComponentWorkloadsBySpec spec -> w ∈ GetComponentWorkloadsBySpec spec' -> sameTable c w.
Proof.
  intros (c0 & Hc%GetComponentsBySpec_table & Hw)%workloads_elem
    (c1 & Hc1%GetComponentsBySpec_table & Hw1)%workloads_elem. unfold sameTable.
  assert (Name c = Name c0 /\ FieldName c = FieldName c0) as [-> ->] by naive_solver.
  assert (Name w = Name c1 /\ FieldName w = FieldName c1) as [-> ->] by naive_solver.
  split; intros E; [by rewrite (Name_inj c0 c1)|by rewrite (FieldName_inj c0 c1)].
Qed.

(** The record of a fresh status. *)
Lemma recordOldInfo_fresh s m :
  ut_ReplicasBeforeUpgrade s = None -> ut_DeploymentGroupReplicasBeforeUpgrade s = None ->
  ut_SourceImage s = "" -> groupNamesDistinct (mi_Spec m) ->
  ut_SourceImage (recordOldInfo s m) = csp_Image (com_ComponentSpec (mi_Com m)) /\
  is_Some (ut_ReplicasBeforeUpgrade (recordOldInfo s m)) /\
  forall w, w ∈ GetComponentWorkloadsBySpec (mi_Spec m) ->
    recorded (recordOldInfo s m) w = Some (default 1 (GetReplicas w (mi_Spec m))).
Proof.
  intros H1 H2 H3 Hg. unfold recordOldInfo. rewrite H1, H2. simpl.
  set (ws := GetComponentWorkloadsBySpec (mi_Spec m)).
  set (s0 := set_GroupReplicas (Some ∅) (set_ReplicasBeforeUpgrade (Some zeroReplicas) s)).
  assert (forall ws s0, is_Some (ut_ReplicasBeforeUpgrade s0) ->
    is_Some (ut_ReplicasBeforeUpgrade (fold_left (recordComponent (mi_Spec m) true true) ws s0)) /\
    ut_SourceImage (fold_left (recordComponent (mi_Spec m) true true) ws s0) = ut_SourceImage s0) as Hk.
  { induction ws0 as [|c ws0 IH]; intros s1 Hs; [done|]. simpl.
    assert (is_Some (ut_ReplicasBeforeUpgrade (recordComponent (mi_Spec m) true true s1 c)) /\
            ut_SourceImage (recordComponent (mi_Spec m) true true s1 c) = ut_SourceImage s1)
      as [Hc <-] by (unfold recordComponent; by destruct (DeploymentGroupOf c)).
    by apply IH. }
  destruct (Hk ws s0) as [Hr Hi]; [done|].
  rewrite bool_decide_eq_true_2 by (rewrite Hi; exact H3).
  split; [done|]. split; [done|]. intros w Hw.
  change (recorded (fold_left (recordComponent (mi_Spec m) true true) ws s0) w
          = Some (default 1 (GetReplicas w (mi_Spec m)))).
  apply fold_recorded; [|by apply workload_ids_NoDup|done].
  intros. by eapply workload_sameTable.
Qed.

(** ** Images *)

Lemma set_image_spec m m' i : mi_Spec m = mi_Spec m' -> mi_Spec (set_image m i) = mi_Spec (set_image m' i).
Proof. intros E. unfold set_image, mi_Com. simpl. by rewrite E. Qed.

Lemma set_image_twice m i j : mi_Spec (set_image (set_image m i) j) = mi_Spec (set_image m j).
Proof. done. Qed.

Lemma set_image_same m i :
  i = csp_Image (com_ComponentSpec (mi_Com m)) -> mi_Spec (set_image m i) = mi_Spec m.
Proof.
  intros ->. destruct m as [meta [mode com dep conf hook] st]. unfold set_image, mi_Com. simpl.
  destruct com as [csp]. by destruct csp.
Qed.

(** ** Starting *)

(** A start that finds every record writes the Milvus resource first. *)
Lemma start_writes s spec tr o :
  is_Some (ut_ReplicasBeforeUpgrade (f_status s)) ->
  restoreReplicas (f_status s) (GetComponentWorkloadsBySpec (mi_Spec (f_milvus s)))
    (mi_Spec (f_milvus s)) = inr spec ->
  exec (startMilvus s) tr o ->
  exists rest, writes tr = UpdateMilvus (startedMilvus (f_milvus s) spec) :: rest.
Proof.
  intros [r Hr] Hre Hex.
  apply (wp_exec_any (startMilvus s)
    (fun ws _ => exists rest, ws = UpdateMilvus (startedMilvus (f_milvus s) spec) :: rest) tr o);
    [|done].
  unfold startMilvus. rewrite Hr. cbv beta iota zeta. rewrite Hre.
  unfold annotateAlphaCR.
  repeat (wp_step || case_match || intros ? || (eexists; reflexivity)).
Qed.

(** A first stop records and stops. *)
Lemma first_stop u0 m0 tr s :
  isMilvusStopping m0 = false ->
  exec (OldVersionStopping (mkFsm u0 m0)) tr (ORet (s, inr UpgradeStatePending)) ->
  f_status s = recordOldInfo (up_Status u0) m0 /\ f_milvus s = stoppedMilvus m0.
Proof.
  intros Hns Hex.
  apply (wp_exec_any _ (fun _ o => forall s, o = ORet (s, inr UpgradeStatePending) ->
    f_status s = recordOldInfo (up_Status u0) m0 /\ f_milvus s = stoppedMilvus m0)) with (s := s) in Hex;
    [done| |done].
  unfold OldVersionStopping. simpl. rewrite Hns. simpl.
  unfold doStop, stopMilvus, annotateAlphaCR.
  repeat (wp_step || case_match || intros ? || simplify_eq || done).
Qed.

Lemma recorded_id s w w' :
  workloadId w = workloadId w' -> sameTable w w' -> recorded s w = recorded s w'.
Proof.
  unfold workloadId, recorded, GetMilvusReplicas. intros [= En Eg] Ht.
  rewrite (proj1 Ht En), En.
  destruct (DeploymentGroupOf w), (DeploymentGroupOf w'); simplify_eq/=; try done. by rewrite Eg.
Qed.

(** A workload of the stopped spec is one of the original spec. *)
Lemma stopped_workload spec w1 :
  w1 ∈ GetComponentWorkloadsBySpec (stoppedSpec spec) ->
  exists w, w ∈ GetComponentWorkloadsBySpec spec /\ workloadId w = workloadId w1 /\ sameTable w w1.
Proof.
  intros H1. assert (workloadId w1 ∈ workloadId <$> GetComponentWorkloadsBySpec spec) as Hin.
  { rewrite <-(setAll_ids (fun _ => int32Ptr 0) (GetComponentWorkloadsBySpec spec) spec).
    apply list_elem_of_fmap. eauto. }
  apply list_elem_of_fmap in Hin as (w & Hid & Hw). exists w. split; [done|]. split; [done|].
  by eapply workload_sameTable.
Qed.

(** Restoring a record into the stopped spec. *)
Lemma restored_workloads spec st (value : MilvusComponent -> Z) :
  configured spec -> groupNamesDistinct spec ->
  (forall w, w ∈ GetComponentWorkloadsBySpec spec ->
     recorded st w = Some (value w) /\ in_int32 (value w)) ->
  let stopped := stoppedSpec spec in
  exists spec', restoreReplicas st (GetComponentWorkloadsBySpec stopped) stopped = inr spec' /\
    com_ComponentSpec (spec_Com spec') = com_ComponentSpec (spec_Com spec) /\
    forall w, w ∈ GetComponentWorkloadsBySpec spec ->
      exists w', w' ∈ GetComponentWorkloadsBySpec spec' /\ workloadId w' = workloadId w /\
        GetReplicas w' spec' = Some (value w).
Proof.
  intros Hconf Hg Hrec stopped.
  destruct (setAll_keeps (fun _ => int32Ptr 0) (GetComponentWorkloadsBySpec spec) spec)
    as (_ & Hcsp & _ & Hcf). fold (stoppedSpec spec) in Hcsp, Hcf. fold stopped in Hcsp, Hcf.
  assert (forall w1, w1 ∈ GetComponentWorkloadsBySpec stopped -> exists w,
    w ∈ GetComponentWorkloadsBySpec spec /\ workloadId w = workloadId w1 /\
    recorded st w1 = Some (value w) /\ is_Some (componentField (spec_Com stopped) (FieldName w1)))
    as Hold.
  { intros w1 Hw1. destruct (stopped_workload spec w1 Hw1) as (w & Hw & Hid & Ht).
    exists w. split; [done|]. split; [done|].
    split; [rewrite <-(recorded_id st w w1) by done; by apply Hrec|].
    apply Hcf. rewrite <-(proj1 Ht) by (by injection Hid). by apply Hconf. }
  exists (setAll (recorded st) (GetComponentWorkloadsBySpec stopped) stopped). split; [|split].
  - apply restoreReplicas_setAll. intros w1 Hw1. destruct (Hold w1 Hw1) as (w & Hw & _ & Hr & _).
    exists (value w). split; [done|]. by apply Hrec.
  - by rewrite (proj1 (proj2 (setAll_keeps _ _ stopped))).
  - intros w Hw.
    assert (workloadId <$> GetComponentWorkloadsBySpec stopped
            = workloadId <$> GetComponentWorkloadsBySpec spec) as Hids by apply setAll_ids.
    assert (NoDup (workloadId <$> GetComponentWorkloadsBySpec stopped)) as Hnd
      by (rewrite Hids; by apply workload_ids_NoDup).
    assert (workloadId w ∈ workloadId <$> GetComponentWorkloadsBySpec stopped) as Hin
      by (rewrite Hids; apply list_elem_of_fmap; eauto).
    apply list_elem_of_fmap in Hin as (w1 & Hid1 & Hw1).
    destruct (setAll_sets (recorded st) (GetComponentWorkloadsBySpec stopped) stopped Hnd)
      as [Hset _]; [intros v Hv; destruct (Hold v Hv) as (? & _ & _ & _ & ?); done|].
    destruct (Hset w1 Hw1) as (w' & Hw' & Hid' & Hr'). exists w'. split; [done|].
    split; [congruence|]. rewrite Hr'.
    rewrite <-(recorded_id st w w1) by (done || by eapply workload_sameTable). by apply Hrec.
Qed.

(** C28. A rollback gives Milvus back as it was.  When the first stop of an
    upgrade succeeds, with nothing recorded before, and later the old version
    is started again with that record, on a Milvus resource that differs from
    the stopped one in its image only, then the first write is the Milvus
    resource with the original image, without the marks of the stop, and with
    every workload at its original replicas (1 where none were given). *)
Theorem rollback_restores u0 m0 tr0 s1 u m1 image tr o :
  ut_ReplicasBeforeUpgrade (up_Status u0) = None ->
  ut_DeploymentGroupReplicasBeforeUpgrade (up_Status u0) = None ->
  ut_SourceImage (up_Status u0) = "" ->
  configured (mi_Spec m0) -> groupNamesDistinct (mi_Spec m0) ->
  (forall w, w ∈ GetComponentWorkloadsBySpec (mi_Spec m0) ->
     in_int32 (default 1 (GetReplicas w (mi_Spec m0)))) ->
  isMilvusStopping m0 = false ->
  exec (OldVersionStopping (mkFsm u0 m0)) tr0 (ORet (s1, inr UpgradeStatePending)) ->
  sameRecord (f_status s1) (up_Status u) ->
  mi_Spec m1 = mi_Spec (set_image (f_milvus s1) image) ->
  exec (RollbackOldVersionStarting (mkFsm u m1)) tr o ->
  exists m' rest, writes tr = UpdateMilvus m' :: rest /\
    csp_Image (com_ComponentSpec (mi_Com m')) = csp_Image (com_ComponentSpec (mi_Com m0)) /\
    mi_Annotations m' !! upgradeStoppingAnnotation = None /\
    mi_Annotations m' !! StoppedAtAnnotation = None /\
    forall w, w ∈ GetComponentWorkloadsBySpec (mi_Spec m0) ->
      exists w', w' ∈ GetComponentWorkloadsBySpec (mi_Spec m') /\ workloadId w' = workloadId w /\
        GetReplicas w' (mi_Spec m') = Some (default 1 (GetReplicas w (mi_Spec m0))).
Proof.
  intros H1 H2 H3 Hconf Hg Hint Hns Hstop (R1 & R2 & R3) Hm1 Hex.
  destruct (first_stop u0 m0 tr0 s1 Hns Hstop) as [Hst Hm]. rewrite Hst in R1, R2, R3.
  destruct (recordOldInfo_fresh (up_Status u0) m0 H1 H2 H3 Hg) as (Himg & Hsome & Hrec).
  set (m2 := set_image m1 (ut_SourceImage (up_Status u))).
  assert (mi_Spec m2 = stoppedSpec (mi_Spec m0)) as Hm2.
  { unfold m2. rewrite R3, Himg, (set_image_spec m1 (set_image (f_milvus s1) image)) by done.
    rewrite Hm, set_image_twice. apply set_image_same. unfold mi_Com. simpl.
    by rewrite <-(proj1 (proj2 (setAll_keeps (fun _ => int32Ptr 0)
                    (GetComponentWorkloadsBySpec (mi_Spec m0)) (mi_Spec m0)))). }
  destruct (restored_workloads (mi_Spec m0) (up_Status u)
              (fun w => default 1 (GetReplicas w (mi_Spec m0))) Hconf Hg)
    as (spec' & Hre & Hcsp & Hw).
  { intros w Hw. split; [|by apply Hint]. rewrite <-(Hrec w Hw). unfold recorded. by rewrite R1, R2. }
  apply exec_bind_inv in Hex as (tr1 & o1 & tr2 & Htr & Hex1).
  destruct (start_writes (mkFsm u m2) spec' tr1 o1) as [rest Hrest].
  - unfold f_status. simpl. by rewrite R1.
  - unfold f_status. cbn [f_milvus f_upgrade]. by rewrite Hm2.
  - exact Hex1.
  - exists (startedMilvus m2 spec'), (rest ++ writes tr2). rewrite Htr, writes_app, Hrest.
    split; [done|]. split; [unfold mi_Com; simpl; by rewrite Hcsp|].
    split; [|split; [|exact Hw]]; unfold startedMilvus; rewrite mi_Annotations_set.
    + by rewrite lookup_delete_ne, lookup_delete_eq.
    + by rewrite lookup_delete_eq.
Qed.

Lemma start_default s :
  ut_ReplicasBeforeUpgrade (f_status s) = None ->
  startMilvus s = startMilvus (set_status s (set_ReplicasBeforeUpgrade (Some zeroReplicas))).
Proof. intros H. unfold startMilvus. by rewrite H. Qed.

(** A rollback of an upgrade that never recorded anything, as when the
    rollback is asked for before the first stop, or for an upgrade of a Milvus
    that was stopped already, does not restore Milvus: without deployment
    groups its first write has an empty image and zero replicas for every
    workload. *)
Theorem rollback_unrecorded u m tr o :
  ut_ReplicasBeforeUpgrade (up_Status u) = None -> ut_SourceImage (up_Status u) = "" ->
  let spec := mi_Spec (set_image m "") in
  configured spec -> (forall c, c ∈ GetComponentsBySpec spec -> GetDeploymentGroups c spec = []) ->
  exec (RollbackOldVersionStarting (mkFsm u m)) tr o ->
  exists m' rest, writes tr = UpdateMilvus m' :: rest /\
    csp_Image (com_ComponentSpec (mi_Com m')) = "" /\
    forall w, w ∈ GetComponentWorkloadsBySpec spec ->
      exists w', w' ∈ GetComponentWorkloadsBySpec (mi_Spec m') /\ workloadId w' = workloadId w /\
        GetReplicas w' (mi_Spec m') = Some 0.
Proof.
  intros Hr Hi spec Hconf Hng Hex.
  assert (groupNamesDistinct spec) as Hg by (intros c Hc; rewrite (Hng c Hc); constructor).
  set (s := mkFsm (with_status u (set_ReplicasBeforeUpgrade (Some zeroReplicas))) (set_image m "")).
  assert (forall w, w ∈ GetComponentWorkloadsBySpec spec -> recorded (f_status s) w = Some 0) as Hrec.
  { intros w (c & Hc & Hw)%workloads_elem. rewrite (Hng c Hc) in Hw.
    destruct Hw as [[_ ->]|(g & Hg' & _)]; [|by apply not_elem_of_nil in Hg'].
    unfold recorded. rewrite (table_no_group c) by (by eapply GetComponentsBySpec_table).
    simpl. unfold GetMilvusReplicas. by destruct (FieldName c). }
  unfold RollbackOldVersionStarting in Hex.
  change (ut_SourceImage (f_status (mkFsm u m))) with (ut_SourceImage (up_Status u)) in Hex.
  rewrite Hi, start_default in Hex by exact Hr.
  apply exec_bind_inv in Hex as (tr1 & o1 & tr2 & Htr & Hex1).
  set (ws := GetComponentWorkloadsBySpec spec) in *.
  destruct (start_writes s (setAll (recorded (f_status s)) ws spec) tr1 o1) as [rest Hrest];
    [by eexists| |exact Hex1|].
  { apply restoreReplicas_setAll. intros w Hw. exists 0. split; [by apply Hrec|]. by split. }
  eexists _, (rest ++ writes tr2). rewrite Htr, writes_app, Hrest. split; [done|].
  split; [unfold mi_Com; simpl; by rewrite (proj1 (proj2 (setAll_keeps _ _ spec)))|].
  destruct (setAll_sets (recorded (f_status s)) ws spec) as [Hset _];
    [by apply workload_ids_NoDup|intros w Hw; split; [done|by apply Hconf]|].
  intros w Hw. destruct (Hset w Hw) as (w' & Hw' & Hid & Hval). exists w'.
  split; [done|]. split; [done|]. simpl. rewrite Hval. by apply Hrec.
Qed.
End Restore.

(** ** Witnesses *)

Section Witnesses.
#[local] Existing Instance concreteSemver.
#[local] Existing Instance concreteUnstructured.
#[local] Existing Instance concreteKubeLib.
#[local] Existing Instance exMetaConditions.
#[local] Existing Instance exKubeMessages.
#[local] Existing Instance exGoTime.
#[local] Existing Instance exMigrationTemplate.

Definition exRunOf (p : prog stateResult) : unit * list event * outcome stateResult :=
  run (exServer exGrouped []) p tt.

Lemma exRunOf_exec p : exec p (snd (fst (exRunOf p))) (snd (exRunOf p)).
Proof. apply run_exec. Qed.

Definition exAfterStop : fsm :=
  match snd (exRunOf (OldVersionStopping (mkFsm exNewUpgrade exGrouped))) with
  | ORet (s, _) => s
  | _ => mkFsm exNewUpgrade exGrouped
  end.

(** The stopped Milvus resource with the image of the new version. *)
Definition exNewVersion : Milvus := set_image (f_milvus exAfterStop) "milvusdb/milvus:v2.2.0".

Lemma rollback_restores_witness :
  exists m' rest,
    writes (snd (fst (exRunOf (RollbackOldVersionStarting (mkFsm (f_upgrade exAfterStop) exNewVersion)))))
    = UpdateMilvus m' :: rest /\
    csp_Image (com_ComponentSpec (mi_Com m')) = "milvusdb/milvus:v2.5.4" /\
    exists w', w' ∈ GetComponentWorkloadsBySpec (mi_Spec m') /\
      workloadId w' = ("querynode", Some "a") /\ GetReplicas w' (mi_Spec m') = Some 2.
Proof.
  destruct (rollback_restores exNewUpgrade exGrouped
              (snd (fst (exRunOf (OldVersionStopping (mkFsm exNewUpgrade exGrouped))))) exAfterStop
              (f_upgrade exAfterStop) exNewVersion "milvusdb/milvus:v2.2.0"
              (snd (fst (exRunOf (RollbackOldVersionStarting
                                    (mkFsm (f_upgrade exAfterStop) exNewVersion)))))
              (snd (exRunOf (RollbackOldVersionStarting (mkFsm (f_upgrade exAfterStop) exNewVersion)))))
    as (m' & rest & Hw & Hi & _ & _ & Hr).
  - reflexivity.
  - reflexivity.
  - reflexivity.
  - unfold configured. apply Forall_forall. vm_compute. repeat constructor; eexists; reflexivity.
  - intros c Hc. apply GetComponentsBySpec_table in Hc. revert c Hc. apply Forall_forall.
    apply (bool_decide_unpack _). vm_compute. exact I.
  - apply Forall_forall. apply (bool_decide_unpack _). vm_compute. exact I.
  - vm_compute. reflexivity.
  - assert (ORet (exAfterStop, inr UpgradeStatePending)
            = snd (exRunOf (OldVersionStopping (mkFsm exNewUpgrade exGrouped)))) as ->
      by (vm_compute; reflexivity).
    apply exRunOf_exec.
  - unfold sameRecord, f_status. split; [|split]; reflexivity.
  - reflexivity.
  - apply exRunOf_exec.
  - exists m', rest. split; [exact Hw|]. split; [exact Hi|].
    destruct (Hr (set_group QueryNode (exGroup "a"))) as (w' & Hw' & Hid & Hv).
    + apply (bool_decide_unpack _). vm_compute. exact I.
    + exists w'. split; [exact Hw'|]. split; [exact Hid|exact Hv].
Defined.

Lemma rollback_unrecorded_witness :
  exists m' rest,
    writes (snd (fst (exRunOf (RollbackOldVersionStarting (mkFsm exNewUpgrade (exMilvus 2))))))
    = UpdateMilvus m' :: rest /\ csp_Image (com_ComponentSpec (mi_Com m')) = "".
Proof.
  destruct (rollback_unrecorded exNewUpgrade (exMilvus 2)
              (snd (fst (exRunOf (RollbackOldVersionStarting (mkFsm exNewUpgrade (exMilvus 2))))))
              (snd (exRunOf (RollbackOldVersionStarting (mkFsm exNewUpgrade (exMilvus 2))))))
    as (m' & rest & Hw & Hi & _).
  - reflexivity.
  - reflexivity.
  - unfold configured. apply Forall_forall. vm_compute. repeat constructor; eexists; reflexivity.
  - apply Forall_forall. apply (bool_decide_unpack _). vm_compute. exact I.
  - apply exRunOf_exec.
  - exists m', rest. split; [exact Hw|exact Hi].
Defined.
End Witnesses.
