(* ===== verification/Webhook.v ===== *)
(** * Admission of a Milvus resource

    apis/milvus.io/v1beta1/milvus_webhook.go: the defaulting of metadata, mode,
    components and configuration, and the validation of a created or updated
    resource.  The defaulting of the dependencies and [Default], which composes
    all of it, are in [Defaults].  The admission of a MilvusUpgrade,
    milvusupgrade_webhook.go, is at the end of the definitions. *)
From S2P Require Import Prelude KubeTypes Libs ApiTypes UpgradeTypes Labels Effects Utils Components.
From S2P Require Import Examples RollingUpdate UpgradeFsm.

Local Open Scope string_scope.
Local Open Scope list_scope.
Local Open Scope Z_scope.

(** k8s.io/apimachinery/pkg/util/validation: the messages for a name that is
    not a DNS label; and encoding/json into a claim or its spec, with the error
    text of [Values.AsObject]. *)
Class AdmissionLib := {
  IsDNS1123Label : string -> list string;
  AsPersistentVolumeClaimSpec : Values -> option string;
  AsPersistentVolumeClaim : Values -> option string
}.

Definition DefaultMilvusBaseImage : string := "milvusdb/milvus".
Definition DefaultMilvusImage : string := DefaultMilvusBaseImage +:+ ":" +:+ "v2.6.25".

(** ** Defaults *)

Definition setDefaultStr (s defaultValue : string) : string :=
  if bool_decide (s = "") then defaultValue else s.

Definition IsFirstTimeStarting (r : Milvus) : bool := bool_decide (st_Status (mi_Status r) = StatusUnset).

(** [Version] is the operator's version, set by the linker. *)
Definition DefaultMeta (Version : string) (r : Milvus) : Milvus :=
  let meta := mi_Meta r in
  let r := mkMilvus (mkMeta (om_Name meta) (setDefaultStr (om_Namespace meta) "default")
                       (om_Labels meta) (om_Annotations meta) (om_Generation meta) (om_UID meta)
                       (om_ResourceVersion meta) (om_OwnerReferences meta)
                       (om_DeletionTimestamp meta) (om_Finalizers meta))
             (mi_Spec r) (mi_Status r) in
  let r :=
    if bool_decide (mget (mi_Labels r) OperatorVersionLabel = "") then
      if negb (IsFirstTimeStarting r) then
        set_mi_Annotations (set_mi_Labels r (<[OperatorVersionLabel := LegacyVersion]> (mi_Labels r)))
          (<[DependencyValuesLegacySyncedAnnotation := FalseStr]> (mi_Annotations r))
      else set_mi_Labels r (<[OperatorVersionLabel := Version]> (mi_Labels r))
    else r in
  let r := if IsFirstTimeStarting r
           then set_mi_Annotations r (<[PodServiceLabelAddedAnnotation := TrueStr]> (mi_Annotations r))
           else r in
  let old := mget (mi_Annotations r) OldAnnotationCurrentQueryNodeGroupID in
  if bool_decide (old = "") then r
  else
    let r := SetCurrentGroupIDStr r "querynode" old in
    set_mi_Annotations r (<[OldAnnotationCurrentQueryNodeGroupID := ""]> (mi_Annotations r)).

Definition DefaultMode (spec : MilvusSpec) : MilvusSpec :=
  mkSpec (match spec_Mode spec with MilvusModeUnset => MilvusModeStandalone | m => m end)
    (spec_Com spec) (spec_Dep spec) (spec_Conf spec) (spec_HookConf spec).

Definition noCoordSpecifiedByUser (com : MilvusComponents) : bool :=
  bool_decide (com_RootCoord com = None) && bool_decide (com_DataCoord com = None)
  && bool_decide (com_IndexCoord com = None) && bool_decide (com_QueryCoord com = None).

Definition zeroService : ServiceComponent := mkServiceComponent emptyComponent "" None 0 0 ∅ ∅ None.

(** [if spec.Com.X == nil { spec.Com.X = &T{} }]. *)
Definition ensureField (com : MilvusComponents) (f : ComponentField) : MilvusComponents :=
  match f with
  | MixCoordField => set_com_MixCoord com (Some (default emptyComponent (com_MixCoord com)))
  | RootCoordField => set_com_RootCoord com (Some (default emptyComponent (com_RootCoord com)))
  | DataCoordField => set_com_DataCoord com (Some (default emptyComponent (com_DataCoord com)))
  | QueryCoordField => set_com_QueryCoord com (Some (default emptyComponent (com_QueryCoord com)))
  | IndexCoordField => set_com_IndexCoord com (Some (default emptyComponent (com_IndexCoord com)))
  | DataNodeField =>
      set_com_DataNode com (Some (default (mkDataNode emptyComponent [] None) (com_DataNode com)))
  | QueryNodeField =>
      set_com_QueryNode com (Some (default (mkQueryNode emptyComponent [] None) (com_QueryNode com)))
  | IndexNodeField =>
      set_com_IndexNode com (Some (default (mkIndexNode emptyComponent None) (com_IndexNode com)))
  | StreamingNodeField =>
      set_com_StreamingNode com
        (Some (default (mkStreamingNode emptyComponent []) (com_StreamingNode com)))
  | ProxyField => set_com_Proxy com (Some (default (mkProxy zeroService []) (com_Proxy com)))
  | StandaloneField => set_com_Standalone com (Some (default zeroService (com_Standalone com)))
  | CdcField => set_com_Cdc com (Some (default emptyComponent (com_Cdc com)))
  end.

(** [if spec.Com.X.Replicas == nil { spec.Com.X.Replicas = &r }]; [None] is the
    panic of a nil component. *)
Definition defaultReplicas (c : Component) (r : Z) : Component :=
  match co_Replicas c with None => set_co_Replicas c (Some r) | Some _ => c end.

Definition defaultFieldReplicas (f : ComponentField) (r : Z) (com : MilvusComponents)
    : option MilvusComponents :=
  _ ← componentField com f;
  Some (update_component com f (fun c => defaultReplicas c r)).

Section Defaults.
Context {SV : Semver} {US : Unstructured}.

(** The coordinators: one mixed, or all four. *)
Definition defaultCoordReplicas (com : MilvusComponents) : option MilvusComponents :=
  if bool_decide (is_Some (com_MixCoord com)) then defaultFieldReplicas MixCoordField 1 com
  else
    com ← defaultFieldReplicas RootCoordField 1 com;
    com ← defaultFieldReplicas DataCoordField 1 com;
    com ← defaultFieldReplicas IndexCoordField 1 com;
    defaultFieldReplicas QueryCoordField 1 com.

(** The cluster branch of [defaultComponentsReplicas]. *)
Definition defaultClusterReplicas (spec : MilvusSpec) (com : MilvusComponents)
    : option MilvusComponents :=
  com ← defaultFieldReplicas StandaloneField 0 com;
  com ← (if UseStreamingNode spec then defaultFieldReplicas StreamingNodeField 1 com else Some com);
  com ← defaultCoordReplicas
          (if IsVersionGreaterThan2_6 spec then ensureField com MixCoordField else com);
  com ← defaultFieldReplicas ProxyField 1 com;
  com ← defaultFieldReplicas DataNodeField 1 com;
  com ← (if negb (IsVersionGreaterThan2_6 spec) then defaultFieldReplicas IndexNodeField 1 com
         else Some com);
  defaultFieldReplicas QueryNodeField 1 com.

Definition defaultComponentsReplicas (spec : MilvusSpec) : option MilvusSpec :=
  com ← (if bool_decide (spec_Mode spec = MilvusModeCluster)
         then defaultClusterReplicas spec (spec_Com spec)
         else defaultFieldReplicas StandaloneField 1 (spec_Com spec));
  com ← (if UseCdc (set_spec_Com spec com) then defaultFieldReplicas CdcField 1 com else Some com);
  Some (set_spec_Com spec com).

(** The defaults of the head of the components. *)
Definition defaultHead (com : MilvusComponents) : MilvusComponents :=
  let csp := com_ComponentSpec com in
  set_com_head com (set_csp_Image csp (setDefaultStr (csp_Image csp) DefaultMilvusImage))
    (match com_ImageUpdateMode com with
     | ImageUpdateModeUnset => ImageUpdateModeRollingUpgrade
     | m => m
     end)
    (com_EnableRollingUpdate com) (com_UpdateConfigMapOnly com)
    (if bool_decide (com_RollingMode com = RollingModeNotSet) then RollingModeV2 else com_RollingMode com)
    (com_StreamingMode com).

Definition set_StreamingMode (com : MilvusComponents) (b : bool) : MilvusComponents :=
  set_com_head com (com_ComponentSpec com) (com_ImageUpdateMode com) (com_EnableRollingUpdate com)
    (com_UpdateConfigMapOnly com) (com_RollingMode com) (Some b).

Definition defaultConfigMapOnly (com : MilvusComponents) : MilvusComponents :=
  set_com_head com (com_ComponentSpec com) (com_ImageUpdateMode com) (com_EnableRollingUpdate com)
    (Some (default true (com_UpdateConfigMapOnly com))) (com_RollingMode com) (com_StreamingMode com).

(** The components a cluster needs. *)
Definition defaultClusterComponents (spec : MilvusSpec) (com : MilvusComponents) : MilvusComponents :=
  let com := ensureField com ProxyField in
  let com :=
    if bool_decide (is_Some (com_MixCoord com)) then com
    else if noCoordSpecifiedByUser com then ensureField com MixCoordField
    else ensureField (ensureField (ensureField (ensureField com RootCoordField) DataCoordField)
                        IndexCoordField) QueryCoordField in
  let com := ensureField com DataNodeField in
  let com := if negb (IsVersionGreaterThan2_6 (set_spec_Com spec com))
             then ensureField com IndexNodeField else com in
  let com := ensureField com QueryNodeField in
  if UseStreamingNode (set_spec_Com spec com)
  then set_StreamingMode (ensureField com StreamingNodeField) true
  else set_StreamingMode com false.

Definition DefaultComponents (spec : MilvusSpec) : option MilvusSpec :=
  let com := ensureField (defaultHead (spec_Com spec)) StandaloneField in
  let com := if bool_decide (spec_Mode spec = MilvusModeCluster)
             then defaultClusterComponents spec com else com in
  defaultComponentsReplicas (set_spec_Com spec (defaultConfigMapOnly com)).

Definition set_MsgStreamType (dep : MilvusDependencies) (t : MsgStreamType) : MilvusDependencies :=
  mkDep (dep_Etcd dep) t (dep_Pulsar dep) (dep_Kafka dep) (dep_WoodPecker dep) (dep_RocksMQ dep)
    (dep_NatsMQ dep) (dep_Storage dep) (dep_Tei dep) (dep_CustomMsgStream dep).

Definition setDefaultMsgStreamType (spec : MilvusSpec) : MilvusSpec :=
  match dep_MsgStreamType (spec_Dep spec) with
  | MsgStreamTypeUnset =>
      let t := match spec_Mode spec with
               | MilvusModeStandalone =>
                   if IsVersionGreaterThan2_6 spec then MsgStreamTypeWoodPecker else MsgStreamTypeRocksMQ
               | _ => MsgStreamTypePulsar
               end in
      mkSpec (spec_Mode spec) (spec_Com spec) (set_MsgStreamType (spec_Dep spec) t) (spec_Conf spec)
        (spec_HookConf spec)
  | _ => spec
  end.

Definition rollingUpdateConfigFields : list string := ["rootCoord"; "dataCoord"; "indexCoord"; "queryCoord"].

Definition deleteUnsettableConf (conf : list (string * json)) : list (string * json) :=
  fold_left (fun conf fields => RemoveNestedField conf fields)
    [["minio"; "address"]; ["minio"; "port"]; ["pulsar"; "address"]; ["pulsar"; "port"];
     ["etcd"; "endpoints"]] conf.

Definition setEnableActiveStandby (conf : list (string * json)) (enabled : bool) : list (string * json) :=
  fold_left (fun conf field => SetNestedField conf (JBool enabled) [field; EnableActiveStandByConfig])
    rollingUpdateConfigFields conf.

Definition isRollingUpdateSupportedByConfig (spec : MilvusSpec) : bool :=
  if negb (bool_decide (spec_Mode spec = MilvusModeCluster)) then
    match dep_MsgStreamType (spec_Dep spec) with
    | MsgStreamTypeRocksMQ | MsgStreamTypeNatsMQ => false
    | _ => true
    end
  else true.

Definition set_EnableRollingUpdate (com : MilvusComponents) (b : bool) : MilvusComponents :=
  set_com_head com (com_ComponentSpec com) (com_ImageUpdateMode com) (Some b)
    (com_UpdateConfigMapOnly com) (com_RollingMode com) (com_StreamingMode com).

Definition DefaultConf (spec : MilvusSpec) : MilvusSpec :=
  let conf := match spec_Conf spec with None => [] | Some conf => deleteUnsettableConf conf end in
  let enabled := if negb (isRollingUpdateSupportedByConfig spec) then false
                 else default true (com_EnableRollingUpdate (spec_Com spec)) in
  let conf := if enabled then setEnableActiveStandby conf true else conf in
  mkSpec (spec_Mode spec) (set_EnableRollingUpdate (spec_Com spec) enabled) (spec_Dep spec)
    (Some conf) (spec_HookConf spec).
End Defaults.

(** ** Validation *)

Definition deploymentGroupReservedLabels : list string :=
  [DeploymentGroupLabel; ServiceLabel; OperatorVersionLabel; "app.kubernetes.io/instance";
   "app.kubernetes.io/component"; "app.kubernetes.io/name"; "app.kubernetes.io/managed-by";
   GetComponentGroupIdLabel "proxy"; GetComponentGroupIdLabel "datanode";
   GetComponentGroupIdLabel "querynode"; GetComponentGroupIdLabel "streamingnode"].

Definition deploymentGroupReservedAnnotations : list string := ["checksum/config"].

Definition deploymentGroupReservedMetadataPrefixes : list string :=
  ["kubectl.kubernetes.io/"; MilvusIO; "deployment.kubernetes.io/"].

Definition hasDeploymentGroupReservedMetadataPrefix (key : string) : bool :=
  existsb (fun prefix => HasPrefix key prefix) deploymentGroupReservedMetadataPrefixes.

Definition required (path : string) : FieldError := (path, path +:+ " should be configured").

(** A path with an index. *)
Definition indexed (path : string) (i : nat) : string := path +:+ "[" +:+ Itoa (Z.of_nat i) +:+ "]".

Section Validation.
Context {SV : Semver} {IS : IntStr} {AL : AdmissionLib}.
Context (r : Milvus).

Definition validateEnableRolingUpdate : option FieldError :=
  match com_EnableRollingUpdate (mi_Com r) with
  | None | Some false => None
  | Some true =>
      if bool_decide (spec_Mode (mi_Spec r) = MilvusModeCluster) then None
      else
        match dep_MsgStreamType (spec_Dep (mi_Spec r)) with
        | MsgStreamTypeKafka | MsgStreamTypePulsar | MsgStreamTypeCustom | MsgStreamTypeWoodPecker => None
        | _ => Some ("spec.components.enableRollingUpdate",
                     "enableRollingUpdate is not supported for msgStream rocksmq or natsmq. Set it to false or set spec.msgStreamType to kafka/pulsar")
        end
  end.

Definition validatePersistConfig : option FieldError :=
  persistconfig ← GetMilvusBuiltInMQ (spec_Dep (mi_Spec r));
  e ← AsPersistentVolumeClaimSpec (pvc_Spec (per_PersistentVolumeClaim persistconfig));
  Some ("spec.dependencies.rocksmq/natsmq.persistence.persistentVolumeClaim.spec", e).

Definition validateCommon : option FieldError :=
  let mode := com_RollingMode (mi_Com r) in
  if negb ((mode =? RollingModeNotSet) || (mode =? RollingModeV2) || (mode =? RollingModeV3))
  then Some ("spec.components.rollingMode", "rollingMode should be 2 or 3")
  else match validateEnableRolingUpdate with
       | Some e => Some e
       | None => validatePersistConfig
       end.

(** The checks of a group's name. *)
Definition validateGroupName (componentName namePath : string) (seen : gset string)
    (group : DeploymentGroup) : list FieldError :=
  let name := dg_Name group in
  if bool_decide (name = "") then [(namePath, "deployment group name is required")]
  else
    let twoDeployments := bool_decide (componentName = "querynode")
                          || (com_RollingMode (mi_Com r) =? RollingModeV3) in
    let deploymentName := mi_Name r +:+ "-milvus-" +:+ componentName +:+ "-" +:+ name in
    let maxNameLength := if twoDeployments then 251 else 253 in
    ((fun msg => (namePath, msg)) <$> IsDNS1123Label name)
    ++ (if bool_decide (name ∈ seen) then [(namePath, "Duplicate value")] else [])
    ++ (if maxNameLength <? Z.of_nat (String.length deploymentName)
        then [(namePath, "generated Deployment name must not exceed 253 characters")] else [])
    ++ (if twoDeployments
           && (253 <? Z.of_nat (String.length (componentName +:+ "-" +:+ mi_Name r +:+ "-" +:+ name
                                                 +:+ "-old-replicas")))
        then [(namePath, "generated rollout ControllerRevision name must not exceed 253 characters")]
        else []).

Definition validateGroupReplicas (groupPath : string) (group : DeploymentGroup) : list FieldError :=
  match dg_Replicas group with
  | None => [(groupPath +:+ ".replicas", "deployment group replicas is required")]
  | Some n => if n <? -1 then [(groupPath +:+ ".replicas", "must be -1 or nonnegative")] else []
  end.

Definition validateGroupMetadata (groupPath : string) (group : DeploymentGroup) : list FieldError :=
  concat ((fun kv : string * string =>
             if bool_decide (fst kv ∈ deploymentGroupReservedLabels)
                || hasDeploymentGroupReservedMetadataPrefix (fst kv)
             then [(groupPath +:+ ".labels[" +:+ fst kv +:+ "]", "label is reserved by milvus-operator")]
             else []) <$> map_to_list (dg_Labels group))
  ++ concat ((fun kv : string * string =>
             if bool_decide (fst kv ∈ deploymentGroupReservedAnnotations)
                || hasDeploymentGroupReservedMetadataPrefix (fst kv)
             then [(groupPath +:+ ".annotations[" +:+ fst kv +:+ "]",
                    "annotation is reserved by milvus-operator or Kubernetes")]
             else []) <$> map_to_list (dg_Annotations group)).

(** The loop over the groups of a component, from index [i]. *)
Fixpoint validateGroups (componentName groupsPath : string) (i : nat) (seen : gset string)
    (groups : list DeploymentGroup) : list FieldError :=
  match groups with
  | [] => []
  | group :: rest =>
      let groupPath := indexed groupsPath i in
      validateGroupName componentName (groupPath +:+ ".name") seen group
      ++ validateGroupReplicas groupPath group
      ++ validateGroupMetadata groupPath group
      ++ validateGroups componentName groupsPath (S i)
           (if bool_decide (dg_Name group = "") then seen else {[dg_Name group]} ∪ seen) rest
  end.

(** The components with groups: field, name and groups. *)
Definition namedGroups : list (string * string * list DeploymentGroup) :=
  let com := mi_Com r in
  (match com_Proxy com with Some p => [("proxy", "proxy", px_Groups p)] | None => [] end)
  ++ (match com_DataNode com with Some p => [("dataNode", "datanode", dn_Groups p)] | None => [] end)
  ++ (match com_QueryNode com with Some p => [("queryNode", "querynode", qn_Groups p)] | None => [] end)
  ++ (match com_StreamingNode com with
      | Some p => [("streamingNode", "streamingnode", sn_Groups p)]
      | None => []
      end).

Definition validateDeploymentGroups : list FieldError :=
  concat ((fun item : string * string * list DeploymentGroup =>
             let '(fieldName, componentName, groups) := item in
             validateGroups componentName ("spec.components." +:+ fieldName +:+ ".groups") 0 ∅ groups)
          <$> namedGroups).

(** The stateful-set components that are enabled. *)
Definition stsComponents : list (string * ComponentStatefulSet) :=
  let com := mi_Com r in
  let enabled (name : string) (on : bool) (sts : option ComponentStatefulSet) :=
    match on, sts with true, Some s => [(name, s)] | _, _ => [] end in
  enabled "queryNode" (QueryNode_StatefulSetEnabled (com_QueryNode com)) (q ← com_QueryNode com; qn_StatefulSet q)
  ++ enabled "dataNode" (DataNode_StatefulSetEnabled (com_DataNode com)) (q ← com_DataNode com; dn_StatefulSet q)
  ++ enabled "indexNode" (IndexNode_StatefulSetEnabled (com_IndexNode com)) (q ← com_IndexNode com; in_StatefulSet q).

Definition validateComponentStatefulSets : list FieldError :=
  concat ((fun c : string * ComponentStatefulSet =>
    let basePath := "spec.components." +:+ fst c +:+ ".statefulSet" in
    (if com_RollingMode (mi_Com r) =? RollingModeV3
     then [(basePath, fst c +:+ " statefulSet mode is incompatible with rollingMode v3")] else [])
    ++ concat (imap (fun i template =>
                 match AsPersistentVolumeClaim template with
                 | Some e => [(indexed (basePath +:+ ".volumeClaimTemplates") i, e)]
                 | None => []
                 end) (sts_VolumeClaimTemplates (snd c)))) <$> stsComponents).

Definition validateExternal : list FieldError :=
  let dep := spec_Dep (mi_Spec r) in
  let fp := "spec.dependencies" in
  (if etcd_External (dep_Etcd dep) && bool_decide (elems (etcd_Endpoints (dep_Etcd dep)) = [])
   then [required (fp +:+ ".etcd.endpoints")] else [])
  ++ (if sto_External (dep_Storage dep) && bool_decide (sto_Endpoint (dep_Storage dep) = "")
      then [required (fp +:+ ".storage.endpoint")] else [])
  ++ match dep_MsgStreamType dep with
     | MsgStreamTypeKafka =>
         if kaf_External (dep_Kafka dep) && bool_decide (elems (kaf_BrokerList (dep_Kafka dep)) = [])
         then [required (fp +:+ ".kafka.brokerList")] else []
     | MsgStreamTypePulsar =>
         if pul_External (dep_Pulsar dep) && bool_decide (Pulsar_GetEndpoints (dep_Pulsar dep) = [])
         then [(fp +:+ ".pulsar", "endpoint or endpoints should be configured")] else []
     | MsgStreamTypeWoodPecker =>
         if wp_External (dep_WoodPecker dep) then
           let wpPath := fp +:+ ".woodpecker.quorumBufferPools" in
           let pools := elems (wp_QuorumBufferPools (dep_WoodPecker dep)) in
           (match pools with [] => [required wpPath] | _ => [] end)
           ++ concat (imap (fun i pool =>
                (if bool_decide (wbp_Name pool = "") then [required (indexed wpPath i +:+ ".name")] else [])
                ++ (match elems (wbp_Seeds pool) with [] => [required (indexed wpPath i +:+ ".seeds")] | _ => [] end))
                pools)
         else []
     | _ => []
     end.

(** The errors of [ValidateCreate]. *)
Definition ValidateCreate : list FieldError :=
  (match validateCommon with Some e => [e] | None => [] end)
  ++ validateExternal ++ validateDeploymentGroups ++ validateComponentStatefulSets
  ++ validateRollingUpdates (mi_Spec r).

(** Those of [ValidateUpdate]; [old] is [None] for an object of another kind,
    which is an error of its own. *)
Definition ValidateUpdate (old : option Milvus) : option (list FieldError) :=
  match old with
  | None => None
  | Some _ =>
      Some ((match validateCommon with Some e => [e] | None => [] end)
            ++ validateExternal ++ validateDeploymentGroups ++ validateComponentStatefulSets
            ++ validateRollingUpdates (mi_Spec r))
  end.
End Validation.

(** ** Admission of a MilvusUpgrade *)

Definition AddPrefixV (version : string) : string :=
  match version with
  | EmptyString => ""
  | String "v"%char _ => version
  | _ => "v" +:+ version
  end.

Definition defaultToolImage : string := "milvusdb/meta-migration:v2.2.0-bugfix-20230112".

Definition upgrade_Default (s : MilvusUpgradeSpec) : MilvusUpgradeSpec :=
  mkUpgradeSpec (us_Operation s) (us_Milvus s) (us_SourceVersion s) (us_TargetVersion s)
    (setDefaultStr (us_TargetImage s)
       (DefaultMilvusBaseImage +:+ ":v" +:+ RemovePrefixV (us_TargetVersion s)))
    (setDefaultStr (us_ToolImage s) defaultToolImage)
    (us_MaxRetry s) (us_RollbackIfFailed s) (us_BackupPVC s).

Section UpgradeValidation.
Context {SV : Semver}.

(** The check of one version against a least version; a version that does not
    parse is compared as the zero version. *)
Definition validateVersion (fieldName version least : string) (zero : sv_Version) : list FieldError :=
  let ver := AddPrefixV version in
  let path := "spec." +:+ fieldName in
  (match sv_ParseTolerant ver with
   | None => [(path, fieldName +:+ " is not a valid sematic version")]
   | Some _ => []
   end)
  ++ (if sv_LT (default zero (sv_ParseTolerant ver)) (sv_MustParse least)
      then [(path, fieldName +:+ " must be greater than " +:+ least)] else []).

Definition upgrade_Validate (zero : sv_Version) (s : MilvusUpgradeSpec) : list FieldError :=
  validateVersion "sourceVersion" (us_SourceVersion s) "2.0.0" zero
  ++ validateVersion "targetVersion" (us_TargetVersion s) "2.2.0" zero.
End UpgradeValidation.
