(* ===== verification/Status.v ===== *)
(** * Synchronisation of the status of a Milvus resource

    pkg/controllers/status_cluster.go, component_condition.go, error_detail.go,
    the selection of deployments of conditions.go and the status of a stateful
    set of statefulset.go: what the operator reports about an instance.

    The condition that a probe of etcd, storage or message stream gives is an
    answer from outside here ([ProbeDependency]), as is the time: [Probes] has
    the probes and [EndpointCache] the cache between them and this file.  The
    loops that run the update for every resource and the metrics are in
    [StatusSync]. *)
From S2P Require Import Prelude KubeTypes Libs ApiTypes UpgradeTypes Labels Effects Utils Components.
From S2P Require Import UpgradeFsm.

Local Open Scope string_scope.
Local Open Scope list_scope.
Local Open Scope Z_scope.

(** ** Error details *)

Definition reasonInitializing : string := "Initializing".

Definition conditionString (s : ConditionStatus) : string :=
  match s with
  | ConditionTrue => "True"
  | ConditionFalse => "False"
  | ConditionUnknown => "Unknown"
  | ConditionUnset => ""
  end.

Record ComponentErrorDetail := mkErrorDetail {
  ed_ComponentName : string;
  ed_WorkloadKind : string;
  ed_NotObserved : bool;
  ed_Deployment : option DeploymentCondition;
  ed_PodName : string;
  ed_Pod : option PodCondition;
  ed_Container : option ContainerStatus
}.

Definition getContainerStateReason (s : ContainerState) : string :=
  match s with
  | StateWaiting reason message =>
      "[waiting] reason[" +:+ reason +:+ "]" +:+ (if decide (message = "") then "" else ": " +:+ message)
  | StateTerminated reason message =>
      "[terminated] reason[" +:+ reason +:+ "]" +:+ (if decide (message = "") then "" else ": " +:+ message)
  | StateRunning => "[running]"
  | StateNone => "[unknown]"
  end.

Definition GetContainerMessage (s : ContainerStatus) : string :=
  let ret := "container[" +:+ cs_Name s +:+ "]:" in
  if 0 <? cs_RestartCount s
  then ret +:+ " restartCount[" +:+ Itoa (cs_RestartCount s) +:+ "]" +:+ " lastState"
       +:+ getContainerStateReason (cs_LastTerminationState s)
  else ret +:+ " currentState" +:+ getContainerStateReason (cs_State s).

Definition errorDetail_String (m : ComponentErrorDetail) : string :=
  let ret := "component[" +:+ ed_ComponentName m +:+ "]: " in
  let workload := if decide (ed_WorkloadKind m = "") then "deployment" else ed_WorkloadKind m in
  match ed_Pod m with
  | Some pod =>
      ret +:+ "pod[" +:+ ed_PodName m +:+ "]: " +:+
      match ed_Container m with
      | Some c => GetContainerMessage c
      | None => "status[" +:+ pc_Type pod +:+ ":" +:+ conditionString (pc_Status pod) +:+ "]: reason["
                +:+ pc_Reason pod +:+ "]: " +:+ pc_Message pod
      end
  | None =>
      if ed_NotObserved m then ret +:+ "updating " +:+ workload
      else
        match ed_Deployment m with
        | None => ret +:+ workload +:+ " not created"
        | Some d => ret +:+ "deployment status[" +:+ dc_Type d +:+ ":" +:+ conditionString (dc_Status d)
                    +:+ "]: reason[" +:+ dc_Reason d +:+ "]: " +:+ dc_Message d
        end
  end.

Definition DeploymentConditionNotSet : DeploymentCondition := mkDCond "" ConditionUnset "" "" 0 0.
Definition PodConditionNotSet : PodCondition := mkPCond "" ConditionUnset "" "".

Definition GetDeploymentConditionByType (conditions : list DeploymentCondition) (t : string)
    : DeploymentCondition :=
  default DeploymentConditionNotSet (snd <$> list_find (fun c => dc_Type c = t) conditions).

Definition GetPodConditionByType (conditions : list PodCondition) (t : string) : PodCondition :=
  default PodConditionNotSet (snd <$> list_find (fun c => pc_Type c = t) conditions).

Definition initializing (t message : string) : DeploymentCondition :=
  mkDCond t ConditionFalse reasonInitializing message 0 0.

(** The loop over the condition types to check. *)
Fixpoint firstFalse (conditions : list DeploymentCondition) (types : list string)
    : option DeploymentCondition :=
  match types with
  | [] => None
  | t :: rest =>
      let condition := GetDeploymentConditionByType conditions t in
      if bool_decide (condition = DeploymentConditionNotSet) then Some (initializing t "creating")
      else if negb (bool_decide (dc_Status condition = ConditionTrue)) then Some condition
      else firstFalse conditions rest
  end.

Definition GetDeploymentFalseCondition (deploy : Deployment) : err + DeploymentCondition :=
  let conditions := dss_Conditions (dep_Status deploy) in
  let condition := GetDeploymentConditionByType conditions DeploymentReplicaFailureType in
  if negb (bool_decide (condition = DeploymentConditionNotSet)) then inr condition
  else
    match firstFalse conditions [DeploymentProgressingType; DeploymentAvailableType] with
    | Some c => inr c
    | None =>
        if dss_ReadyReplicas (dep_Status deploy) <? 1
        then inr (initializing DeploymentProgressingType "creating")
        else inl (ENew "all conditions are ok")
    end.

Fixpoint firstFalsePod (conditions : list PodCondition) (types : list (string * string))
    : option PodCondition :=
  match types with
  | [] => None
  | (t, message) :: rest =>
      let condition := GetPodConditionByType conditions t in
      if bool_decide (condition = PodConditionNotSet)
      then Some (mkPCond t ConditionFalse reasonInitializing message)
      else if negb (bool_decide (pc_Status condition = ConditionTrue)) then Some condition
      else firstFalsePod conditions rest
  end.

Definition GetPodFalseCondition (pod : Pod) : err + PodCondition :=
  match firstFalsePod (pod_Conditions pod)
          [("PodScheduled", "scheduling"); ("Initialized", "initializing");
           ("ContainersReady", "containers starting"); (PodReadyType, "updating condition to ready")] with
  | Some c => inr c
  | None => inl (ENew "all conditions are true")
  end.

Definition getFirstNotReadyContainerStatus (statuses : list ContainerStatus) : option ContainerStatus :=
  snd <$> list_find (fun s => cs_Ready s = false) statuses.

(** Conditions of the type are replaced; without one the condition is
    appended. *)
Definition UpdateDeploymentCondition (conditions : list DeploymentCondition) (cond : DeploymentCondition)
    : list DeploymentCondition :=
  let ret := (fun c => if decide (dc_Type c = dc_Type cond) then cond else c) <$> conditions in
  if existsb (fun c => bool_decide (dc_Type c = dc_Type cond)) conditions then ret else ret ++ [cond].

(** The first pod that is not ready, with its first container that is not. *)
Definition podErrorDetail (ret : ComponentErrorDetail) (pods : list Pod) : err + ComponentErrorDetail :=
  match list_find (fun p => PodReady p = false) pods with
  | None => inr ret
  | Some (_, pod) =>
      match GetPodFalseCondition pod with
      | inl e => inl e
      | inr c =>
          inr (mkErrorDetail (ed_ComponentName ret) (ed_WorkloadKind ret) (ed_NotObserved ret)
                 (ed_Deployment ret) (om_Name (pod_Meta pod)) (Some c)
                 (getFirstNotReadyContainerStatus (pod_ContainerStatuses pod)))
      end
  end.

Definition lift {A} (r : err + A) : prog A := match r with inl e => Fail e | inr a => Ret a end.

Definition collectPodErrorDetail (ret : ComponentErrorDetail) (namespace : string)
    (selector : gmap string string) : prog ComponentErrorDetail :=
  pods ← wrap "list pods" (read (ListPods namespace selector));
  lift (podErrorDetail ret pods).

Definition getComponentErrorDetail (component : string) (deploy : option Deployment)
    : prog ComponentErrorDetail :=
  match deploy with
  | None => Ret (mkErrorDetail component "" false None "" None None)
  | Some d =>
      if dss_ObservedGeneration (dep_Status d) <? om_Generation (dep_Meta d)
      then Ret (mkErrorDetail component "" true None "" None None)
      else
        c ← lift (GetDeploymentFalseCondition d);
        collectPodErrorDetail (mkErrorDetail component "" false (Some c) "" None None)
          (om_Namespace (dep_Meta d)) (dsp_Selector (dep_Spec d))
  end.

Definition getStatefulSetErrorDetail (component : string) (sts : option StatefulSet)
    : prog ComponentErrorDetail :=
  let ret b := mkErrorDetail component "statefulset" b None "" None None in
  match sts with
  | None => Ret (ret false)
  | Some s =>
      if sts_ObservedGeneration s <? om_Generation (sts_Meta s) then Ret (ret true)
      else
        match sts_Selector s with
        | None => Ret (ret false)
        | Some sel => collectPodErrorDetail (ret false) (om_Namespace (sts_Meta s)) sel
        end
  end.

(** ** Deploy status of the components *)

Definition containerImage (component : MilvusComponent) (t : PodTemplateSpec) : string :=
  match list_find (fun c => ct_Name c = Name component) (ps_Containers (pt_Spec t)) with
  | Some (_, c) => ct_Image c
  | None => ""
  end.

Definition componentDeployStatus (component : MilvusComponent) (deployment : option Deployment)
    : ComponentDeployStatus :=
  match deployment with
  | None => zeroDeployStatus
  | Some d => mkDeployStatus (om_Generation (dep_Meta d))
                (containerImage component (dsp_Template (dep_Spec d))) (dep_Status d)
  end.

(** [int32] subtraction and addition. *)
Definition sub32 (a b : Z) : Z := int32_of (a - b).
Definition add32 (a b : Z) : Z := int32_of (a + b).

Definition synthesizeStatefulSetStatus (now : Z) (component : MilvusComponent) (sts : StatefulSet)
    : ComponentDeployStatus :=
  let desired := ReplicasValue (sts_Replicas sts) in
  let available := sts_AvailableReplicas sts in
  let unavailable := sub32 desired available in
  let unavailable := if unavailable <? 0 then 0 else unavailable in
  let updated := sts_UpdatedReplicas sts in
  let observed := om_Generation (sts_Meta sts) <=? sts_ObservedGeneration sts in
  let rolloutComplete := observed && (updated =? desired)
                         && bool_decide (sts_CurrentRevision sts = sts_UpdateRevision sts) in
  let reason := if rolloutComplete then NewReplicaSetAvailableReason else "StatefulSetUpdating" in
  let availableStatus := if (desired <=? available) && (0 <? desired) then ConditionTrue
                         else ConditionFalse in
  mkDeployStatus (om_Generation (sts_Meta sts)) (containerImage component (sts_Template sts))
    (mkDStatus (sts_ObservedGeneration sts) (sts_StatusReplicas sts) updated (sts_ReadyReplicas sts)
       available unavailable
       [mkDCond DeploymentProgressingType ConditionTrue reason "" now now;
        mkDCond DeploymentAvailableType availableStatus "StatefulSetAvailable" "" now now]).

(** The flags of the loop of [aggregateComponentDeployStatuses]. *)
Record aggregation := mkAggregation {
  ag_allComplete : bool;
  ag_allCompleteOrPaused : bool;
  ag_allAvailable : bool;
  ag_anyFailed : bool
}.

(** One round of the loop, on the status so far and the flags. *)
Definition aggregateOne (acc : ComponentDeployStatus * aggregation) (status : ComponentDeployStatus)
    : ComponentDeployStatus * aggregation :=
  let '(ret, f) := acc in
  let s := cds_Status status in
  let r := cds_Status ret in
  let generation := if cds_Generation ret <? cds_Generation status then cds_Generation status
                    else cds_Generation ret in
  let image := if decide (cds_Image status = cds_Image ret) then cds_Image ret else "" in
  let ret := mkDeployStatus generation image
    (mkDStatus (dss_ObservedGeneration r) (add32 (dss_Replicas r) (dss_Replicas s))
       (add32 (dss_UpdatedReplicas r) (dss_UpdatedReplicas s))
       (add32 (dss_ReadyReplicas r) (dss_ReadyReplicas s))
       (add32 (dss_AvailableReplicas r) (dss_AvailableReplicas s))
       (add32 (dss_UnavailableReplicas r) (dss_UnavailableReplicas s)) (dss_Conditions r)) in
  let allAvailable := if negb (DeploymentReady s) then false else ag_allAvailable f in
  (ret,
   match GetState status with
   | DeploymentComplete =>
       mkAggregation (ag_allComplete f) (ag_allCompleteOrPaused f) allAvailable (ag_anyFailed f)
   | DeploymentPaused => mkAggregation false (ag_allCompleteOrPaused f) allAvailable (ag_anyFailed f)
   | DeploymentFailed => mkAggregation false false allAvailable true
   | DeploymentProgressing => mkAggregation false false allAvailable (ag_anyFailed f)
   end).

Definition aggregateComponentDeployStatuses (now : Z) (statuses : list ComponentDeployStatus)
    : ComponentDeployStatus :=
  match statuses with
  | [] => zeroDeployStatus
  | first :: _ =>
      let '(ret, f) := fold_left aggregateOne statuses
        (mkDeployStatus 0 (cds_Image first) zeroDeploymentStatus, mkAggregation true true true false) in
      let '(status, reason) :=
        if ag_allComplete f then (ConditionTrue, NewReplicaSetAvailableReason)
        else if ag_allCompleteOrPaused f then (ConditionTrue, DeploymentPausedReason)
        else if ag_anyFailed f then (ConditionFalse, "DeploymentGroupFailed")
        else (ConditionTrue, "DeploymentGroupsUpdating") in
      let r := cds_Status ret in
      mkDeployStatus (cds_Generation ret) (cds_Image ret)
        (mkDStatus (cds_Generation ret) (dss_Replicas r) (dss_UpdatedReplicas r) (dss_ReadyReplicas r)
           (dss_AvailableReplicas r) (dss_UnavailableReplicas r)
           [mkDCond DeploymentProgressingType status reason "" now now;
            mkDCond DeploymentAvailableType (if ag_allAvailable f then ConditionTrue else ConditionFalse)
              "DeploymentGroupsAggregated" "" now now])
  end.

Section WithLibs.
Context {SV : Semver} {KL : KubeLib} {KM : KubeMessages}.

(** The deployments of a workload: controlled by the resource, of the
    component and group, and of the current slot if there is one. *)
Definition ofWorkload (mc : Milvus) (workload : MilvusComponent) (d : Deployment) : bool :=
  IsControlledBy (dep_Meta d) (mi_Meta mc)
  && bool_decide (mget (dep_Labels d) AppLabelComponent = Name workload)
  && MatchesDeploymentGroup workload (dep_Labels d)
  && (let currentSlot := GetCurrentGroupId mc (GetStateKey workload) in
      bool_decide (currentSlot = "")
      || bool_decide (GetLabelGroupID (Name workload) (dep_Labels d) = currentSlot)).

(** The condition of a component whose rollout is in progress. *)
Definition rollingCondition (mc : Milvus) (workload : MilvusComponent) : DeploymentCondition :=
  mkDCond DeploymentProgressingType ConditionFalse "Rolling"
    ("rolling id " +:+ GetComponentRollingId mc (GetStateKey workload)) 0 0.

Definition selectDeployment (mc : Milvus) (deploys : list Deployment) (workload : MilvusComponent)
    : option Deployment :=
  '(_, d) ← list_find (fun d => ofWorkload mc workload d = true) deploys;
  Some (if IsComponentRolling mc (GetStateKey workload)
        then set_dep_Conditions d (UpdateDeploymentCondition (dss_Conditions (dep_Status d))
                                     (rollingCondition mc workload))
        else d).

(** Keyed by state key; a workload without a deployment has no entry. *)
Definition makeWorkloadDeploymentMap (mc : Milvus) (deploys : list Deployment) : gmap string Deployment :=
  let deploys := SliceStable dep_Name deploys in
  fold_left (fun ret workload =>
      match selectDeployment mc deploys workload with
      | Some d => <[GetStateKey workload := d]> ret
      | None => ret
      end)
    (GetComponentWorkloadsBySpec (mi_Spec mc)) ∅.

Definition componentUsesStatefulSet (mc : Milvus) (component : MilvusComponent) : bool :=
  let com := mi_Com mc in
  if bool_decide (Name component = "querynode") then QueryNode_StatefulSetEnabled (com_QueryNode com)
  else if bool_decide (Name component = "datanode") then DataNode_StatefulSetEnabled (com_DataNode com)
  else if bool_decide (Name component = "indexnode") then IndexNode_StatefulSetEnabled (com_IndexNode com)
  else false.

Definition getStatefulSetForComponent (mc : Milvus) (component : MilvusComponent)
    : prog (option StatefulSet) :=
  r ← attempt (read (GetStatefulSet (mi_Namespace mc) (GetDeploymentName component (mi_Name mc))));
  match r with
  | inr sts => Ret (Some sts)
  | inl e => if IsNotFound e then Ret None else Fail e
  end.

Definition appSelector (mc : Milvus) : gmap string string :=
  {[ AppLabelInstance := mi_Name mc; AppLabelName := "milvus" ]}.

(** The maps [componentStatuses], [groupStatuses] and [groupedByComponent]. *)
Record deployStatuses := mkDeployStatuses {
  ds_component : gmap string ComponentDeployStatus;
  ds_group : gmap string (gmap string ComponentDeployStatus);
  ds_grouped : gmap string (list ComponentDeployStatus)
}.

Definition addGroupStatus (workload : MilvusComponent) (status : ComponentDeployStatus)
    (ds : deployStatuses) : deployStatuses :=
  mkDeployStatuses (ds_component ds)
    (<[Name workload := <[GetDeploymentGroupName workload := status]>
                          (default ∅ (ds_group ds !! Name workload))]> (ds_group ds))
    (<[Name workload := default [] (ds_grouped ds !! Name workload) ++ [status]]> (ds_grouped ds)).

Definition addComponentStatus (workload : MilvusComponent) (status : ComponentDeployStatus)
    (ds : deployStatuses) : deployStatuses :=
  mkDeployStatuses (<[Name workload := status]> (ds_component ds)) (ds_group ds) (ds_grouped ds).

(** A workload's status under its name, or under its group's. *)
Definition addStatus (workload : MilvusComponent) (status : ComponentDeployStatus) (ds : deployStatuses)
    : deployStatuses :=
  match DeploymentGroupOf workload with
  | None => addComponentStatus workload status ds
  | Some _ => addGroupStatus workload status ds
  end.

(** The loop over the workloads. *)
Fixpoint collectStatuses (mc : Milvus) (deploys : gmap string Deployment)
    (workloads : list MilvusComponent) (ds : deployStatuses) : prog deployStatuses :=
  match workloads with
  | [] => Ret ds
  | workload :: rest =>
      if componentUsesStatefulSet mc workload then
        sts ← wrap ("get " +:+ Name workload +:+ " statefulset") (getStatefulSetForComponent mc workload);
        match sts with
        | None => collectStatuses mc deploys rest ds
        | Some sts =>
            now ← read Now;
            collectStatuses mc deploys rest
              (addStatus workload (synthesizeStatefulSetStatus now workload sts) ds)
        end
      else
        let deployment := deploys !! GetStateKey workload in
        let status := componentDeployStatus workload deployment in
        collectStatuses mc deploys rest
          (match DeploymentGroupOf workload, deployment with
           | None, None => ds
           | _, _ => addStatus workload status ds
           end)
  end.

(** The loop over [groupedByComponent]; the time is the same for all of them. *)
Definition aggregateAll (now : Z) (ds : deployStatuses) : gmap string ComponentDeployStatus :=
  (aggregateComponentDeployStatuses now <$> ds_grouped ds) ∪ ds_component ds.

Definition set_DeployStatuses (s : MilvusStatus) (cs : gmap string ComponentDeployStatus)
    (gs : gmap string (gmap string ComponentDeployStatus)) : MilvusStatus :=
  mkStatus (st_Status s) (st_Conditions s) (st_Endpoint s) (st_IngressStatus s) cs gs (st_RollingMode s)
    (st_ObservedGeneration s) (st_CurrentImage s) (st_CurrentVersion s).

Definition deployStatus_Update (mc : Milvus) : prog Milvus :=
  deploys ← wrap "list deployments failed" (read (ListDeployments (mi_Namespace mc) (appSelector mc)));
  ds ← collectStatuses mc (makeWorkloadDeploymentMap mc deploys)
         (GetComponentWorkloadsBySpec (mi_Spec mc)) (mkDeployStatuses ∅ ∅ ∅);
  now ← read Now;
  Ret (set_mi_Status mc (set_DeployStatuses (mi_Status mc) (aggregateAll now ds) (ds_group ds))).

(** ** Conditions *)

Definition ReasonMilvusHealthy : string := "ReasonMilvusHealthy".
Definition ReasonMilvusComponentNotHealthy : string := "MilvusComponentNotHealthy".
Definition ReasonMilvusStopped : string := "MilvusStopped".
Definition ReasonMilvusStopping : string := "MilvusStopping".
Definition ReasonMilvusComponentsUpdated : string := "MilvusComponentsUpdated".
Definition ReasonMilvusComponentsUpdating : string := "MilvusComponentsUpdating".
Definition ReasonMilvusUpgradingImage : string := "MilvusUpgradingImage".
Definition ReasonMilvusDowngradingImage : string := "MilvusDowngradingImage".

Definition newCondition (t : string) (s : ConditionStatus) (reason message : string) : MilvusCondition :=
  mkCondition t s None reason message.

(** The zero value, which [UpdateCondition] ignores. *)
Definition zeroCondition : MilvusCondition := newCondition "" ConditionUnset "" "".

Definition terminating (p : Pod) : Prop := om_DeletionTimestamp (pod_Meta p) <> None.

Definition filterTerminatingPod (pods : list Pod) : list Pod := filter terminating pods.

Definition listMilvusPods (mc : Milvus) : prog (list Pod) :=
  read (ListPods (mi_Namespace mc) (NewAppLabels (mi_Name mc))).

Definition ListMilvusTerminatingPods (mc : Milvus) : prog (list Pod) :=
  pods ← listMilvusPods mc; Ret (filterTerminatingPod pods).

Definition CheckComponentHasTerminatingPod (mc : Milvus) (component : MilvusComponent) : prog bool :=
  pods ← read (ListPods (mi_Namespace mc) (GetSelectorLabels component (mi_Name mc)));
  Ret (match filterTerminatingPod pods with [] => false | _ => true end).

(** Every terminating pod is tried; the error is that of the last one that
    fails. *)
Fixpoint killPods (pods : list Pod) (ret : option err) : prog unit :=
  match pods with
  | [] => match ret with Some e => Fail (EWrap "failed to kill some milvus pod" e) | None => Ret tt end
  | pod :: rest =>
      if decide (terminating pod) then
        r ← attempt (write (ExecKill (om_Namespace (pod_Meta pod)) (om_Name (pod_Meta pod))
                              (mget (om_Labels (pod_Meta pod)) AppLabelComponent)));
        killPods rest (match r with inl e => Some e | inr _ => ret end)
      else killPods rest ret
  end.

Definition ExecKillIfTerminating (pods : list Pod) : prog unit := killPods pods None.

Definition CheckMilvusStopped (mc : Milvus) : prog bool :=
  pods ← listMilvusPods mc;
  match pods with
  | [] => Ret true
  | _ => _ ← ExecKillIfTerminating pods; Ret false
  end.

Definition getStoppingCondition (mc : Milvus) : prog MilvusCondition :=
  stopped ← CheckMilvusStopped mc;
  Ret (if stopped : bool
       then newCondition MilvusReady ConditionFalse ReasonMilvusStopped "All Milvus components are stopped"
       else newCondition MilvusReady ConditionFalse ReasonMilvusStopping
              "All Milvus components are stopping").

(** The variables of the loop of [GetMilvusInstanceCondition]. *)
Record readiness := mkReadiness {
  rd_notReady : list string;
  rd_errDetail : option ComponentErrorDetail;
  rd_hasEntryReplicas : bool
}.

(** A component that is not ready; the detail is that of the first one. *)
Definition notReady (rd : readiness) (component : MilvusComponent)
    (detail : prog ComponentErrorDetail) : prog readiness :=
  let names := rd_notReady rd ++ [GetDisplayName component] in
  match rd_errDetail rd with
  | Some _ => Ret (mkReadiness names (rd_errDetail rd) (rd_hasEntryReplicas rd))
  | None =>
      d ← wrap "failed to get component err detail" detail;
      Ret (mkReadiness names (Some d) (rd_hasEntryReplicas rd))
  end.

(** One component of the loop. *)
Definition checkComponent (mc : Milvus) (deploys : gmap string Deployment) (component : MilvusComponent)
    (rd : readiness) : prog readiness :=
  if componentUsesStatefulSet mc component then
    sts ← wrap ("get " +:+ Name component +:+ " statefulset") (getStatefulSetForComponent mc component);
    ready ← match sts with
            | Some s =>
                now ← read Now;
                Ret (DeploymentReady (cds_Status (synthesizeStatefulSetStatus now component s)))
            | None => Ret false
            end;
    if ready : bool then Ret rd
    else notReady rd component (getStatefulSetErrorDetail (GetDisplayName component) sts)
  else
    let deployment := deploys !! GetStateKey component in
    match deployment with
    | Some d =>
        if DeploymentReady (dep_Status d) then
          Ret (if IsService component && (0 <? dss_ReadyReplicas (dep_Status d))
               then mkReadiness (rd_notReady rd) (rd_errDetail rd) true else rd)
        else notReady rd component (getComponentErrorDetail (GetDisplayName component) deployment)
    | None =>
        if IsIdleClusterStandalone (mi_Spec mc) component then Ret rd
        else notReady rd component (getComponentErrorDetail (GetDisplayName component) None)
    end.

Fixpoint checkComponents (mc : Milvus) (deploys : gmap string Deployment)
    (components : list MilvusComponent) (rd : readiness) : prog readiness :=
  match components with
  | [] => Ret rd
  | c :: rest => rd ← checkComponent mc deploys c rd; checkComponents mc deploys rest rd
  end.

(** [%s] of a list of strings. *)
Definition sprintList (l : list string) : string := "[" +:+ String.concat " " l +:+ "]".

Definition instanceCondition (rd : readiness) : MilvusCondition :=
  match rd_notReady rd with
  | [] => if negb (rd_hasEntryReplicas rd) then zeroCondition
          else newCondition MilvusReady ConditionTrue ReasonMilvusHealthy "All Milvus components are healthy"
  | names =>
      newCondition MilvusReady ConditionFalse ReasonMilvusComponentNotHealthy
        (sprintList names +:+ " not ready, detail: "
         +:+ match rd_errDetail rd with Some d => errorDetail_String d | None => "<nil>" end)
  end.

Definition GetMilvusInstanceCondition (mc : Milvus) : prog MilvusCondition :=
  stopping ← deref (isMilvusStoppingForReconcile mc);
  if stopping : bool then getStoppingCondition mc
  else
    deploys ← read (ListDeployments (mi_Namespace mc) (appSelector mc));
    rd ← checkComponents mc (makeWorkloadDeploymentMap mc deploys)
           (GetComponentWorkloadsBySpec (mi_Spec mc)) (mkReadiness [] None false);
    Ret (instanceCondition rd).

(** The status of a workload, the zero value if it has none. *)
Definition workloadStatus (s : MilvusStatus) (workload : MilvusComponent) : ComponentDeployStatus :=
  match DeploymentGroupOf workload with
  | None => default zeroDeployStatus (st_ComponentsDeployStatus s !! Name workload)
  | Some _ => default zeroDeployStatus
                (m ← st_DeploymentGroupsDeployStatus s !! Name workload; m !! GetDeploymentGroupName workload)
  end.

Definition workloadUpdating (m : Milvus) (workload : MilvusComponent) : bool :=
  let deployState := GetState (workloadStatus (mi_Status m) workload) in
  (negb (bool_decide (deployState = DeploymentComplete))
   && negb (bool_decide (deployState = DeploymentPaused)))
  || IsComponentRolling m (GetStateKey workload).

Definition workloadUpdatingImage (m : Milvus) (workload : MilvusComponent) : bool :=
  IsRollingUpdateEnabled m
  && negb (bool_decide (cds_Image (workloadStatus (mi_Status m) workload)
                        = csp_Image (com_ComponentSpec (mi_Com m)))).

Definition GetMilvusUpdatedCondition (m : Milvus) : MilvusCondition :=
  let workloads := filter (fun w => IsIdleClusterStandalone (mi_Spec m) w = false)
                     (GetComponentWorkloadsBySpec (mi_Spec m)) in
  let updatingComponent :=
    GetDisplayName <$> filter (fun w => workloadUpdating m w = true) workloads in
  let isUpdatingImage := existsb (workloadUpdatingImage m) workloads in
  let names := String.concat "," updatingComponent in
  match isUpdatingImage, com_ImageUpdateMode (mi_Com m), updatingComponent with
  | true, ImageUpdateModeRollingUpgrade, _ =>
      newCondition MilvusUpdated ConditionFalse ReasonMilvusUpgradingImage
        ("Milvus is performing rolling upgrade pending components[" +:+ names +:+ "]")
  | true, ImageUpdateModeRollingDowngrade, _ =>
      newCondition MilvusUpdated ConditionFalse ReasonMilvusDowngradingImage
        ("{Milvus is performing rolling downgrade, pending components[" +:+ names +:+ "]}")
  | _, _, _ :: _ =>
      newCondition MilvusUpdated ConditionFalse ReasonMilvusComponentsUpdating
        ("Milvus components[" +:+ names +:+ "] are updating")
  | _, _, [] =>
      newCondition MilvusUpdated ConditionTrue ReasonMilvusComponentsUpdated
        "Milvus components are all updated"
  end.

Definition GetMilvusHealthStatus (LastState : MilvusHealthStatus) (IsStopping IsHealthy : bool)
    : MilvusHealthStatus :=
  if IsStopping then StatusStopped
  else if IsHealthy then StatusHealthy
  else match LastState with
       | StatusHealthy | StatusUnhealthy => StatusUnhealthy
       | _ => StatusPending
       end.

(** ** The update of the status *)

Definition getIngressStatus (namespace name : string) : prog json :=
  r ← attempt (read (GetIngressStatus namespace name));
  match r with
  | inr status => Ret status
  | inl e => if IsNotFound e then Ret JNull else Fail e
  end.

Definition with_st (mc : Milvus) (f : MilvusStatus -> MilvusStatus) : Milvus :=
  set_mi_Status mc (f (mi_Status mc)).

Definition set_IngressStatus (j : json) (s : MilvusStatus) : MilvusStatus :=
  mkStatus (st_Status s) (st_Conditions s) (st_Endpoint s) j (st_ComponentsDeployStatus s)
    (st_DeploymentGroupsDeployStatus s) (st_RollingMode s) (st_ObservedGeneration s)
    (st_CurrentImage s) (st_CurrentVersion s).

Definition set_Endpoint (e : string) (s : MilvusStatus) : MilvusStatus :=
  mkStatus (st_Status s) (st_Conditions s) e (st_IngressStatus s) (st_ComponentsDeployStatus s)
    (st_DeploymentGroupsDeployStatus s) (st_RollingMode s) (st_ObservedGeneration s)
    (st_CurrentImage s) (st_CurrentVersion s).

Definition set_ObservedGeneration (g : Z) (s : MilvusStatus) : MilvusStatus :=
  mkStatus (st_Status s) (st_Conditions s) (st_Endpoint s) (st_IngressStatus s)
    (st_ComponentsDeployStatus s) (st_DeploymentGroupsDeployStatus s) (st_RollingMode s) g
    (st_CurrentImage s) (st_CurrentVersion s).

Definition set_Current (image version : string) (s : MilvusStatus) : MilvusStatus :=
  mkStatus (st_Status s) (st_Conditions s) (st_Endpoint s) (st_IngressStatus s)
    (st_ComponentsDeployStatus s) (st_DeploymentGroupsDeployStatus s) (st_RollingMode s)
    (st_ObservedGeneration s) image version.

Definition set_HealthStatus (h : MilvusHealthStatus) (s : MilvusStatus) : MilvusStatus :=
  mkStatus h (st_Conditions s) (st_Endpoint s) (st_IngressStatus s) (st_ComponentsDeployStatus s)
    (st_DeploymentGroupsDeployStatus s) (st_RollingMode s) (st_ObservedGeneration s)
    (st_CurrentImage s) (st_CurrentVersion s).

(** The zero [IngressStatus] is kept as [JNull]. *)
Definition UpdateIngressStatus (mc : Milvus) : prog Milvus :=
  service ← deref (GetServiceComponent (mi_Spec mc));
  match sc_Ingress service with
  | None => Ret mc
  | Some _ =>
      status ← wrap "get ingress status failed"
                 (getIngressStatus (mi_Namespace mc) (mi_Name mc +:+ "-milvus"));
      Ret (with_st mc (set_IngressStatus status))
  end.

Definition GetMilvusEndpoint (namespace name serviceType : string) (port : Z) : prog string :=
  if bool_decide (serviceType = "LoadBalancer") then
    r ← attempt (read (GetService namespace (GetServiceInstanceName name)));
    Ret (match r with
         | inr svc => match svc_LoadBalancerIPs svc with
                      | [] => ""
                      | ip :: _ => ip +:+ ":" +:+ Itoa port
                      end
         | inl _ => ""
         end)
  else if bool_decide (serviceType = "ClusterIP")
  then Ret (name +:+ "-milvus." +:+ namespace +:+ ":" +:+ Itoa port)
  else Ret "".

Definition syncer_GetMilvusEndpoint (mc : Milvus) : prog string :=
  service ← deref (GetServiceComponent (mi_Spec mc));
  GetMilvusEndpoint (mi_Namespace mc) (mi_Name mc) (sc_ServiceType service) MilvusPort.

(** [UpdateCondition] at the current time. *)
Definition updateConditionNow (mc : Milvus) (c : MilvusCondition) : prog Milvus :=
  now ← read Now;
  Ret (with_st mc (fun s => UpdateCondition now s c)).

Definition dependencyConditionTypes : list string := [EtcdReady; StorageReady; MsgStreamReady].

(** The probes run in parallel on a copy of the resource ([RunWithResult]) and
    write nothing, so their order does not matter; the results are in the order
    of the functions. *)
Fixpoint probeDependencies (types : list string) (mc : Milvus) : prog (list (err + MilvusCondition)) :=
  match types with
  | [] => Ret []
  | t :: rest =>
      r ← attempt (read (ProbeDependency t mc));
      rs ← probeDependencies rest mc;
      Ret (r :: rs)
  end.

(** The loop over the results; all of them are taken into account before an
    error is returned. *)
Fixpoint recordProbes (ress : list (err + MilvusCondition)) (mc : Milvus) (errTexts : list string) : prog Milvus :=
  match ress with
  | [] =>
      match errTexts with
      | [] => Ret mc
      | _ => Fail (ENew ("check dependency conditions error: " +:+ String.concat ":" errTexts))
      end
  | inr c :: rest => mc ← updateConditionNow mc c; recordProbes rest mc errTexts
  | inl e :: rest => recordProbes rest mc (errTexts ++ [Error e])
  end.

Definition checkDependencyConditions (mc : Milvus) : prog Milvus :=
  stopping ← deref (isMilvusStoppingForReconcile mc);
  if negb stopping then ress ← probeDependencies dependencyConditionTypes mc; recordProbes ress mc []
  else Ret (with_st mc (fun s => RemoveConditions s dependencyConditionTypes)).

(** The condition with terminating pods taken into account; in force mode the
    pods are killed, and a failure of that is only logged. *)
Definition handleTerminatingPods (mc : Milvus) (updatedCond : MilvusCondition) : prog MilvusCondition :=
  pods ← ListMilvusTerminatingPods mc;
  match pods with
  | [] => Ret updatedCond
  | _ =>
      _ ← (if decide (com_ImageUpdateMode (mi_Com mc) = ImageUpdateModeForce)
           then attempt (ExecKillIfTerminating pods) else Ret (inr tt));
      Ret (newCondition (mc_Type updatedCond) ConditionFalse ReasonMilvusComponentsUpdating
             "Milvus has terminating pods")
  end.

Definition syncUpdatedCondition (mc : Milvus) : prog Milvus :=
  updatedCond ← handleTerminatingPods mc (GetMilvusUpdatedCondition mc);
  updateConditionNow mc updatedCond.

Definition IsMilvusConditionTrueByType (conditions : list MilvusCondition) (t : string) : bool :=
  match list_find (fun c => mc_Type c = t) conditions with
  | Some (_, c) => bool_decide (mc_Status c = ConditionTrue)
  | None => false
  end.

Definition recordCurrent (mc : Milvus) : Milvus :=
  let conditions := st_Conditions (mi_Status mc) in
  if IsMilvusConditionTrueByType conditions MilvusReady
     && IsMilvusConditionTrueByType conditions MilvusUpdated
  then with_st mc (set_Current (csp_Image (com_ComponentSpec (mi_Com mc)))
                     (csp_Version (com_ComponentSpec (mi_Com mc))))
  else mc.

Definition UpdateStatusForNewGeneration (Debug : bool) (mc : Milvus) (checkDependency : bool) : prog Milvus :=
  let beginStatus := mi_Status mc in
  let mc := with_st mc (set_ObservedGeneration (om_Generation (mi_Meta mc))) in
  mc ← (if negb Debug && checkDependency
        then wrap "check dependency conditions failed" (checkDependencyConditions mc) else Ret mc);
  mc ← wrap "update ingress status failed" (UpdateIngressStatus mc);
  mc ← wrap "update deploy status failed" (deployStatus_Update mc);
  endpoint ← syncer_GetMilvusEndpoint mc;
  let mc := with_st mc (set_Endpoint endpoint) in
  milvusCond ← GetMilvusInstanceCondition mc;
  mc ← updateConditionNow mc milvusCond;
  mc ← wrap "handle terminating pods failed" (syncUpdatedCondition mc);
  let mc := recordCurrent mc in
  stopping ← deref (isMilvusStoppingForReconcile mc);
  let mc := with_st mc (fun s => set_HealthStatus
    (GetMilvusHealthStatus (st_Status s) stopping
       (bool_decide (mc_Status milvusCond = ConditionTrue))) s) in
  if DeepEqual beginStatus (mi_Status mc) then Ret mc
  else _ ← write (UpdateMilvusStatus mc); Ret mc.
End WithLibs.
