(* ===== verification/WebhookProofs.v ===== *)
(** * Properties of the admission of a Milvus resource

    Defaulting configures every component the spec deploys. *)
From S2P Require Import Prelude KubeTypes Libs ApiTypes UpgradeTypes Labels Effects Utils Components.
From S2P Require Import Examples RollingUpdate ScalePlanner K8sUtil DeployUtil SpecProofs UpgradeFsm.
From S2P Require Import UpgradeProofs UpgradeRestore Webhook.

Local Open Scope string_scope.
Local Open Scope list_scope.
Local Open Scope Z_scope.

(** ** Fields *)

Lemma componentField_ensure com f f' :
  componentField (ensureField com f) f'
  = if decide (f = f') then Some (default emptyComponent (componentField com f'))
    else componentField com f'.
Proof. destruct f, f'; solve_field com. Qed.

Lemma componentField_head com a b c d e g f :
  componentField (set_com_head com a b c d e g) f = componentField com f.
Proof. by destruct f. Qed.

Lemma ensure_id com f : is_Some (componentField com f) -> ensureField com f = com.
Proof.
  intros [x Hx]. destruct com; destruct f; simpl in *; unfold with_head; simpl;
    try (rewrite Hx; done);
    match goal with H : _ <$> ?o = Some _ |- _ => destruct o; done end.
Qed.

(** A write of a field that changes nothing. *)
Lemma update_id com f upd :
  (forall c, componentField com f = Some c -> upd c = c) -> update_component com f upd = com.
Proof.
  intros H. destruct com; destruct f; simpl in *;
    match goal with
    | H : forall c, _ <$> ?o = Some c -> _ |- _ => destruct o as [x|]; [|done]; specialize (H _ eq_refl)
    | H : forall c, ?o = Some c -> _ |- _ => destruct o as [x|]; [|done]; specialize (H _ eq_refl)
    end; simpl in *; try (rewrite H; done);
    rewrite H; destruct x as [y ?]; try done; by destruct y.
Qed.

(** ** Defaulting *)

Definition hasField (com : MilvusComponents) (f : ComponentField) : Prop := is_Some (componentField com f).

(** A configured component with replicas. *)
Definition ready (com : MilvusComponents) (f : ComponentField) : Prop :=
  exists c, componentField com f = Some c /\ is_Some (co_Replicas c).

(** The components keep their head and their fields, and gain replicas. *)
Definition extends (com com' : MilvusComponents) : Prop :=
  com_ComponentSpec com' = com_ComponentSpec com /\ com_StreamingMode com' = com_StreamingMode com /\
  (forall f, hasField com' f <-> hasField com f) /\ (forall f, ready com f -> ready com' f).

Lemma extends_refl com : extends com com.
Proof. done. Qed.

Lemma extends_trans a b c : extends a b -> extends b c -> extends a c.
Proof.
  intros (H1 & H2 & H3 & H4) (I1 & I2 & I3 & I4).
  split; [congruence|]. split; [congruence|]. split; [intros f; by rewrite I3|auto].
Qed.

Lemma defaultFieldReplicas_spec f r com :
  hasField com f ->
  exists com', defaultFieldReplicas f r com = Some com' /\ extends com com' /\ ready com' f.
Proof.
  intros [c Hc]. unfold defaultFieldReplicas. rewrite Hc. simpl.
  assert (forall f', componentField (update_component com f (fun c => defaultReplicas c r)) f'
          = (if decide (f = f') then (fun c => defaultReplicas c r) <$> componentField com f'
             else componentField com f')) as Hf by apply componentField_update.
  assert (forall c, is_Some (co_Replicas (defaultReplicas c r))) as Hr.
  { intros c0. unfold defaultReplicas. destruct (co_Replicas c0) eqn:E; [by rewrite E|done]. }
  eexists. split; [done|]. split; [split; [by destruct f|split; [by destruct f|split]]|].
  - intros f'. unfold hasField. rewrite Hf. case_decide; [by rewrite fmap_is_Some|done].
  - intros f' (c' & Hc' & Hc'r). unfold ready. rewrite Hf, Hc'. case_decide; [|eauto].
    simpl. eexists. split; [done|]. apply Hr.
  - unfold ready. rewrite Hf, decide_True, Hc by done. simpl. eauto.
Qed.

(** Run a default of replicas inside a sequence. *)
Lemma defaultField_bind {A} f r com (k : MilvusComponents -> option A) (P : option A -> Prop) :
  hasField com f -> (forall com', extends com com' -> ready com' f -> P (k com')) ->
  P (defaultFieldReplicas f r com ≫= k).
Proof.
  intros Hf Hk. destruct (defaultFieldReplicas_spec f r com Hf) as (com' & -> & He & Hr). by apply Hk.
Qed.

(** The same for a default under a condition. *)
Lemma defaultIf_bind {A} (b : bool) f r com (k : MilvusComponents -> option A) (P : option A -> Prop) :
  (b = true -> hasField com f) ->
  (forall com', extends com com' -> (b = true -> ready com' f) -> P (k com')) ->
  P ((if b then defaultFieldReplicas f r com else Some com) ≫= k).
Proof.
  intros Hf Hk. destruct b; [apply defaultField_bind; auto|]. by apply Hk; [apply extends_refl|].
Qed.

Lemma extends_has com com' f : extends com com' -> hasField com f -> hasField com' f.
Proof. intros (_ & _ & H & _). apply H. Qed.

Lemma extends_ready com com' f : extends com com' -> ready com f -> ready com' f.
Proof. intros (_ & _ & _ & H). apply H. Qed.

(** Move a [hasField] or [ready] goal back along the chain of extensions; each
    one has a single predecessor in the context. *)
Ltac go_back :=
  repeat match goal with
    | H : extends ?c ?c' |- hasField ?c' _ => apply (extends_has c c' _ H)
    | H : extends ?c ?c' |- ready ?c' _ => first [assumption | apply (extends_ready c c' _ H)]
    end; try assumption.

Section Defaults.
Context {SV : Semver} {US : Unstructured}.

(** What the defaults of the replicas need. *)
Record fieldsOk (spec : MilvusSpec) : Prop := mkFieldsOk {
  fo_standalone : hasField (spec_Com spec) StandaloneField;
  fo_cluster : spec_Mode spec = MilvusModeCluster ->
    forall f, f ∈ [ProxyField; DataNodeField; QueryNodeField] -> hasField (spec_Com spec) f;
  fo_index : spec_Mode spec = MilvusModeCluster -> IsVersionGreaterThan2_6 spec = false ->
    hasField (spec_Com spec) IndexNodeField;
  fo_streaming : spec_Mode spec = MilvusModeCluster -> UseStreamingNode spec = true ->
    hasField (spec_Com spec) StreamingNodeField;
  fo_coords : spec_Mode spec = MilvusModeCluster -> UseMixCoord spec = false ->
    forall f, f ∈ [RootCoordField; DataCoordField; IndexCoordField; QueryCoordField] ->
      hasField (spec_Com spec) f
}.

(** Every component of the spec is configured and has replicas. *)
Definition allReady (spec : MilvusSpec) : Prop :=
  forall c, c ∈ GetComponentsBySpec spec -> ready (spec_Com spec) (FieldName c).

Lemma ensureMixCoord_has com f : hasField com f -> hasField (ensureField com MixCoordField) f.
Proof. unfold hasField. rewrite componentField_ensure. by case_decide. Qed.

Lemma ensureMixCoord_ready com f :
  f <> MixCoordField -> ready com f -> ready (ensureField com MixCoordField) f.
Proof. intros Hf. unfold ready. rewrite componentField_ensure. by rewrite decide_False. Qed.

Lemma UseStreaming_ext spec com com' :
  extends com com' -> UseStreamingNode (set_spec_Com spec com') = UseStreamingNode (set_spec_Com spec com).
Proof.
  intros (H1 & H2 & H3 & _). unfold UseStreamingNode, IsVersionGreaterThan2_6. simpl.
  rewrite H1, H2. case_match; [done|]. case_match; [done|].
  apply bool_decide_ext. specialize (H3 StreamingNodeField). unfold hasField in H3. simpl in H3.
  by rewrite !fmap_is_Some in H3.
Qed.

(** Coordinators: afterwards the mixed one, or else all four, are ready. *)
Lemma coordReplicas_ok com :
  (com_MixCoord com = None ->
   forall f, f ∈ [RootCoordField; DataCoordField; IndexCoordField; QueryCoordField] -> hasField com f) ->
  exists com', defaultCoordReplicas com = Some com' /\ extends com com' /\
    (if bool_decide (is_Some (com_MixCoord com)) then ready com' MixCoordField
     else forall f, f ∈ [RootCoordField; DataCoordField; IndexCoordField; QueryCoordField] ->
            ready com' f).
Proof.
  intros Hc. unfold defaultCoordReplicas. case_bool_decide as Hm.
  - destruct (defaultFieldReplicas_spec MixCoordField 1 com) as (com' & ? & ? & ?); [done|]. eauto.
  - assert (forall f, f ∈ [RootCoordField; DataCoordField; IndexCoordField; QueryCoordField] ->
              hasField com f) as Hall.
    { apply Hc. destruct (com_MixCoord com); [|done]. destruct Hm. by eexists. }
    apply defaultField_bind; [apply Hall; set_solver|]. intros c1 E1 R1.
    apply defaultField_bind; [go_back; apply Hall; set_solver|]. intros c2 E2 R2.
    apply defaultField_bind; [go_back; apply Hall; set_solver|]. intros c3 E3 R3.
    destruct (defaultFieldReplicas_spec QueryCoordField 1 c3) as (c4 & -> & E4 & R4);
      [go_back; apply Hall; set_solver|].
    exists c4. split; [done|]. split; [eauto using extends_trans|].
    intros f. rewrite !elem_of_cons, elem_of_nil. intros [->|[->|[->|[->|[]]]]]; go_back.
Qed.

(** What a mixed coordinator is ensured to leave alone. *)
Lemma ensured_keeps (b : bool) com :
  let com' := if b then ensureField com MixCoordField else com in
  com_ComponentSpec com' = com_ComponentSpec com /\ com_StreamingMode com' = com_StreamingMode com /\
  (forall f, hasField com f -> hasField com' f) /\
  (forall f, f <> MixCoordField -> hasField com' f <-> hasField com f) /\
  (forall f, f <> MixCoordField -> ready com f -> ready com' f) /\
  (b = true -> is_Some (com_MixCoord com')).
Proof.
  destruct b; [|done]. cbv zeta iota. split; [done|]. split; [done|].
  split; [intros f; apply ensureMixCoord_has|].
  split; [intros f Hf; unfold hasField; by rewrite componentField_ensure, decide_False by congruence|].
  split; [intros f; apply ensureMixCoord_ready|done].
Qed.

(** The outcome of the cluster branch. *)
Record clusterReady (spec : MilvusSpec) (com' : MilvusComponents) : Prop := mkClusterReady {
  cl_spec : com_ComponentSpec com' = com_ComponentSpec (spec_Com spec);
  cl_mode : com_StreamingMode com' = com_StreamingMode (spec_Com spec);
  cl_fields : forall f, f <> MixCoordField -> hasField com' f <-> hasField (spec_Com spec) f;
  cl_ready : forall f, f ∈ [StandaloneField; ProxyField; DataNodeField; QueryNodeField] -> ready com' f;
  cl_streaming : UseStreamingNode spec = true -> ready com' StreamingNodeField;
  cl_index : IsVersionGreaterThan2_6 spec = false -> ready com' IndexNodeField;
  cl_mix : IsVersionGreaterThan2_6 spec = true -> hasField com' MixCoordField;
  cl_coords : if bool_decide (is_Some (com_MixCoord com')) then ready com' MixCoordField
    else forall f, f ∈ [RootCoordField; DataCoordField; IndexCoordField; QueryCoordField] -> ready com' f
}.

Lemma clusterReplicas_ok spec :
  fieldsOk spec -> spec_Mode spec = MilvusModeCluster ->
  exists com', defaultClusterReplicas spec (spec_Com spec) = Some com' /\ clusterReady spec com'.
Proof.
  intros [Hsa Hcl Hidx Hstr Hco] Hm. specialize (Hcl Hm). specialize (Hidx Hm). specialize (Hstr Hm).
  specialize (Hco Hm). unfold defaultClusterReplicas. set (com := spec_Com spec) in *.
  apply defaultField_bind; [done|]. intros c1 E1 R1.
  apply defaultIf_bind; [intros Hs; go_back; auto|]. intros c2 E2 R2.
  pose proof (ensured_keeps (IsVersionGreaterThan2_6 spec) c2) as (K1 & K2 & K3 & K4 & K5 & K6).
  set (c2' := if IsVersionGreaterThan2_6 spec then ensureField c2 MixCoordField else c2) in *.
  clearbody c2'.
  pose proof (extends_trans _ _ _ E1 E2) as E.
  assert (forall f, hasField com f -> hasField c2' f) as Hhas
    by (intros f Hf; apply K3; by apply (extends_has com)).
  destruct (coordReplicas_ok c2') as (c3 & -> & E3 & R3).
  { intros Hn f Hf. apply Hhas, Hco; [|done]. unfold UseMixCoord. apply bool_decide_eq_false_2.
    intros Hs. assert (hasField c2' MixCoordField) as [? Hx] by by apply Hhas.
    simpl in Hx. congruence. }
  cbn [mbind option_bind]. apply defaultField_bind; [apply (extends_has c2'), Hhas, Hcl; [done|set_solver]|]. intros c4 E4 R4.
  apply defaultField_bind; [go_back; apply Hhas, Hcl; set_solver|]. intros c5 E5 R5.
  apply defaultIf_bind; [intros Hv%negb_true_iff; go_back; by apply Hhas, Hidx|]. intros c6 E6 R6.
  destruct (defaultFieldReplicas_spec QueryNodeField 1 c6) as (c7 & -> & E7 & R7);
    [go_back; apply Hhas, Hcl; set_solver|].
  exists c7. split; [done|].
  pose proof (extends_trans _ _ _ E3 (extends_trans _ _ _ E4 (extends_trans _ _ _ E5
                (extends_trans _ _ _ E6 E7)))) as E37.
  destruct E as (F1 & F2 & F3 & F4), E37 as (G1 & G2 & G3 & G4).
  assert (forall f, ready c3 f -> ready c7 f) as Hr37 by (intros f Hf; go_back).
  split.
  - fold com. by rewrite G1, K1, F1.
  - fold com. by rewrite G2, K2, F2.
  - intros f Hf. rewrite G3, K4 by done. apply F3.
  - intros f. rewrite !elem_of_cons, elem_of_nil. intros [->|[->|[->|[->|[]]]]]; [|go_back..].
    apply G4, K5; [done|]. by apply (extends_ready c1).
  - intros Hs. apply G4, K5; [done|]. by apply R2.
  - intros Hv. apply (extends_ready c6), R6; [done|]. by rewrite Hv.
  - intros Hv. apply G3. by apply K6.
  - assert (is_Some (com_MixCoord c7) <-> is_Some (com_MixCoord c2')) as Hmc by apply (G3 MixCoordField).
    rewrite (bool_decide_ext _ _ Hmc). case_bool_decide; [by apply Hr37|]. intros f Hf. by apply Hr37, R3.
Qed.

Lemma allReady_cdc spec com :
  (forall c, c ∈ GetComponentsBySpec (set_spec_Com spec com) -> c <> Cdc -> ready com (FieldName c)) ->
  exists spec', (com' ← (if UseCdc (set_spec_Com spec com) then defaultFieldReplicas CdcField 1 com
                         else Some com);
                 Some (set_spec_Com spec com')) = Some spec' /\ allReady spec'.
Proof.
  intros H. unfold UseCdc. simpl. case_bool_decide as Hc.
  - destruct (defaultFieldReplicas_spec CdcField 1 com Hc) as (com' & -> & E & R).
    eexists. split; [reflexivity|]. intros c. destruct (decide (c = Cdc)) as [->|Hne]; [done|].
    intros Hin. go_back. apply H; [|done].
    destruct E as (E1 & E2 & E3 & _).
    erewrite <-(GetComponentsBySpec_ext (set_spec_Com spec com)); [exact Hin|done|done|..];
      simpl; [apply (E3 MixCoordField)|apply (E3 CdcField)|].
    specialize (E3 StreamingNodeField). unfold hasField in E3. simpl in E3. by rewrite !fmap_is_Some in E3.
  - eexists. split; [reflexivity|]. intros c Hin. apply H; [done|]. intros ->.
    unfold GetComponentsBySpec, UseCdc in Hin. simpl in Hin.
    rewrite bool_decide_eq_false_2 in Hin by done. simpl in Hin. revert Hin.
    case_match; [|case_match; [|case_match; case_match]]; apply (bool_decide_unpack _); exact I.
Qed.

(** The defaults of the replicas succeed and leave every component ready. *)
Lemma replicas_ok spec :
  fieldsOk spec -> exists spec', defaultComponentsReplicas spec = Some spec' /\ allReady spec'.
Proof.
  intros Hf. unfold defaultComponentsReplicas. case_bool_decide as Hm.
  - destruct (clusterReplicas_ok spec Hf Hm) as (com & -> & [C1 C2 C3 C4 C5 C6 C7 C8]).
    cbn [mbind option_bind]. apply allReady_cdc. intros c Hin Hne.
    pose proof (C4 StandaloneField ltac:(by repeat constructor)) as R1.
    pose proof (C4 ProxyField ltac:(by repeat constructor)) as R2.
    pose proof (C4 DataNodeField ltac:(by repeat constructor)) as R3.
    pose proof (C4 QueryNodeField ltac:(by repeat constructor)) as R4. clear C4.
    unfold GetComponentsBySpec in Hin. simpl in Hin.
    rewrite bool_decide_eq_true_2 in Hin by done. simpl in Hin.
    apply elem_of_app in Hin as [Hin|Hin].
    { destruct (UseCdc _); [by apply list_elem_of_singleton in Hin|by apply not_elem_of_nil in Hin]. }
    assert (IsVersionGreaterThan2_6 (set_spec_Com spec com) = IsVersionGreaterThan2_6 spec) as Hv
      by (unfold IsVersionGreaterThan2_6; simpl; by rewrite C1).
    rewrite Hv in Hin. destruct (IsVersionGreaterThan2_6 spec) eqn:Ev.
    + assert (UseStreamingNode spec = true) as Hs by (unfold UseStreamingNode; by rewrite Ev).
      specialize (C7 eq_refl). rewrite bool_decide_eq_true_2 in C8 by done.
      unfold Milvus2_6Components in Hin. rewrite !elem_of_cons, elem_of_nil in Hin.
      destruct Hin as [->|[->|[->|[->|[->|[->|[]]]]]]]; simpl; try assumption. by apply C5.
    + specialize (C6 eq_refl). apply elem_of_app in Hin as [Hin|Hin].
      * unfold UseMixCoord in Hin. simpl in Hin. case_bool_decide.
        -- unfold MixtureComponents in Hin. rewrite !elem_of_cons, elem_of_nil in Hin.
           destruct Hin as [->|[->|[->|[->|[->|[->|[]]]]]]]; simpl; assumption.
        -- unfold SeparateComponents in Hin. rewrite !elem_of_cons, elem_of_nil in Hin.
           destruct Hin as [->|[->|[->|[->|[->|[->|[->|[->|[->|[]]]]]]]]]]; simpl;
             first [assumption|apply C8; by repeat constructor].
      * destruct (UseStreamingNode (set_spec_Com spec com)) eqn:Es;
          [apply list_elem_of_singleton in Hin as ->|by apply not_elem_of_nil in Hin].
        apply C5. rewrite <-Es. unfold UseStreamingNode. rewrite Hv, Ev. simpl. rewrite C2.
        destruct (com_StreamingMode (spec_Com spec)); [done|]. apply bool_decide_ext. specialize (C3 StreamingNodeField ltac:(done)).
        unfold hasField in C3. simpl in C3. rewrite !fmap_is_Some in C3. by rewrite C3.
  - destruct (defaultFieldReplicas_spec StandaloneField 1 (spec_Com spec)) as (com & -> & E & R);
      [by apply fo_standalone|].
    cbn [mbind option_bind]. apply allReady_cdc. intros c Hin Hne.
    unfold GetComponentsBySpec in Hin. simpl in Hin.
    rewrite bool_decide_eq_false_2 in Hin by done. simpl in Hin.
    apply elem_of_app in Hin as [Hin|Hin].
    { destruct (UseCdc _); [by apply list_elem_of_singleton in Hin|by apply not_elem_of_nil in Hin]. }
    by apply list_elem_of_singleton in Hin as ->.
Qed.

Lemma hasField_ensure com f f' : hasField (ensureField com f) f' <-> f = f' \/ hasField com f'.
Proof.
  unfold hasField. rewrite componentField_ensure. case_decide as E.
  - split; [by left|]. intros _. by eexists.
  - split; [by right|]. by intros [?|?].
Qed.

Lemma hasField_head com a b c d e g f :
  hasField (set_com_head com a b c d e g) f <-> hasField com f.
Proof. unfold hasField. by rewrite componentField_head. Qed.

Lemma ensure_head com f :
  com_ComponentSpec (ensureField com f) = com_ComponentSpec com /\
  com_StreamingMode (ensureField com f) = com_StreamingMode com.
Proof. by destruct f. Qed.

(** The coordinators of a cluster: a mixed one or all four. *)
Lemma defaultCoords_ok com :
  let com' := if bool_decide (is_Some (com_MixCoord com)) then com
              else if noCoordSpecifiedByUser com then ensureField com MixCoordField
              else ensureField (ensureField (ensureField (ensureField com RootCoordField) DataCoordField)
                                  IndexCoordField) QueryCoordField in
  com_ComponentSpec com' = com_ComponentSpec com /\ com_StreamingMode com' = com_StreamingMode com /\
  (forall f, hasField com f -> hasField com' f) /\
  (hasField com' MixCoordField \/
   forall f, f ∈ [RootCoordField; DataCoordField; IndexCoordField; QueryCoordField] -> hasField com' f).
Proof.
  cbv zeta. case_bool_decide as Hm; [by split; [|split; [|split; [|left]]]|].
  destruct (noCoordSpecifiedByUser com).
  - split; [done|]. split; [done|]. split; [intros f Hf; apply hasField_ensure; by right|].
    left. apply hasField_ensure. by left.
  - split; [done|]. split; [done|]. split; [intros f Hf; rewrite !hasField_ensure; auto|].
    right. intros f. rewrite !elem_of_cons, elem_of_nil, !hasField_ensure. naive_solver.
Qed.

(** The nodes of a cluster: data, index (before 2.6) and query nodes. *)
Definition ensureNodes (spec : MilvusSpec) (com : MilvusComponents) : MilvusComponents :=
  let com := ensureField com DataNodeField in
  let com := if negb (IsVersionGreaterThan2_6 (set_spec_Com spec com))
             then ensureField com IndexNodeField else com in
  ensureField com QueryNodeField.

Lemma ensureNodes_ok spec com :
  let com' := ensureNodes spec com in
  com_ComponentSpec com' = com_ComponentSpec com /\
  (forall f, hasField com f -> hasField com' f) /\
  hasField com' DataNodeField /\ hasField com' QueryNodeField /\
  (IsVersionGreaterThan2_6 (set_spec_Com spec com') = false -> hasField com' IndexNodeField).
Proof.
  cbv zeta. unfold ensureNodes. set (c1 := ensureField com DataNodeField).
  assert (forall b : bool, com_ComponentSpec (ensureField (if b then ensureField c1 IndexNodeField else c1)
                             QueryNodeField) = com_ComponentSpec com) as Hc by (by intros []).
  assert (IsVersionGreaterThan2_6 (set_spec_Com spec c1)
          = IsVersionGreaterThan2_6 (set_spec_Com spec com)) as -> by done.
  split; [apply Hc|]. split; [|split; [|split]].
  - intros f Hf. apply hasField_ensure. right. unfold c1. destruct (negb _); rewrite !hasField_ensure; auto.
  - apply hasField_ensure. right. unfold c1. destruct (negb _); rewrite !hasField_ensure; auto.
  - apply hasField_ensure. by left.
  - unfold IsVersionGreaterThan2_6. cbn [set_spec_Com spec_Com]. rewrite Hc. intros ->. apply hasField_ensure. right.
    apply hasField_ensure. by left.
Qed.

(** The streaming node and its mode. *)
Definition ensureStreaming (spec : MilvusSpec) (com : MilvusComponents) : MilvusComponents :=
  if UseStreamingNode (set_spec_Com spec com)
  then set_StreamingMode (ensureField com StreamingNodeField) true
  else set_StreamingMode com false.

Lemma ensureStreaming_ok spec com :
  let com' := ensureStreaming spec com in
  com_ComponentSpec com' = com_ComponentSpec com /\
  (forall f, hasField com f -> hasField com' f) /\
  (UseStreamingNode (set_spec_Com spec com') = true -> hasField com' StreamingNodeField).
Proof.
  cbv zeta. unfold ensureStreaming, set_StreamingMode.
  destruct (UseStreamingNode (set_spec_Com spec com)) eqn:Es.
  - split; [done|]. split; [intros f Hf|intros _]; rewrite hasField_head, hasField_ensure; auto.
  - split; [done|]. split; [intros f Hf; by rewrite hasField_head|].
    unfold UseStreamingNode, IsVersionGreaterThan2_6 in *. simpl in *. by case_match.
Qed.

Lemma cluster_fieldsOk spec com :
  spec_Mode spec = MilvusModeCluster -> hasField com StandaloneField ->
  fieldsOk (set_spec_Com spec (defaultConfigMapOnly (defaultClusterComponents spec com))).
Proof.
  intros Hm Hsa. unfold defaultClusterComponents, defaultConfigMapOnly.
  set (c1 := ensureField com ProxyField).
  destruct (defaultCoords_ok c1) as (_ & _ & K3 & K4).
  set (c2 := if bool_decide (is_Some (com_MixCoord c1)) then c1 else _) in *.
  assert (hasField c2 StandaloneField) as H1 by (apply K3, hasField_ensure; by right).
  assert (hasField c2 ProxyField) as H2 by (apply K3, hasField_ensure; by left).
  clearbody c2. clear K3. cbv zeta. fold (ensureNodes spec c2).
  destruct (ensureNodes_ok spec c2) as (_ & N2 & N3 & N4 & N5).
  set (c3 := ensureNodes spec c2) in *. clearbody c3. fold (ensureStreaming spec c3).
  destruct (ensureStreaming_ok spec c3) as (S1 & S2 & S3).
  set (c4 := ensureStreaming spec c3) in *. clearbody c4.
  split; cbn [set_spec_Com spec_Com spec_Mode]; intros; rewrite hasField_head.
  - by apply S2, N2.
  - apply S2. set_unfold. naive_solver.
  - apply S2, N5. unfold IsVersionGreaterThan2_6 in *. simpl in *. by rewrite <-S1.
  - by apply S3.
  - destruct K4 as [K4|K4]; [|by apply S2, N2, K4]. exfalso.
    assert (hasField c4 MixCoordField) as Hx by by apply S2, N2.
    match goal with H : UseMixCoord _ = false |- _ => by apply bool_decide_eq_false in H end.
Qed.

Lemma DefaultComponents_ready spec :
  exists spec', DefaultComponents spec = Some spec' /\ allReady spec'.
Proof.
  unfold DefaultComponents. apply replicas_ok.
  assert (hasField (ensureField (defaultHead (spec_Com spec)) StandaloneField) StandaloneField) as Hsa
    by (apply hasField_ensure; by left).
  case_bool_decide as Hm; [by apply cluster_fieldsOk|].
  unfold defaultConfigMapOnly. split; cbn [set_spec_Com spec_Com spec_Mode]; try done.
Qed.

(** Defaulting configures every component that will be deployed: the
    defaults of the components never dereference a missing component, and in
    the defaulted spec every component of [GetComponentsBySpec] is configured
    and has replicas. *)
Theorem defaults_configure spec :
  exists spec', DefaultComponents spec = Some spec' /\
    forall c, c ∈ GetComponentsBySpec spec' ->
      exists comp, componentField (spec_Com spec') (FieldName c) = Some comp /\
                   is_Some (co_Replicas comp).
Proof. apply DefaultComponents_ready. Qed.
End Defaults.
