(* ===== verification/AdmissionProofs.v ===== *)
(** * Properties of admission: fixed points and admitted resources

    Defaulting is idempotent and never produces a rolling-update setting that
    validation rejects; the deployment groups of an admitted resource have
    distinct names that fit the names of the objects derived from them, and
    metadata that reconciliation does not own. *)
From S2P Require Import Prelude KubeTypes Libs ApiTypes UpgradeTypes Labels Effects Utils Components.
From S2P Require Import Examples RollingUpdate ScalePlanner K8sUtil DeployUtil DeployCtrl SpecProofs.
From S2P Require Import UpgradeFsm Webhook WebhookProofs.

Local Open Scope string_scope.
Local Open Scope list_scope.
Local Open Scope Z_scope.

Section Admission.
Context {SV : Semver} {US : Unstructured}.

(** ** Defaulting is idempotent *)

(** The head fields that defaulting writes. *)
Definition headOf (com : MilvusComponents) :=
  (com_ComponentSpec com, com_ImageUpdateMode com, com_UpdateConfigMapOnly com, com_RollingMode com,
   com_StreamingMode com).

Lemma defaultField_head f r com com' :
  defaultFieldReplicas f r com = Some com' -> headOf com' = headOf com.
Proof.
  unfold defaultFieldReplicas. destruct (componentField com f); [|done]. simpl.
  intros [= <-]. by destruct f.
Qed.

Lemma ensureField_head f com : headOf (ensureField com f) = headOf com.
Proof. by destruct f. Qed.

(** Split a successful sequence of defaults into its steps. *)
Ltac split_steps H :=
  repeat match type of H with
    | mbind _ _ = Some _ => let c := fresh "c" in let Hc := fresh "Hc" in
        rewrite bind_Some in H; destruct H as (c & Hc & H)
    end.

(** Chase the head back through the steps. *)
Ltac chase_head :=
  repeat match goal with
    | H : (if ?b then _ else _) = Some _ |- _ => destruct b
    | H : Some _ = Some _ |- _ => injection H as <-
    | H : defaultFieldReplicas _ _ _ = Some _ |- _ => apply defaultField_head in H
    end.

Lemma defaultCoord_head com com' : defaultCoordReplicas com = Some com' -> headOf com' = headOf com.
Proof.
  unfold defaultCoordReplicas. case_bool_decide as Hb; intros H; [by apply defaultField_head in H|].
  split_steps H. chase_head. congruence.
Qed.

Lemma defaultCluster_head spec com com' :
  defaultClusterReplicas spec com = Some com' -> headOf com' = headOf com.
Proof.
  unfold defaultClusterReplicas. intros H. split_steps H.
  match goal with H : defaultCoordReplicas _ = Some _ |- _ => apply defaultCoord_head in H end.
  destruct (IsVersionGreaterThan2_6 spec), (UseStreamingNode spec); cbn [negb] in *; chase_head;
    rewrite ?ensureField_head in *; congruence.
Qed.

Lemma defaultReplicas_head spec spec' :
  defaultComponentsReplicas spec = Some spec' ->
  headOf (spec_Com spec') = headOf (spec_Com spec) /\ spec_Mode spec' = spec_Mode spec.
Proof.
  unfold defaultComponentsReplicas. intros H. split_steps H.
  injection H as <-. split; [|done]. simpl.
  match goal with
  | Hb : (if bool_decide _ then defaultClusterReplicas _ _ else _) = Some ?c |- _ =>
      assert (headOf c = headOf (spec_Com spec)) as Hh
        by (revert Hb; case_bool_decide; [apply defaultCluster_head|apply defaultField_head])
  end.
  rewrite <-Hh. by chase_head.
Qed.

(** A spec whose head has been defaulted. *)
Record headDefaulted (spec : MilvusSpec) : Prop := mkHeadDefaulted {
  hd_image : csp_Image (com_ComponentSpec (spec_Com spec)) <> "";
  hd_update : com_ImageUpdateMode (spec_Com spec) <> ImageUpdateModeUnset;
  hd_rolling : com_RollingMode (spec_Com spec) <> RollingModeNotSet;
  hd_configMap : is_Some (com_UpdateConfigMapOnly (spec_Com spec));
  hd_streaming : spec_Mode spec = MilvusModeCluster ->
    com_StreamingMode (spec_Com spec) = Some (UseStreamingNode spec)
}.

Lemma defaultHead_id spec : headDefaulted spec -> defaultHead (spec_Com spec) = spec_Com spec.
Proof.
  intros [H1 H2 H3 _ _]. unfold defaultHead, setDefaultStr. rewrite !bool_decide_eq_false_2 by done.
  destruct (spec_Com spec) as [csp ? mode]; simpl in *. destruct csp, mode; done.
Qed.

Lemma defaultCluster_keeps spec com :
  let com' := defaultClusterComponents spec com in
  com_ComponentSpec com' = com_ComponentSpec com /\
  com_ImageUpdateMode com' = com_ImageUpdateMode com /\
  com_RollingMode com' = com_RollingMode com /\
  (spec_Mode spec = MilvusModeCluster ->
   com_StreamingMode com' = Some (UseStreamingNode (set_spec_Com spec com'))).
Proof.
  cbv zeta. unfold defaultClusterComponents.
  set (c5 := ensureField _ QueryNodeField).
  assert (headOf c5 = headOf com) as Hh.
  { unfold c5. repeat (rewrite ensureField_head || case_match); done. }
  clearbody c5. injection Hh as E1 E2 _ E4 _.
  assert (forall b, UseStreamingNode (set_spec_Com spec c5) = b ->
    Some b = Some (UseStreamingNode (set_spec_Com spec (set_StreamingMode c5 b)))) as Hs.
  { intros b <-. f_equal. unfold UseStreamingNode, IsVersionGreaterThan2_6. simpl. by case_match. }
  destruct (UseStreamingNode (set_spec_Com spec c5)) eqn:Es.
  all: split; [exact E1|]; split; [exact E2|]; split; [exact E4|]; intros _; exact (Hs _ eq_refl).
Qed.

Lemma head_defaulted spec spec' : DefaultComponents spec = Some spec' -> headDefaulted spec'.
Proof.
  unfold DefaultComponents. intros (Hh & Hm)%defaultReplicas_head.
  set (com := ensureField (defaultHead (spec_Com spec)) StandaloneField) in *.
  set (com' := if bool_decide (spec_Mode spec = MilvusModeCluster)
               then defaultClusterComponents spec com else com) in *.
  assert (com_ComponentSpec com' = com_ComponentSpec com /\
          com_ImageUpdateMode com' = com_ImageUpdateMode com /\
          com_RollingMode com' = com_RollingMode com /\
          (spec_Mode spec = MilvusModeCluster ->
           com_StreamingMode com' = Some (UseStreamingNode (set_spec_Com spec com')))) as (K1 & K2 & K3 & K4).
  { unfold com'. case_bool_decide as Hc; [|done]. apply defaultCluster_keeps. }
  clearbody com'. injection Hh as E1 E2 E3 E4 E5. simpl in *. rewrite K1 in E1. rewrite K2 in E2. rewrite K3 in E4.
  split.
  - rewrite E1. clear. simpl. unfold setDefaultStr. case_bool_decide; [|done]. by intros E%(f_equal String.length).
  - rewrite E2. unfold com. simpl. by destruct (com_ImageUpdateMode (spec_Com spec)).
  - rewrite E4. clear. simpl. by case_bool_decide.
  - by rewrite E3.
  - intros Hc. rewrite Hm in Hc. rewrite E5, K4 by done. f_equal.
    unfold UseStreamingNode, IsVersionGreaterThan2_6 in *. simpl. rewrite E1, K1, E5.
    by rewrite K4 by done.
Qed.

Lemma ready_default_id f r com : ready com f -> defaultFieldReplicas f r com = Some com.
Proof.
  intros (c & Hc & Hr). unfold defaultFieldReplicas. rewrite Hc. simpl. f_equal.
  apply update_id. intros c' Hc'. rewrite Hc in Hc'. injection Hc' as <-. unfold defaultReplicas. by destruct (co_Replicas c).
Qed.

Lemma ready_has com f : ready com f -> hasField com f.
Proof. intros (c & Hc & _). by exists c. Qed.

(** The components of a cluster, by field. *)
Lemma cluster_elem spec c :
  spec_Mode spec = MilvusModeCluster ->
  c ∈ (if IsVersionGreaterThan2_6 spec then Milvus2_6Components
       else (if UseMixCoord spec then MixtureComponents else SeparateComponents)
            ++ (if UseStreamingNode spec then [StreamingNode] else [])) ->
  c ∈ GetComponentsBySpec spec.
Proof.
  intros Hm Hc. unfold GetComponentsBySpec. rewrite bool_decide_eq_true_2 by done.
  apply elem_of_app. by right.
Qed.

Lemma allReady_cluster spec :
  allReady spec -> spec_Mode spec = MilvusModeCluster -> clusterReady spec (spec_Com spec).
Proof.
  intros Hr Hm.
  pose proof (fun c Hc => Hr c (cluster_elem spec c Hm Hc)) as H. clear Hr. unfold UseMixCoord in H.
  split; try done.
  - intros f. rewrite !elem_of_cons, elem_of_nil. intros Hf.
    destruct (IsVersionGreaterThan2_6 spec); [|destruct (bool_decide (is_Some _))].
    all: destruct Hf as [->|[->|[->|[->|[]]]]].
    all: first [apply (H MilvusStandalone)|apply (H Proxy)|apply (H DataNode)|apply (H QueryNode)].
    all: repeat first [apply elem_of_app; left|constructor].
  - intros Hs. apply (H StreamingNode). rewrite Hs. destruct (IsVersionGreaterThan2_6 spec).
    + by repeat constructor.
    + apply elem_of_app. right. constructor.
  - intros Hv. rewrite Hv in H. apply (H IndexNode). apply elem_of_app. left.
    destruct (bool_decide (is_Some _)); by repeat constructor.
  - intros Hv. rewrite Hv in H. apply ready_has, (H MixCoord). by repeat constructor.
  - case_bool_decide as Hx.
    + apply (H MixCoord). destruct (IsVersionGreaterThan2_6 spec); [by repeat constructor|].
      apply elem_of_app. left. by repeat constructor.
    + destruct (IsVersionGreaterThan2_6 spec).
      { destruct Hx. apply (ready_has (spec_Com spec) MixCoordField), (H MixCoord). by repeat constructor. }
      intros f. rewrite !elem_of_cons, elem_of_nil. intros [->|[->|[->|[->|[]]]]].
      all: first [apply (H RootCoord)|apply (H DataCoord)|apply (H IndexCoord)|apply (H QueryCoord)].
      all: apply elem_of_app; left; by repeat constructor.
Qed.

(** Run a default that has nothing to do. *)
Lemma default_bind_id {A} f r com (k : MilvusComponents -> option A) :
  ready com f -> (com ← defaultFieldReplicas f r com; k com) = k com.
Proof. intros H. by rewrite (ready_default_id f r com H). Qed.

Lemma coordReplicas_id com :
  (if bool_decide (is_Some (com_MixCoord com)) then ready com MixCoordField
   else forall f, f ∈ [RootCoordField; DataCoordField; IndexCoordField; QueryCoordField] -> ready com f) ->
  defaultCoordReplicas com = Some com.
Proof.
  unfold defaultCoordReplicas. case_bool_decide as Hm; intros H; [by apply ready_default_id|].
  rewrite !default_bind_id by (apply H; by repeat constructor).
  apply ready_default_id, H. by repeat constructor.
Qed.

Lemma clusterReplicas_id spec :
  clusterReady spec (spec_Com spec) -> defaultClusterReplicas spec (spec_Com spec) = Some (spec_Com spec).
Proof.
  intros [_ _ _ H4 H5 H6 H7 H8]. unfold defaultClusterReplicas. set (com := spec_Com spec) in *.
  rewrite default_bind_id by (apply H4; by repeat constructor).
  assert ((if UseStreamingNode spec then defaultFieldReplicas StreamingNodeField 1 com else Some com)
          = Some com) as ->
    by (destruct (UseStreamingNode spec); [by apply ready_default_id, H5|done]).
  assert ((if IsVersionGreaterThan2_6 spec then ensureField com MixCoordField else com) = com) as Hx
    by (destruct (IsVersionGreaterThan2_6 spec); [by apply ensure_id, H7|done]).
  cbn [mbind option_bind]. rewrite Hx, (coordReplicas_id com H8). cbn [mbind option_bind].
  rewrite !default_bind_id by (apply H4; by repeat constructor).
  assert ((if negb (IsVersionGreaterThan2_6 spec) then defaultFieldReplicas IndexNodeField 1 com
           else Some com) = Some com) as ->
    by (destruct (IsVersionGreaterThan2_6 spec); [done|by apply ready_default_id, H6]).
  cbn [mbind option_bind]. apply ready_default_id, H4. by repeat constructor.
Qed.

(** The coordinators of a cluster that has them. *)
Lemma coords_id com :
  (if bool_decide (is_Some (com_MixCoord com)) then ready com MixCoordField
   else forall f, f ∈ [RootCoordField; DataCoordField; IndexCoordField; QueryCoordField] -> ready com f) ->
  (if bool_decide (is_Some (com_MixCoord com)) then com
   else if noCoordSpecifiedByUser com then ensureField com MixCoordField
   else ensureField (ensureField (ensureField (ensureField com RootCoordField) DataCoordField)
                       IndexCoordField) QueryCoordField) = com.
Proof.
  case_bool_decide as Hm; [done|]. intros H.
  assert (noCoordSpecifiedByUser com = false) as ->.
  { unfold noCoordSpecifiedByUser. destruct (H RootCoordField) as (c & Hc & _); [by repeat constructor|].
    simpl in Hc. by rewrite Hc. }
  pose proof (fun f Hf => ensure_id com f (ready_has com f (H f Hf))) as Hid.
  by rewrite (Hid RootCoordField), (Hid DataCoordField), (Hid IndexCoordField), (Hid QueryCoordField)
    by repeat constructor.
Qed.

Lemma clusterComponents_id spec :
  headDefaulted spec -> spec_Mode spec = MilvusModeCluster -> clusterReady spec (spec_Com spec) ->
  defaultClusterComponents spec (spec_Com spec) = spec_Com spec.
Proof.
  intros [_ _ _ _ Hs] Hm [_ _ _ H4 H5 H6 H7 H8]. specialize (Hs Hm). unfold defaultClusterComponents.
  set (com := spec_Com spec) in *.
  assert (set_spec_Com spec com = spec) as Hsp by by destruct spec.
  rewrite (ensure_id com ProxyField) by (apply ready_has, H4; by repeat constructor).
  rewrite (coords_id com H8).
  rewrite (ensure_id com DataNodeField) by (apply ready_has, H4; by repeat constructor).
  rewrite Hsp.
  assert ((if negb (IsVersionGreaterThan2_6 spec) then ensureField com IndexNodeField else com) = com) as ->
    by (destruct (IsVersionGreaterThan2_6 spec); [done|by apply ensure_id, ready_has, H6]).
  rewrite (ensure_id com QueryNodeField) by (apply ready_has, H4; by repeat constructor).
  rewrite Hsp. unfold set_StreamingMode.
  destruct (UseStreamingNode spec).
  - rewrite ensure_id by by apply ready_has, H5. rewrite <-Hs. by destruct com.
  - rewrite <-Hs. by destruct com.
Qed.

(** A defaulted spec is a fixed point of defaulting. *)
Lemma defaulted_fixed spec :
  headDefaulted spec -> allReady spec -> DefaultComponents spec = Some spec.
Proof.
  intros Hh Hr. unfold DefaultComponents. rewrite (defaultHead_id _ Hh).
  assert (ready (spec_Com spec) StandaloneField) as Hsa.
  { destruct (decide (spec_Mode spec = MilvusModeCluster)) as [Hm|Hm].
    - apply (cl_ready _ _ (allReady_cluster _ Hr Hm)). by repeat constructor.
    - apply (Hr MilvusStandalone). unfold GetComponentsBySpec. rewrite bool_decide_eq_false_2 by done.
      apply elem_of_app. right. constructor. }
  rewrite ensure_id by by apply ready_has.
  assert ((if bool_decide (spec_Mode spec = MilvusModeCluster)
           then defaultClusterComponents spec (spec_Com spec) else spec_Com spec) = spec_Com spec) as ->.
  { case_bool_decide as Hm; [|done]. apply clusterComponents_id; auto using allReady_cluster. }
  assert (set_spec_Com spec (defaultConfigMapOnly (spec_Com spec)) = spec) as ->.
  { destruct (hd_configMap _ Hh) as [b Hb]. unfold defaultConfigMapOnly. rewrite Hb. simpl.
    destruct spec as [? com]. simpl in *. rewrite <-Hb. by destruct com. }
  unfold defaultComponentsReplicas.
  assert ((if bool_decide (spec_Mode spec = MilvusModeCluster) then defaultClusterReplicas spec (spec_Com spec)
           else defaultFieldReplicas StandaloneField 1 (spec_Com spec)) = Some (spec_Com spec)) as ->.
  { case_bool_decide as Hm; [|by apply ready_default_id].
    by apply clusterReplicas_id, allReady_cluster. }
  assert (set_spec_Com spec (spec_Com spec) = spec) as Hsp by by destruct spec.
  cbn [mbind option_bind]. rewrite Hsp.
  assert ((if UseCdc spec then defaultFieldReplicas CdcField 1 (spec_Com spec) else Some (spec_Com spec))
          = Some (spec_Com spec)) as ->.
  { destruct (UseCdc spec) eqn:Hc; [|done]. apply ready_default_id, (Hr Cdc).
    unfold GetComponentsBySpec. rewrite Hc. constructor. }
  cbn [mbind option_bind]. by rewrite Hsp.
Qed.

(** C37. Defaulting is idempotent: the API server may run the webhook again on a
    defaulted resource, and every later update goes through it; defaulting the
    components of a defaulted spec succeeds and changes nothing. *)
Theorem defaults_idempotent spec :
  exists spec', DefaultComponents spec = Some spec' /\ DefaultComponents spec' = Some spec'.
Proof.
  destruct (DefaultComponents_ready spec) as (spec' & H & Hr). exists spec'. split; [done|].
  apply defaulted_fixed; [by apply head_defaulted in H|done].
Qed.

(** The defaults of the message stream and of the configuration never lead
    to a rolling-update setting that validation rejects, whatever the user
    wrote; and the flag is switched off only where the message stream does not
    support it or the user asked for it. *)
Theorem default_rolling_valid r :
  let spec := DefaultConf (setDefaultMsgStreamType (mi_Spec r)) in
  validateEnableRolingUpdate (set_mi_Spec r spec) = None /\
  (com_EnableRollingUpdate (spec_Com spec) = Some true <->
   isRollingUpdateSupportedByConfig spec = true /\
   com_EnableRollingUpdate (mi_Com r) <> Some false).
Proof.
  cbv zeta. unfold mi_Com, validateEnableRolingUpdate. set (spec := mi_Spec r).
  assert (dep_MsgStreamType (spec_Dep (setDefaultMsgStreamType spec)) <> MsgStreamTypeUnset) as Hu.
  { unfold setDefaultMsgStreamType. destruct (dep_MsgStreamType (spec_Dep spec)) eqn:E; try congruence.
    simpl. by repeat case_match. }
  assert (com_EnableRollingUpdate (spec_Com (setDefaultMsgStreamType spec))
          = com_EnableRollingUpdate (spec_Com spec)) as Hr
    by (unfold setDefaultMsgStreamType; by case_match).
  rewrite <-Hr. clear Hr. set (s := setDefaultMsgStreamType spec) in *. clearbody s.
  unfold mi_Com, DefaultConf, isRollingUpdateSupportedByConfig. simpl.
  destruct (bool_decide (spec_Mode s = MilvusModeCluster)), (dep_MsgStreamType (spec_Dep s)) eqn:Et,
    (com_EnableRollingUpdate (spec_Com s)) as [[]|]; simpl; naive_solver.
Qed.
End Admission.

(** ** Admitted deployment groups *)

(** What admission promises of one group of a component. *)
Record groupOk (r : Milvus) (componentName : string) (g : DeploymentGroup) : Prop := mkGroupOk {
  go_name : dg_Name g <> "";
  go_replicas : exists n, dg_Replicas g = Some n /\ -1 <= n;
  go_length : Z.of_nat (String.length (mi_Name r +:+ "-milvus-" +:+ componentName +:+ "-" +:+ dg_Name g)) <= 253;
  go_slots : com_RollingMode (mi_Com r) = RollingModeV3 \/ componentName = "querynode" ->
    Z.of_nat (String.length (mi_Name r +:+ "-milvus-" +:+ componentName +:+ "-" +:+ dg_Name g)) <= 251 /\
    Z.of_nat (String.length (componentName +:+ "-" +:+ mi_Name r +:+ "-" +:+ dg_Name g +:+ "-old-replicas"))
      <= 253;
  go_metadata : forall k, k ∈ dom (dg_Labels g) ∪ dom (dg_Annotations g) -> isPreservedKey k = false;
  go_labels : forall k, k ∈ deploymentGroupReservedLabels -> dg_Labels g !! k = None;
  go_annotations : forall k, k ∈ deploymentGroupReservedAnnotations -> dg_Annotations g !! k = None
}.

Section Groups.
Context {SV : Semver} {IS : IntStr} {AL : AdmissionLib}.
Context (r : Milvus).

(** A concatenation over the entries of a map is empty only if every entry
    contributes nothing. *)
Lemma concat_map_nil {A} (f : string * string -> list A) (m : gmap string string) k :
  concat (f <$> map_to_list m) = [] -> k ∈ dom m -> exists v, f (k, v) = [].
Proof.
  intros Hc [v Hv]%elem_of_dom. exists v. apply concat_nil_Forall in Hc.
  rewrite List.Forall_forall in Hc. apply Hc, list_elem_of_In, list_elem_of_fmap.
  exists (k, v). split; [done|]. by apply elem_of_map_to_list.
Qed.

(** No key of a map that was checked like this is reserved. *)
Lemma unreserved (reserved : list string) (err : string * string -> FieldError) (m : gmap string string) :
  concat ((fun kv => if bool_decide (fst kv ∈ reserved) || hasDeploymentGroupReservedMetadataPrefix (fst kv)
                     then [err kv] else []) <$> map_to_list m) = [] ->
  forall k, k ∈ dom m -> k ∉ reserved /\ isPreservedKey k = false.
Proof.
  intros Hc k Hk. destruct (concat_map_nil _ _ k Hc Hk) as [v Hv]. simpl in Hv.
  change (hasDeploymentGroupReservedMetadataPrefix k) with (isPreservedKey k) in Hv.
  case_bool_decide; [done|]. by destruct (isPreservedKey k).
Qed.

Lemma metadata_ok path g :
  validateGroupMetadata path g = [] ->
  (forall k, k ∈ dom (dg_Labels g) ∪ dom (dg_Annotations g) -> isPreservedKey k = false) /\
  (forall k, k ∈ deploymentGroupReservedLabels -> dg_Labels g !! k = None) /\
  (forall k, k ∈ deploymentGroupReservedAnnotations -> dg_Annotations g !! k = None).
Proof.
  unfold validateGroupMetadata. intros [Hl Ha]%app_eq_nil.
  pose proof (unreserved _ (fun kv => (_, _)) _ Hl) as Hul. pose proof (unreserved _ (fun kv => (_, _)) _ Ha) as Hua.
  split; [|split]; intros k.
  - intros [Hk|Hk]%elem_of_union; [by apply Hul|by apply Hua].
  - intros Hr. apply not_elem_of_dom. by intros [? _]%Hul.
  - intros Hr. apply not_elem_of_dom. by intros [? _]%Hua.
Qed.

Lemma replicas_given path g :
  validateGroupReplicas path g = [] -> exists n, dg_Replicas g = Some n /\ -1 <= n.
Proof.
  unfold validateGroupReplicas. destruct (dg_Replicas g) as [n|]; [|done].
  destruct (Z.ltb_spec n (-1)); [done|]. by exists n.
Qed.

Lemma name_ok name path seen g :
  validateGroupName r name path seen g = [] ->
  dg_Name g <> "" /\ dg_Name g ∉ seen /\
  Z.of_nat (String.length (mi_Name r +:+ "-milvus-" +:+ name +:+ "-" +:+ dg_Name g)) <= 253 /\
  (com_RollingMode (mi_Com r) = RollingModeV3 \/ name = "querynode" ->
    Z.of_nat (String.length (mi_Name r +:+ "-milvus-" +:+ name +:+ "-" +:+ dg_Name g)) <= 251 /\
    Z.of_nat (String.length (name +:+ "-" +:+ mi_Name r +:+ "-" +:+ dg_Name g +:+ "-old-replicas")) <= 253).
Proof.
  unfold validateGroupName. case_bool_decide as Hn; [done|].
  set (len := Z.of_nat (String.length (mi_Name r +:+ _))). set (saved := Z.of_nat (String.length (name +:+ _))).
  set (two := bool_decide (name = "querynode") || (com_RollingMode (mi_Com r) =? RollingModeV3)).
  intros [_ [Hs [Hl Ho]%app_eq_nil]%app_eq_nil]%app_eq_nil.
  split; [done|]. split; [by case_bool_decide|].
  assert (com_RollingMode (mi_Com r) = RollingModeV3 \/ name = "querynode" -> two = true) as Htwo.
  { unfold two. intros [->| ->]; [by rewrite Z.eqb_refl, orb_true_r|by rewrite bool_decide_eq_true_2]. }
  clearbody two. destruct two; simpl in *.
  - destruct (Z.ltb_spec 251 len); [done|]. destruct (Z.ltb_spec 253 saved); [done|]. lia.
  - destruct (Z.ltb_spec 253 len); [done|]. split; [lia|]. intros Hx. by apply Htwo in Hx.
Qed.

Lemma validateGroups_ok name path groups i seen :
  validateGroups r name path i seen groups = [] ->
  (forall g, g ∈ groups -> groupOk r name g /\ dg_Name g ∉ seen) /\ NoDup (dg_Name <$> groups).
Proof.
  revert i seen. induction groups as [|g groups IH]; intros i seen; simpl.
  { intros _. split; [|constructor]. by intros g ?%not_elem_of_nil. }
  intros [Hn [Hr [Hm Hrest]%app_eq_nil]%app_eq_nil]%app_eq_nil.
  apply name_ok in Hn as (Hne & Hseen & Hlen & Hslots).
  rewrite bool_decide_eq_false_2 in Hrest by done. apply IH in Hrest as [Hall Hnd]. split.
  - intros g' [->|Hg']%elem_of_cons.
    + split; [|done]. apply metadata_ok in Hm as (? & ? & ?). split; eauto using replicas_given.
    + apply Hall in Hg'. set_solver.
  - apply NoDup_cons. split; [|done]. intros (g' & E & Hg')%list_elem_of_fmap.
    apply Hall in Hg' as [_ Hg']. rewrite <-E in Hg'. set_solver.
Qed.

(** The groups of a component are among those validated under its name. *)
Lemma groups_named c :
  GetDeploymentGroups c (mi_Spec r) = [] \/
  exists field, (field, Name c, GetDeploymentGroups c (mi_Spec r)) ∈ namedGroups r.
Proof.
  unfold GetDeploymentGroups, namedGroups, mi_Com. set (com := spec_Com (mi_Spec r)).
  repeat case_bool_decide; try (by left);
    match goal with H : Name c = _ |- _ => rewrite H end;
    match goal with |- context [_ <$> ?o] => destruct o eqn:? end; try (by left); right; simpl;
    eexists;
    repeat first [apply list_elem_of_here|apply elem_of_app; right].
Qed.

Lemma component_groups_ok c :
  validateDeploymentGroups r = [] ->
  (forall g, g ∈ GetDeploymentGroups c (mi_Spec r) -> groupOk r (Name c) g) /\
  NoDup (dg_Name <$> GetDeploymentGroups c (mi_Spec r)).
Proof.
  intros Hv. destruct (groups_named c) as [->|[field Hin]].
  { split; [by intros g ?%not_elem_of_nil|constructor]. }
  unfold validateDeploymentGroups in Hv. apply concat_nil_Forall in Hv.
  rewrite Forall_forall in Hv.
  pose proof (Hv _ (list_elem_of_fmap_2 _ _ _ Hin)) as Hg. simpl in Hg.
  apply validateGroups_ok in Hg as [Hall Hnd]. split; [|done]. intros g Hg. by apply Hall.
Qed.

(** Only four components have groups. *)
Lemma grouped_component c g : g ∈ GetDeploymentGroups c (mi_Spec r) ->
  Name c ∈ ["proxy"; "datanode"; "querynode"; "streamingnode"].
Proof.
  unfold GetDeploymentGroups. repeat case_bool_decide; try (intros ?%not_elem_of_nil; done); intros _;
    match goal with H : Name c = _ |- _ => rewrite H end; set_solver.
Qed.

Lemma reserved_for name k : name ∈ ["proxy"; "datanode"; "querynode"; "streamingnode"] ->
  k ∈ [GetComponentGroupIdLabel name; ServiceLabel; OperatorVersionLabel] -> k ∈ deploymentGroupReservedLabels.
Proof.
  intros Hn Hk. repeat (apply elem_of_cons in Hn as [-> |Hn]; [|try (by apply not_elem_of_nil in Hn)]).
  all: repeat (apply elem_of_cons in Hk as [-> |Hk]; [|try (by apply not_elem_of_nil in Hk)]).
  all: apply (bool_decide_unpack _); vm_compute; exact I.
Qed.

(** C36. Admitted deployment groups: in a resource that passes validation the
    groups of a component have distinct names and given replicas of at least -1;
    their labels have none of the keys by which the operator identifies a workload
    (those of its selector, of its slot, of the service and of the operator's
    version), their annotations not the checksum of the configuration, and
    neither has a key with a prefix that reconciliation preserves; the names of
    their deployments fit the 253 characters of Kubernetes, and so do, where
    the component may run as two deployments, those of both slots and of the
    saved objects of a mode change. *)
Theorem admitted_groups :
  ValidateCreate r = [] ->
  groupNamesDistinct (mi_Spec r) /\
  forall c g, g ∈ GetDeploymentGroups c (mi_Spec r) ->
    let w := set_group c g in
    dg_Name g <> "" /\ (exists n, dg_Replicas g = Some n /\ -1 <= n) /\
    (String.length (GetDeploymentName w (mi_Name r)) <= 253)%nat /\
    (com_RollingMode (mi_Com r) = RollingModeV3 \/ Name c = "querynode" ->
      (forall slot, slot = 0 \/ slot = 1 ->
         (String.length (formatComponentDeployName w r slot) <= 253)%nat) /\
      (String.length (formatSaveOldDeployName w r) <= 253)%nat /\
      (String.length (formatSaveOldReplicaSetListName w r) <= 253)%nat) /\
    (forall k, k ∈ dom (dg_Labels g) ∪ dom (dg_Annotations g) -> isPreservedKey k = false) /\
    dg_Labels g ##ₘ GetSelectorLabels w (mi_Name r) /\
    (forall k, k ∈ [GetComponentGroupIdLabel (Name c); ServiceLabel; OperatorVersionLabel] -> dg_Labels g !! k = None) /\
    dg_Annotations g !! "checksum/config" = None.
Proof.
  unfold ValidateCreate. intros [_ [_ [Hv _]%app_eq_nil]%app_eq_nil]%app_eq_nil. split.
  { intros c _. by apply component_groups_ok. }
  intros c g Hg. pose proof (grouped_component c g Hg) as Hname.
  apply (proj1 (component_groups_ok c Hv)) in Hg as [H1 H2 H3 H4 H5 H6 H7].
  split; [done|]. split; [done|]. unfold formatComponentDeployName, GetDeploymentName,
    formatSaveOldDeployName, formatSaveOldReplicaSetListName. simpl.
  rewrite !string_length_app in *. simpl in *. split; [lia|]. split; [|split; [done|split; [|split]]].
  2: { apply map_disjoint_dom. intros k Hk Hs. apply elem_of_dom in Hk as [v Hk]. rewrite H6 in Hk; [done|].
       revert Hs. unfold GetSelectorLabels, NewComponentAppLabels. simpl. rewrite !dom_insert_L, dom_singleton_L. 
       unfold deploymentGroupReservedLabels. set_solver. }
  2: { intros k Hk. apply H6, (reserved_for (Name c)); done. }
  2: { apply H7. unfold deploymentGroupReservedAnnotations. set_solver. }
  intros Htwo. apply H4 in Htwo as [Hl Hs]. rewrite ?string_length_app in *. simpl in *.
  split; [|lia]. intros slot [->| ->]; rewrite ?string_length_app; simpl; lia.
Qed.
End Groups.

(** ** Concrete admissions *)

(** The rule of [IsDNS1123Label]: 1 to 63 lower case letters, digits and
    dashes, without a dash at either end.  The claims are accepted as they are. *)
Definition dnsChar (a : Ascii.ascii) : bool :=
  let n := Ascii.nat_of_ascii a in
  ((97 <=? n) && (n <=? 122))%nat || ((48 <=? n) && (n <=? 57))%nat.

Definition dnsLabel (s : string) : bool :=
  let l := String.list_ascii_of_string s in
  (length l <=? 63)%nat && forallb (fun a => dnsChar a || bool_decide (a = "-"%char)) l
  && match head l, last l with Some a, Some b => dnsChar a && dnsChar b | _, _ => false end.

Definition concreteAdmission : AdmissionLib := {|
  IsDNS1123Label s := if dnsLabel s then [] else ["a lowercase RFC 1123 label must consist of lower case alphanumeric characters"];
  AsPersistentVolumeClaimSpec _ := None;
  AsPersistentVolumeClaim _ := None
|}.

#[local] Existing Instance concreteSemver.
#[local] Existing Instance concreteIntStr.
#[local] Existing Instance concreteAdmission.

(** Two query node groups are admitted; the name of the second slot of one of
    them fits. *)
Lemma admitted_groups_witness :
  ValidateCreate exGrouped = [] /\ groupNamesDistinct (mi_Spec exGrouped) /\
  (String.length (formatComponentDeployName (set_group QueryNode (exGroup "a")) exGrouped 1) <= 253)%nat.
Proof.
  assert (ValidateCreate exGrouped = []) as H by (vm_compute; reflexivity).
  split; [exact H|]. destruct (admitted_groups exGrouped H) as [Hd Hg]. split; [exact Hd|].
  destruct (Hg QueryNode (exGroup "a")) as (_ & _ & _ & Hs & _).
  - vm_compute. right. left.
  - apply Hs; [left; reflexivity|right; reflexivity].
Defined.
