(* ===== verification/StatusProofs.v ===== *)
(** * Properties of the reported status

    The status of a component with deployment groups summarises those of its
    groups; the conditions and the health of an instance say what the
    workloads are in; an update writes the status only, and only when it
    changed. *)
From S2P Require Import Prelude KubeTypes Libs ApiTypes UpgradeTypes Labels Effects Utils Components.
From S2P Require Import Examples UpgradeFsm Status.

Create HintDb silent.

Local Open Scope string_scope.
Local Open Scope list_scope.
Local Open Scope Z_scope.

(** ** Aggregation over deployment groups *)

(** The state of a component with groups in these states: complete if all
    are, paused if the others are complete, failed if any is. *)
Definition groupState (states : list DeploymentState) : DeploymentState :=
  if forallb (fun s => bool_decide (s = DeploymentComplete)) states then DeploymentComplete
  else if forallb (fun s => bool_decide (s = DeploymentComplete) || bool_decide (s = DeploymentPaused)) states
  then DeploymentPaused
  else if existsb (fun s => bool_decide (s = DeploymentFailed)) states then DeploymentFailed
  else DeploymentProgressing.

Lemma aggregate_flags l : forall ret f,
  snd (fold_left aggregateOne l (ret, f))
  = mkAggregation
      (ag_allComplete f && forallb (fun s => bool_decide (GetState s = DeploymentComplete)) l)
      (ag_allCompleteOrPaused f
       && forallb (fun s => bool_decide (GetState s = DeploymentComplete)
                            || bool_decide (GetState s = DeploymentPaused)) l)
      (ag_allAvailable f && forallb (fun s => DeploymentReady (cds_Status s)) l)
      (ag_anyFailed f || existsb (fun s => bool_decide (GetState s = DeploymentFailed)) l).
Proof.
  induction l as [|s l IH]; intros ret f; cbn [fold_left forallb existsb].
  - rewrite !andb_true_r, orb_false_r. by destruct f.
  - unfold aggregateOne at 2. rewrite IH. clear IH.
    destruct f as [[] [] [] []], (GetState s), (DeploymentReady (cds_Status s)); simpl; done.
Qed.

(** The common image of the statuses, empty if they differ. *)
Lemma aggregate_image l : forall ret f,
  cds_Image (fst (fold_left aggregateOne l (ret, f)))
  = if decide (Forall (fun s => cds_Image s = cds_Image ret) l) then cds_Image ret else "".
Proof.
  induction l as [|s l IH]; intros ret f; cbn [fold_left].
  - by rewrite decide_True.
  - unfold aggregateOne at 2. rewrite IH. clear IH. cbn [cds_Image].
    destruct (decide (cds_Image s = cds_Image ret)) as [E|E].
    + apply if_decide_iff_ext. rewrite Forall_cons. naive_solver.
    + rewrite (decide_False (P := Forall _ (s :: l))) by (rewrite Forall_cons; naive_solver).
      by case_decide.
Qed.

Lemma groupState_fmap statuses :
  groupState (GetState <$> statuses)
  = if forallb (fun s => bool_decide (GetState s = DeploymentComplete)) statuses then DeploymentComplete
    else if forallb (fun s => bool_decide (GetState s = DeploymentComplete)
                              || bool_decide (GetState s = DeploymentPaused)) statuses
    then DeploymentPaused
    else if existsb (fun s => bool_decide (GetState s = DeploymentFailed)) statuses then DeploymentFailed
    else DeploymentProgressing.
Proof.
  assert (forall p, forallb p (GetState <$> statuses) = forallb (fun s => p (GetState s)) statuses) as Hf
    by (intros p; induction statuses as [|s l IH]; [done|]; rewrite fmap_cons; cbn [forallb]; f_equal; apply IH).
  assert (forall p, existsb p (GetState <$> statuses) = existsb (fun s => p (GetState s)) statuses) as He
    by (clear Hf; intros p; induction statuses as [|s l IH]; [done|]; rewrite fmap_cons; cbn [existsb]; f_equal; apply IH).
  unfold groupState. by rewrite !Hf, He.
Qed.

(** The status of a component with deployment groups summarises its groups:
    its state is complete exactly when all groups are, paused when the rest is
    paused, failed when a group failed; it is available exactly when all
    groups are; and it shows an image exactly when all groups run it. *)
Theorem aggregate_summarises now statuses :
  statuses <> [] ->
  let agg := aggregateComponentDeployStatuses now statuses in
  GetState agg = groupState (GetState <$> statuses) /\
  DeploymentReady (cds_Status agg) = forallb (fun s => DeploymentReady (cds_Status s)) statuses /\
  (forall i, i <> "" -> cds_Image agg = i <-> Forall (fun s => cds_Image s = i) statuses).
Proof.
  destruct statuses as [|first l]; [done|]. intros _. cbv zeta. rewrite groupState_fmap.
  unfold aggregateComponentDeployStatuses. set (start := mkDeployStatus 0 _ _).
  pose proof (aggregate_flags (first :: l) start (mkAggregation true true true false)) as Hf.
  pose proof (aggregate_image (first :: l) start (mkAggregation true true true false)) as Hi.
  destruct (fold_left aggregateOne (first :: l) _) as [ret f]. cbn [fst snd] in Hf, Hi. subst f.
  cbn [ag_allComplete ag_allCompleteOrPaused ag_allAvailable ag_anyFailed andb orb].
  set (b1 := forallb (fun s => bool_decide _) _). set (b2 := forallb (fun s => _ || _) _).
  set (b3 := existsb _ _). set (b4 := forallb (fun s => DeploymentReady _) _).
  split; [|split].
  - destruct b1, b2, b3; unfold GetState; simpl; rewrite Z.ltb_irrefl; done.
  - by destruct b1, b2, b3, b4.
  - set (agg := let '(status, reason) := _ in _).
    assert (cds_Image agg = cds_Image ret) as -> by (unfold agg; by destruct b1, b2, b3). clear agg.
    assert (cds_Image ret = if decide (Forall (fun s => cds_Image s = cds_Image first) (first :: l))
                            then cds_Image first else "") as -> by exact Hi. clear Hi.
    intros i Hne. case_decide as Hall; split.
    + by intros <-.
    + intros Hi'%Forall_cons. naive_solver.
    + done.
    + intros Hi'. destruct Hall. pose proof Hi' as [-> _]%Forall_cons. done.
Qed.

(** ** The condition MilvusUpdated *)

Section Status.
Context {SV : Semver} {KL : KubeLib} {KM : KubeMessages}.

(** A workload that has nothing left to update. *)
Definition workloadUpdated (m : Milvus) (w : MilvusComponent) : Prop :=
  (GetState (workloadStatus (mi_Status m) w) = DeploymentComplete \/
   GetState (workloadStatus (mi_Status m) w) = DeploymentPaused) /\
  IsComponentRolling m (GetStateKey w) = false /\
  (IsRollingUpdateEnabled m = true ->
   com_ImageUpdateMode (mi_Com m) = ImageUpdateModeRollingUpgrade \/
   com_ImageUpdateMode (mi_Com m) = ImageUpdateModeRollingDowngrade ->
   cds_Image (workloadStatus (mi_Status m) w) = csp_Image (com_ComponentSpec (mi_Com m))).

Lemma workloadUpdated_bool m w :
  workloadUpdated m w <->
  workloadUpdating m w = false /\
  (com_ImageUpdateMode (mi_Com m) = ImageUpdateModeRollingUpgrade \/
   com_ImageUpdateMode (mi_Com m) = ImageUpdateModeRollingDowngrade -> workloadUpdatingImage m w = false).
Proof.
  unfold workloadUpdated, workloadUpdating, workloadUpdatingImage.
  rewrite orb_false_iff. destruct (IsRollingUpdateEnabled m); simpl.
  - rewrite negb_false_iff, bool_decide_eq_true.
    destruct (GetState (workloadStatus (mi_Status m) w)); simpl; naive_solver.
  - destruct (GetState (workloadStatus (mi_Status m) w)); simpl; naive_solver.
Qed.

(** The list of updating components is empty, or has the name of one. *)
Lemma updating_cases m ws :
  (GetDisplayName <$> filter (fun w => workloadUpdating m w = true) ws = [] /\
   forall w, w ∈ ws -> workloadUpdating m w = false) \/
  (exists w, w ∈ ws /\ exists n ns,
     GetDisplayName <$> filter (fun w => workloadUpdating m w = true) ws = n :: ns /\
     workloadUpdating m w = true).
Proof.
  destruct (filter (fun w => workloadUpdating m w = true) ws) as [|w l] eqn:E.
  - left. split; [done|]. intros w Hw. destruct (workloadUpdating m w) eqn:Eu; [|done].
    assert (w ∈ filter (fun w => workloadUpdating m w = true) ws) as Hin by by apply list_elem_of_filter.
    rewrite E in Hin. by apply not_elem_of_nil in Hin.
  - right. exists w. assert (w ∈ filter (fun w => workloadUpdating m w = true) ws) as [Hu Hw]%list_elem_of_filter
      by (rewrite E; left). split; [done|]. by eexists _, _.
Qed.

Lemma updated_exact m :
  mc_Status (GetMilvusUpdatedCondition m) = ConditionTrue <->
  forall w, w ∈ GetComponentWorkloadsBySpec (mi_Spec m) ->
    IsIdleClusterStandalone (mi_Spec m) w = false -> workloadUpdated m w.
Proof.
  unfold GetMilvusUpdatedCondition.
  set (ws := filter (fun w => IsIdleClusterStandalone (mi_Spec m) w = false) _).
  assert (forall w, w ∈ ws <-> w ∈ GetComponentWorkloadsBySpec (mi_Spec m) /\
                               IsIdleClusterStandalone (mi_Spec m) w = false) as Hws
    by (intros w; unfold ws; rewrite list_elem_of_filter; tauto).
  assert (workloadsUpdated : (forall w, w ∈ GetComponentWorkloadsBySpec (mi_Spec m) ->
            IsIdleClusterStandalone (mi_Spec m) w = false -> workloadUpdated m w) <->
          forall w, w ∈ ws -> workloadUpdated m w) by (setoid_rewrite Hws; naive_solver).
  rewrite workloadsUpdated. clear workloadsUpdated Hws. clearbody ws.
  setoid_rewrite workloadUpdated_bool.
  destruct (updating_cases m ws) as [[Hl Hu]|(w & Hw & n & ns & Hl & Hu)].
  - rewrite Hl. destruct (existsb (workloadUpdatingImage m) ws) eqn:Ei.
    + apply existsb_exists in Ei as (w & Hw%list_elem_of_In & Hi).
      destruct (com_ImageUpdateMode (mi_Com m)); simpl;
        (split; [first [done|intros _ w' Hw'; split; [by apply Hu|by intros [?|?]]]|]);
        first [done|intros H; destruct (H w Hw) as [_ Hn]; rewrite Hn in Hi by auto; done].
    + assert (forall w, w ∈ ws -> workloadUpdatingImage m w = false) as Hi.
      { intros w Hw. destruct (workloadUpdatingImage m w) eqn:E; [|done].
        rewrite <-Ei. symmetry. apply existsb_exists. exists w. split; [by apply list_elem_of_In|done]. }
      simpl. split; [|done]. intros _ w Hw. auto.
  - rewrite Hl. destruct (existsb (workloadUpdatingImage m) ws), (com_ImageUpdateMode (mi_Com m)); simpl;
      (split; [done|]); intros H; destruct (H w Hw) as [Hn _]; congruence.
Qed.

(** The condition MilvusUpdated is exact: it is true exactly when every
    workload, an idle standalone of a cluster apart, has a complete or paused
    deployment, no rollout in progress, and, where images are rolled, the
    image of the spec. *)
Theorem updated_iff m :
  mc_Status (GetMilvusUpdatedCondition m) = ConditionTrue <->
  forall w, w ∈ GetComponentWorkloadsBySpec (mi_Spec m) ->
    IsIdleClusterStandalone (mi_Spec m) w = false -> workloadUpdated m w.
Proof. apply updated_exact. Qed.

(** ** The update of the status *)

(** Writes that only kill terminating pods. *)
Definition kills (ws : list kwrite) : Prop := Forall (fun w => exists ns p c, w = ExecKill ns p c) ws.

Lemma kills_app ws ws' : kills ws -> kills ws' -> kills (ws ++ ws').
Proof. intros. by apply Forall_app. Qed.

Definition silent {A} (ws : list kwrite) (o : outcome A) : Prop := kills ws.

Lemma silent_bind {A B} (p : prog A) (f : A -> prog B) :
  wp anyAnswer p silent -> (forall a, wp anyAnswer (f a) silent) -> wp anyAnswer (prog_bind f p) silent.
Proof.
  intros Hp Hf. apply wp_bind. eapply wp_mono; [|exact Hp]. intros ws [a|e|] Hws; [|done..].
  eapply wp_mono; [|apply Hf]. intros ws' o' Hws'. by apply kills_app.
Qed.

Lemma silent_attempt {A} (p : prog A) : wp anyAnswer p silent -> wp anyAnswer (attempt p) silent.
Proof. intros Hp. apply wp_attempt. eapply wp_mono; [|exact Hp]. by intros ws [a|e|] ?. Qed.

Lemma silent_wrap {A} msg (p : prog A) : wp anyAnswer p silent -> wp anyAnswer (wrap msg p) silent.
Proof. intros Hp. apply wp_wrap. eapply wp_mono; [|exact Hp]. by intros ws [a|e|] ?. Qed.

Lemma silent_read {B} (r : kread B) : wp anyAnswer (read r) silent.
Proof. apply wp_read; intros; constructor. Qed.

Lemma silent_kill ns p c : wp anyAnswer (write (ExecKill ns p c)) silent.
Proof. apply wp_write; intros; repeat constructor; by eexists _, _, _. Qed.

Lemma silent_ret {A} (a : A) : wp anyAnswer (Ret a) silent.
Proof. apply wp_ret. constructor. Qed.

Lemma silent_fail {A} e : wp anyAnswer (Fail (A:=A) e) silent.
Proof. apply wp_fail. constructor. Qed.

Lemma silent_deref {A} (o : option A) : wp anyAnswer (deref o) silent.
Proof. apply wp_deref; intros; constructor. Qed.

Lemma silent_lift {A} (r : err + A) : wp anyAnswer (lift r) silent.
Proof. destruct r; [apply silent_fail|apply silent_ret]. Qed.

#[local] Hint Resolve silent_read silent_kill silent_ret silent_fail silent_deref silent_lift : silent.

(** Symbolic execution of a program that writes nothing but kills. *)
Ltac silent_step :=
  lazymatch goal with
  | |- wp _ (mbind _ _) _ => apply silent_bind; [|intros ?]
  | |- wp _ (wrap _ _) _ => apply silent_wrap
  | |- wp _ (attempt _) _ => apply silent_attempt
  | |- wp _ (match ?x with _ => _ end) _ => destruct x
  | |- wp _ _ _ => solve [auto with silent]
  end; cbv beta iota zeta.
Ltac silent_steps := cbv beta iota zeta; repeat silent_step.

Lemma silent_killPods pods : forall ret, wp anyAnswer (killPods pods ret) silent.
Proof.
  induction pods as [|p pods IH]; intros ret; cbn [killPods]; silent_steps; auto.
Qed.
#[local] Hint Resolve silent_killPods : silent.

Lemma silent_stopping mc : wp anyAnswer (getStoppingCondition mc) silent.
Proof. unfold getStoppingCondition, CheckMilvusStopped, listMilvusPods, ExecKillIfTerminating. silent_steps. Qed.

Lemma silent_pods ret ns sel : wp anyAnswer (collectPodErrorDetail ret ns sel) silent.
Proof. unfold collectPodErrorDetail. silent_steps. Qed.
#[local] Hint Resolve silent_stopping silent_pods : silent.

Lemma silent_checkComponent mc deploys c rd : wp anyAnswer (checkComponent mc deploys c rd) silent.
Proof.
  unfold checkComponent, getStatefulSetForComponent, notReady, getStatefulSetErrorDetail,
    getComponentErrorDetail. silent_steps.
Qed.
#[local] Hint Resolve silent_checkComponent : silent.

Lemma silent_checkComponents mc deploys l : forall rd, wp anyAnswer (checkComponents mc deploys l rd) silent.
Proof. induction l as [|c l IH]; intros rd; cbn [checkComponents]; silent_steps. Qed.
#[local] Hint Resolve silent_checkComponents : silent.

Lemma silent_instance mc : wp anyAnswer (GetMilvusInstanceCondition mc) silent.
Proof. unfold GetMilvusInstanceCondition. silent_steps. Qed.

Lemma silent_endpoint mc : wp anyAnswer (syncer_GetMilvusEndpoint mc) silent.
Proof. unfold syncer_GetMilvusEndpoint, GetMilvusEndpoint. silent_steps. Qed.

Lemma silent_terminating mc c : wp anyAnswer (handleTerminatingPods mc c) silent.
Proof.
  unfold handleTerminatingPods, ListMilvusTerminatingPods, listMilvusPods, ExecKillIfTerminating.
  silent_steps.
Qed.

Lemma silent_collect mc deploys l : forall ds, wp anyAnswer (collectStatuses mc deploys l ds) silent.
Proof.
  induction l as [|w l IH]; intros ds; cbn [collectStatuses]; unfold getStatefulSetForComponent;
    silent_steps.
Qed.

(** What the steps before the health leave alone. *)
Definition core (m : Milvus) :=
  (mi_Meta m, mi_Spec m, st_Status (mi_Status m), st_ObservedGeneration (mi_Status m),
   st_CurrentImage (mi_Status m), st_CurrentVersion (mi_Status m)).

Definition keeps (mc : Milvus) (ws : list kwrite) (o : outcome Milvus) : Prop :=
  kills ws /\ forall mc', o = ORet mc' -> core mc' = core mc.

Lemma keeps_ret mc mc' : core mc' = core mc -> wp anyAnswer (Ret mc') (keeps mc).
Proof. intros H. apply wp_ret. split; [constructor|]. by intros ? [= <-]. Qed.

Lemma keeps_fail mc e : wp anyAnswer (Fail e) (keeps mc).
Proof. apply wp_fail. by split; [constructor|]. Qed.

Lemma keeps_wrap mc msg p : wp anyAnswer p (keeps mc) -> wp anyAnswer (wrap msg p) (keeps mc).
Proof. intros Hp. apply wp_wrap. eapply wp_mono; [|exact Hp]. by intros ws [a|e|] [? ?]. Qed.

(** A silent program, then the rest. *)
Lemma keeps_silent {A} mc (p : prog A) f :
  wp anyAnswer p silent -> (forall a, wp anyAnswer (f a) (keeps mc)) -> wp anyAnswer (prog_bind f p) (keeps mc).
Proof.
  intros Hp Hf. apply wp_bind. eapply wp_mono; [|exact Hp]. intros ws [a|e|] Hws; [|by split..].
  eapply wp_mono; [|apply Hf]. intros ws' o' [Hws' Ho']. split; [by apply kills_app|done].
Qed.

Lemma keeps_trans mc p f :
  wp anyAnswer p (keeps mc) -> (forall mc', core mc' = core mc -> wp anyAnswer (f mc') (keeps mc)) ->
  wp anyAnswer (prog_bind f p) (keeps mc).
Proof.
  intros Hp Hf. apply wp_bind. eapply wp_mono; [|exact Hp]. intros ws [a|e|] [Hws Ho]; [|by split..].
  eapply wp_mono; [|apply Hf, Ho; done]. intros ws' o' [Hws' Ho']. split; [by apply kills_app|done].
Qed.

Lemma core_UpdateCondition now mc c :
  core (with_st mc (fun s => UpdateCondition now s c)) = core mc.
Proof. unfold core, UpdateCondition. simpl. by case_bool_decide. Qed.

Lemma keeps_update mc mc0 c : core mc = core mc0 -> wp anyAnswer (updateConditionNow mc c) (keeps mc0).
Proof.
  intros H. unfold updateConditionNow. apply keeps_silent; [auto with silent|]. intros now.
  apply keeps_ret. by rewrite core_UpdateCondition.
Qed.

Lemma silent_probes mc types : wp anyAnswer (probeDependencies types mc) silent.
Proof. induction types as [|t types IH]; cbn [probeDependencies]; silent_steps. Qed.

Lemma keeps_probes ress : forall mc mc0 texts,
  core mc = core mc0 -> wp anyAnswer (recordProbes ress mc texts) (keeps mc0).
Proof.
  induction ress as [|[e|c] ress IH]; intros mc mc0 texts H; cbn [recordProbes].
  - destruct texts; [by apply keeps_ret|apply keeps_fail].
  - by apply IH.
  - apply keeps_trans; [by apply keeps_update|]. intros mc' Hc. by apply IH.
Qed.

Lemma keeps_dependencies mc : wp anyAnswer (checkDependencyConditions mc) (keeps mc).
Proof.
  unfold checkDependencyConditions. apply keeps_silent; [auto with silent|]. intros [].
  - by apply keeps_ret.
  - apply keeps_silent; [apply silent_probes|]. intros ress. by apply keeps_probes.
Qed.

Lemma keeps_ingress mc : wp anyAnswer (UpdateIngressStatus mc) (keeps mc).
Proof.
  unfold UpdateIngressStatus, getIngressStatus. apply keeps_silent; [auto with silent|]. intros sc.
  destruct (sc_Ingress sc); [|by apply keeps_ret].
  apply keeps_silent; [silent_steps|]. intros j. by apply keeps_ret.
Qed.

Lemma keeps_deploys mc : wp anyAnswer (deployStatus_Update mc) (keeps mc).
Proof.
  unfold deployStatus_Update. apply keeps_silent; [silent_steps|]. intros deploys.
  apply keeps_silent; [apply silent_collect|]. intros ds.
  apply keeps_silent; [auto with silent|]. intros now. by apply keeps_ret.
Qed.

(** ** Conditions after an update *)

Lemma valid_find (conds : list MilvusCondition) t :
  t <> "" ->
  snd <$> list_find (fun x => mc_Type x = t) (filter (fun x => mc_Type x <> "") conds)
  = snd <$> list_find (fun x => mc_Type x = t) conds.
Proof.
  intros Ht. induction conds as [|c conds IH]; [done|]. rewrite filter_cons. simpl.
  destruct (decide (mc_Type c = t)) as [<-|Hne].
  - rewrite decide_True by done. simpl. by rewrite decide_True.
  - case_decide; simpl; rewrite ?(decide_False (P := mc_Type c = t)) by done; revert IH;
      destruct (list_find (fun x => mc_Type x = t) (filter (fun x => mc_Type x <> "") conds)) as [[]|],
        (list_find (fun x => mc_Type x = t) conds) as [[]|]; simpl; done.
Qed.

Lemma isTrue_alt conds t :
  IsMilvusConditionTrueByType conds t
  = match snd <$> list_find (fun c => mc_Type c = t) conds with
    | Some c => bool_decide (mc_Status c = ConditionTrue)
    | None => false
    end.
Proof. unfold IsMilvusConditionTrueByType. by destruct (list_find _ _) as [[]|]. Qed.

Lemma isTrue_update now s c t :
  t <> "" ->
  IsMilvusConditionTrueByType (st_Conditions (UpdateCondition now s c)) t
  = if decide (t = mc_Type c) then bool_decide (mc_Status c = ConditionTrue)
    else IsMilvusConditionTrueByType (st_Conditions s) t.
Proof.
  intros Ht. rewrite !isTrue_alt. unfold UpdateCondition. case_bool_decide as Hc; simpl.
  - rewrite valid_find by done. by rewrite decide_False by congruence.
  - rewrite upsert_find. case_decide as E; [|by rewrite valid_find].
    destruct (snd <$> list_find _ _); simpl; [|done].
    case_decide as Hd; [|done]. destruct Hd as [-> _]. done.
Qed.

Lemma updated_type m : mc_Type (GetMilvusUpdatedCondition m) = MilvusUpdated.
Proof. unfold GetMilvusUpdatedCondition. by repeat case_match. Qed.

(** The condition of an instance that is ready has the type MilvusReady. *)
Lemma instance_type mc :
  wp anyAnswer (GetMilvusInstanceCondition mc)
    (fun ws o => kills ws /\
       forall c, o = ORet c -> mc_Status c = ConditionTrue -> mc_Type c = MilvusReady).
Proof.
  apply wp_conj; [apply silent_instance|]. unfold GetMilvusInstanceCondition, getStoppingCondition.
  apply wp_returns_bind. intros [].
  - apply wp_returns_bind. intros stopped. apply wp_ret. intros c [= <-]. by destruct stopped.
  - apply wp_returns_bind. intros deploys. apply wp_returns_bind. intros rd. apply wp_ret.
    intros c [= <-]. unfold instanceCondition. destruct (rd_notReady rd); [|done].
    by destruct (rd_hasEntryReplicas rd).
Qed.

(** ** What is reported *)

Record reported (mc mc' : Milvus) : Prop := mkReported {
  rp_meta : mi_Meta mc' = mi_Meta mc;
  rp_spec : mi_Spec mc' = mi_Spec mc;
  rp_generation : st_ObservedGeneration (mi_Status mc') = om_Generation (mi_Meta mc);
  rp_healthy : st_Status (mi_Status mc') = StatusHealthy ->
    isMilvusStoppingForReconcile mc' = Some false /\
    IsMilvusConditionTrueByType (st_Conditions (mi_Status mc')) MilvusReady = true;
  rp_updated : IsMilvusConditionTrueByType (st_Conditions (mi_Status mc')) MilvusUpdated = true ->
    forall w, w ∈ GetComponentWorkloadsBySpec (mi_Spec mc') ->
      IsIdleClusterStandalone (mi_Spec mc') w = false -> workloadUpdated mc' w;
  rp_current :
    (st_CurrentImage (mi_Status mc'), st_CurrentVersion (mi_Status mc'))
      = (st_CurrentImage (mi_Status mc), st_CurrentVersion (mi_Status mc)) \/
    IsMilvusConditionTrueByType (st_Conditions (mi_Status mc')) MilvusReady = true /\
    IsMilvusConditionTrueByType (st_Conditions (mi_Status mc')) MilvusUpdated = true /\
    st_CurrentImage (mi_Status mc') = csp_Image (com_ComponentSpec (mi_Com mc)) /\
    st_CurrentVersion (mi_Status mc') = csp_Version (com_ComponentSpec (mi_Com mc))
}.

(** The last part of the update: the conditions, the current image and the
    health. *)
Definition finished (now now' : Z) (mc : Milvus) (ready updated : MilvusCondition) (stopping : bool) : Milvus :=
  let mc := with_st mc (fun s => UpdateCondition now s ready) in
  let mc := recordCurrent (with_st mc (fun s => UpdateCondition now' s updated)) in
  with_st mc (fun s => set_HealthStatus
    (GetMilvusHealthStatus (st_Status s) stopping (bool_decide (mc_Status ready = ConditionTrue))) s).

(** The condition MilvusUpdated says less when pods are terminating. *)
Definition saysUpdated (mc : Milvus) (c : MilvusCondition) : Prop :=
  mc_Type c = MilvusUpdated /\
  (mc_Status c = ConditionTrue -> c = GetMilvusUpdatedCondition mc).

Lemma terminating_says mc :
  wp anyAnswer (handleTerminatingPods mc (GetMilvusUpdatedCondition mc))
    (fun ws o => kills ws /\ returns (saysUpdated mc) ws o).
Proof.
  apply wp_conj; [apply silent_terminating|]. unfold handleTerminatingPods.
  apply wp_returns_bind. intros [|p pods].
  - apply wp_ret. intros c [= <-]. split; [apply updated_type|done].
  - apply wp_returns_bind. intros r. apply wp_ret. intros c [= <-]. split; [apply updated_type|done].
Qed.

(** The deploy statuses, from which MilvusUpdated is computed. *)
Definition deploysOf (m : Milvus) :=
  (mi_Meta m, mi_Spec m, st_ComponentsDeployStatus (mi_Status m),
   st_DeploymentGroupsDeployStatus (mi_Status m)).

Lemma updated_ext m m' :
  deploysOf m = deploysOf m' -> GetMilvusUpdatedCondition m = GetMilvusUpdatedCondition m'.
Proof.
  destruct m as [meta spec st], m' as [meta' spec' st']. destruct st, st'.
  intros [= -> -> -> ->]. reflexivity.
Qed.

Lemma deploysOf_UpdateCondition now m c :
  deploysOf (with_st m (fun s => UpdateCondition now s c)) = deploysOf m.
Proof. unfold deploysOf, UpdateCondition. simpl. by case_bool_decide. Qed.

Lemma recordCurrent_keeps m :
  deploysOf (recordCurrent m) = deploysOf m /\
  st_Conditions (mi_Status (recordCurrent m)) = st_Conditions (mi_Status m) /\
  st_ObservedGeneration (mi_Status (recordCurrent m)) = st_ObservedGeneration (mi_Status m).
Proof. unfold recordCurrent. by case_match. Qed.

Lemma finished_reported mc0 mc now now' ready updated stopping :
  let mc1 := with_st mc (fun s => UpdateCondition now s ready) in
  core mc = core (with_st mc0 (set_ObservedGeneration (om_Generation (mi_Meta mc0)))) ->
  (mc_Status ready = ConditionTrue -> mc_Type ready = MilvusReady) -> saysUpdated mc1 updated ->
  isMilvusStoppingForReconcile mc = Some stopping ->
  reported mc0 (finished now now' mc ready updated stopping).
Proof.
  cbv zeta. intros Hc Hready [Hty Hup] Hstop. unfold finished.
  set (mc1 := with_st mc _) in *. set (mc2 := with_st mc1 _).
  assert (core mc2 = core mc) as Hc2 by (unfold mc2, mc1; by rewrite !core_UpdateCondition).
  assert (deploysOf mc2 = deploysOf mc1) as Hd by apply deploysOf_UpdateCondition.
  assert (IsMilvusConditionTrueByType (st_Conditions (mi_Status mc2)) MilvusUpdated
          = bool_decide (mc_Status updated = ConditionTrue)) as Hu
    by (unfold mc2; simpl; rewrite isTrue_update by done; by rewrite decide_True).
  assert (mc_Status ready = ConditionTrue ->
          IsMilvusConditionTrueByType (st_Conditions (mi_Status mc2)) MilvusReady = true) as Hr.
  { intros Ht. unfold mc2, mc1. simpl. rewrite !isTrue_update by done.
    rewrite decide_False by (rewrite Hty; done). rewrite decide_True by (symmetry; auto).
    by apply bool_decide_eq_true_2. }
  assert (isMilvusStoppingForReconcile mc2 = Some stopping) as Hs2 by exact Hstop.
  rewrite Hc in Hc2. clear Hstop Hc. clearbody mc2. clearbody mc1.
  injection Hc2 as M1 M2 M3 M4 M5 M6.
  destruct (recordCurrent_keeps mc2) as (R1 & R2 & R3). pose proof R1 as [= R4 R5 R6 R7].
  split; cbn [with_st set_mi_Status set_HealthStatus mi_Meta mi_Spec mi_Status st_Status st_Conditions
              st_ObservedGeneration st_CurrentImage st_CurrentVersion].
  - by rewrite R4.
  - by rewrite R5.
  - by rewrite R3.
  - rewrite R2. unfold GetMilvusHealthStatus. destruct stopping; [done|].
    destruct (bool_decide (mc_Status ready = ConditionTrue)) eqn:Ht; 
      [|destruct (st_Status (mi_Status (recordCurrent mc2))); discriminate].
    apply bool_decide_eq_true in Ht. intros _. split; [|auto].
    rewrite <-Hs2. unfold isMilvusStoppingForReconcile, isUpgradeStopping, mi_Annotations. simpl.
    by rewrite R4, R5.
  - rewrite R2, Hu. intros Ht%bool_decide_eq_true. apply updated_exact.
    rewrite (updated_ext _ mc1); [by rewrite <-(Hup Ht)|].
    transitivity (deploysOf (recordCurrent mc2)); [done|congruence].
  - rewrite R2. unfold recordCurrent.
    destruct (IsMilvusConditionTrueByType _ MilvusReady && _) eqn:E.
    + right. apply andb_true_iff in E as [-> ->]. simpl. unfold mi_Com. by rewrite M2.
    + left. by rewrite M5, M6.
Qed.

(** What an update does, on its writes and outcome. *)
Definition updatePost (mc : Milvus) (ws : list kwrite) (o : outcome Milvus) : Prop :=
  exists ks, kills ks /\
    ((ws = ks /\ forall mc', o = ORet mc' -> reported mc mc' /\ mi_Status mc' = mi_Status mc) \/
     exists mc', ws = ks ++ [UpdateMilvusStatus mc'] /\ reported mc mc' /\ mi_Status mc' <> mi_Status mc /\
                 forall mc'', o = ORet mc'' -> mc'' = mc').

Lemma post_failed mc ks o : kills ks -> (forall mc', o <> ORet mc') -> updatePost mc ks o.
Proof. intros Hk Ho. exists ks. split; [done|]. left. split; [done|]. intros mc' E. by destruct (Ho mc'). Qed.

Lemma post_app mc ks ws o : kills ks -> updatePost mc ws o -> updatePost mc (ks ++ ws) o.
Proof.
  intros Hk (ks' & Hk' & H). exists (ks ++ ks'). split; [by apply kills_app|].
  destruct H as [[-> H]|(mc' & -> & H)]; [by left|]. right. exists mc'. by rewrite (assoc_L (++)).
Qed.

(** A first part that writes nothing but kills, with what it returns. *)
Lemma post_bind {A} mc (p : prog A) f (V : A -> Prop) :
  wp anyAnswer p (fun ws o => kills ws /\ returns V ws o) ->
  (forall a, V a -> wp anyAnswer (f a) (updatePost mc)) -> wp anyAnswer (prog_bind f p) (updatePost mc).
Proof.
  intros Hp Hf. apply wp_bind. eapply wp_mono; [|exact Hp].
  intros ws [a|e|] [Hws Hr]; [|by apply post_failed..].
  eapply wp_mono; [|apply Hf, Hr; done]. intros ws' o'. by apply post_app.
Qed.

Lemma silent_returns {A} (p : prog A) :
  wp anyAnswer p silent -> wp anyAnswer p (fun ws o => kills ws /\ returns (fun _ => True) ws o).
Proof. intros H. eapply wp_mono; [|exact H]. by intros. Qed.

(** The end of the update. *)
Lemma post_end `{!DeepEqualLaws} mc0 mc :
  reported mc0 mc ->
  wp anyAnswer (if DeepEqual (mi_Status mc0) (mi_Status mc) then Ret mc
                else _ ← write (UpdateMilvusStatus mc); Ret mc) (updatePost mc0).
Proof.
  intros Hrep. rewrite DeepEqual_spec. case_bool_decide as E.
  - apply wp_ret. exists []. split; [constructor|]. left. split; [done|]. by intros mc' [= <-].
  - wp_steps; intros; exists []; (split; [constructor|]); right; exists mc;
      (split; [done|]); (split; [done|]); (split; [congruence|]); by intros mc' [= <-].
Qed.

Lemma updateNow_returns mc c :
  wp anyAnswer (updateConditionNow mc c)
    (fun ws o => kills ws /\
       returns (fun m => exists now, m = with_st mc (fun s => UpdateCondition now s c)) ws o).
Proof.
  apply wp_conj; [unfold updateConditionNow; silent_steps|]. unfold updateConditionNow.
  apply wp_returns_bind. intros now. apply wp_ret. intros m [= <-]. by exists now.
Qed.

Lemma sync_returns mc :
  wp anyAnswer (wrap "handle terminating pods failed" (syncUpdatedCondition mc))
    (fun ws o => kills ws /\
       returns (fun m => exists now c, saysUpdated mc c /\ m = with_st mc (fun s => UpdateCondition now s c)) ws o).
Proof.
  apply wp_wrap. unfold syncUpdatedCondition. apply wp_bind.
  eapply wp_mono; [|apply terminating_says]. intros ws [c|e|] [Hk Hr]; [|by split..].
  eapply wp_mono; [|apply updateNow_returns]. intros ws' [m|e|] [Hk' Hr'];
    (split; [by apply kills_app|]); [|done..].
  intros m' [= <-]. destruct (Hr' m eq_refl) as [now ->]. exists now, c. by split; [apply Hr|].
Qed.

Lemma stopping_keeps now now' mc c c' :
  isMilvusStoppingForReconcile
    (recordCurrent (with_st (with_st mc (fun s => UpdateCondition now s c))
                      (fun s => UpdateCondition now' s c')))
  = isMilvusStoppingForReconcile mc.
Proof.
  destruct (recordCurrent_keeps (with_st (with_st mc (fun s => UpdateCondition now s c))
    (fun s => UpdateCondition now' s c'))) as ([= E1 E2 _ _] & _ & _).
  unfold isMilvusStoppingForReconcile, isUpgradeStopping, mi_Annotations. by rewrite E1, E2.
Qed.

Lemma update_post `{!DeepEqualLaws} Debug mc checkDependency :
  wp anyAnswer (UpdateStatusForNewGeneration Debug mc checkDependency) (updatePost mc).
Proof.
  unfold UpdateStatusForNewGeneration. set (mc0 := with_st mc (set_ObservedGeneration _)).
  apply (post_bind mc _ _ (fun m => core m = core mc0)).
  { destruct (negb Debug && checkDependency); [apply keeps_wrap, keeps_dependencies|by apply keeps_ret]. }
  intros mc1 H1. apply (post_bind mc _ _ (fun m => core m = core mc1)); [apply keeps_wrap, keeps_ingress|].
  intros mc2 H2. apply (post_bind mc _ _ (fun m => core m = core mc2)); [apply keeps_wrap, keeps_deploys|].
  intros mc3 H3. eapply post_bind; [apply silent_returns, silent_endpoint|]. intros endpoint _.
  set (mc4 := with_st mc3 (set_Endpoint endpoint)).
  apply (post_bind mc _ _ (fun c => mc_Status c = ConditionTrue -> mc_Type c = MilvusReady));
    [apply instance_type|].
  intros ready Hready.
  apply (post_bind mc _ _ (fun m => exists now, m = with_st mc4 (fun s => UpdateCondition now s ready)));
    [apply updateNow_returns|].
  intros mc5 [now ->]. eapply post_bind; [apply sync_returns|]. cbv beta.
  intros mc6 (now' & updated & Hsays & ->).
  apply (post_bind mc _ _ (fun b => isMilvusStoppingForReconcile mc4 = Some b)).
  { apply wp_deref; intros; (split; [constructor|]); intros a' [= <-]. simplify_eq.
    rewrite <-(stopping_keeps now now' mc4 ready updated). done. }
  intros stopping Hstop. apply post_end.
  apply (finished_reported mc mc4 now now' ready updated stopping); [|done..].
  transitivity (core mc3); [done|]. by rewrite H3, H2, H1.
Qed.

(** C32. An update reports what it found.  Whatever calls fail, an update of the
    status writes the status at most once, as its last write, and otherwise
    only kills terminating pods.  The status it writes or returns keeps the
    resource, observes its generation, is healthy only if the instance is not
    stopping and its condition MilvusReady is true, says MilvusUpdated only if
    every workload is updated, and moves the current image and version to
    those of the spec only if both conditions are true.  The status is written
    only if it differs from that of the resource; without a write it is as it
    was. *)
Theorem status_update_sound `{!DeepEqualLaws} Debug mc checkDependency tr o :
  exec (UpdateStatusForNewGeneration Debug mc checkDependency) tr o ->
  exists ks, kills ks /\
    ((writes tr = ks /\ forall mc', o = ORet mc' -> reported mc mc' /\ mi_Status mc' = mi_Status mc) \/
     exists mc', writes tr = ks ++ [UpdateMilvusStatus mc'] /\ reported mc mc' /\ mi_Status mc' <> mi_Status mc /\
                 forall mc'', o = ORet mc'' -> mc'' = mc').
Proof. apply (wp_exec_any _ (updatePost mc)), update_post. Qed.

(** ** A ready instance *)

Lemma keyed_fold {A B} (key : A -> string) (sel : A -> option B) l : forall (m : gmap string B) k b,
  fold_left (fun ret a => match sel a with Some b => <[key a := b]> ret | None => ret end) l m !! k = Some b ->
  (exists a, a ∈ l /\ key a = k /\ sel a = Some b) \/ m !! k = Some b.
Proof.
  induction l as [|a l IH]; intros m k b; simpl; [by right|]. intros H.
  destruct (IH _ _ _ H) as [(a' & ? & ?)|Hm]; [left; exists a'; split; [by right|done]|].
  destruct (sel a) as [b'|] eqn:E; [|by right].
  destruct (decide (key a = k)) as [<-|Hne].
  - rewrite lookup_insert_eq in Hm. simplify_eq. left. exists a. split; [left|done].
  - rewrite lookup_insert_ne in Hm by done. by right.
Qed.

(** The mark of a rollout does not touch the availability. *)
Lemma ready_rolling d mc w :
  DeploymentReady (dep_Status (set_dep_Conditions d
    (UpdateDeploymentCondition (dss_Conditions (dep_Status d)) (rollingCondition mc w))))
  = DeploymentReady (dep_Status d).
Proof.
  unfold DeploymentReady. simpl. set (conds := dss_Conditions _). clearbody conds.
  assert (forall tl, snd <$> list_find (fun c => dc_Type c = DeploymentAvailableType)
            (((fun c => if decide (dc_Type c = dc_Type (rollingCondition mc w)) then rollingCondition mc w else c)
                <$> conds) ++ tl)
          = match snd <$> list_find (fun c => dc_Type c = DeploymentAvailableType) conds with
            | Some c => Some c
            | None => snd <$> list_find (fun c => dc_Type c = DeploymentAvailableType) tl
            end) as H.
  { intros tl. induction conds as [|c conds IH]; [done|]. rewrite fmap_cons. simpl.
    destruct (decide (dc_Type c = DeploymentProgressingType)) as [E|E]; simpl.
    - rewrite (decide_False (P := dc_Type c = DeploymentAvailableType)) by (by rewrite E).
      revert IH. destruct (list_find _ (_ ++ tl)) as [[]|], (list_find _ conds) as [[]|]; simpl; done.
    - destruct (decide (dc_Type c = DeploymentAvailableType)); [done|].
      revert IH. destruct (list_find _ (_ ++ tl)) as [[]|], (list_find _ conds) as [[]|]; simpl; done. }
  unfold UpdateDeploymentCondition. set (upd := _ <$> conds) in *.
  assert (forall l, (match list_find (fun c => dc_Type c = DeploymentAvailableType) l with
                     | Some (_, cond) => bool_decide (dc_Status cond = ConditionTrue)
                     | None => false
                     end)
          = match snd <$> list_find (fun c => dc_Type c = DeploymentAvailableType) l with
            | Some cond => bool_decide (dc_Status cond = ConditionTrue)
            | None => false
            end) as Hsnd by (intros l; by destruct (list_find _ l) as [[]|]).
  rewrite !Hsnd. destruct (existsb _ _).
  - specialize (H []). rewrite app_nil_r in H. rewrite H.
    by destruct (snd <$> list_find _ conds).
  - rewrite H. by destruct (snd <$> list_find _ conds).
Qed.

(** A deployment of a workload with the state key of [w], in its current slot. *)
Definition hasDeployment (mc : Milvus) (deploys : list Deployment) (w : MilvusComponent)
    (P : DeploymentStatus -> Prop) : Prop :=
  exists w' d, w' ∈ GetComponentWorkloadsBySpec (mi_Spec mc) /\ GetStateKey w' = GetStateKey w /\
    d ∈ deploys /\ ofWorkload mc w' d = true /\ P (dep_Status d).

Lemma selected_listed mc deploys w d :
  makeWorkloadDeploymentMap mc deploys !! GetStateKey w = Some d ->
  hasDeployment mc deploys w (fun st => DeploymentReady st = DeploymentReady (dep_Status d) /\
    dss_ReadyReplicas st = dss_ReadyReplicas (dep_Status d)).
Proof.
  unfold makeWorkloadDeploymentMap. intros [(w' & Hw' & Hk & Hs)|H]%keyed_fold; [|done].
  unfold selectDeployment in Hs. apply bind_Some in Hs as ([i d0] & Hf & [= <-]).
  apply list_find_Some in Hf as (Hl%list_elem_of_lookup_2 & Hof & _).
  exists w', d0. split; [done|]. split; [done|]. split; [by apply SliceStable_elem in Hl|].
  split; [done|]. case_match; [|done]. by rewrite ready_rolling.
Qed.

(** What the loop over the components has found. *)
Definition found (mc : Milvus) (deploys : gmap string Deployment) (l : list MilvusComponent)
    (rd rd' : readiness) : Prop :=
  (rd_notReady rd' = [] -> rd_notReady rd = [] /\
     forall w, w ∈ l -> componentUsesStatefulSet mc w = false ->
       IsIdleClusterStandalone (mi_Spec mc) w = false ->
       exists d, deploys !! GetStateKey w = Some d /\ DeploymentReady (dep_Status d) = true) /\
  (rd_hasEntryReplicas rd' = true -> rd_hasEntryReplicas rd = true \/
     exists w d, w ∈ l /\ IsService w = true /\ deploys !! GetStateKey w = Some d /\
       DeploymentReady (dep_Status d) = true /\ 0 < dss_ReadyReplicas (dep_Status d)).

Lemma notReady_found mc deploys c rd detail :
  wp anyAnswer (notReady rd c detail) (returns (found mc deploys [c] rd)).
Proof.
  assert (forall e, found mc deploys [c] rd
            (mkReadiness (rd_notReady rd ++ [GetDisplayName c]) e (rd_hasEntryReplicas rd))) as H.
  { intros e. split; simpl; [|by left]. by intros [_ ?]%app_eq_nil. }
  unfold notReady. destruct (rd_errDetail rd).
  - apply wp_ret. intros rd' [= <-]. apply H.
  - apply wp_returns_bind. intros d. apply wp_ret. intros rd' [= <-]. apply H.
Qed.

Lemma checkComponent_found mc deploys c rd :
  wp anyAnswer (checkComponent mc deploys c rd) (returns (found mc deploys [c] rd)).
Proof.
  unfold checkComponent. destruct (componentUsesStatefulSet mc c) eqn:Es.
  - apply wp_returns_bind. intros sts. apply wp_returns_bind. intros []; [|apply notReady_found].
    apply wp_ret. intros rd' [= <-]. split; [|by left]. intros H. split; [done|].
    intros w ->%list_elem_of_singleton. congruence.
  - destruct (deploys !! GetStateKey c) as [d|] eqn:Ed.
    + destruct (DeploymentReady (dep_Status d)) eqn:Er; [|apply notReady_found].
      apply wp_ret. intros rd' [= <-].
      assert (forall w, w ∈ [c] -> exists d, deploys !! GetStateKey w = Some d /\
                DeploymentReady (dep_Status d) = true) as Hd
        by (intros w ->%list_elem_of_singleton; eauto).
      destruct (IsService c && (0 <? dss_ReadyReplicas (dep_Status d))) eqn:Ee;
        (split; [intros H; split; [exact H|auto]|]); [|by left].
      apply andb_true_iff in Ee as [Hs Hr%Z.ltb_lt]. intros _. right.
      exists c, d. split; [left|done].
    + destruct (IsIdleClusterStandalone (mi_Spec mc) c) eqn:Ei; [|apply notReady_found].
      apply wp_ret. intros rd' [= <-]. split; [|by left]. intros H. split; [done|].
      intros w ->%list_elem_of_singleton. congruence.
Qed.

Lemma checkComponents_found mc deploys l : forall rd,
  wp anyAnswer (checkComponents mc deploys l rd) (returns (found mc deploys l rd)).
Proof.
  induction l as [|c l IH]; intros rd; cbn [checkComponents].
  - apply wp_ret. intros rd' [= <-]. split; [|by left]. intros H. split; [done|].
    by intros w ?%not_elem_of_nil.
  - apply wp_bind. eapply wp_mono; [|apply checkComponent_found]. intros ws [rd1|e|] H1; [|done..].
    specialize (H1 rd1 eq_refl). eapply wp_mono; [|apply IH]. intros ws' o H2 rd2 ->.
    specialize (H2 rd2 eq_refl). destruct H1 as [N1 S1], H2 as [N2 S2]. split.
    + intros H. destruct (N2 H) as [H' Hl]. destruct (N1 H') as [H'' Hc]. split; [done|].
      intros w [->|Hw]%elem_of_cons; [apply Hc; left|by apply Hl].
    + intros H. destruct (S2 H) as [H'|(w & d & Hw & ?)].
      * destruct (S1 H') as [?|(w & d & ->%list_elem_of_singleton & ?)]; [by left|].
        right. exists c, d. split; [left|done].
      * right. exists w, d. split; [by right|done].
Qed.

Lemma stopping_not_true mc tr c :
  exec (getStoppingCondition mc) tr (ORet c) -> mc_Status c <> ConditionTrue.
Proof.
  intros Hex. assert (returns (fun c => mc_Status c <> ConditionTrue) (writes tr) (ORet c)) as H;
    [|by apply H].
  revert Hex. apply wp_exec_any. unfold getStoppingCondition. apply wp_returns_bind. intros stopped.
  apply wp_ret. intros c' [= <-]. by destruct stopped.
Qed.

Lemma checked_found mc deploys l rd tr c :
  exec (prog_bind (fun rd => Ret (instanceCondition rd)) (checkComponents mc deploys l rd)) tr (ORet c) ->
  exists rd', found mc deploys l rd rd' /\ c = instanceCondition rd'.
Proof.
  intros Hex.
  assert (returns (fun c => exists rd', found mc deploys l rd rd' /\ c = instanceCondition rd')
            (writes tr) (ORet c)) as H; [|by apply H].
  revert Hex. apply wp_exec_any, wp_bind. eapply wp_mono; [|apply checkComponents_found].
  intros ws [rd'|e|] H; [|done..]. apply wp_ret. intros c' [= <-]. exists rd'. split; [by apply H|done].
Qed.

(** An instance is reported ready only when it is: if the condition of an
    instance is true, then it listed the deployments, and among them every
    workload that does not run as a stateful set, an idle standalone of a
    cluster apart, has an available deployment in its current slot; and some
    proxy or standalone has a ready replica. *)
Theorem instance_ready mc tr c :
  exec (GetMilvusInstanceCondition mc) tr (ORet c) -> mc_Status c = ConditionTrue ->
  exists deploys,
    Ev (Read (ListDeployments (mi_Namespace mc) (appSelector mc))) (inr deploys) ∈ tr /\
    (forall w, w ∈ GetComponentWorkloadsBySpec (mi_Spec mc) -> componentUsesStatefulSet mc w = false ->
       IsIdleClusterStandalone (mi_Spec mc) w = false ->
       hasDeployment mc deploys w (fun st => DeploymentReady st = true)) /\
    exists w, w ∈ GetComponentWorkloadsBySpec (mi_Spec mc) /\ IsService w = true /\
      hasDeployment mc deploys w (fun st => 0 < dss_ReadyReplicas st).
Proof.
  unfold GetMilvusInstanceCondition. destruct (isMilvusStoppingForReconcile mc) as [[]|]; [..|by intros [_ ?]].
  { intros Hex Hc. by destruct (stopping_not_true mc tr c Hex). }
  intros Hex Hc. cbn in Hex. destruct Hex as (x & tr' & -> & Hex).
  destruct x as [e|deploys]; [by destruct Hex|]. exists deploys. split; [left|].
  destruct (checked_found _ _ _ _ _ _ Hex) as (rd & [Hn Hs] & ->).
  unfold instanceCondition in Hc. destruct (rd_notReady rd) eqn:En; [|done].
  destruct (rd_hasEntryReplicas rd) eqn:Ee; [|done]. destruct (Hn eq_refl) as [_ Hall]. split.
  - intros w Hw H1 H2. destruct (Hall w Hw H1 H2) as (d & Hd & Hr).
    destruct (selected_listed mc deploys w d Hd) as (w' & d' & ? & ? & ? & ? & Hr' & _).
    exists w', d'. by rewrite Hr'.
  - destruct (Hs eq_refl) as [?|(w & d & Hw & Hsv & Hd & _ & Hr)]; [done|]. exists w. split; [done|].
    split; [done|]. destruct (selected_listed mc deploys w d Hd) as (w' & d' & ? & ? & ? & ? & _ & Hr').
    exists w', d'. by rewrite Hr'.
Qed.
End Status.

(** ** Concrete statuses *)

Section Witnesses.
#[local] Existing Instance concreteSemver.
#[local] Existing Instance concreteKubeLib.
#[local] Existing Instance concreteDeepEqualLaws.

Definition exMessages : KubeMessages := {| kerr_Error := fun _ => "error" |}.
#[local] Existing Instance exMessages.

Definition exDeployConditions : list DeploymentCondition :=
  [mkDCond DeploymentAvailableType ConditionTrue "MinimumReplicasAvailable" "" 0 0;
   mkDCond DeploymentProgressingType ConditionTrue NewReplicaSetAvailableReason "" 0 0].

(** An available deployment of a component. *)
Definition exAvailable (c : MilvusComponent) : Deployment :=
  let labels := GetSelectorLabels c "mi" in
  mkDeployment
    (mkMeta ("mi-milvus-" +:+ Name c) "ns" labels ∅ 1 ("uid-" +:+ Name c) "1"
       [mkOwner "Milvus" "mi" "uid-mi" true] None [])
    (mkDSpec (Some 1) labels (exTemplate labels "milvusdb/milvus:v2.5.4")
       (mkStrategy RollingUpdateDeploymentStrategyType None) 30 false None)
    (mkDStatus 1 1 1 1 1 0 exDeployConditions).

Definition exStatusRead (B : Type) (r : kread B) (_ : unit) : kerr + B :=
  match r in kread B' return kerr + B' with
  | ListDeployments _ _ => inr (exAvailable <$> [MixCoord; DataNode; QueryNode; IndexNode; Proxy])
  | ListPods _ _ => inr []
  | Now => inr 7
  | _ => inl KNotFound
  end.

Definition exStatusHandler : handler unit := mkHandler exStatusRead (fun _ s => (inr tt, s)).

(** The example cluster before its first status. *)
Definition exFresh : Milvus :=
  set_mi_Status (exMilvus 1) (mkStatus StatusPending [] "" JNull ∅ ∅ RollingModeV3 0 "" "").

Definition exStatusRun {A} (p : prog A) : unit * list event * outcome A := run exStatusHandler p tt.

Lemma exStatusRun_exec {A} (p : prog A) : exec p (snd (fst (exStatusRun p))) (snd (exStatusRun p)).
Proof. apply run_exec. Qed.

Definition exGroupStatus (reason : string) : ComponentDeployStatus :=
  mkDeployStatus 1 "milvus:a" (mkDStatus 1 1 1 1 1 0
    [mkDCond DeploymentAvailableType ConditionTrue "" "" 0 0;
     mkDCond DeploymentProgressingType ConditionTrue reason "" 0 0]).

Lemma aggregate_summarises_witness :
  GetState (aggregateComponentDeployStatuses 5
    [exGroupStatus NewReplicaSetAvailableReason; exGroupStatus DeploymentPausedReason]) = DeploymentPaused.
Proof.
  destruct (aggregate_summarises 5
    [exGroupStatus NewReplicaSetAvailableReason; exGroupStatus DeploymentPausedReason]) as [H _];
    [discriminate|].
  rewrite H. vm_compute. reflexivity.
Defined.

Lemma instance_ready_witness :
  exists deploys w, IsService w = true /\
    hasDeployment exFresh deploys w (fun st => 0 < dss_ReadyReplicas st).
Proof.
  destruct (instance_ready exFresh (snd (fst (exStatusRun (GetMilvusInstanceCondition exFresh))))
              (newCondition MilvusReady ConditionTrue ReasonMilvusHealthy "All Milvus components are healthy"))
    as (deploys & _ & _ & w & _ & Hs & Hd).
  - assert (ORet (newCondition MilvusReady ConditionTrue ReasonMilvusHealthy
                    "All Milvus components are healthy")
            = snd (exStatusRun (GetMilvusInstanceCondition exFresh))) as -> by (vm_compute; reflexivity).
    apply exStatusRun_exec.
  - reflexivity.
  - exists deploys, w. split; [exact Hs|exact Hd].
Defined.

(** The first status of the example cluster is written and healthy. *)
Definition exUpdated : Milvus :=
  match snd (exStatusRun (UpdateStatusForNewGeneration false exFresh false)) with
  | ORet m => m
  | _ => exFresh
  end.

Lemma status_not_kills m : ~ kills [UpdateMilvusStatus m].
Proof. intros [(ns & p & c & Hx) _]%Forall_cons. discriminate. Qed.

Lemma single_status m ks m' : [UpdateMilvusStatus m] = ks ++ [UpdateMilvusStatus m'] -> m = m'.
Proof. destruct ks as [|w [|w' ks]]; [|discriminate..]. by injection 1. Qed.

Lemma status_update_sound_witness :
  reported exFresh exUpdated /\ st_Status (mi_Status exUpdated) = StatusHealthy.
Proof.
  split; [|vm_compute; reflexivity].
  destruct (status_update_sound false exFresh false _ _
              (exStatusRun_exec (UpdateStatusForNewGeneration false exFresh false)))
    as (ks & Hk & H).
  assert (writes (snd (fst (exStatusRun (UpdateStatusForNewGeneration false exFresh false))))
          = [UpdateMilvusStatus exUpdated]) as E by (vm_compute; reflexivity).
  rewrite E in H. destruct H as [[<- _]|(mc' & Hw & Hr & _)].
  - destruct (status_not_kills _ Hk).
  - rewrite (single_status _ _ _ Hw). exact Hr.
Defined.
End Witnesses.
