(* ===== verification/EndpointProofs.v ===== *)
(** * Properties of the endpoint check cache

    Invariants of the interleaved calls of [EndpointCache], by induction on
    their steps, over any cache that satisfies [GoCacheLaws]. *)
From stdpp Require Import sorting.
From S2P Require Import Prelude KubeTypes Libs ApiTypes EndpointCache.

Definition lockKey (k : string) : string := (k +:+ "_probe_lock")%string.

Lemma lockKey_inj k k' : lockKey k = lockKey k' -> k = k'.
Proof. apply app_cancel_r. Qed.

(** The key is the same for every order of the endpoints. *)
Lemma strSliceAsKey_perm l l' : l ≡ₚ l' -> strSliceAsKey l = strSliceAsKey l'.
Proof.
  intros Hp. unfold strSliceAsKey. f_equal.
  apply (StronglySorted_unique String.le); [apply StronglySorted_merge_sort; apply _..|].
  by rewrite !merge_sort_Permutation.
Qed.

(** ** Predicates on calls *)
Definition callKey (c : gcCall) : string := strSliceAsKey (gc_eps c).

(** Between taking and giving back the probe lock. *)
Definition holding (pc : callPc) : bool :=
  match pc with Probing | Storing _ | Releasing _ _ => true | _ => false end.
Definition ended (pc : callPc) : bool := match pc with Returned _ | Panicked => true | _ => false end.

Definition pointerOf (pc : callPc) : option nat :=
  match pc with Locking (TryCas p) | Releasing _ (EndStore p) => Some p | _ => None end.
Definition conditionOf (pc : callPc) : option MilvusCondition :=
  match pc with Storing c | Releasing (Some c) _ | Returned c => Some c | _ => None end.

(** No endpoint list has the key of a probe lock. *)
Definition plainKey (k : string) : Prop := forall k', k <> lockKey k'.
Definition plainCalls (l : list gcCall) : Prop := forall i c, l !! i = Some c -> plainKey (callKey c).

#[global] Arguments holding !_ /.
#[global] Arguments ended !_ /.
#[global] Arguments pointerOf !_ /.
#[global] Arguments conditionOf !_ /.

Section Invariants.
Context {C : Type} `{GoCacheLaws C cacheItem}.
Implicit Types (s : system C).

Definition lookupLock s (k : string) : option cacheItem := cache_Get (sh_cache (sys_shared s)) (lockKey k).

Lemma rtc_invariant (I : system C -> Prop) s s' :
  (forall a b, I a -> sys_step a b -> I b) -> I s -> rtc sys_step s s' -> I s'.
Proof. intros Hstep Hs Hrtc. induction Hrtc; eauto. Qed.

(** The two kinds of steps; [sh'] and [pc'] are the effect of a running call. *)
Lemma sys_step_inv s s' :
  sys_step s s' ->
  (exists eps, s' = mkSystem (sys_shared s) (sys_calls s ++ [mkGcCall eps (Locking TryLoad)]) (sys_log s)) \/
  (exists i g c sh' pc',
     sys_calls s !! i = Some c /\
     GetCondition_step g (sys_shared s) (gc_eps c) (gc_pc c) = Some (sh', pc') /\
     s' = mkSystem sh' (<[i := mkGcCall (gc_eps c) pc']> (sys_calls s)) (sys_log s ++ probed c g)).
Proof.
  intros [[eps|i g] Hm]; simpl in Hm; [left; simplify_eq; eauto|right].
  apply bind_Some in Hm as (c & Hc & Hm). apply bind_Some in Hm as ([sh' pc'] & Hst & Hm). simplify_eq.
  by exists i, g, c, sh', pc'.
Qed.

(** A call of the state after a step is new, the one that ran, or an old one. *)
Lemma started_lookup (l : list gcCall) eps j d :
  (l ++ [mkGcCall eps (Locking TryLoad)]) !! j = Some d ->
  l !! j = Some d \/ d = mkGcCall eps (Locking TryLoad).
Proof.
  intros Hj. apply lookup_app_Some in Hj as [?|[_ Hj]]; [by left|right].
  by apply list_lookup_singleton_Some in Hj as [_ <-].
Qed.

Lemma ran_lookup (l : list gcCall) i c d' j d :
  l !! i = Some c -> <[i := d']> l !! j = Some d -> (j = i /\ d = d') \/ (j <> i /\ l !! j = Some d).
Proof.
  intros Hi Hj. destruct (decide (j = i)) as [->|Hne].
  - rewrite list_lookup_insert_eq in Hj by (by eapply lookup_lt_Some). left. by simplify_eq.
  - rewrite list_lookup_insert_ne in Hj by done. by right.
Qed.

(** Calls are only added and keep their endpoints. *)
Definition extends s s' : Prop :=
  forall i c, sys_calls s !! i = Some c -> exists c', sys_calls s' !! i = Some c' /\ gc_eps c' = gc_eps c.

Lemma step_extends s s' : sys_step s s' -> extends s s'.
Proof.
  intros [[eps ->]|(i & g & c & sh' & pc' & Hi & _ & ->)]%sys_step_inv j d Hj; simpl.
  - exists d. split; [|done]. by apply lookup_app_l_Some.
  - destruct (decide (j = i)) as [->|]; [|rewrite list_lookup_insert_ne by done; eauto].
    rewrite list_lookup_insert_eq by (by eapply lookup_lt_Some). simplify_eq. eauto.
Qed.

Lemma rtc_extends s s' : rtc sys_step s s' -> extends s s'.
Proof.
  intros Hr. induction Hr as [s|s s1 s2 Hst Hr IH]; intros i c Hi; [by eauto|].
  destruct (step_extends _ _ Hst i c Hi) as (c1 & H1 & E1). destruct (IH i c1 H1) as (c2 & H2 & E2).
  exists c2. split; [done|congruence].
Qed.

Lemma extends_plain s s' : extends s s' -> plainCalls (sys_calls s') -> plainCalls (sys_calls s).
Proof.
  intros Hex Hp i c Hi. destruct (Hex i c Hi) as (c' & Hi' & E). unfold callKey. rewrite <- E. by eapply Hp.
Qed.

(** Induction on an execution along which a property of the endpoints of all
    calls is known of the last state. *)
Lemma rtc_invariant_plain (I : system C -> Prop) s s' :
  (forall a b, plainCalls (sys_calls b) -> I a -> sys_step a b -> I b) ->
  plainCalls (sys_calls s') -> I s -> rtc sys_step s s' -> I s'.
Proof.
  intros Hstep Hp Hs Hrtc. induction Hrtc as [s|s s1 s2 Hst Hr IH]; [done|].
  apply IH; [done|]. eapply Hstep; [|done..]. eapply extends_plain; [by apply rtc_extends|done].
Qed.

(** ** The shared state under one step of a call

    All changes to the cache and the heap, by the point the call is at. *)
Inductive effect (eps : list string) (sh : shared C) : callPc -> shared C -> callPc -> Prop :=
  | eff_new :
      effect eps sh (Locking TryNew)
        (mkShared (cache_Set (sh_cache sh) (lockKey (strSliceAsKey eps)) (ProbeLock (length (sh_heap sh))))
           (sh_heap sh ++ [0%Z])) (Locking TryReload)
  | eff_cas p :
      sh_heap sh !! p = Some 0%Z ->
      effect eps sh (Locking (TryCas p)) (mkShared (sh_cache sh) (<[p := 1%Z]> (sh_heap sh))) Probing
  | eff_publish c :
      eps <> [] ->
      effect eps sh (Storing c)
        (mkShared (cache_Set (sh_cache sh) (strSliceAsKey eps) (CachedCondition c)) (sh_heap sh))
        (Releasing (Some c) EndLoad)
  | eff_release r p :
      effect eps sh (Releasing r (EndStore p)) (mkShared (sh_cache sh) (<[p := 0%Z]> (sh_heap sh))) (afterRelease r)
  | eff_pure pc pc' : effect eps sh pc sh pc'.

Lemma step_effect g sh eps pc sh' pc' :
  GetCondition_step g sh eps pc = Some (sh', pc') -> effect eps sh pc sh' pc'.
Proof.
  destruct pc as [[| | |p]| | | |c|r [|p]|c|]; simpl; intros Hst.
  4: { case_bool_decide; simplify_eq; by constructor. }
  7: { unfold Set_ in Hst. case_bool_decide; simplify_eq; by constructor. }
  7: { case_bool_decide; [|repeat case_match]; simplify_eq; constructor. }
  all: repeat case_match; simplify_eq; constructor.
Qed.

(** Where a call gets its pointer to the lock, the lock, and a new lock. *)
Lemma step_pointer g sh eps pc sh' pc' p :
  GetCondition_step g sh eps pc = Some (sh', pc') -> pointerOf pc' = Some p ->
  cache_Get (sh_cache sh) (lockKey (strSliceAsKey eps)) = Some (ProbeLock p) /\ sh' = sh.
Proof.
  destruct pc as [[| | |q]| | | |c|r [|q]|c|]; simpl; intros Hst Hp; repeat case_match; simplify_eq/=;
    try done; repeat case_bool_decide; simplify_eq/=; try (by destruct r).
  all: repeat case_match; by simplify_eq/=.
Qed.

Lemma step_holding g sh eps pc sh' pc' :
  GetCondition_step g sh eps pc = Some (sh', pc') -> holding pc' = true ->
  holding pc = true \/ exists p, pc = Locking (TryCas p) /\ sh_heap sh !! p = Some 0%Z.
Proof.
  destruct pc as [[| | |q]| | | |c|r [|q]|c|]; simpl; intros Hst Hp; eauto; repeat case_match; simplify_eq/=; try done.
  all: repeat case_bool_decide; simplify_eq/=; eauto.
Qed.

Lemma step_new g sh eps pc sh' :
  GetCondition_step g sh eps pc = Some (sh', Locking TryNew) ->
  cache_Get (sh_cache sh) (lockKey (strSliceAsKey eps)) = None.
Proof.
  destruct pc as [[| | |q]| | | |c|r [|q]|c|]; simpl; intros Hst; repeat case_match; simplify_eq/=; try done.
  all: repeat case_bool_decide; simplify_eq/=; by destruct r.
Qed.

(** ** Ownership of locks

    Every integer was allocated as the lock of one key: a call reaches only
    integers of its own key. *)
Record owned (own : list string) s : Prop := {
  owned_length : length own = length (sh_heap (sys_shared s));
  owned_cache k p : lookupLock s k = Some (ProbeLock p) -> own !! p = Some k;
  owned_call i c p : sys_calls s !! i = Some c -> pointerOf (gc_pc c) = Some p -> own !! p = Some (callKey c)
}.

(** A lock entry changes only when a call of its key installs a new lock. *)
Lemma lock_after_effect eps sh pc sh' pc' k :
  effect eps sh pc sh' pc' -> plainKey (strSliceAsKey eps) ->
  cache_Get (sh_cache sh') (lockKey k) = cache_Get (sh_cache sh) (lockKey k) \/
  (pc = Locking TryNew /\ strSliceAsKey eps = k /\
     cache_Get (sh_cache sh') (lockKey k) = Some (ProbeLock (length (sh_heap sh)))).
Proof.
  intros [|p Hp|c Hne|r p|pc0 pc0'] Hplain; simpl; [|by left|left|by left..].
  - destruct (decide (strSliceAsKey eps = k)) as [<-|Hne].
    + right. by rewrite cache_get_set_eq.
    + left. rewrite cache_get_set_ne; [done|]. by intros ?%lockKey_inj.
  - rewrite cache_get_set_ne; [done|]. apply Hplain.
Qed.

Lemma heap_length_effect eps sh pc sh' pc' :
  effect eps sh pc sh' pc' ->
  length (sh_heap sh') = length (sh_heap sh) \/
  (pc = Locking TryNew /\ length (sh_heap sh') = S (length (sh_heap sh))).
Proof.
  intros [| | | |]; simpl; rewrite ?length_insert; auto. right. by rewrite length_app, Nat.add_1_r.
Qed.

Lemma owned_step own s s' :
  plainCalls (sys_calls s') -> owned own s -> sys_step s s' -> exists own', owned own' s'.
Proof.
  intros Hplain [Hlen Hcache Hcall] [[eps ->]|(i & g & c & sh' & pc' & Hi & Hst & ->)]%sys_step_inv.
  - exists own. split; [done..|]. intros j d p [Hj| ->]%started_lookup Hp; [by eauto|done].
  - pose proof (step_effect _ _ _ _ _ _ Hst) as Heff. set (k0 := strSliceAsKey (gc_eps c)).
    assert (plainKey k0) as Hk0.
    { apply (Hplain i (mkGcCall (gc_eps c) pc')). simpl.
      by rewrite list_lookup_insert_eq by (by eapply lookup_lt_Some). }
    destruct (heap_length_effect _ _ _ _ _ Heff) as [Hl|[Hpc Hl]].
    + exists own. split; simpl; [congruence| |].
      * intros k p Hk. destruct (lock_after_effect _ _ _ _ _ k Heff Hk0) as [E|(Hpc & _)].
        { apply Hcache. unfold lookupLock. by rewrite <- E. }
        exfalso. rewrite Hpc in Hst. simpl in Hst. simplify_eq. simpl in Hl. rewrite length_app in Hl. simpl in Hl. lia.
      * intros j d p [[-> ->]|[_ Hj]]%(ran_lookup _ _ c) Hp; [|by eauto|done].
        simpl in Hp. destruct (step_pointer _ _ _ _ _ _ _ Hst Hp) as [Hk _]. by apply Hcache.
    + exists (own ++ [k0]). split; simpl; [rewrite length_app; simpl; lia| |].
      * intros k p Hk. destruct (lock_after_effect _ _ _ _ _ k Heff Hk0) as [E|(_ & <- & E)].
        { apply lookup_app_l_Some, Hcache. unfold lookupLock. by rewrite <- E. }
        unfold lookupLock in Hk. simpl in Hk. rewrite E in Hk. simplify_eq. rewrite <- Hlen.
        by apply list_lookup_middle.
      * intros j d p [[-> ->]|[_ Hj]]%(ran_lookup _ _ c) Hp; [|by apply lookup_app_l_Some; eauto|done].
        simpl in Hp. destruct (step_pointer _ _ _ _ _ _ _ Hst Hp) as [Hk _]. by apply lookup_app_l_Some, Hcache.
Qed.

Lemma reachable_owned s : plainCalls (sys_calls s) -> reachable s -> exists own, owned own s.
Proof.
  intros Hp. apply (rtc_invariant_plain (fun s => exists own, owned own s)); [|done|].
  - intros a b Hb [own Hown]. by apply (owned_step own).
  - exists []. split; [done| |done]. intros k p. unfold lookupLock. simpl. by rewrite cache_get_new.
Qed.

(** ** Exclusion

    The lock [p] of the key exists, no call is about to replace it, and at
    most one call holds it, none when it is 0. *)
Record excl (k : string) (p : nat) s : Prop := {
  excl_lock : lookupLock s k = Some (ProbeLock p);
  excl_new i c : sys_calls s !! i = Some c -> callKey c = k -> gc_pc c <> Locking TryNew;
  excl_ptr i c q : sys_calls s !! i = Some c -> callKey c = k -> pointerOf (gc_pc c) = Some q -> q = p;
  excl_one i j c d :
    sys_calls s !! i = Some c -> sys_calls s !! j = Some d -> callKey c = k -> callKey d = k ->
    holding (gc_pc c) = true -> holding (gc_pc d) = true -> i = j;
  excl_free i c :
    sh_heap (sys_shared s) !! p = Some 0%Z -> sys_calls s !! i = Some c -> callKey c = k ->
    holding (gc_pc c) = false
}.

(** The step of a call of another key leaves the lock alone. *)
Lemma other_lock_heap own s i c g sh' pc' k p :
  owned own s -> sys_calls s !! i = Some c -> callKey c <> k -> lookupLock s k = Some (ProbeLock p) ->
  GetCondition_step g (sys_shared s) (gc_eps c) (gc_pc c) = Some (sh', pc') ->
  sh_heap sh' !! p = sh_heap (sys_shared s) !! p.
Proof.
  intros Hown Hi Hne Hlock Hst. pose proof (owned_cache _ _ Hown _ _ Hlock) as Hp.
  pose proof (lookup_lt_Some _ _ _ Hp) as Hlt. rewrite (owned_length _ _ Hown) in Hlt.
  assert (forall q, pointerOf (gc_pc c) = Some q -> q <> p) as Hq.
  { intros q Hq ->. pose proof (owned_call _ _ Hown _ _ _ Hi Hq). congruence. }
  pose proof (step_effect _ _ _ _ _ _ Hst) as Heff. revert Hq.
  inversion Heff; subst; simpl; intros Hq; [by rewrite lookup_app_l| |done| |done].
  all: rewrite list_lookup_insert_ne; [done|by apply Hq].
Qed.

(** A call of the key that holds the lock after its step leaves it non-zero. *)
Lemma own_step_held k p s i c g sh' pc' :
  excl k p s -> sys_calls s !! i = Some c -> callKey c = k ->
  GetCondition_step g (sys_shared s) (gc_eps c) (gc_pc c) = Some (sh', pc') ->
  holding pc' = true -> sh_heap sh' !! p <> Some 0%Z.
Proof.
  intros Hex Hi Hk Hst Hh Hz. destruct (step_holding _ _ _ _ _ _ Hst Hh) as [Hpc|(q & Hpc & Hq)].
  - assert (sh_heap (sys_shared s) !! p <> Some 0%Z) as Hnz.
    { intros Hz'. rewrite (excl_free _ _ _ Hex i c Hz' Hi Hk) in Hpc. done. }
    pose proof (step_effect _ _ _ _ _ _ Hst) as Heff. revert Hpc Hz Hh.
    inversion Heff; subst; simpl; [done..| |done]. intros _ _. by destruct r.
  - rewrite Hpc in Hst. simpl in Hst. rewrite bool_decide_true in Hst by done. simplify_eq.
    rewrite (excl_ptr _ _ _ Hex i c q Hi eq_refl) in Hz by (by rewrite Hpc). simpl in Hz.
    rewrite list_lookup_insert_eq in Hz; [done|].
    rewrite (excl_ptr _ _ _ Hex i c q Hi eq_refl) in Hq by (by rewrite Hpc). by eapply lookup_lt_Some.
Qed.

(** It excludes the holders there were, unless it was the holder. *)
Lemma own_step_alone k p s i c g sh' pc' j d :
  excl k p s -> sys_calls s !! i = Some c -> callKey c = k ->
  GetCondition_step g (sys_shared s) (gc_eps c) (gc_pc c) = Some (sh', pc') ->
  holding pc' = true -> j <> i -> sys_calls s !! j = Some d -> callKey d = k -> holding (gc_pc d) = false.
Proof.
  intros Hex Hi Hk Hst Hh Hne Hj Hkd. destruct (step_holding _ _ _ _ _ _ Hst Hh) as [Hpc|(q & Hpc & Hq)].
  - destruct (holding (gc_pc d)) eqn:E; [|done]. by destruct Hne, (excl_one _ _ _ Hex j i d c).
  - rewrite (excl_ptr _ _ _ Hex i c q Hi Hk) in Hq by (by rewrite Hpc). by eapply (excl_free _ _ _ Hex).
Qed.

(** When its step makes the lock 0 no other call holds it. *)
Lemma own_step_free k p s i c g sh' pc' j d :
  excl k p s -> sys_calls s !! i = Some c -> callKey c = k ->
  GetCondition_step g (sys_shared s) (gc_eps c) (gc_pc c) = Some (sh', pc') ->
  sh_heap sh' !! p = Some 0%Z -> j <> i -> sys_calls s !! j = Some d -> callKey d = k -> holding (gc_pc d) = false.
Proof.
  intros Hex Hi Hk Hst Hz Hne Hj Hkd. pose proof (step_effect _ _ _ _ _ _ Hst) as Heff.
  destruct (holding (gc_pc c)) eqn:Hc.
  { destruct (holding (gc_pc d)) eqn:E; [|done]. by destruct Hne, (excl_one _ _ _ Hex j i d c). }
  eapply (excl_free _ _ _ Hex); [|done..].
  pose proof (excl_new _ _ _ Hex i c Hi Hk) as Hnew. pose proof (excl_ptr _ _ _ Hex i c) as Hptr.
  revert Hc Hnew Hptr Hz. inversion Heff as [|q Hq| |r q|]; subst; simpl; intros Hc Hnew Hptr Hz; try done.
  by rewrite (Hptr q Hi eq_refl eq_refl) in *.
Qed.

Lemma excl_step own k p s s' :
  plainCalls (sys_calls s') -> owned own s -> excl k p s -> sys_step s s' -> excl k p s'.
Proof.
  intros Hplain Hown Hex Hstep. pose proof Hex as [Hlock Hnew Hptr Hone Hfree].
  pose proof Hstep as [[eps ->]|(i & g & c & sh' & pc' & Hi & Hst & ->)]%sys_step_inv.
  { split; simpl; [done|..].
    - intros j d [Hj| ->]%started_lookup; [by eauto|done].
    - intros j d q [Hj| ->]%started_lookup; [by eauto|done].
    - intros j j' d d' [Hj| ->]%started_lookup [Hj'| ->]%started_lookup; [by eauto|done..].
    - intros j d Hz [Hj| ->]%started_lookup; [by eauto|done]. }
  assert (plainKey (callKey c)) as Hk0.
  { apply (Hplain i (mkGcCall (gc_eps c) pc')). simpl.
    by rewrite list_lookup_insert_eq by (by eapply lookup_lt_Some). }
  pose proof (step_effect _ _ _ _ _ _ Hst) as Heff. split; simpl.
  - unfold lookupLock. simpl. destruct (lock_after_effect _ _ _ _ _ k Heff Hk0) as [->|(Hpc & Hk & _)]; [done|].
    by destruct (Hnew i c Hi Hk).
  - intros j d [[-> ->]|[_ Hj]]%(ran_lookup _ _ c) Hk; [|by eauto|done]. simpl. intros ->.
    apply step_new in Hst. unfold callKey in Hk. simpl in Hk. rewrite Hk in Hst. unfold lookupLock in Hlock. congruence.
  - intros j d q [[-> ->]|[_ Hj]]%(ran_lookup _ _ c) Hk Hq; [|by eauto|done]. simpl in Hq.
    destruct (step_pointer _ _ _ _ _ _ _ Hst Hq) as [E _]. unfold callKey in Hk. simpl in Hk. rewrite Hk in E.
    unfold lookupLock in Hlock. congruence.
  - intros j j' d d' [[-> ->]|[Hj Hd]]%(ran_lookup _ _ c) [[-> ->]|[Hj' Hd']]%(ran_lookup _ _ c) Hk Hk' Hh Hh'; try done.
    + by rewrite (own_step_alone k p s i c g sh' pc' j' d') in Hh'.
    + by rewrite (own_step_alone k p s i c g sh' pc' j d) in Hh.
    + by eapply (Hone j j').
  - intros j d Hz [[-> ->]|[Hj Hd]]%(ran_lookup _ _ c) Hk; [..|done]; simpl in *.
    + destruct (holding pc') eqn:Hh; [|done]. by destruct (own_step_held k p s i c g sh' pc').
    + destruct (decide (callKey c = k)) as [Hc|Hc]; [by eapply (own_step_free k p s i c g sh' pc' j d)|].
      eapply Hfree; [|done..]. by rewrite <- (other_lock_heap own s i c g sh' pc' k p).
Qed.

(** The lock of the endpoints exists and no call for them is in progress. *)
Definition settled (eps : list string) s : Prop :=
  (exists p, lookupLock s (strSliceAsKey eps) = Some (ProbeLock p)) /\
  forall i c, sys_calls s !! i = Some c -> callKey c = strSliceAsKey eps -> ended (gc_pc c) = true.

Lemma settled_excl eps s : settled eps s -> exists p, excl (strSliceAsKey eps) p s.
Proof.
  intros [[p Hp] Hend]. exists p.
  assert (forall i c, sys_calls s !! i = Some c -> callKey c = strSliceAsKey eps -> holding (gc_pc c) = false) as Hno.
  { intros i c Hi Hk. pose proof (Hend i c Hi Hk). by destruct (gc_pc c). }
  split; [done|..].
  - intros i c Hi Hk E. pose proof (Hend i c Hi Hk) as He. by rewrite E in He.
  - intros i c q Hi Hk Hq. pose proof (Hend i c Hi Hk) as He. by destruct (gc_pc c).
  - intros i j c d Hi _ Hk _ Hh. by rewrite (Hno i c Hi Hk) in Hh.
  - intros i c _. apply Hno.
Qed.

Lemma settled_stays_excl eps s s' :
  reachable s -> settled eps s -> rtc sys_step s s' -> plainCalls (sys_calls s') ->
  exists p own, excl (strSliceAsKey eps) p s' /\ owned own s'.
Proof.
  intros Hr Hset Hrun Hplain. destruct (settled_excl eps s Hset) as [p Hex].
  assert (plainCalls (sys_calls s)) as Hplain0 by (by eapply extends_plain; [apply rtc_extends|]).
  destruct (reachable_owned s Hplain0 Hr) as [own Hown].
  exists p. apply (rtc_invariant_plain (fun s => exists own, excl (strSliceAsKey eps) p s /\ owned own s) s s'); [|done| |done].
  - intros a b Hb (own' & Ha & Ho) Hst. destruct (owned_step own' a b Hb Ho Hst) as [own'' Ho'].
    exists own''. split; [by apply (excl_step own' _ _ a)|done].
  - by exists own.
Qed.

(** ** Soundness of the published conditions *)
Record logged s : Prop := {
  logged_cache k c : cache_Get (sh_cache (sys_shared s)) k = Some (CachedCondition c) -> (k, c) ∈ sys_log s;
  logged_call i c v : sys_calls s !! i = Some c -> conditionOf (gc_pc c) = Some v -> (callKey c, v) ∈ sys_log s
}.

Lemma step_condition g sh eps pc sh' pc' v :
  GetCondition_step g sh eps pc = Some (sh', pc') -> conditionOf pc' = Some v ->
  conditionOf pc = Some v \/ (pc = Probing /\ g = Some v) \/
  cache_Get (sh_cache sh) (strSliceAsKey eps) = Some (CachedCondition v).
Proof.
  destruct pc as [[| | |q]| | | |c|[r|] [|q]|c|]; simpl; unfold Get; intros Hst Hv;
    repeat case_bool_decide; repeat (case_match; simplify_eq/=; try done); simplify_eq/=; auto.
Qed.

Lemma logged_step s s' : logged s -> sys_step s s' -> logged s'.
Proof.
  intros [Hcache Hcall] [[eps ->]|(i & g & c & sh' & pc' & Hi & Hst & ->)]%sys_step_inv; split; simpl.
  - done.
  - intros j d v [Hj| ->]%started_lookup Hv; [by eauto|done].
  - intros k v Hk. pose proof (step_effect _ _ _ _ _ _ Hst) as Heff. apply elem_of_app. left. revert Hk.
    inversion Heff as [Epc| |v' Hne Epc| |]; subst; simpl; [| by apply Hcache| |by apply Hcache..].
    + destruct (decide (k = lockKey (strSliceAsKey (gc_eps c)))) as [->|];
        [by rewrite cache_get_set_eq|rewrite cache_get_set_ne by done; apply Hcache].
    + destruct (decide (k = strSliceAsKey (gc_eps c))) as [->|];
        [rewrite cache_get_set_eq|rewrite cache_get_set_ne by done; apply Hcache].
      intros [= <-]. apply (Hcall i c v' Hi). by rewrite <- Epc.
  - intros j d v [[-> ->]|[_ Hj]]%(ran_lookup _ _ c) Hv; [..|done]; apply elem_of_app; [|left; by eauto].
    simpl in Hv. destruct (step_condition _ _ _ _ _ _ _ Hst Hv) as [Hold|[[Hp ->]|Hc]]; [left; by apply (Hcall i c v)| |left; by apply Hcache].
    right. unfold probed. rewrite Hp. by apply list_elem_of_singleton.
Qed.

Lemma reachable_logged s : reachable s -> logged s.
Proof.
  intros Hr. apply (rtc_invariant logged system_init s); [apply logged_step| |done].
  split; [|done]. intros k c. simpl. by rewrite cache_get_new.
Qed.

(** ** Calls end once a condition is published *)
Definition published (k : string) s : Prop :=
  (exists p, lookupLock s k = Some (ProbeLock p)) /\
  exists c, cache_Get (sh_cache (sys_shared s)) k = Some (CachedCondition c).

Lemma published_step k s s' :
  plainKey k -> plainCalls (sys_calls s') -> published k s -> sys_step s s' -> published k s'.
Proof.
  intros Hk Hplain [[p Hp] [v Hv]] [[eps ->]|(i & g & c & sh' & pc' & Hi & Hst & ->)]%sys_step_inv; [by split; eauto|].
  assert (plainKey (callKey c)) as Hk0.
  { apply (Hplain i (mkGcCall (gc_eps c) pc')). simpl.
    by rewrite list_lookup_insert_eq by (by eapply lookup_lt_Some). }
  pose proof (step_effect _ _ _ _ _ _ Hst) as Heff. unfold published, lookupLock. simpl. split.
  - destruct (lock_after_effect _ _ _ _ _ k Heff Hk0) as [->|(_ & _ & ->)]; eauto.
  - inversion Heff as [| |v' Hne| |]; subst; simpl; eauto.
    + exists v. rewrite cache_get_set_ne; [done|]. intros E. by destruct (Hk (strSliceAsKey (gc_eps c))).
    + destruct (decide (strSliceAsKey (gc_eps c) = k)) as [<-|].
      * exists v'. by rewrite cache_get_set_eq.
      * exists v. by rewrite cache_get_set_ne.
Qed.

(** Own steps left to a call, at most. *)
Definition rank (pc : callPc) : nat :=
  match pc with
  | Backoff | Locking TryNew => 7
  | Locking TryLoad | Locking TryReload => 6
  | Locking (TryCas _) => 5
  | Probing => 4
  | Storing _ => 3
  | Releasing _ EndLoad => 2
  | Releasing _ (EndStore _) | Checking => 1
  | Returned _ | Panicked => 0
  end.

Lemma published_rank k g sh eps pc sh' pc' :
  strSliceAsKey eps = k -> eps <> [] ->
  (exists p, cache_Get (sh_cache sh) (lockKey k) = Some (ProbeLock p)) ->
  (exists c, cache_Get (sh_cache sh) k = Some (CachedCondition c)) ->
  GetCondition_step g sh eps pc = Some (sh', pc') -> rank pc' < rank pc.
Proof.
  intros <- Hne [p Hp] [v Hv] Hst. change (probeLockKey eps) with (lockKey (strSliceAsKey eps)) in *.
  destruct pc as [[| | |q]| | | |c|[r|] [|q]|c|]; simpl in Hst; unfold Get in Hst;
    change (probeLockKey eps) with (lockKey (strSliceAsKey eps)) in Hst;
    rewrite ?Hp, ?Hv, ?(bool_decide_false (eps = []) Hne) in Hst; repeat case_bool_decide;
    repeat (case_match; simplify_eq/=); simplify_eq/=; lia.
Qed.

(** [own_steps i n s s']: an execution with [n] steps of call [i]. *)
Inductive own_steps (i : nat) : nat -> system C -> system C -> Prop :=
  | own_refl s : own_steps i 0 s s
  | own_run n s s1 s2 g : sys_move (Run i g) s = Some s1 -> own_steps i n s1 s2 -> own_steps i (S n) s s2
  | own_other n s s1 s2 m :
      (forall g, m <> Run i g) -> sys_move m s = Some s1 -> own_steps i n s1 s2 -> own_steps i n s s2.

Lemma own_steps_rtc i n s s' : own_steps i n s s' -> rtc sys_step s s'.
Proof. induction 1; [done|eapply rtc_l; [eexists|]; eauto..]. Qed.

Lemma other_keeps i s s1 m c :
  (forall g, m <> Run i g) -> sys_move m s = Some s1 -> sys_calls s !! i = Some c -> sys_calls s1 !! i = Some c.
Proof.
  intros Hm Hst Hi. destruct m as [eps|j g]; simpl in Hst; [simplify_eq; by apply lookup_app_l_Some|].
  apply bind_Some in Hst as (d & Hd & Hst). apply bind_Some in Hst as ([sh pc] & _ & Hst). simplify_eq. simpl.
  rewrite list_lookup_insert_ne; [done|]. intros ->. by destruct (Hm g).
Qed.

Lemma own_steps_bounded i n s s' : own_steps i n s s' -> forall c,
  sys_calls s !! i = Some c -> gc_eps c <> [] -> published (callKey c) s -> plainCalls (sys_calls s') ->
  n <= rank (gc_pc c).
Proof.
  induction 1 as [s|n s s1 s2 g Hst Hrun IH|n s s1 s2 m Hm Hst Hrun IH]; intros c Hi Hne Hpub Hplain; [lia|..].
  - pose proof (extends_plain s1 s2 (rtc_extends _ _ (own_steps_rtc _ _ _ _ Hrun)) Hplain) as Hplain1.
    assert (sys_step s s1) as Hss by (by exists (Run i g)).
    pose proof (extends_plain s s1 (step_extends _ _ Hss) Hplain1 i c Hi) as Hk.
    pose proof (published_step _ _ _ Hk Hplain1 Hpub Hss) as Hpub1.
    simpl in Hst. apply bind_Some in Hst as (d & Hd & Hst). assert (d = c) as -> by congruence.
    apply bind_Some in Hst as ([sh pc] & Hgc & Hst). simplify_eq. destruct Hpub as [Hp Hv].
    pose proof (published_rank (callKey c) g _ _ _ _ _ eq_refl Hne Hp Hv Hgc) as Hlt.
    assert (n <= rank pc); [|lia]. apply (IH (mkGcCall (gc_eps c) pc)); [|done..]. simpl.
    by rewrite list_lookup_insert_eq by (by eapply lookup_lt_Some).
  - pose proof (extends_plain s1 s2 (rtc_extends _ _ (own_steps_rtc _ _ _ _ Hrun)) Hplain) as Hplain1.
    assert (sys_step s s1) as Hss by (by exists m).
    pose proof (extends_plain s s1 (step_extends _ _ Hss) Hplain1 i c Hi) as Hk.
    apply IH; [by eapply other_keeps|done| |done]. by eapply published_step.
Qed.

(** ** Calls without endpoints *)
Record blocked (n : nat) (p : nat) s : Prop := {
  blocked_lock : lookupLock s (strSliceAsKey []) = Some (ProbeLock p);
  blocked_taken : sh_heap (sys_shared s) !! p = Some 1%Z;
  blocked_old i c : sys_calls s !! i = Some c -> callKey c = strSliceAsKey [] -> i < n -> ended (gc_pc c) = true;
  blocked_new i c : sys_calls s !! i = Some c -> callKey c = strSliceAsKey [] -> n <= i ->
    gc_pc c ∈ [Locking TryLoad; Locking (TryCas p); Checking; Backoff]
}.

(** One step of a call without endpoints while the lock is taken. *)
Lemma blocked_call_step p g sh pc sh' pc' :
  cache_Get (sh_cache sh) (lockKey (strSliceAsKey [])) = Some (ProbeLock p) -> sh_heap sh !! p = Some 1%Z ->
  pc ∈ [Locking TryLoad; Locking (TryCas p); Checking; Backoff] ->
  GetCondition_step g sh [] pc = Some (sh', pc') ->
  sh' = sh /\ pc' ∈ [Locking TryLoad; Locking (TryCas p); Checking; Backoff].
Proof.
  intros Hl Hp Hpc. rewrite !elem_of_cons in Hpc. rewrite !elem_of_cons.
  change (lockKey (strSliceAsKey [])) with (probeLockKey []) in Hl.
  destruct Hpc as [->|[->|[->|[->|Hpc]]]]; [..|by apply elem_of_nil in Hpc]; simpl.
  - rewrite Hl. intros [= <- <-]. auto.
  - rewrite bool_decide_false by (rewrite Hp; done). intros [= <- <-]. auto.
  - intros [= <- <-]. auto 6.
  - intros [= <- <-]. auto.
Qed.

Definition onlyEmpty (l : list gcCall) : Prop :=
  forall i c, l !! i = Some c -> callKey c = strSliceAsKey [] -> gc_eps c = [].

Lemma blocked_step own n p s s' :
  n <= length (sys_calls s) ->
  plainCalls (sys_calls s') -> onlyEmpty (sys_calls s') -> owned own s -> blocked n p s -> sys_step s s' ->
  blocked n p s'.
Proof.
  intros Hn Hplain Hempty Hown [Hlock Htaken Hold Hnew] Hstep.
  pose proof Hstep as [[eps ->]|(i & g & c & sh' & pc' & Hi & Hst & ->)]%sys_step_inv.
  { split; simpl; [done..| |].
    - intros j d Hj Hk Hlt. rewrite lookup_app_l in Hj by lia. by eauto.
    - intros j d [Hj| ->]%started_lookup Hk Hle; [by eauto|]. simpl. by apply elem_of_cons; left. }
  assert (<[i := mkGcCall (gc_eps c) pc']> (sys_calls s) !! i = Some (mkGcCall (gc_eps c) pc')) as Hi'.
  { by rewrite list_lookup_insert_eq by (by eapply lookup_lt_Some). }
  destruct (decide (callKey c = strSliceAsKey [])) as [Hk|Hk].
  - pose proof (Hempty i _ Hi' Hk) as Heps. simpl in Heps. rewrite Heps in Hst.
    destruct (decide (i < n)) as [Hlt|Hge].
    { pose proof (Hold i c Hi Hk Hlt) as He. by destruct (gc_pc c). }
    destruct (blocked_call_step p g _ _ _ _ Hlock Htaken (Hnew i c Hi Hk ltac:(lia)) Hst) as [-> Hpc].
    split; simpl; [done..| |].
    + intros j d [[-> ->]|[_ Hj]]%(ran_lookup _ _ c) Hk' Hlt; [lia|by eauto|done].
    + intros j d [[-> ->]|[_ Hj]]%(ran_lookup _ _ c) Hk' Hle; [done|by eauto|done].
  - pose proof (step_effect _ _ _ _ _ _ Hst) as Heff. split; simpl.
    + unfold lookupLock. simpl.
      destruct (lock_after_effect _ _ _ _ _ (strSliceAsKey []) Heff (Hplain _ _ Hi')) as [->|(_ & E & _)]; done.
    + by rewrite (other_lock_heap own s i c g sh' pc' _ p Hown Hi Hk Hlock Hst).
    + intros j d [[-> ->]|[_ Hj]]%(ran_lookup _ _ c) Hk' Hlt; [done|by eauto|done].
    + intros j d [[-> ->]|[_ Hj]]%(ran_lookup _ _ c) Hk' Hle; [done|by eauto|done].
Qed.

Lemma extends_onlyEmpty s s' : extends s s' -> onlyEmpty (sys_calls s') -> onlyEmpty (sys_calls s).
Proof.
  intros Hex He i c Hi Hk. destruct (Hex i c Hi) as (c' & Hi' & E). rewrite <- E. apply (He i c' Hi').
  unfold callKey. by rewrite E.
Qed.

Lemma extends_length s s' : extends s s' -> length (sys_calls s) <= length (sys_calls s').
Proof.
  intros Hex. destruct (decide (length (sys_calls s) <= length (sys_calls s'))) as [|Hgt]; [done|].
  destruct (lookup_lt_is_Some_2 (sys_calls s) (length (sys_calls s'))) as [c Hc]; [lia|].
  destruct (Hex _ _ Hc) as (c' & Hc'%lookup_lt_Some & _). lia.
Qed.

Lemma blocked_run own n p s s' :
  n <= length (sys_calls s) -> plainCalls (sys_calls s') -> onlyEmpty (sys_calls s') -> owned own s ->
  blocked n p s -> rtc sys_step s s' -> blocked n p s'.
Proof.
  intros Hn Hplain Hempty Hown Hb Hrun. revert own Hn Hown Hb.
  induction Hrun as [s|s s1 s2 Hst Hrun IH]; intros own Hn Hown Hb; [done|].
  pose proof (rtc_extends _ _ Hrun) as Hex.
  pose proof (extends_plain _ _ Hex Hplain) as Hplain1. pose proof (extends_onlyEmpty _ _ Hex Hempty) as Hempty1.
  destruct (owned_step own s s1 Hplain1 Hown Hst) as [own' Hown'].
  apply (IH Hplain Hempty own'); [|done|by eapply blocked_step].
  pose proof (extends_length _ _ (step_extends _ _ Hst)). lia.
Qed.

(** ** Theorems *)

(** C23. Once the probe lock of a list of endpoints exists and no call for it is
    in progress, no two calls ever probe these endpoints at the same time,
    whatever the interleaving of any number of calls for any endpoints. *)
Theorem probe_exclusive eps s s' i j c d :
  reachable s -> settled eps s -> rtc sys_step s s' -> plainCalls (sys_calls s') ->
  sys_calls s' !! i = Some c -> sys_calls s' !! j = Some d ->
  callKey c = strSliceAsKey eps -> callKey d = strSliceAsKey eps ->
  holding (gc_pc c) = true -> holding (gc_pc d) = true -> i = j.
Proof.
  intros Hr Hset Hrun Hplain. destruct (settled_stays_excl eps s s' Hr Hset Hrun Hplain) as (p & own & Hex & _).
  by apply (excl_one _ _ _ Hex).
Qed.

(** In every interleaving, a call returns only a condition that some call
    probed for the same endpoints, its own or the one published last. *)
Theorem GetCondition_sound s i c v :
  reachable s -> sys_calls s !! i = Some c -> gc_pc c = Returned v -> (callKey c, v) ∈ sys_log s.
Proof.
  intros Hr Hi Hv. apply (logged_call s (reachable_logged s Hr) i c v Hi). by rewrite Hv.
Qed.

(** Once a condition is published for its endpoints a call takes at most
    seven more steps, whatever the other calls do: it never waits. *)
Theorem GetCondition_bounded s s' i c n :
  own_steps i n s s' -> sys_calls s !! i = Some c -> gc_eps c <> [] ->
  published (callKey c) s -> plainCalls (sys_calls s') ->
  n <= 7.
Proof.
  intros Hrun Hi Hne Hpub Hplain. etrans; [by eapply own_steps_bounded|].
  by destruct (gc_pc c) as [[| | |q]| | | |v|r [|q]|v|]; simpl; lia.
Qed.

(** A call without endpoints does not give its lock back, and no condition
    is published for it: every later call without endpoints waits for ever. *)
Theorem empty_endpoints_wait s s' j c :
  reachable s -> settled [] s ->
  (exists p, lookupLock s (strSliceAsKey []) = Some (ProbeLock p) /\ sh_heap (sys_shared s) !! p = Some 1%Z) ->
  rtc sys_step s s' -> plainCalls (sys_calls s') -> onlyEmpty (sys_calls s') ->
  length (sys_calls s) <= j -> sys_calls s' !! j = Some c -> gc_eps c = [] ->
  ended (gc_pc c) = false.
Proof.
  intros Hr [_ Hend] (p & Hlock & Htaken) Hrun Hplain Hempty Hj Hc Heps.
  assert (plainCalls (sys_calls s)) as Hplain0 by (by eapply extends_plain; [apply rtc_extends|]).
  destruct (reachable_owned s Hplain0 Hr) as [own Hown].
  assert (blocked (length (sys_calls s)) p s) as Hb0.
  { split; [done..| |].
    - intros i d Hi Hk _. by eapply Hend.
    - intros i d Hi%lookup_lt_Some _ Hge. lia. }
  pose proof (blocked_run own (length (sys_calls s)) p s s' ltac:(lia) Hplain Hempty Hown Hb0 Hrun) as Hb.
  assert (callKey c = strSliceAsKey []) as Hk by (unfold callKey; by rewrite Heps).
  pose proof (blocked_new _ _ _ Hb j c Hc Hk Hj) as Hpc. rewrite !elem_of_cons in Hpc.
  by destruct Hpc as [->|[->|[->|[->|Hpc%elem_of_nil]]]].
Qed.
End Invariants.

(** ** Concrete executions *)
Lemma HasSuffix_app s p : HasSuffix (s +:+ p) p = true.
Proof.
  induction s as [|a s IH]; [|simpl; rewrite IH; by rewrite orb_true_r].
  change (EmptyString +:+ p)%string with p. by destruct p; simpl; rewrite ?String.eqb_refl, ?Ascii.eqb_refl.
Qed.

Lemma no_suffix_plain k : HasSuffix k "_probe_lock" = false -> plainKey k.
Proof. intros Hk k' ->. unfold lockKey in Hk. by rewrite HasSuffix_app in Hk. Qed.

Definition plainCallsb (l : list gcCall) : bool := forallb (fun c => negb (HasSuffix (callKey c) "_probe_lock")) l.

Lemma plainCallsb_sound l : plainCallsb l = true -> plainCalls l.
Proof.
  intros Hl i c Hi. apply no_suffix_plain. apply list_elem_of_lookup_2, list_elem_of_In in Hi.
  unfold plainCallsb in Hl. rewrite forallb_forall in Hl. by apply negb_true_iff, Hl.
Qed.

Definition settledb {C} `{GoCache C cacheItem} (eps : list string) (s : system C) : bool :=
  match lookupLock s (strSliceAsKey eps) with Some (ProbeLock _) => true | _ => false end &&
  forallb (fun c => bool_decide (callKey c <> strSliceAsKey eps) || ended (gc_pc c)) (sys_calls s).

Lemma settledb_sound {C} `{GoCache C cacheItem} eps (s : system C) : settledb eps s = true -> settled eps s.
Proof.
  intros [Hl Hc]%andb_true_iff. split.
  - destruct (lookupLock s (strSliceAsKey eps)) as [[p|]|]; by eauto.
  - intros i c Hi Hk. apply list_elem_of_lookup_2, list_elem_of_In in Hi. rewrite forallb_forall in Hc.
    pose proof (Hc c Hi) as Hb. by rewrite bool_decide_false in Hb by tauto.
Qed.

Local Notation sysT := (system (gmap string cacheItem)).

Definition exEps : list string := ["etcd-1:2379"; "etcd-0:2379"].
Definition exUp : MilvusCondition := mkCondition "EtcdReady" ConditionTrue None "EtcdReady" "".
Definition exDown : MilvusCondition := mkCondition "EtcdReady" ConditionFalse None "EtcdNotReady" "".

(** The steps of a call that probes alone, creating the lock. *)
Definition exFirst (i : nat) (v : MilvusCondition) : list move :=
  replicate 4 (Run i None) ++ [Run i (Some v)] ++ replicate 3 (Run i None).

Definition sysAfter (ms : list move) : sysT := default system_init (sys_run ms system_init).

Lemma sysAfter_reachable ms : reachable (sysAfter ms).
Proof.
  unfold sysAfter. destruct (sys_run ms system_init) as [s|] eqn:E; simpl; [by apply (sys_run_rtc ms)|apply rtc_refl].
Qed.

Lemma sysAfter_run ms ms' :
  bool_decide (is_Some (sys_run (ms ++ ms') (system_init (C:=gmap string cacheItem)))) = true -> sys_run ms' (sysAfter ms) = Some (sysAfter (ms ++ ms')).
Proof.
  assert (forall (s : sysT), sys_run (ms ++ ms') s = s1 ← sys_run ms s; sys_run ms' s1) as Happ.
  { induction ms as [|m ms IH]; simpl; intros s; [done|]. destruct (sys_move m s); simpl; auto. }
  intros Hs%bool_decide_eq_true. unfold sysAfter. rewrite Happ in *.
  destruct (sys_run ms system_init) as [s|]; simpl in *; [|by destruct Hs]. by destruct Hs as [s' ->].
Qed.

(** The first probes do not exclude each other: two calls that both find
    no lock each install one, and both probe. *)
Theorem first_probes_race : exists (s : sysT) i j c d,
  reachable s /\ sys_calls s !! i = Some c /\ sys_calls s !! j = Some d /\ i <> j /\
  callKey c = strSliceAsKey exEps /\ callKey d = strSliceAsKey exEps /\
  gc_pc c = Probing /\ gc_pc d = Probing.
Proof.
  pose (ms := [Start exEps; Start exEps; Run 0 None; Run 1 None] ++ replicate 3 (Run 0 None) ++ replicate 3 (Run 1 None)).
  exists (sysAfter ms), 0, 1, (mkGcCall exEps Probing), (mkGcCall exEps Probing).
  split; [apply sysAfter_reachable|]. by repeat split.
Qed.

Definition exSettled : list move := Start exEps :: exFirst 0 exUp.
Definition exBusy : list move :=
  [Start exEps; Start (reverse exEps)] ++ replicate 2 (Run 1 None) ++ replicate 3 (Run 2 None).

Lemma exBusy_run : rtc sys_step (sysAfter exSettled) (sysAfter (exSettled ++ exBusy)).
Proof. apply (sys_run_rtc exBusy), sysAfter_run. vm_compute. reflexivity. Qed.

Lemma probe_exclusive_witness :
  let s' := sysAfter (exSettled ++ exBusy) in
  exists c, sys_calls s' !! 1 = Some c /\ holding (gc_pc c) = true /\
  forall j d, sys_calls s' !! j = Some d -> callKey d = strSliceAsKey exEps -> holding (gc_pc d) = true -> 1 = j.
Proof.
  exists (mkGcCall exEps Probing). split; [by vm_compute|]. split; [done|]. intros j d Hj Hk Hh.
  eapply (probe_exclusive exEps (sysAfter exSettled) (sysAfter (exSettled ++ exBusy)) 1 j (mkGcCall exEps Probing) d).
  - apply sysAfter_reachable.
  - apply settledb_sound. by vm_compute.
  - apply exBusy_run.
  - apply plainCallsb_sound. by vm_compute.
  - by vm_compute.
  - exact Hj.
  - reflexivity.
  - exact Hk.
  - reflexivity.
  - exact Hh.
Defined.

Lemma GetCondition_sound_witness : (strSliceAsKey exEps, exUp) ∈ sys_log (sysAfter (exSettled ++ exBusy)).
Proof.
  apply (GetCondition_sound (sysAfter (exSettled ++ exBusy)) 2 (mkGcCall (reverse exEps) (Returned exUp)) exUp).
  - apply sysAfter_reachable.
  - by vm_compute.
  - reflexivity.
Defined.

Definition isRunOf (i : nat) (m : move) : bool := match m with Run j _ => bool_decide (i = j) | _ => false end.

Lemma sys_run_own i ms : forall (s s' : sysT),
  sys_run ms s = Some s' -> own_steps i (length (filter (fun m => isRunOf i m = true) ms)) s s'.
Proof.
  induction ms as [|m ms IH]; simpl; intros s s' Hrun; [simplify_eq; constructor|].
  apply bind_Some in Hrun as (s1 & Hm & Hrun). rewrite filter_cons. destruct (decide (isRunOf i m = true)) as [E|E].
  - destruct m as [eps|j g]; simpl in E; [done|]. apply bool_decide_eq_true in E as <-. by eapply own_run; [|apply IH].
  - eapply own_other; [|done|by apply IH]. intros g ->. simpl in E. by rewrite bool_decide_true in E.
Qed.

(** A second call, while the first one of [exBusy] probes, returns the
    published condition after three steps of its own. *)
Lemma GetCondition_bounded_witness : 3 <= 7.
Proof.
  pose (before := exSettled ++ [Start exEps; Start exEps] ++ replicate 2 (Run 1 None)).
  pose (rest := [Run 2 None; Run 1 (Some exDown); Run 2 None; Run 2 None; Run 1 None]).
  eapply (GetCondition_bounded (sysAfter before) (sysAfter (before ++ rest)) 2 (mkGcCall exEps (Locking TryLoad)) 3).
  - apply (sys_run_own 2 rest), sysAfter_run. vm_compute. reflexivity.
  - by vm_compute.
  - done.
  - split; eexists; by vm_compute.
  - apply plainCallsb_sound. by vm_compute.
Defined.

Definition exEmpty : list move := Start [] :: replicate 4 (Run 0 None) ++ [Run 0 (Some exUp)] ++ replicate 2 (Run 0 None).
Definition exEmptyLater : list move := Start [] :: replicate 40 (Run 1 None).

Lemma onlyEmptyb_sound l :
  forallb (fun c => bool_decide (callKey c <> strSliceAsKey [] \/ gc_eps c = [])) l = true -> onlyEmpty l.
Proof.
  intros Hl i c Hi Hk. apply list_elem_of_lookup_2, list_elem_of_In in Hi. rewrite forallb_forall in Hl.
  specialize (Hl c Hi). apply bool_decide_eq_true in Hl. tauto.
Qed.

Lemma empty_endpoints_wait_witness :
  sys_calls (sysAfter exEmpty) !! 0 = Some (mkGcCall [] (Returned exUp)) /\ ended (Locking TryLoad) = false.
Proof.
  split; [by vm_compute|].
  eapply (empty_endpoints_wait (sysAfter exEmpty) (sysAfter (exEmpty ++ exEmptyLater)) 1 (mkGcCall [] (Locking TryLoad))).
  - apply sysAfter_reachable.
  - apply settledb_sound. by vm_compute.
  - exists 0. split; by vm_compute.
  - apply (sys_run_rtc exEmptyLater), sysAfter_run. vm_compute. reflexivity.
  - apply plainCallsb_sound. by vm_compute.
  - apply onlyEmptyb_sound. by vm_compute.
  - vm_compute. lia.
  - by vm_compute.
  - reflexivity.
Defined.
