(* ===== verification/PodTemplate.v ===== *)
(** * Parts of a pod template

    The helpers of pkg/controllers/deployments.go (from [GetStorageHostPort] to
    [dataVolumeMount]), of k8s_default_values.go and of components.go that build
    the containers, volumes, mounts, environment and probes of a pod template.

    Decoding a user's JSON into a Kubernetes type is encoding/json's; it is the
    interface [Decode], where [None] is an error. *)
From S2P Require Import Prelude KubeTypes Libs ApiTypes Labels Utils Components.

Local Open Scope string_scope.
Local Open Scope list_scope.
Local Open Scope Z_scope.

(** [v1beta1.Probes]. *)
Record Probes := mkProbes {
  pr_StartupProbe : option json;
  pr_LivenessProbe : option json;
  pr_ReadinessProbe : option json
}.

(** [Values.AsObject] for the types the code decodes to.
    [OverlaySecurityContext] decodes into an existing security context: fields
    that the values do not mention keep their value. *)
Class Decode := {
  DecodeContainer : Values -> option Container;
  DecodeVolume : json -> option Volume;
  DecodeProbes : Values -> option Probes;
  OverlaySecurityContext : json -> Values -> option json
}.

(** [globalCommonInfo.OperatorImageInfo]: the image of the running operator. *)
Class OperatorImage := { oi_Image : string; oi_ImagePullPolicy : string }.

(** ** Names and paths *)
Definition MilvusDataVolumeName : string := "milvus-data".
Definition MilvusConfigVolumeName : string := "milvus-config".
Definition MilvusConfigRootPath : string := "/milvus/configs".
Definition MilvusConfigmapMountPath : string := MilvusConfigRootPath +:+ "/operator".
Definition AccessKey : string := "accesskey".
Definition SecretKey : string := "secretkey".
Definition KafkaSaslUsernameKey : string := "username".
Definition KafkaSaslPasswordKey : string := "password".
Definition KafkaCACertKey : string := "ca.pem".
Definition AnnotationCheckSum : string := "checksum/config".
Definition KafkaCAVolumeName : string := "kafka-ca".
Definition KafkaCAMountPath : string := MilvusConfigRootPath +:+ "/kafka-ca".
Definition ToolsVolumeName : string := "tools".
Definition ToolsMountPath : string := "/milvus/tools".
Definition RunScriptPath : string := ToolsMountPath +:+ "/run.sh".
Definition RocksMQPersistPath : string := "/var/lib/milvus".
Definition MetricPortName : string := "metrics".
Definition MetricPort : Z := 9091.
Definition RestfulPortName : string := "restful".
Definition configContainerName : string := "config".

(** ** Updates of a container and of a pod spec *)
Definition set_ct_Env (c : Container) (env : list EnvVar) : Container :=
  mkContainer (ct_Name c) (ct_Image c) (ct_ImagePullPolicy c) (ct_Command c) (ct_Args c) env (ct_Ports c)
    (ct_VolumeMounts c) (ct_Resources c) (ct_SecurityContext c) (ct_StartupProbe c) (ct_LivenessProbe c)
    (ct_ReadinessProbe c) (ct_Lifecycle c) (ct_TerminationMessagePath c) (ct_TerminationMessagePolicy c).

Definition set_ct_VolumeMounts (c : Container) (mounts : list VolumeMount) : Container :=
  mkContainer (ct_Name c) (ct_Image c) (ct_ImagePullPolicy c) (ct_Command c) (ct_Args c) (ct_Env c) (ct_Ports c)
    mounts (ct_Resources c) (ct_SecurityContext c) (ct_StartupProbe c) (ct_LivenessProbe c)
    (ct_ReadinessProbe c) (ct_Lifecycle c) (ct_TerminationMessagePath c) (ct_TerminationMessagePolicy c).

Definition set_ct_Resources (c : Container) (r : ResourceRequirements) : Container :=
  mkContainer (ct_Name c) (ct_Image c) (ct_ImagePullPolicy c) (ct_Command c) (ct_Args c) (ct_Env c) (ct_Ports c)
    (ct_VolumeMounts c) r (ct_SecurityContext c) (ct_StartupProbe c) (ct_LivenessProbe c)
    (ct_ReadinessProbe c) (ct_Lifecycle c) (ct_TerminationMessagePath c) (ct_TerminationMessagePolicy c).

Definition set_ct_SecurityContext (c : Container) (s : option json) : Container :=
  mkContainer (ct_Name c) (ct_Image c) (ct_ImagePullPolicy c) (ct_Command c) (ct_Args c) (ct_Env c) (ct_Ports c)
    (ct_VolumeMounts c) (ct_Resources c) s (ct_StartupProbe c) (ct_LivenessProbe c)
    (ct_ReadinessProbe c) (ct_Lifecycle c) (ct_TerminationMessagePath c) (ct_TerminationMessagePolicy c).

Definition set_ct_Probes (c : Container) (p : Probes) : Container :=
  mkContainer (ct_Name c) (ct_Image c) (ct_ImagePullPolicy c) (ct_Command c) (ct_Args c) (ct_Env c) (ct_Ports c)
    (ct_VolumeMounts c) (ct_Resources c) (ct_SecurityContext c) (pr_StartupProbe p) (pr_LivenessProbe p)
    (pr_ReadinessProbe p) (ct_Lifecycle c) (ct_TerminationMessagePath c) (ct_TerminationMessagePolicy c).

Definition set_ct_Lifecycle (c : Container) (l : option json) : Container :=
  mkContainer (ct_Name c) (ct_Image c) (ct_ImagePullPolicy c) (ct_Command c) (ct_Args c) (ct_Env c) (ct_Ports c)
    (ct_VolumeMounts c) (ct_Resources c) (ct_SecurityContext c) (ct_StartupProbe c) (ct_LivenessProbe c)
    (ct_ReadinessProbe c) l (ct_TerminationMessagePath c) (ct_TerminationMessagePolicy c).

(** The fields of the Milvus container that are set on every render. *)
Definition set_ct_main (c : Container) (image policy : string) (args : list string) (env : list EnvVar)
    (ports : list ContainerPort) (mounts : list VolumeMount) (r : ResourceRequirements) : Container :=
  mkContainer (ct_Name c) image policy (ct_Command c) args env ports
    mounts r (ct_SecurityContext c) (ct_StartupProbe c) (ct_LivenessProbe c)
    (ct_ReadinessProbe c) (ct_Lifecycle c) (ct_TerminationMessagePath c) (ct_TerminationMessagePolicy c).

Definition emptyResources : ResourceRequirements := mkRes ∅ ∅.

(** [corev1.Container{Name: name}]. *)
Definition newContainer (name : string) : Container :=
  mkContainer name "" "" [] [] [] [] [] emptyResources None None None None None "" "".

Definition set_ps_InitContainers (s : PodSpec) (cs : list Container) : PodSpec :=
  mkPodSpec cs (ps_Containers s) (ps_Volumes s) (ps_SchedulerName s) (ps_Affinity s) (ps_Tolerations s)
    (ps_TopologySpreadConstraints s) (ps_NodeSelector s) (ps_ImagePullSecrets s) (ps_ServiceAccountName s)
    (ps_PriorityClassName s) (ps_HostNetwork s) (ps_DNSPolicy s) (ps_SecurityContext s)
    (ps_TerminationGracePeriodSeconds s).

Definition set_ps_Containers (s : PodSpec) (cs : list Container) : PodSpec :=
  mkPodSpec (ps_InitContainers s) cs (ps_Volumes s) (ps_SchedulerName s) (ps_Affinity s) (ps_Tolerations s)
    (ps_TopologySpreadConstraints s) (ps_NodeSelector s) (ps_ImagePullSecrets s) (ps_ServiceAccountName s)
    (ps_PriorityClassName s) (ps_HostNetwork s) (ps_DNSPolicy s) (ps_SecurityContext s)
    (ps_TerminationGracePeriodSeconds s).

Definition set_ps_Volumes (s : PodSpec) (vs : list Volume) : PodSpec :=
  mkPodSpec (ps_InitContainers s) (ps_Containers s) vs (ps_SchedulerName s) (ps_Affinity s) (ps_Tolerations s)
    (ps_TopologySpreadConstraints s) (ps_NodeSelector s) (ps_ImagePullSecrets s) (ps_ServiceAccountName s)
    (ps_PriorityClassName s) (ps_HostNetwork s) (ps_DNSPolicy s) (ps_SecurityContext s)
    (ps_TerminationGracePeriodSeconds s).

Definition set_ps_Network (s : PodSpec) (hostNetwork : bool) (dnsPolicy : string) : PodSpec :=
  mkPodSpec (ps_InitContainers s) (ps_Containers s) (ps_Volumes s) (ps_SchedulerName s) (ps_Affinity s)
    (ps_Tolerations s) (ps_TopologySpreadConstraints s) (ps_NodeSelector s) (ps_ImagePullSecrets s)
    (ps_ServiceAccountName s) (ps_PriorityClassName s) hostNetwork dnsPolicy (ps_SecurityContext s)
    (ps_TerminationGracePeriodSeconds s).

Definition set_ps_SecurityContext (s : PodSpec) (sc : option json) : PodSpec :=
  mkPodSpec (ps_InitContainers s) (ps_Containers s) (ps_Volumes s) (ps_SchedulerName s) (ps_Affinity s)
    (ps_Tolerations s) (ps_TopologySpreadConstraints s) (ps_NodeSelector s) (ps_ImagePullSecrets s)
    (ps_ServiceAccountName s) (ps_PriorityClassName s) (ps_HostNetwork s) (ps_DNSPolicy s) sc
    (ps_TerminationGracePeriodSeconds s).

Definition set_ps_GracePeriod (s : PodSpec) (g : option Z) : PodSpec :=
  mkPodSpec (ps_InitContainers s) (ps_Containers s) (ps_Volumes s) (ps_SchedulerName s) (ps_Affinity s)
    (ps_Tolerations s) (ps_TopologySpreadConstraints s) (ps_NodeSelector s) (ps_ImagePullSecrets s)
    (ps_ServiceAccountName s) (ps_PriorityClassName s) (ps_HostNetwork s) (ps_DNSPolicy s)
    (ps_SecurityContext s) g.

Definition set_pt_Spec (t : PodTemplateSpec) (s : PodSpec) : PodTemplateSpec :=
  mkTemplate (pt_Labels t) (pt_Annotations t) s.
Definition set_pt_Annotations (t : PodTemplateSpec) (a : gmap string string) : PodTemplateSpec :=
  mkTemplate (pt_Labels t) a (pt_Spec t).

(** ** Volumes and mounts *)

(** Replace the element at a Go index, append for a negative one. *)
Definition put {A} (l : list A) (idx : Z) (x : A) : list A :=
  if idx <? 0 then l ++ [x] else <[Z.to_nat idx := x]> l.

Definition addVolume (volumes : list Volume) (volume : Volume) : list Volume :=
  put volumes (GetVolumeIndex volumes (vol_Name volume)) volume.

Definition addVolumeMount (volumeMounts : list VolumeMount) (volumeMount : VolumeMount) : list VolumeMount :=
  put volumeMounts (GetVolumeMountIndex volumeMounts (vm_MountPath volumeMount)) volumeMount.

Definition removeVolumeMounts (volumeMounts : list VolumeMount) (volumeName : string) : list VolumeMount :=
  filter (fun m => vm_Name m <> volumeName) volumeMounts.

Definition removeVolumeMountsByPath (volumeMounts : list VolumeMount) (mountPath : string) : list VolumeMount :=
  filter (fun m => vm_MountPath m <> mountPath) volumeMounts.

Definition toolVolume : Volume := mkVolume ToolsVolumeName VEmptyDir.
Definition toolVolumeMount : VolumeMount := mkMount ToolsVolumeName false ToolsMountPath "".
Definition configVolumeMount : VolumeMount := mkMount MilvusConfigVolumeName true MilvusConfigmapMountPath "".
Definition kafkaCAVolumeMount : VolumeMount := mkMount KafkaCAVolumeName true KafkaCAMountPath "".
Definition dataVolumeMount : VolumeMount := mkMount MilvusDataVolumeName false RocksMQPersistPath "".

(** 0444 and 0644. *)
Definition kafkaCAVolumeBySecret (name : string) : Volume :=
  mkVolume KafkaCAVolumeName (VSecret name [KafkaCACertKey] (Some 292) true).
Definition configVolumeByName (name : string) : Volume :=
  mkVolume MilvusConfigVolumeName (VConfigMap name (Some 420)).
Definition emptyDirDataVolume : Volume := mkVolume MilvusDataVolumeName VEmptyDir.
Definition persisentDataVolumeByName (name : string) : Volume :=
  mkVolume MilvusDataVolumeName (VPersistentVolumeClaim name).

Definition fillConfigMapVolumeDefaultValues (v : Volume) : Volume :=
  match vol_Source v with
  | VConfigMap n None => mkVolume (vol_Name v) (VConfigMap n (int32Ptr 420))
  | _ => v
  end.

Definition fillSecretVolumeDefaultValues (v : Volume) : Volume :=
  match vol_Source v with
  | VSecret n items None o => mkVolume (vol_Name v) (VSecret n items (int32Ptr 420) o)
  | _ => v
  end.

(** [volumeMount.Name == "_remove"] marks a mount path to remove. *)
Definition isRemovalVolumeMount (volumeMount : VolumeMount) : bool := bool_decide (vm_Name volumeMount = "_remove").
Definition extractTargetMountPath (volumeMount : VolumeMount) : string := vm_MountPath volumeMount.

(** ** Host and port of an endpoint *)

(** [strings.LastIndexByte] and [strings.IndexByte]. *)
Fixpoint indexByte (s : string) (b : Ascii.ascii) : option nat :=
  match s with
  | EmptyString => None
  | String a s' => if Ascii.eqb a b then Some 0%nat else S <$> indexByte s' b
  end.
Fixpoint lastIndexByte (s : string) (b : Ascii.ascii) : option nat :=
  match s with
  | EmptyString => None
  | String a s' =>
      match lastIndexByte s' b with
      | Some i => Some (S i)
      | None => if Ascii.eqb a b then Some 0%nat else None
      end
  end.
Definition slice (s : string) (from to : nat) : string := String.substring from (to - from) s.
Definition slice_from (s : string) (from : nat) : string := slice s from (String.length s).

(** [net.SplitHostPort]: host:port, or [host]:port where the host may contain
    colons; [None] is an error. *)
Definition SplitHostPort (hostport : string) : option (string * string) :=
  i ← lastIndexByte hostport ":";
  let port := slice_from hostport (i + 1) in
  if bool_decide (indexByte hostport "[" = Some 0%nat) then
    e ← indexByte hostport "]";
    if bool_decide (e + 1 = i)%nat
       && bool_decide (indexByte (slice_from hostport 1) "[" = None)
       && bool_decide (indexByte (slice_from hostport (e + 1)) "]" = None)
    then Some (slice hostport 1 e, port) else None
  else
    let host := slice hostport 0 i in
    if bool_decide (indexByte host ":" = None)
       && bool_decide (indexByte hostport "[" = None) && bool_decide (indexByte hostport "]" = None)
    then Some (host, port) else None.

Definition GetHostPortWithDefault (endpoint : string) (defaultPort : Z) : string * Z :=
  match SplitHostPort endpoint with
  | None => (endpoint, defaultPort)
  | Some (host, port) =>
      match Atoi port with None => (host, defaultPort) | Some portInt => (host, int32_of portInt) end
  end.

Definition GetHostPort (endpoint : string) : string * Z := GetHostPortWithDefault endpoint 80.

Definition GetStorageHostPort (endpoint : string) (useSSL : bool) : string * Z :=
  GetHostPortWithDefault endpoint (if useSSL then 443 else 80).

Example split_plain : SplitHostPort "minio.ns:9000" = Some ("minio.ns", "9000").
Proof. reflexivity. Qed.
Example split_ipv6 : SplitHostPort "[::1]:9000" = Some ("::1", "9000").
Proof. reflexivity. Qed.
Example split_colons : SplitHostPort "::1" = None.
Proof. reflexivity. Qed.
Example port_wraps : GetHostPort "h:4294967376" = ("h", 80).
Proof. reflexivity. Qed.

(** ** Environment *)

Definition GetStorageEndpointEnv (endpoint : string) (useSSL : bool) : list EnvVar :=
  if bool_decide (endpoint = "") then []
  else [mkEnv "MINIO_PORT" (Itoa (snd (GetStorageHostPort endpoint useSSL))) None].

Definition secretEnv (name secretRef key : string) : EnvVar := mkEnv name "" (Some (SecretKeyRef secretRef key)).

Definition GetKafkaSecretRefEnv (secretRef : string) : list EnvVar :=
  if bool_decide (secretRef = "") then []
  else [secretEnv "KAFKA_SASLPASSWORD" secretRef KafkaSaslPasswordKey;
        secretEnv "KAFKA_SASLUSERNAME" secretRef KafkaSaslUsernameKey].

Definition GetStorageSecretRefEnv (secretRef : string) : list EnvVar :=
  if bool_decide (secretRef = "") then []
  else [secretEnv "MINIO_ACCESS_KEY" secretRef AccessKey;
        secretEnv "MINIO_ACCESS_KEY_ID" secretRef AccessKey;
        secretEnv "MINIO_SECRET_KEY" secretRef SecretKey;
        secretEnv "MINIO_SECRET_ACCESS_KEY" secretRef SecretKey].

Definition credentialNames : list string :=
  ["MINIO_ACCESS_KEY"; "MINIO_ACCESS_KEY_ID"; "MINIO_SECRET_KEY"; "MINIO_SECRET_ACCESS_KEY";
   "KAFKA_SASLUSERNAME"; "KAFKA_SASLPASSWORD"; "KAFKA_SSL_TLSKEYPASSWORD"].

Definition pruneStorageCredentialEnv (env desired : list EnvVar) : list EnvVar :=
  filter (fun v => ev_Name v ∉ credentialNames \/ ev_Name v ∈ ev_Name <$> desired) env.

(** ** The config init container *)

Definition cpuAndMemory (l : gmap string string) : gmap string string :=
  filter (fun kv => fst kv = "cpu" \/ fst kv = "memory") l.

(** The last user-defined init container named config, if any. *)
Definition configContainerResources (spec : ComponentSpec) (initContainers : list Container)
    : ResourceRequirements :=
  match last (filter (fun c => ct_Name c = configContainerName) initContainers) with
  | Some c => ct_Resources c
  | None =>
      match csp_ToolResources spec with
      | Some r => r
      | None =>
          match csp_Resources spec with
          | Some r => mkRes (cpuAndMemory (rr_Limits r)) (cpuAndMemory (rr_Requests r))
          | None => emptyResources
          end
      end
  end.

Definition field_of (j : json) (key : string) : option json :=
  match j with JObj l => snd <$> (snd <$> list_find (fun kv => fst kv = key) l) | _ => None end.

Definition set_field (j : json) (key : string) (v : json) : json :=
  match j with
  | JObj l =>
      match list_find (fun kv => fst kv = key) l with
      | Some (i, _) => JObj (<[i := (key, v)]> l)
      | None => JObj (l ++ [(key, v)])
      end
  | _ => j
  end.

Section Containers.
Context {DC : Decode} {OI : OperatorImage}.

Definition updateConfigSecurityContext (container : Container) (values : Values) : option Container :=
  let context := JObj [("runAsNonRoot", JBool true); ("runAsUser", JNum 1000)] in
  context ← match values with
            | None | Some [] => Some context
            | Some _ => OverlaySecurityContext context values
            end;
  let specified := bool_decide (is_Some (field_of (JObj (default [] values)) "runAsNonRoot")) in
  let context := if negb specified && bool_decide (field_of context "runAsUser" = Some (JNum 0))
                 then set_field context "runAsNonRoot" (JBool false) else context in
  Some (set_ct_SecurityContext container (Some context)).

Definition renderInitContainer (container : Container) (toolImage : string) (securityContext : Values)
    (resources : ResourceRequirements) : option Container :=
  let c := mkContainer configContainerName (if bool_decide (toolImage = "") then oi_Image else toolImage)
             oi_ImagePullPolicy ["/bin/sh"] ["/init.sh"] (ct_Env container) (ct_Ports container)
             [configVolumeMount; toolVolumeMount] (ct_Resources container) (ct_SecurityContext container)
             (ct_StartupProbe container) (ct_LivenessProbe container) (ct_ReadinessProbe container)
             (ct_Lifecycle container) (ct_TerminationMessagePath container)
             (ct_TerminationMessagePolicy container) in
  c ← updateConfigSecurityContext c securityContext;
  Some (fillContainerDefaultValues (set_ct_Resources c resources)).

(** [MustAsObj] panics on values that are not a container, [GetInitContainers]
    skips them. *)
Definition GetSideCars (c : MilvusComponent) (spec : MilvusSpec) : option (list Container) :=
  match componentField (spec_Com spec) (FieldName c) with
  | None => Some []
  | Some component =>
      mapM (fun v => fillContainerDefaultValues <$> DecodeContainer v) (co_SideCars component)
  end.

Definition GetInitContainers (c : MilvusComponent) (spec : MilvusSpec) : list Container :=
  match componentField (spec_Com spec) (FieldName c) with
  | None => []
  | Some component => omap DecodeContainer (co_InitContainers component)
  end.

(** ** Probes *)
Definition tcpProbe (timeout period failure : Z) : json :=
  JObj [("tcpSocket", JObj [("port", JNum MetricPort)]); ("timeoutSeconds", JNum timeout);
        ("periodSeconds", JNum period); ("successThreshold", JNum 1); ("failureThreshold", JNum failure)].

Definition GetDefaultStartupProbe : json := tcpProbe 3 10 18.
Definition GetDefaultLivenessProbe : json := tcpProbe 10 15 3.
Definition GetDefaultReadinessProbe : json :=
  JObj [("httpGet", JObj [("path", JStr "/healthz"); ("port", JNum MetricPort); ("scheme", JStr "HTTP")]);
        ("timeoutSeconds", JNum 3); ("periodSeconds", JNum 15); ("successThreshold", JNum 1);
        ("failureThreshold", JNum 2)].

Definition updateProbes (container : Container) (spec : ComponentSpec) : option Container :=
  probes ← match csp_Probes spec with
           | None => Some (mkProbes None None None)
           | Some _ => DecodeProbes (csp_Probes spec)
           end;
  Some (set_ct_Probes container
          (mkProbes (Some (default GetDefaultStartupProbe (pr_StartupProbe probes)))
             (Some (default GetDefaultLivenessProbe (pr_LivenessProbe probes)))
             (Some (default GetDefaultReadinessProbe (pr_ReadinessProbe probes))))).
End Containers.
