(* ===== verification/KafkaSecrets.v ===== *)
(** * Kafka credentials in a pod template

    pkg/controllers/kafka_secrets.go: references to Secrets in the user's Kafka
    configuration become environment variables and a projected volume of the
    Milvus container.  Volumes of the user are never touched, volumes and
    mounts of earlier renders are removed before the new ones are added.

    The names of user volumes are arbitrary, so the name of the operator's
    volume is lengthened until it is free; [freeVolumeName] has one more
    unit of fuel than there are user volumes, which [freeVolumeName_free] shows to
    be enough. *)
From S2P Require Import Prelude KubeTypes Libs ApiTypes Labels Utils Components PodTemplate.

Local Open Scope string_scope.
Local Open Scope list_scope.
Local Open Scope Z_scope.

(** ** References *)

(** [external.SecretKeyRef] and the references of [external.SSLConfig]. *)
Record SecretKeyReference := mkRef {
  ref_Name : string;
  ref_Key : string;
  ref_Namespace : string
}.

Record KafkaSecretRefs := mkKafkaRefs {
  kr_SASLUsernameSecret : option SecretKeyReference;
  kr_SASLPasswordSecret : option SecretKeyReference;
  kr_CACertSecret : option SecretKeyReference;
  kr_CertSecret : option SecretKeyReference;
  kr_KeySecret : option SecretKeyReference;
  kr_KeyPasswordSecret : option SecretKeyReference
}.

Definition noRefs : KafkaSecretRefs := mkKafkaRefs None None None None None None.

(** json.Unmarshal of the section: what was decoded, and whether all of it was. *)
Class DecodeKafka := { DecodeKafkaRefs : json -> KafkaSecretRefs * bool }.

Definition all (r : KafkaSecretRefs) : list (option SecretKeyReference) :=
  [kr_SASLUsernameSecret r; kr_SASLPasswordSecret r; kr_CACertSecret r; kr_CertSecret r; kr_KeySecret r;
   kr_KeyPasswordSecret r].

(** The loop over the references fills in the namespace and stops at the first
    one that is not valid; the references are shared, so those before it are
    changed. *)
Fixpoint checkRefs (ns : string) (l : list (option SecretKeyReference))
    : list (option SecretKeyReference) * option string :=
  match l with
  | [] => ([], None)
  | None :: l' => let '(l'', e) := checkRefs ns l' in (None :: l'', e)
  | Some r :: l' =>
      if bool_decide (ref_Name r = "") || bool_decide (ref_Key r = "")
      then (l, Some "kafka Secret refs require name and key")
      else
        let r' := if bool_decide (ref_Namespace r = "") then mkRef (ref_Name r) (ref_Key r) ns else r in
        if negb (bool_decide (ref_Namespace r' = ns))
        then (Some r' :: l', Some ("kafka Secret " +:+ ref_Name r +:+ " must be in Milvus namespace " +:+ ns))
        else let '(l'', e) := checkRefs ns l' in (Some r' :: l'', e)
  end.

Definition ofList (l : list (option SecretKeyReference)) : KafkaSecretRefs :=
  let get i := mjoin (l !! i) in
  mkKafkaRefs (get 0%nat) (get 1%nat) (get 2%nat) (get 3%nat) (get 4%nat) (get 5%nat).

Section Kafka.
Context {DK : DecodeKafka}.

(** The references are returned together with the error. *)
Definition parseKafkaSecretRefs (mc : Milvus) : KafkaSecretRefs * option string :=
  match field_of (JObj (default [] (spec_Conf (mi_Spec mc)))) "kafka" with
  | None => (noRefs, None)
  | Some raw =>
      let '(refs, ok) := DecodeKafkaRefs raw in
      if negb ok then (refs, Some "decode Kafka Secret refs") else
      let '(l, e) := checkRefs (mi_Namespace mc) (all refs) in
      let refs := ofList l in
      match e with
      | Some _ => (refs, e)
      | None =>
          if negb (bool_decide (is_Some (kr_CertSecret refs) <-> is_Some (kr_KeySecret refs)))
          then (refs, Some "kafka client certificate and key Secret refs must be configured together")
          else if bool_decide (is_Some (kr_KeyPasswordSecret refs)) && bool_decide (kr_KeySecret refs = None)
          then (refs, Some "kafka key password requires a client key Secret ref")
          else (refs, None)
      end
  end.

Definition kafkaSecretEnv (refs : KafkaSecretRefs) : list EnvVar :=
  omap (fun item => match snd item with
                    | Some r => Some (secretEnv (fst item) (ref_Name r) (ref_Key r))
                    | None => None
                    end)
    [("KAFKA_SASLUSERNAME", kr_SASLUsernameSecret refs); ("KAFKA_SASLPASSWORD", kr_SASLPasswordSecret refs);
     ("KAFKA_SSL_TLSKEYPASSWORD", kr_KeyPasswordSecret refs)].

(** ** Volumes *)

Definition kafkaSslMountPath : string := "/secrets/kafka/ssl".

(** [volume.Data["name"].(string)] of the user's volumes. *)
Definition userVolumeNames (userVolumes : option (list json)) : list string :=
  omap (fun v => match field_of v "name" with Some (JStr name) => Some name | _ => None end)
    (default [] userVolumes).

(** Names of volumes that an earlier render may have added. *)
Definition managedVolumeNames (previous : PodTemplateSpec) (component : string) : list string :=
  ["kafka-ssl"; "kafka-passwords"] ++
  (let containers := ps_Containers (pt_Spec previous) in
   match containers !! Z.to_nat (GetContainerIndex containers component) with
   | Some c =>
       if GetContainerIndex containers component <? 0 then []
       else vm_Name <$> filter (fun m => vm_MountPath m = kafkaSslMountPath) (ct_VolumeMounts c)
   | None => []
   end).

Definition keptVolume (managed users : list string) (name : string) : Prop := name ∉ managed \/ name ∈ users.

#[global] Instance keptVolume_dec managed users name : Decision (keptVolume managed users name).
Proof. unfold keptVolume. apply _. Defined.

Fixpoint freeVolumeName (fuel : nat) (userNames : list string) (volumeName : string) : string :=
  match fuel with
  | O => volumeName
  | S fuel' =>
      if bool_decide (volumeName ∈ userNames)
      then freeVolumeName fuel' userNames (volumeName +:+ "-operator") else volumeName
  end.

(** Secret, key and path of every certificate that is referenced. *)
Definition certificateSources (refs : KafkaSecretRefs) : list (string * string * string) :=
  omap (fun item => match fst item with
                    | Some r => Some (ref_Name r, ref_Key r, snd item)
                    | None => None
                    end)
    [(kr_CACertSecret refs, "ca-cert"); (kr_CertSecret refs, "tls.crt"); (kr_KeySecret refs, "tls.key")].

Definition injectKafkaSecretsIntoTemplate (t previous : PodTemplateSpec) (mc : Milvus) (component : string)
    (userVolumes : option (list json)) : PodTemplateSpec :=
  let spec := pt_Spec t in
  let idx := GetContainerIndex (ps_Containers spec) component in
  match ps_Containers spec !! Z.to_nat idx with
  | Some c =>
      if idx <? 0 then t else
      let refs := if bool_decide (dep_MsgStreamType (spec_Dep (mi_Spec mc)) = MsgStreamTypeKafka)
                  then fst (parseKafkaSecretRefs mc) else noRefs in
      let userNames := userVolumeNames userVolumes in
      let managedNames := managedVolumeNames previous component in
      let vols := filter (fun v => keptVolume managedNames userNames (vol_Name v)) (ps_Volumes spec) in
      let mounts := filter (fun m => keptVolume managedNames userNames (vm_Name m)) (ct_VolumeMounts c) in
      let volumeName := freeVolumeName (S (length userNames)) userNames "kafka-ssl" in
      let annotations := delete "checksum/kafka-ssl" (delete "checksum/kafka-passwords" (pt_Annotations t)) in
      let sources := certificateSources refs in
      let '(vols, mounts) :=
        match sources with
        | [] => (vols, mounts)
        | _ => (addVolume vols (mkVolume volumeName (VProjected sources (Some 420))),
                addVolumeMount mounts (mkMount volumeName true kafkaSslMountPath ""))
        end in
      mkTemplate (pt_Labels t) annotations
        (set_ps_Volumes
           (set_ps_Containers spec (<[Z.to_nat idx := set_ct_VolumeMounts c mounts]> (ps_Containers spec))) vols)
  | None => t
  end.
End Kafka.

(** ** The name of the operator's volume is free *)

Lemma operator_suffix_length i name :
  String.length (Nat.iter i (fun n => n +:+ "-operator") name) = (String.length name + 9 * i)%nat.
Proof. induction i as [|i IH]; simpl Nat.iter; [lia|]. rewrite string_length_app, IH. simpl String.length. lia. Qed.

Lemma freeVolumeName_iter fuel userNames name :
  freeVolumeName fuel userNames name ∈ userNames ->
  forall i, (i < fuel)%nat -> Nat.iter i (fun n => n +:+ "-operator") name ∈ userNames.
Proof.
  revert name. induction fuel as [|fuel IH]; intros name Hin i Hi; [lia|]. simpl in Hin.
  case_bool_decide as E; [|done]. destruct i as [|i]; [done|].
  specialize (IH _ Hin i ltac:(lia)).
  replace (Nat.iter (S i) (fun n => n +:+ "-operator") name)
    with (Nat.iter i (fun n => n +:+ "-operator") (name +:+ "-operator")); [done|].
  clear. induction i as [|i IH]; simpl in *; [done|]. by rewrite IH.
Qed.

(** As many names as user volumes and one more: not all are taken. *)
Lemma freeVolumeName_free userNames name :
  freeVolumeName (S (length userNames)) userNames name ∉ userNames.
Proof.
  intros Hin. pose proof (freeVolumeName_iter _ _ _ Hin) as Hall.
  set (names := (fun i => Nat.iter i (fun n => n +:+ "-operator") name) <$> seq 0 (S (length userNames))).
  assert (NoDup names) as Hnd.
  { apply NoDup_fmap_2_strong; [|apply NoDup_seq]. intros i j _ _ Heq.
    pose proof (f_equal String.length Heq) as Hlen. rewrite !operator_suffix_length in Hlen. lia. }
  assert (names ⊆ userNames) as Hsub.
  { intros x. unfold names. rewrite list_elem_of_fmap. intros (i & -> & Hi%elem_of_seq). apply Hall. lia. }
  pose proof (submseteq_length _ _ (NoDup_submseteq _ _ Hnd Hsub)) as Hlen.
  unfold names in Hlen. rewrite length_fmap, length_seq in Hlen. lia.
Qed.
