(* ===== verification/Render.v ===== *)
(** * Rendering of workloads

    The rest of pkg/controllers/deployment_updater.go: [updatePodTemplate]
    renders the pod template of a component into an existing one,
    [updateDeployment] a whole deployment; with the configuration checksum of
    components.go.  The [milvusDeploymentUpdater] of the source is the context
    of the section: a Milvus, a component and the environment variables that
    the reconcile resolved for the storage.

    [None] is a panic: a nil component, or values that do not decode. *)
From S2P Require Import Prelude KubeTypes Libs ApiTypes Labels Sha256 Effects Utils Components DependencyGraph.
From S2P Require Import DeployUtil PodTemplate KafkaSecrets.

Local Open Scope string_scope.
Local Open Scope list_scope.
Local Open Scope Z_scope.

(** ** The configuration checksum *)

(** encoding/json: [None] is an error. *)
Class JsonMarshal := { Marshal : json -> option string }.

(** A nil map or slice marshals to null, an empty one to {} or []. *)
Definition sliceJson {A} (f : A -> json) (s : goSlice A) : json := match s with None => JNull | Some l => JArr (f <$> l) end.
Definition stringsJson (s : goSlice string) : json := sliceJson JStr s.
Definition valuesJson (v : Values) : json := match v with None => JNull | Some l => JObj l end.
Definition poolJson (p : WoodpeckerBufferPool) : json :=
  JObj [("name", JStr (wbp_Name p)); ("seeds", stringsJson (wbp_Seeds p))].
Definition poolsJson (s : goSlice WoodpeckerBufferPool) : json := sliceJson poolJson s.

(** What the checksum is taken of. *)
Definition checksumConf (spec : MilvusSpec) (annotations : gmap string string) : list (string * json) :=
  let dep := spec_Dep spec in
  let sum := mget annotations KafkaSaslCheckSumAnnotation in
    [("conf", valuesJson (spec_Conf spec));
     ("etcd-endpoints", stringsJson (etcd_Endpoints (dep_Etcd dep)));
     ("pulsar-endpoint", JStr (pul_Endpoint (dep_Pulsar dep)))]
    ++ match pul_Endpoints (dep_Pulsar dep) with
       | [] => []
       | eps => [("pulsar-endpoints", stringsJson (Some eps))]
       end
    ++ [("kafka-brokerList", stringsJson (kaf_BrokerList (dep_Kafka dep)));
        ("storage-endpoint", JStr (sto_Endpoint (dep_Storage dep)))]
    ++ (if wp_External (dep_WoodPecker dep)
        then [("woodpecker-external", JBool true);
              ("woodpecker-quorumBufferPools", poolsJson (wp_QuorumBufferPools (dep_WoodPecker dep)))]
        else [])
    ++ (if bool_decide (kaf_SecretRef (dep_Kafka dep) = "") then []
        else [("kafka-secretRef", JStr (kaf_SecretRef (dep_Kafka dep)))])
    ++ (if bool_decide (sum = "") then [] else [("kafka-sasl-checksum", JStr sum)]).

Section CheckSum.
Context {JM : JsonMarshal}.

Definition getConfCheckSum (spec : MilvusSpec) (annotations : gmap string string) : string :=
  match Marshal (JObj (checksumConf spec annotations)) with None => "" | Some b => CheckSum (string_bytes b) end.

Definition GetConfCheckSum (spec : MilvusSpec) : string := getConfCheckSum spec ∅.
Definition GetConfCheckSumWithRefs (m : Milvus) : string := getConfCheckSum (mi_Spec m) (mi_Annotations m).
End CheckSum.

(** ** Layered configuration *)

(** [strings.Contains] of one byte, and [strings.LastIndex]. *)
Definition containsByte (s : string) (b : Ascii.ascii) : bool := bool_decide (is_Some (indexByte s b)).
Definition lastIndex (s : string) (b : Ascii.ascii) : Z :=
  match lastIndexByte s b with Some i => Z.of_nat i | None => -1 end.

Definition supportsLayeredConfig {SV : Semver} (image version : string) : bool :=
  let version' :=
    if bool_decide (version = "") then
      if containsByte image "@" then None
      else if lastIndex image ":" <=? lastIndex image "/" then None
      else Some (slice_from image (Z.to_nat (lastIndex image ":" + 1)))
    else Some version in
  match version' ≫= sv_ParseTolerant with
  | None => false
  | Some v => (2 <? sv_Major v) || ((sv_Major v =? 2) && (5 <=? sv_Minor v))
  end.

Definition layeredEnv : string := "MILVUS_OPERATOR_LAYERED_CONFIG".
Definition FormatBool (b : bool) : string := if b then "true" else "false".

(** ** The updater *)
Section Updater.
Context {SV : Semver} {US : Unstructured} {KL : KubeLib} {DC : Decode} {DK : DecodeKafka} {JM : JsonMarshal}
  {OI : OperatorImage}.
Context (mc : Milvus) (component : MilvusComponent) (storageEndpointEnv : list EnvVar).

Definition mergedSpec : option ComponentSpec := GetMergedComponentSpec mc component.

(** [milvusDeploymentUpdater.IsHPAEnabled]. *)
Definition updater_IsHPAEnabled : bool :=
  if isUpgradeStopping mc then false
  else if bool_decide (is_Some (GetHPASpec component (mi_Spec mc))) then true
  else match GetReplicas component (mi_Spec mc) with Some r => r <? 0 | None => false end.

Definition GetArgs : option (list string) :=
  spec ← mergedSpec;
  let ret := match csp_Commands spec with
             | [] => [RunScriptPath; "milvus"; "run"] ++ GetRunCommands component
             | commands => RunScriptPath :: commands
             end in
  Some (match csp_RunWithSubProcess spec with
        | Some true => ret ++ ["--run-with-subprocess"]
        | _ => ret
        end).

Definition GetKafkaSecretRef : string :=
  if bool_decide (dep_MsgStreamType (spec_Dep (mi_Spec mc)) = MsgStreamTypeKafka)
  then kaf_SecretRef (dep_Kafka (spec_Dep (mi_Spec mc))) else "".

(** ** Metadata of the template *)

Definition desiredPodTemplateLabels (appLabels existing : gmap string string) : option (gmap string string) :=
  spec ← mergedSpec;
  let labels := MergeLabels [csp_PodLabels spec; appLabels] in
  let labels := if IsService component then <[ServiceLabel := TrueStr]> labels else labels in
  let labels := preserveExistingMetadataPrefixes labels existing in
  let key := GetComponentGroupIdLabel (Name component) in
  Some (match existing !! key with Some slot => <[key := slot]> labels | None => labels end).

Definition desiredPodTemplateAnnotations (existing : gmap string string) : option (gmap string string) :=
  spec ← mergedSpec;
  let annotations := <[PodAnnotationUsingConfigMap := GetActiveConfigMap mc]>
                       (MergeAnnotations [csp_PodAnnotations spec]) in
  let annotations :=
    if negb (IsUpdateConfigMapOnly mc) then <[AnnotationCheckSum := GetConfCheckSumWithRefs mc]> annotations
    else preserveExistingMetadataKeys annotations existing [AnnotationCheckSum] in
  Some (preserveExistingMetadataPrefixes annotations existing).

Definition updatePodMeta (template : PodTemplateSpec) (appLabels : gmap string string) : option PodTemplateSpec :=
  match DeploymentGroupOf component with
  | Some _ =>
      labels ← desiredPodTemplateLabels appLabels (pt_Labels template);
      annotations ← desiredPodTemplateAnnotations (pt_Annotations template);
      Some (mkTemplate labels annotations (pt_Spec template))
  | None =>
      spec ← mergedSpec;
      let labels := MergeLabels [MergeLabels [pt_Labels template; csp_PodLabels spec]; appLabels] in
      let annotations := MergeAnnotations [pt_Annotations template; csp_PodAnnotations spec] in
      let annotations :=
        if negb (IsUpdateConfigMapOnly mc)
        then <[AnnotationCheckSum := GetConfCheckSumWithRefs mc]> annotations else annotations in
      Some (mkTemplate labels annotations (pt_Spec template))
  end.

(** ** Init containers *)

Definition configContainerIdx (template : PodTemplateSpec) : Z :=
  GetContainerIndex (ps_InitContainers (pt_Spec template)) configContainerName.

Definition set_InitContainers (template : PodTemplateSpec) (cs : list Container) : PodTemplateSpec :=
  set_pt_Spec template (set_ps_InitContainers (pt_Spec template) cs).

Definition updateConfigContainer (template : PodTemplateSpec) : option PodTemplateSpec :=
  let cs := ps_InitContainers (pt_Spec template) in
  let idx := configContainerIdx template in
  spec ← mergedSpec;
  let resources := configContainerResources spec (GetInitContainers component (mi_Spec mc)) in
  let old := if idx <? 0 then newContainer "" else default (newContainer "") (cs !! Z.to_nat idx) in
  c ← renderInitContainer old (com_ToolImage (mi_Com mc)) (csp_SecurityContext spec) resources;
  Some (set_InitContainers template (put cs idx c)).

(** A container replaces the one of its name, or is added. *)
Definition putContainer (cs : list Container) (c : Container) : list Container :=
  put cs (GetContainerIndex cs (ct_Name c)) c.

Definition updateInitContainers (template : PodTemplateSpec) : option PodTemplateSpec :=
  let idx := configContainerIdx template in
  template ←
    (if (idx <? 0) || com_UpdateToolImage (mi_Com mc) then updateConfigContainer template
     else
       spec ← mergedSpec;
       let cs := ps_InitContainers (pt_Spec template) in
       c ← cs !! Z.to_nat idx;
       c ← updateConfigSecurityContext c (csp_SecurityContext spec);
       let c := match csp_ToolResources spec with
                | None => c
                | Some _ => set_ct_Resources c
                              (configContainerResources spec (GetInitContainers component (mi_Spec mc)))
                end in
       Some (set_InitContainers template (<[Z.to_nat idx := c]> cs)));
  Some (set_InitContainers template
          (fold_left (fun cs c => putContainer cs (fillContainerDefaultValues c))
             (GetInitContainers component (mi_Spec mc)) (ps_InitContainers (pt_Spec template)))).

(** ** Scheduling, network and volumes *)

Definition updateScheduleSpec (template : PodTemplateSpec) : option PodTemplateSpec :=
  spec ← mergedSpec;
  let s := pt_Spec template in
  Some (set_pt_Spec template
    (mkPodSpec (ps_InitContainers s) (ps_Containers s) (ps_Volumes s)
       (if bool_decide (csp_SchedulerName spec = "") then ps_SchedulerName s else csp_SchedulerName spec)
       (csp_Affinity spec) (csp_Tolerations spec) (csp_TopologySpreadConstraints spec) (csp_NodeSelector spec)
       (csp_ImagePullSecrets spec) (csp_ServiceAccountName spec) (csp_PriorityClassName spec)
       (ps_HostNetwork s) (ps_DNSPolicy s) (ps_SecurityContext s) (ps_TerminationGracePeriodSeconds s))).

Definition updateNetworkSettings (template : PodTemplateSpec) : option PodTemplateSpec :=
  spec ← mergedSpec;
  let s := pt_Spec template in
  Some (set_pt_Spec template
    (set_ps_Network s (csp_HostNetwork spec)
       (if bool_decide (csp_DNSPolicy spec = "") then ps_DNSPolicy s else csp_DNSPolicy spec))).

Definition getPVCNameByInstName (instName : string) : string := instName +:+ "-data".

Definition userDefinedVolumes : option (list Volume) :=
  spec ← mergedSpec;
  volumes ← mapM (fun v => (fun v => fillSecretVolumeDefaultValues (fillConfigMapVolumeDefaultValues v))
                             <$> DecodeVolume v) (default [] (csp_Volumes spec));
  Some (match GetMilvusBuiltInMQ (spec_Dep (mi_Spec mc)) with
        | Some persistence =>
            if per_Enabled persistence then
              let claim := pvc_ExistingClaim (per_PersistentVolumeClaim persistence) in
              volumes ++ [persisentDataVolumeByName
                            (if bool_decide (claim = "") then getPVCNameByInstName (mi_Name mc) else claim)]
            else volumes ++ [emptyDirDataVolume]
        | None =>
            if com_RunAsNonRoot (mi_Com mc) && (GetVolumeIndex volumes MilvusDataVolumeName <? 0)
            then volumes ++ [emptyDirDataVolume] else volumes
        end).

Definition addVolumes (template : PodTemplateSpec) (volumes : list Volume) : PodTemplateSpec :=
  set_pt_Spec template
    (set_ps_Volumes (pt_Spec template) (fold_left addVolume volumes (ps_Volumes (pt_Spec template)))).

Definition updateUserDefinedVolumes (template : PodTemplateSpec) : option PodTemplateSpec :=
  volumes ← userDefinedVolumes; Some (addVolumes template volumes).

Definition updateBuiltInVolumes (template : PodTemplateSpec) : PodTemplateSpec :=
  let template := set_pt_Annotations template
    (<[PodAnnotationUsingConfigMap := GetActiveConfigMap mc]> (pt_Annotations template)) in
  addVolumes template
    ([configVolumeByName (GetActiveConfigMap mc); toolVolume]
     ++ if bool_decide (GetKafkaSecretRef = "") then [] else [kafkaCAVolumeBySecret GetKafkaSecretRef]).

Definition getUserDefinedVolumeMounts : option (list VolumeMount) :=
  spec ← mergedSpec;
  let ret := csp_VolumeMounts spec in
  Some (if bool_decide (is_Some (GetMilvusBuiltInMQ (spec_Dep (mi_Spec mc))))
           || (com_RunAsNonRoot (mi_Com mc) && (GetVolumeMountIndex ret (vm_MountPath dataVolumeMount) <? 0))
        then ret ++ [dataVolumeMount] else ret).

(** ** The Milvus container *)

Definition set_Containers (template : PodTemplateSpec) (cs : list Container) : PodTemplateSpec :=
  set_pt_Spec template (set_ps_Containers (pt_Spec template) cs).

(** The environment of the container as the spec wants it. *)
Definition desiredEnv (spec : ComponentSpec) : list EnvVar :=
  let dep := spec_Dep (mi_Spec mc) in
  let env := MergeEnvVar storageEndpointEnv (csp_Env spec) in
  let env := MergeEnvVar env (GetStorageSecretRefEnv (sto_SecretRef (dep_Storage dep))) in
  let env := MergeEnvVar env (GetKafkaSecretRefEnv GetKafkaSecretRef) in
  let env := if bool_decide (dep_MsgStreamType dep = MsgStreamTypeKafka)
             then MergeEnvVar env (kafkaSecretEnv (fst (parseKafkaSecretRefs mc))) else env in
  fold_left (fun env resolved =>
               match ev_ValueFrom resolved with
               | Some (SecretKeyRef _ _) => MergeEnvVar env [resolved]
               | _ => env
               end) storageEndpointEnv env.

Definition containerPorts : option (list ContainerPort) :=
  let metricPort := mkPort MetricPortName MetricPort "TCP" in
  if IsService component then
    port ← GetComponentPort component (mi_Spec mc);
    restfulPort ← GetRestfulPort component (mi_Spec mc);
    Some ([mkPort (GetPortName component) port "TCP"; metricPort]
          ++ if bool_decide (restfulPort = 0) then [] else [mkPort RestfulPortName restfulPort "TCP"])
  else Some [metricPort].

Definition applyUserMount (mounts : list VolumeMount) (m : VolumeMount) : list VolumeMount :=
  if isRemovalVolumeMount m then removeVolumeMountsByPath mounts (extractTargetMountPath m)
  else addVolumeMount mounts m.

(** When the image of the container follows the spec. *)
Definition updatesImage (forceUpdateImage : bool) : bool :=
  forceUpdateImage || negb (IsRollingUpdateEnabled mc)
  || bool_decide (com_ImageUpdateMode (mi_Com mc) = ImageUpdateModeAll)
  || bool_decide (com_ImageUpdateMode (mi_Com mc) = ImageUpdateModeForce)
  || RollingUpdateImageDependencyReady mc component.

Definition overlayContainerSecurity (c : Container) (values : Values) : option Container :=
  match values with
  | None => Some c
  | Some _ =>
      sc ← OverlaySecurityContext (default (JObj []) (ct_SecurityContext c)) values;
      Some (set_ct_SecurityContext c (Some sc))
  end.

Definition updateMilvusContainer (template : PodTemplateSpec) (forceUpdateImage : bool) : option PodTemplateSpec :=
  spec ← mergedSpec;
  let cs := ps_Containers (pt_Spec template) in
  let cs := if GetContainerIndex cs (Name component) <? 0 then cs ++ [newContainer (Name component)] else cs in
  let idx := Z.to_nat (GetContainerIndex cs (Name component)) in
  c ← cs !! idx;
  let previouslyLayered := existsb (fun e => bool_decide (ev_Name e = layeredEnv) && bool_decide (ev_Value e = "true"))
                             (ct_Env c) in
  args ← GetArgs;
  let env := desiredEnv spec in
  let env := MergeEnvVar (pruneStorageCredentialEnv (ct_Env c) env) env in
  ports ← containerPorts;
  userMounts ← getUserDefinedVolumeMounts;
  let mounts := fold_left applyUserMount userMounts (ct_VolumeMounts c) in
  policy ← csp_ImagePullPolicy spec;
  resources ← csp_Resources spec;
  let image := if updatesImage forceUpdateImage then csp_Image spec else ct_Image c in
  let version := if bool_decide (image = csp_Image spec) then csp_Version spec else "" in
  let layered := supportsLayeredConfig image version in
  let env := MergeEnvVar env [mkEnv layeredEnv (FormatBool layered) None] in
  let c := set_ct_main c image policy args env ports mounts resources in
  template ← (if layered && negb previouslyLayered then updateConfigContainer (set_Containers template cs)
              else Some (set_Containers template cs));
  c ← overlayContainerSecurity c (csp_SecurityContext spec);
  Some (set_Containers template (<[idx := c]> (ps_Containers (pt_Spec template)))).

Definition updateSidecars (template : PodTemplateSpec) : option PodTemplateSpec :=
  sidecars ← GetSideCars component (mi_Spec mc);
  Some (set_Containers template (fold_left putContainer sidecars (ps_Containers (pt_Spec template)))).

Definition builtInVolumeMounts : list VolumeMount :=
  [configVolumeMount; toolVolumeMount] ++ if bool_decide (GetKafkaSecretRef = "") then [] else [kafkaCAVolumeMount].

(** Apply [f] to the Milvus container, if there is one. *)
Definition updateContainer (template : PodTemplateSpec) (f : Container -> option Container) : option PodTemplateSpec :=
  let cs := ps_Containers (pt_Spec template) in
  let idx := GetContainerIndex cs (Name component) in
  if idx <? 0 then None else
  c ← cs !! Z.to_nat idx;
  c ← f c;
  Some (set_Containers template (<[Z.to_nat idx := c]> cs)).

(** A template without the container is left as it is. *)
Definition updateBuiltInVolumeMounts (template : PodTemplateSpec) : PodTemplateSpec :=
  default template
    (updateContainer template (fun c =>
       Some (set_ct_VolumeMounts c
               (fold_left addVolumeMount builtInVolumeMounts
                  (removeVolumeMounts (ct_VolumeMounts c) MilvusConfigVolumeName))))).

(** ** The pod template *)

Definition preStopLifecycle : json :=
  JObj [("preStop", JObj [("exec", JObj [("command", JArr [JStr "sleep"; JStr "30"])])])].

Definition updateSomeFieldsOnlyWhenRolling (template : PodTemplateSpec) : option PodTemplateSpec :=
  let template := updateBuiltInVolumeMounts (updateBuiltInVolumes template) in
  template ← updateConfigContainer template;
  let template := if IsService component
                  then set_pt_Labels template (<[ServiceLabel := TrueStr]> (pt_Labels template)) else template in
  spec ← mergedSpec;
  template ← updateContainer template (fun c =>
    c ← updateProbes c spec;
    Some (if IsService component then set_ct_Lifecycle c (Some preStopLifecycle) else c));
  Some (set_pt_Spec template (set_ps_GracePeriod (pt_Spec template) (Some oneMonthSeconds))).

Definition podSecurityContext : json :=
  JObj [("runAsNonRoot", JBool true); ("runAsUser", JNum 1000); ("fsGroup", JNum 1000)].

(** The part of a render that follows the resource on every reconcile. *)
Definition renderByResource (template : PodTemplateSpec) (appLabels : gmap string string) (forceUpdateAll : bool)
    : option PodTemplateSpec :=
  t ← updatePodMeta template appLabels;
  t ← updateInitContainers t;
  t ← updateUserDefinedVolumes t;
  t ← updateScheduleSpec t;
  t ← updateMilvusContainer t forceUpdateAll;
  spec ← mergedSpec;
  let t := injectKafkaSecretsIntoTemplate t template mc (Name component) (csp_Volumes spec) in
  t ← updateSidecars t;
  t ← updateNetworkSettings t;
  Some (if com_RunAsNonRoot (mi_Com mc)
        then set_pt_Spec t (set_ps_SecurityContext (pt_Spec t) (Some podSecurityContext)) else t).

Definition renderPodTemplate (template : PodTemplateSpec) (appLabels : gmap string string) (forceUpdateAll : bool)
    : option PodTemplateSpec :=
  t ← renderByResource template appLabels forceUpdateAll;
  let hasUpdates := negb (DeepEqual template t) in
  if hasUpdates || forceUpdateAll then updateSomeFieldsOnlyWhenRolling t else Some t.

(** ** The deployment *)

Definition updateDeploymentReplicas (deployment : Deployment) : Deployment :=
  if negb updater_IsHPAEnabled then set_dep_Replicas deployment (GetReplicas component (mi_Spec mc))
  else if getDeployReplicas deployment =? 0 then
    let minReplicas := match GetHPASpec component (mi_Spec mc) with
                       | Some h => default 1 (hpa_MinReplicas h)
                       | None => 1
                       end in
    set_dep_Replicas deployment (int32Ptr minReplicas)
  else deployment.

Definition updateDeploymentWithoutPodTemplate (deployment : Deployment) : option Deployment :=
  spec ← mergedSpec;
  strategy ← GetDeploymentStrategy mc component;
  let s := dep_Spec deployment in
  let d := mkDeployment (dep_Meta deployment)
             (mkDSpec (dsp_Replicas s) (dsp_Selector s) (dsp_Template s) strategy
                (if IsRollingUpdateEnabled mc then 30 else dsp_MinReadySeconds s) (csp_Paused spec)
                (int32Ptr oneMonthSeconds)) (dep_Status deployment) in
  Some (if com_EnableManualMode (mi_Com mc) then d else updateDeploymentReplicas d).

(** [inl] is the error of the controller reference; a deployment without a
    selector is being created. *)
Definition updateDeployment (deployment : Deployment) : option (string + Deployment) :=
  let appLabels := GetSelectorLabels component (mi_Name mc) in
  let d := match DeploymentGroupOf component with
           | Some _ =>
               set_dep_Annotations
                 (set_dep_Labels deployment
                    (desiredDeploymentLabels (mi_Name mc) component "" (dep_Labels deployment)))
                 (desiredDeploymentAnnotations component (dep_Annotations deployment))
           | None => set_dep_Labels deployment (MergeLabels [dep_Labels deployment; appLabels])
           end in
  match SetControllerReference (mi_Meta mc) (dep_Meta d) with
  | None => Some (inl "set controller reference")
  | Some meta =>
      let d := set_dep_Meta d meta in
      let isCreating := bool_decide (dsp_Selector (dep_Spec d) = ∅) in
      let d := if isCreating then set_dep_Selector d appLabels else d in
      d ← updateDeploymentWithoutPodTemplate d;
      let isStopped := getDeployReplicas d =? 0 in
      template ← renderPodTemplate (dsp_Template (dep_Spec d)) appLabels (isCreating || isStopped);
      Some (inr (set_dep_Template d template))
  end.
End Updater.

(** The renderer as the interface of the deploy controller; the environment is
    that of the reconcile. *)
Definition milvusTemplateUpdater {SV : Semver} {KL : KubeLib} {DC : Decode} {DK : DecodeKafka} {JM : JsonMarshal}
    {OI : OperatorImage} (storageEndpointEnv : list EnvVar) : PodTemplateUpdater :=
  {| updatePodTemplate := fun mc component template appLabels forceUpdateAll =>
       renderPodTemplate mc component storageEndpointEnv template appLabels forceUpdateAll |}.
