(* ===== verification/RenderProofs.v ===== *)
(** * Properties of rendering

    Concrete decoders, on which the renderer evaluates, and the theorems on
    pod templates and deployments. *)
From S2P Require Import Prelude KubeTypes Libs ApiTypes Labels Effects Utils Components DependencyGraph.
From S2P Require Import DeployUtil PodTemplate KafkaSecrets Render Examples.

Local Open Scope string_scope.
Local Open Scope list_scope.
Local Open Scope Z_scope.

(** ** Concrete decoders *)

Definition strField (j : json) (key : string) : string :=
  match field_of j key with Some (JStr s) => s | _ => "" end.

(** Containers and volumes of which only name and image are given. *)
Definition exDecode : Decode := {|
  DecodeContainer v :=
    match v with
    | Some l => Some (mkContainer (strField (JObj l) "name") (strField (JObj l) "image") "" [] [] [] [] []
                        emptyResources None None None None None "" "")
    | None => None
    end;
  DecodeVolume j := Some (mkVolume (strField j "name") (VOther j));
  DecodeProbes v := Some (mkProbes (field_of (JObj (default [] v)) "startupProbe")
                            (field_of (JObj (default [] v)) "livenessProbe")
                            (field_of (JObj (default [] v)) "readinessProbe"));
  OverlaySecurityContext j v := Some (fold_left (fun j kv => set_field j (fst kv) (snd kv)) (default [] v) j)
|}.

Definition decodeRef (j : json) (key : string) : option SecretKeyReference :=
  r ← field_of j key; Some (mkRef (strField r "name") (strField r "key") (strField r "namespace")).

Definition exDecodeKafka : DecodeKafka := {|
  DecodeKafkaRefs j :=
    let ssl := default JNull (field_of j "ssl") in
    (mkKafkaRefs (decodeRef j "saslUsernameSecret") (decodeRef j "saslPasswordSecret")
       (decodeRef ssl "caCertSecret") (decodeRef ssl "certSecret") (decodeRef ssl "keySecret")
       (decodeRef ssl "keyPasswordSecret"), true)
|}.

Definition exMarshal : JsonMarshal := {| Marshal j := Some "{}" |}.
Definition exOperatorImage : OperatorImage := {| oi_Image := "milvus-operator:v1"; oi_ImagePullPolicy := "IfNotPresent" |}.

#[local] Existing Instances exDecode exDecodeKafka exMarshal exOperatorImage.

(** ** A certificate of Kafka moves the volumes *)

Definition exKafkaConf : Values :=
  Some [("kafka", JObj [("ssl", JObj [("caCertSecret", JObj [("name", JStr "kafka"); ("key", JStr "ca.crt")])])])].

Definition exKafkaMilvus : Milvus :=
  let m := exMilvus 1 in
  let dep := spec_Dep (mi_Spec m) in
  set_mi_Spec m
    (mkSpec MilvusModeCluster (spec_Com (mi_Spec m))
       (mkDep (dep_Etcd dep) MsgStreamTypeKafka (dep_Pulsar dep) (mkKafka None true (Some ["kafka:9092"]) "")
          (dep_WoodPecker dep) (dep_RocksMQ dep) (dep_NatsMQ dep) (dep_Storage dep) (dep_Tei dep)
          (dep_CustomMsgStream dep)) exKafkaConf None).

(** ** Lists keyed by name

    The renderer replaces the first element of a name or appends; [putR] is
    that operation by recursion, [find_by] the element of a name. *)
Section Keyed.
Context {A : Type} (key : A -> string).

Fixpoint putR (x : A) (l : list A) : list A :=
  match l with
  | [] => [x]
  | y :: l' => if decide (key y = key x) then x :: l' else y :: putR x l'
  end.

Fixpoint find_by (k : string) (l : list A) : option A :=
  match l with
  | [] => None
  | y :: l' => if decide (key y = k) then Some y else find_by k l'
  end.

Definition keyIndex (l : list A) (k : string) : Z := first_index (fun y => key y = k) l.

Lemma keyIndex_cons y l k :
  keyIndex (y :: l) k
  = if decide (key y = k) then 0 else if keyIndex l k <? 0 then -1 else keyIndex l k + 1.
Proof.
  unfold keyIndex, first_index. simpl. destruct (decide (key y = k)); [done|].
  destruct (list_find _ l) as [[i z]|]; simpl; [|done]. destruct (Z.ltb_spec (Z.of_nat i) 0); lia.
Qed.

Lemma keyIndex_range l k : keyIndex l k = -1 \/ 0 <= keyIndex l k.
Proof. unfold keyIndex, first_index. destruct (list_find _ l) as [[i z]|]; lia. Qed.

Lemma put_putR l x : put l (keyIndex l (key x)) x = putR x l.
Proof.
  induction l as [|y l IH]; [done|]. rewrite keyIndex_cons. cbn [putR].
  destruct (decide (key y = key x)) as [|Hne]; [done|]. rewrite <- IH. unfold put.
  destruct (keyIndex_range l (key x)) as [->|Hr]; [done|].
  destruct (Z.ltb_spec (keyIndex l (key x)) 0) as [|_]; [lia|].
  destruct (Z.ltb_spec (keyIndex l (key x) + 1) 0) as [|_]; [lia|].
  by replace (Z.to_nat (keyIndex l (key x) + 1)) with (S (Z.to_nat (keyIndex l (key x)))) by lia.
Qed.

Lemma lookup_keyIndex l k : (keyIndex l k <? 0) = false -> l !! Z.to_nat (keyIndex l k) = find_by k l.
Proof.
  induction l as [|y l IH]; [done|]. rewrite keyIndex_cons. cbn [find_by].
  destruct (decide (key y = k)); [done|]. destruct (keyIndex l k <? 0) eqn:E; [done|]. intros _.
  apply Z.ltb_ge in E as E'. replace (Z.to_nat (keyIndex l k + 1)) with (S (Z.to_nat (keyIndex l k))) by lia.
  by apply IH.
Qed.

Lemma find_by_absent l k : (keyIndex l k <? 0) = true -> find_by k l = None.
Proof.
  induction l as [|y l IH]; [done|]. rewrite keyIndex_cons. cbn [find_by].
  destruct (decide (key y = k)); [done|]. destruct (keyIndex l k <? 0) eqn:E; [auto|]. lia.
Qed.

Lemma find_by_present l k : (keyIndex l k <? 0) = false -> is_Some (find_by k l).
Proof.
  induction l as [|y l IH]; [done|]. rewrite keyIndex_cons. cbn [find_by].
  destruct (decide (key y = k)); [eauto|]. destruct (keyIndex l k <? 0) eqn:E; [done|auto].
Qed.

Lemma keyIndex_snoc l k x :
  (keyIndex l k <? 0) = true -> key x = k -> keyIndex (l ++ [x]) k = Z.of_nat (length l).
Proof.
  induction l as [|y l IH]; intros H Hx.
  - unfold keyIndex, first_index. simpl. by rewrite decide_True.
  - rewrite keyIndex_cons in H. simpl app. rewrite keyIndex_cons.
    destruct (decide (key y = k)); [done|]. destruct (keyIndex l k <? 0) eqn:E; [|lia].
    rewrite (IH eq_refl Hx). destruct (Z.ltb_spec (Z.of_nat (length l)) 0); simpl length; lia.
Qed.

Lemma find_by_key l k x : find_by k l = Some x -> key x = k.
Proof. induction l as [|y l IH]; [done|]. cbn [find_by]. case_decide; [by intros [= <-]|done]. Qed.

Lemma find_putR k x l : find_by k (putR x l) = if decide (key x = k) then Some x else find_by k l.
Proof.
  induction l as [|y l IH]; [done|]. cbn [putR find_by]. destruct (decide (key y = key x)) as [He|Hne]; cbn [find_by].
  - rewrite He. by destruct (decide (key x = k)).
  - rewrite IH. destruct (decide (key y = k)) as [<-|]; [by rewrite decide_False by congruence|done].
Qed.

(** Writing at the index of a key that is there. *)
Lemma insert_keyIndex l k x :
  (keyIndex l k <? 0) = false -> key x = k -> <[Z.to_nat (keyIndex l k) := x]> l = putR x l.
Proof. intros Hi <-. rewrite <- put_putR. unfold put. by rewrite Hi. Qed.

Lemma find_foldl_putR k xs : forall l,
  k ∉ key <$> xs -> find_by k (fold_left (fun l x => putR x l) xs l) = find_by k l.
Proof.
  induction xs as [|x xs IH]; intros l; [done|]. rewrite fmap_cons, not_elem_of_cons. intros [Hk Hx]. simpl.
  rewrite IH by done. rewrite find_putR. by rewrite decide_False by congruence.
Qed.
End Keyed.

Lemma containerIndex_key cs name : GetContainerIndex cs name = keyIndex ct_Name cs name.
Proof. done. Qed.

Lemma putContainers_putR xs : forall l, fold_left putContainer xs l = fold_left (fun l x => putR ct_Name x l) xs l.
Proof. induction xs as [|x xs IH]; intros l; [done|]. simpl. rewrite IH. f_equal. apply (put_putR ct_Name). Qed.

(** ** The Milvus container *)
Section Container.
Context {SV : Semver} {US : Unstructured} {KL : KubeLib} {DC : Decode} {DK : DecodeKafka} {JM : JsonMarshal}
  {OI : OperatorImage}.
Context (mc : Milvus) (component : MilvusComponent) (storageEndpointEnv : list EnvVar).

Definition containerIn (cs : list Container) : option Container := find_by ct_Name (Name component) cs.
Definition containerOf (t : PodTemplateSpec) : option Container := containerIn (ps_Containers (pt_Spec t)).

(** The fields that only [updateMilvusContainer] writes. *)
Definition sameMain (c c' : Container) : Prop :=
  ct_Image c' = ct_Image c /\ ct_ImagePullPolicy c' = ct_ImagePullPolicy c /\ ct_Args c' = ct_Args c /\
  ct_Env c' = ct_Env c /\ ct_Ports c' = ct_Ports c /\ ct_Resources c' = ct_Resources c.

(** The variable of a name that takes effect. *)
Definition effective (name : string) (env : list EnvVar) : option EnvVar := last_by (fun e => Some (ev_Name e)) name env.

Lemma effective_merge name src dst :
  effective name (MergeEnvVar src dst) = match effective name dst with Some e => Some e | None => effective name src end.
Proof. apply merge_by_last. Qed.

Lemma effective_None name env : effective name env = None -> name ∉ ev_Name <$> env.
Proof.
  unfold effective, last_by. rewrite last_None. intros Hf (e & -> & He)%list_elem_of_fmap.
  apply (not_elem_of_nil e). rewrite <- Hf. by apply list_elem_of_filter.
Qed.

Lemma effective_prune name env desired :
  name ∈ credentialNames -> effective name desired = None ->
  effective name (pruneStorageCredentialEnv env desired) = None.
Proof.
  intros Hc Hd%effective_None. unfold effective, last_by, pruneStorageCredentialEnv. apply last_None.
  apply filter_none. intros e He [= <-]. apply list_elem_of_filter in He as [[?|?] _]; done.
Qed.

(** The environment of a rendered container: credentials are those of the
    resource, whatever the container had. *)
Lemma effective_rendered name env desired layered :
  name ∈ credentialNames ->
  effective name (MergeEnvVar (MergeEnvVar (pruneStorageCredentialEnv env desired) desired) [mkEnv layeredEnv layered None])
  = effective name desired.
Proof.
  intros Hc. rewrite !effective_merge.
  assert (effective name [mkEnv layeredEnv layered None] = None) as ->.
  { unfold effective, last_by. rewrite filter_cons_False; [done|]. intros [= <-].
    apply (bool_decide_eq_true_2 _) in Hc. by vm_compute in Hc. }
  destruct (effective name desired) eqn:Hd; [done|]. by apply effective_prune.
Qed.

Definition renderedFrom (spec : ComponentSpec) (force : bool) (image : string) (c : Container) : Prop :=
  ct_Image c = (if updatesImage mc component force then csp_Image spec else image) /\
  csp_Resources spec = Some (ct_Resources c) /\ csp_ImagePullPolicy spec = Some (ct_ImagePullPolicy c) /\
  GetArgs mc component = Some (ct_Args c) /\ containerPorts mc component = Some (ct_Ports c) /\
  forall name, name ∈ credentialNames ->
    effective name (ct_Env c) = effective name (desiredEnv mc storageEndpointEnv spec).

Lemma sameMain_refl c : sameMain c c.
Proof. by repeat split. Qed.

Lemma renderedFrom_same spec force image c c' :
  renderedFrom spec force image c -> sameMain c c' -> renderedFrom spec force image c'.
Proof. intros Hr (H1 & H2 & H3 & H4 & H5 & H6). unfold renderedFrom. by rewrite H1, H2, H3, H4, H5, H6. Qed.

(** *** What each step leaves alone *)

Lemma updateConfigContainer_containers t t' :
  updateConfigContainer mc component t = Some t' -> ps_Containers (pt_Spec t') = ps_Containers (pt_Spec t).
Proof. unfold updateConfigContainer. intros H. simplify_option_eq. done. Qed.

Lemma updatePodMeta_spec t labels t' : updatePodMeta mc component t labels = Some t' -> pt_Spec t' = pt_Spec t.
Proof. unfold updatePodMeta. intros H. case_match; by simplify_option_eq. Qed.

Lemma updateInitContainers_containers t t' :
  updateInitContainers mc component t = Some t' -> ps_Containers (pt_Spec t') = ps_Containers (pt_Spec t).
Proof.
  unfold updateInitContainers. intros (t0 & Ht0 & [= <-])%bind_Some. simpl.
  case_match; [by apply updateConfigContainer_containers|]. by simplify_option_eq.
Qed.

Lemma updateContainer_containerOf t f t' :
  updateContainer component t f = Some t' ->
  (forall c c', f c = Some c' -> ct_Name c' = ct_Name c) ->
  exists c c', containerOf t = Some c /\ f c = Some c' /\ containerOf t' = Some c'.
Proof.
  intros H Hf. unfold updateContainer in H. rewrite containerIndex_key in H.
  destruct (keyIndex ct_Name _ _ <? 0) eqn:E; [done|].
  rewrite lookup_keyIndex in H by done.
  destruct (find_by ct_Name (Name component) _) as [c|] eqn:Ec; [|done]. simpl in H.
  destruct (f c) as [c'|] eqn:Ef; [|done]. simpl in H. injection H as <-. exists c, c'.
  split; [exact Ec|]. split; [done|]. unfold containerOf, containerIn. simpl.
  pose proof (find_by_key _ _ _ _ Ec) as Hn. rewrite insert_keyIndex by (rewrite ?(Hf _ _ Ef); done).
  rewrite find_putR. by rewrite decide_True by (by rewrite (Hf _ _ Ef)).
Qed.
(** The index of the container, after it was added where it was missing. *)
Lemma containerIn_ensured cs :
  let cs' := if GetContainerIndex cs (Name component) <? 0 then cs ++ [newContainer (Name component)] else cs in
  (GetContainerIndex cs' (Name component) <? 0) = false /\
  cs' !! Z.to_nat (GetContainerIndex cs' (Name component))
  = Some (default (newContainer (Name component)) (containerIn cs)).
Proof.
  unfold containerIn. simpl. rewrite (containerIndex_key cs), containerIndex_key.
  destruct (keyIndex ct_Name cs (Name component) <? 0) eqn:E.
  - rewrite (find_by_absent _ _ _ E). simpl.
    rewrite (keyIndex_snoc ct_Name _ _ (newContainer (Name component)) E eq_refl).
    split; [apply Z.ltb_ge; lia|]. by rewrite Nat2Z.id, list_lookup_middle.
  - split; [done|]. rewrite (lookup_keyIndex ct_Name cs (Name component) E).
    by destruct (find_by_present ct_Name _ _ E) as [c ->].
Qed.

Lemma overlay_same c v c' : overlayContainerSecurity c v = Some c' -> ct_Name c' = ct_Name c /\ sameMain c c'.
Proof. unfold overlayContainerSecurity. intros H. case_match; simplify_option_eq; by repeat split. Qed.

Lemma updateMilvusContainer_spec t force t' spec :
  mergedSpec mc component = Some spec ->
  updateMilvusContainer mc component storageEndpointEnv t force = Some t' ->
  exists c, containerOf t' = Some c /\
    renderedFrom spec force (default "" (ct_Image <$> containerOf t)) c.
Proof.
  intros Hspec. unfold updateMilvusContainer. rewrite Hspec. simpl.
  destruct (containerIn_ensured (ps_Containers (pt_Spec t))) as [Hidx Hlook].
  set (cs := if _ : bool then _ else _) in *. rewrite Hlook. simpl.
  set (c0 := default _ _). assert (ct_Name c0 = Name component) as Hn0.
  { subst c0. destruct (containerIn _) as [c|] eqn:Ec; [|done]. exact (find_by_key _ _ _ _ Ec). }
  intros H. destruct (GetArgs mc component) as [args|] eqn:Eargs; [|done]. simpl in H.
  destruct (containerPorts mc component) as [ports|] eqn:Eports; [|done]. simpl in H.
  destruct (getUserDefinedVolumeMounts mc component) as [mounts|]; [|done]. simpl in H.
  destruct (csp_ImagePullPolicy spec) as [policy|] eqn:Ep; [|done]. simpl in H.
  destruct (csp_Resources spec) as [res|] eqn:Er; [|done]. simpl in H.
  apply bind_Some in H as (t1 & Ht1 & H).
  assert (ps_Containers (pt_Spec t1) = cs) as Hcs.
  { revert Ht1. destruct (supportsLayeredConfig _ _ && _); [by intros Ht1%updateConfigContainer_containers|by intros [= <-]]. }
  apply bind_Some in H as (c & Hc & H). injection H as <-. apply overlay_same in Hc as [Hn Hsame].
  exists c. split.
  - unfold containerOf, containerIn. simpl. rewrite Hcs, containerIndex_key.
    rewrite (insert_keyIndex ct_Name); [|exact Hidx|by rewrite Hn]. rewrite find_putR.
    by rewrite decide_True by (by rewrite Hn).
  - refine (renderedFrom_same _ _ _ _ _ _ Hsame). unfold renderedFrom. simpl. repeat split; try done.
    + destruct (updatesImage mc component force); [done|]. subst c0. unfold containerOf.
      by destruct (containerIn (ps_Containers (pt_Spec t))).
    + intros name Hname. by apply effective_rendered.
Qed.

Lemma inject_same t previous users c :
  containerOf t = Some c ->
  exists c', containerOf (injectKafkaSecretsIntoTemplate t previous mc (Name component) users) = Some c' /\ sameMain c c'.
Proof.
  intros Hc. unfold injectKafkaSecretsIntoTemplate.
  destruct (ps_Containers (pt_Spec t) !! _) as [c0|] eqn:El; [|exists c; by split].
  destruct (GetContainerIndex _ _ <? 0) eqn:E; [exists c; by split|].
  rewrite !containerIndex_key in *. rewrite (lookup_keyIndex ct_Name) in El by done.
  unfold containerOf, containerIn in Hc. assert (c0 = c) as -> by congruence.
  pose proof (find_by_key _ _ _ _ Hc) as Hn.
  destruct (match certificateSources _ with [] => _ | _ => _ end) as [vols mounts].
  exists (set_ct_VolumeMounts c mounts). split; [|by repeat split].
  unfold containerOf, containerIn. simpl. rewrite (insert_keyIndex ct_Name) by done.
  rewrite find_putR. by rewrite decide_True.
Qed.

Lemma updateBuiltInVolumeMounts_same t c :
  containerOf t = Some c -> exists c', containerOf (updateBuiltInVolumeMounts mc component t) = Some c' /\ sameMain c c'.
Proof.
  intros Hc. unfold updateBuiltInVolumeMounts. destruct (updateContainer component t _) as [t'|] eqn:E.
  - destruct (updateContainer_containerOf _ _ _ E) as (c0 & c' & H0 & Hf & H'); [by intros ? ? [= <-]|].
    assert (c0 = c) as -> by congruence. exists c'. split; [done|]. injection Hf as <-. by repeat split.
  - exists c. split; [done|]. apply sameMain_refl.
Qed.

Lemma updateProbes_same c spec c' : updateProbes c spec = Some c' -> ct_Name c' = ct_Name c /\ sameMain c c'.
Proof. unfold updateProbes. intros (p & _ & [= <-])%bind_Some. by repeat split. Qed.

Lemma sameMain_trans c c' c'' : sameMain c c' -> sameMain c' c'' -> sameMain c c''.
Proof. unfold sameMain. intros (? & ? & ? & ? & ? & ?) (? & ? & ? & ? & ? & ?). repeat split; congruence. Qed.

Lemma updateSomeFields_same t t' c :
  updateSomeFieldsOnlyWhenRolling mc component t = Some t' -> containerOf t = Some c ->
  exists c', containerOf t' = Some c' /\ sameMain c c'.
Proof.
  intros H Hc. unfold updateSomeFieldsOnlyWhenRolling in H.
  destruct (updateBuiltInVolumeMounts_same (updateBuiltInVolumes mc t) c Hc) as (c1 & Hc1 & Hs1).
  apply bind_Some in H as (t1 & Ht1 & H). apply updateConfigContainer_containers in Ht1 as Hcs.
  apply bind_Some in H as (spec & _ & H). apply bind_Some in H as (t2 & Ht2 & H). injection H as <-.
  destruct (updateContainer_containerOf _ _ _ Ht2) as (c2 & c' & H2 & Hf & H').
  { intros c2 c3 (c4 & [Hn _]%updateProbes_same & [= <-])%bind_Some. by destruct (IsService component). }
  assert (c2 = c1) as ->.
  { unfold containerOf in H2, Hc1. rewrite <- Hcs in Hc1. destruct (IsService component); simpl in H2; congruence. }
  apply bind_Some in Hf as (c4 & [_ Hs4]%updateProbes_same & [= <-]).
  eexists. split; [exact H'|]. apply (sameMain_trans _ _ _ Hs1). apply (sameMain_trans _ _ _ Hs4).
  destruct (IsService component); by repeat split.
Qed.

Lemma render_container_spec t labels force t' spec sidecars :
  mergedSpec mc component = Some spec ->
  GetSideCars component (mi_Spec mc) = Some sidecars -> Name component ∉ ct_Name <$> sidecars ->
  renderPodTemplate mc component storageEndpointEnv t labels force = Some t' ->
  exists c, containerOf t' = Some c /\ renderedFrom spec force (default "" (ct_Image <$> containerOf t)) c.
Proof.
  intros Hspec Hside Hn H. unfold renderPodTemplate in H. apply bind_Some in H as (tr & Hr & H).
  assert (exists c, containerOf tr = Some c /\ renderedFrom spec force (default "" (ct_Image <$> containerOf t)) c)
    as (c & Hc & Hfrom).
  { unfold renderByResource in Hr. rewrite Hspec in Hr.
    apply bind_Some in Hr as (t1 & H1%updatePodMeta_spec & Hr).
    apply bind_Some in Hr as (t2 & H2%updateInitContainers_containers & Hr).
    apply bind_Some in Hr as (t3 & H3 & Hr). apply bind_Some in Hr as (t4 & H4 & Hr).
    apply bind_Some in Hr as (t5 & H5 & Hr).
    assert (containerOf t4 = containerOf t) as Heq.
    { unfold updateUserDefinedVolumes in H3. apply bind_Some in H3 as (vols & _ & [= <-]).
      unfold updateScheduleSpec in H4. rewrite Hspec in H4. injection H4 as <-.
      unfold containerOf. simpl. by rewrite H2, H1. }
    destruct (updateMilvusContainer_spec _ _ _ _ Hspec H5) as (c5 & Hc5 & Hfrom). rewrite Heq in Hfrom.
    destruct (inject_same t5 t (csp_Volumes spec) c5 Hc5) as (c6 & Hc6 & Hs6).
    exists c6. split; [|by eapply renderedFrom_same]. simpl in Hr.
    unfold updateSidecars, updateNetworkSettings in Hr. rewrite Hside, Hspec in Hr. simpl in Hr. injection Hr as <-.
    rewrite <- Hc6. destruct (com_RunAsNonRoot (mi_Com mc)); unfold containerOf, containerIn; simpl;
      rewrite putContainers_putR; by apply find_foldl_putR. }
  simpl in H. destruct (negb (DeepEqual t tr) || force) eqn:E; [|injection H as <-; by exists c].
  destruct (updateSomeFields_same _ _ _ H Hc) as (c' & Hc' & Hs). exists c'. split; [done|].
  by eapply renderedFrom_same.
Qed.
(** C21. The Milvus container of a rendered template.  Its image is that of the
    resource when an update is forced, rolling updates are off, or the
    components it depends on are updated, and otherwise the one it had; its
    resources, pull policy, arguments and ports are those of the resource; and
    of every credential variable it has exactly what the resource asks for, so
    a credential that was withdrawn is gone. *)
Theorem rendered_container t labels force t' spec sidecars :
  mergedSpec mc component = Some spec ->
  GetSideCars component (mi_Spec mc) = Some sidecars -> Name component ∉ ct_Name <$> sidecars ->
  renderPodTemplate mc component storageEndpointEnv t labels force = Some t' ->
  exists c, containerOf t' = Some c /\ renderedFrom spec force (default "" (ct_Image <$> containerOf t)) c.
Proof. apply render_container_spec. Qed.
End Container.

Section Witnesses.
#[local] Existing Instances concreteSemver concreteUnstructured concreteKubeLib.

(** A container of an earlier image with a credential of a secret that the
    resource no longer names. *)
Definition exCredentialTemplate : PodTemplateSpec :=
  let t := exTemplate ∅ "milvusdb/milvus:v2.4.0" in
  set_pt_Spec t
    (set_ps_Containers (pt_Spec t)
       ((fun c => set_ct_Env c (GetStorageSecretRefEnv "old-secret")) <$> ps_Containers (pt_Spec t))).

(** The mixed coordinator is not updated yet, so the query node keeps its image. *)
Lemma rendered_container_witness : exists t c,
  renderPodTemplate (exMilvus 2) QueryNode [] exCredentialTemplate ∅ false = Some t /\ containerOf QueryNode t = Some c /\ ct_Image c = "milvusdb/milvus:v2.4.0" /\
  effective "MINIO_SECRET_KEY" (ct_Env c) = None.
Proof.
  assert (exists t, renderPodTemplate (exMilvus 2) QueryNode [] exCredentialTemplate ∅ false = Some t) as [t Ht]
    by (vm_compute; eexists; reflexivity).
  assert (exists spec, mergedSpec (exMilvus 2) QueryNode = Some spec) as [spec Hspec]
    by (vm_compute; eexists; reflexivity).
  destruct (rendered_container (exMilvus 2) QueryNode [] exCredentialTemplate ∅ false t spec []) as (c & Hc & Hr);
    [exact Hspec|by vm_compute|by apply not_elem_of_nil|exact Ht|].
  exists t, c. split; [exact Ht|]. split; [exact Hc|]. destruct Hr as (Hi & _ & _ & _ & _ & He). split.
  - rewrite Hi. by vm_compute.
  - rewrite He by (apply list_elem_of_In; simpl; auto).
    assert (effective "MINIO_SECRET_KEY" ∘ desiredEnv (exMilvus 2) [] <$> Some spec = Some None) as H.
    { rewrite <- Hspec. by vm_compute. }
    by injection H.
Defined.

Definition exKafkaRender (t : PodTemplateSpec) (force : bool) : option PodTemplateSpec :=
  renderPodTemplate exKafkaMilvus QueryNode [] t (GetSelectorLabels QueryNode "mi") force.
Definition volumeNames (t : PodTemplateSpec) : list string := vol_Name <$> ps_Volumes (pt_Spec t).

(** With a certificate of Kafka in a Secret, the second reconcile of an
    unchanged resource renders another template than the one that created the
    workload: the volume of the certificate moves to the end of the list, which
    Kubernetes takes for a change and restarts every pod.  The third reconcile
    changes nothing. *)
Theorem kafka_certificate_restarts :
  let t1 := exKafkaRender emptyTemplate true in
  let t2 := t1 ≫= fun t => exKafkaRender t false in
  let t3 := t2 ≫= fun t => exKafkaRender t false in
  volumeNames <$> t1 = Some ["kafka-ssl"; "milvus-config"; "tools"] /\
  volumeNames <$> t2 = Some ["milvus-config"; "tools"; "kafka-ssl"] /\ t3 = t2.
Proof.
  cbv zeta. split; [by vm_compute|]. split; [by vm_compute|]. apply (bool_decide_unpack _). vm_compute. exact I.
Qed.
End Witnesses.
