(* ===== verification/Hpa.v ===== *)
(** * Autoscalers

    pkg/controllers/hpa.go: one HorizontalPodAutoscaler per component that has
    an HPA spec.  While a component is rolled out over its two deployments its
    autoscaler is removed, so that it does not scale against the rollout;
    otherwise it targets the deployment of the current slot. *)
From S2P Require Import Prelude KubeTypes Libs ApiTypes Labels Effects Utils Components DeployUtil SpecProofs Status Examples.

Local Open Scope string_scope.
Local Open Scope list_scope.
Local Open Scope Z_scope.

(** [Values.AsObject] to a metric and to a behavior; [None] is an error. *)
Class DecodeHPA := {
  DecodeMetric : Values -> option json;
  DecodeBehavior : Values -> option json
}.

Section Hpa.
Context {SV : Semver} {KL : KubeLib} {DH : DecodeHPA}.

Definition convertMetrics (metrics : list Values) : list json := omap DecodeMetric metrics.
Definition convertBehavior (behavior : Values) : option json := DecodeBehavior behavior.

(** [inl] is the error of the controller reference. *)
Definition buildHPA (mc : Milvus) (component : MilvusComponent) (hpaSpec : HPASpec) (deploymentName : string)
    : err + HorizontalPodAutoscaler :=
  let meta := mkMeta (GetHPAName component (mi_Name mc)) (mi_Namespace mc)
                (NewComponentAppLabels (mi_Name mc) (Name component)) ∅ 0 "" "" [] None [] in
  match SetControllerReference (mi_Meta mc) meta with
  | None => inl (EWrap "set controller reference for HPA" (ENew "already controlled"))
  | Some meta =>
      inr (mkHPA meta "Deployment" deploymentName (Some (default 1 (hpa_MinReplicas hpaSpec)))
             (hpa_MaxReplicas hpaSpec)
             (match hpa_Metrics hpaSpec with [] => [] | ms => convertMetrics ms end)
             (match hpa_Behavior hpaSpec with None => None | b => convertBehavior b end))
  end.

Definition hpaSpecNeedsUpdate (existing desired : HorizontalPodAutoscaler) : bool :=
  if negb (bool_decide (ha_TargetName existing = ha_TargetName desired)) then true
  else if negb (bool_decide (ha_MinReplicas existing = ha_MinReplicas desired)) then true
  else if negb (ha_MaxReplicas existing =? ha_MaxReplicas desired) then true
  else if negb (DeepEqual (ha_Metrics existing) (ha_Metrics desired)) then true
  else negb (DeepEqual (ha_Behavior existing) (ha_Behavior desired)).

(** [existing.Spec = desiredHPA.Spec]. *)
Definition set_ha_Spec (h desired : HorizontalPodAutoscaler) : HorizontalPodAutoscaler :=
  mkHPA (ha_Meta h) (ha_TargetKind desired) (ha_TargetName desired) (ha_MinReplicas desired)
    (ha_MaxReplicas desired) (ha_Metrics desired) (ha_Behavior desired).

Definition deleteHPAIfExists (mc : Milvus) (component : MilvusComponent) : prog unit :=
  r ← attempt (read (GetHPA (mi_Namespace mc) (GetHPAName component (mi_Name mc))));
  match r with
  | inl e => if IsNotFound e then Ret tt else Fail (EWrap "get HPA" e)
  | inr hpa =>
      if negb (IsControlledBy (ha_Meta hpa) (mi_Meta mc)) then Ret tt
      else wrap "delete HPA" (write (DeleteHPA hpa))
  end.

Definition createOrUpdateHPA (mc : Milvus) (component : MilvusComponent) (hpaSpec : HPASpec)
    (deploymentName : string) : prog unit :=
  match buildHPA mc component hpaSpec deploymentName with
  | inl e => Fail (EWrap "build HPA" e)
  | inr desiredHPA =>
      r ← attempt (read (GetHPA (mi_Namespace mc) (GetHPAName component (mi_Name mc))));
      match r with
      | inl e => if IsNotFound e then write (CreateHPA desiredHPA) else Fail (EWrap "get HPA" e)
      | inr existing =>
          if hpaSpecNeedsUpdate existing desiredHPA then write (UpdateHPA (set_ha_Spec existing desiredHPA))
          else Ret tt
      end
  end.

Definition reconcileStandardHPA (mc : Milvus) (component : MilvusComponent) (hpaSpec : HPASpec) : prog unit :=
  createOrUpdateHPA mc component hpaSpec (GetDeploymentName component (mi_Name mc)).

(** The slot recorded as current, 0 when there is none or it is not a number. *)
Definition currentGroupId (mc : Milvus) (component : MilvusComponent) : Z :=
  let s := GetCurrentGroupId mc (Name component) in
  if bool_decide (s = "") then 0 else default 0 (Atoi s).

Definition reconcileTwoDeployHPA (mc : Milvus) (component : MilvusComponent) (hpaSpec : HPASpec) : prog unit :=
  if IsComponentRolling mc (Name component) then deleteHPAIfExists mc component
  else createOrUpdateHPA mc component hpaSpec
         (formatComponentDeployName component mc (currentGroupId mc component)).

(** [component == QueryNode] compares the whole struct. *)
Definition usesTwoDeployHPA (mc : Milvus) (component : MilvusComponent) : bool :=
  bool_decide (component = QueryNode) || (com_RollingMode (mi_Com mc) =? RollingModeV3).

Definition hpaRangeInvalid (hpaSpec : HPASpec) : bool :=
  match hpa_MinReplicas hpaSpec with Some m => hpa_MaxReplicas hpaSpec <? m | None => false end.

Definition reconcileComponentHPA (mc : Milvus) (component : MilvusComponent) : prog unit :=
  match GetHPASpec component (mi_Spec mc) with
  | None => deleteHPAIfExists mc component
  | Some hpaSpec =>
      if isUpgradeStopping mc then deleteHPAIfExists mc component
      else if hpaRangeInvalid hpaSpec then
        Fail (ENew ("invalid HPA spec for component " +:+ Name component))
      else if usesTwoDeployHPA mc component then reconcileTwoDeployHPA mc component hpaSpec
      else reconcileStandardHPA mc component hpaSpec
  end.

Fixpoint reconcileHPAList (mc : Milvus) (components : list MilvusComponent) : prog unit :=
  match components with
  | [] => Ret tt
  | component :: rest =>
      wrap ("reconcile HPA for component " +:+ Name component) (reconcileComponentHPA mc component) ;;
      reconcileHPAList mc rest
  end.

Definition ReconcileHPAs (mc : Milvus) : prog unit :=
  reconcileHPAList mc (GetComponentsBySpec (mi_Spec mc)).

(** ** What is written *)

(** The deployment an autoscaler has to scale. *)
Definition scaledDeployment (mc : Milvus) (component : MilvusComponent) : string :=
  if usesTwoDeployHPA mc component
  then formatComponentDeployName component mc (currentGroupId mc component)
  else GetDeploymentName component (mi_Name mc).

(** The autoscaler of the spec [h]: what it scales and within which bounds. *)
Definition autoscales (mc : Milvus) (component : MilvusComponent) (h : HorizontalPodAutoscaler) : Prop :=
  exists spec, GetHPASpec component (mi_Spec mc) = Some spec /\
    isUpgradeStopping mc = false /\
    (usesTwoDeployHPA mc component = true -> IsComponentRolling mc (Name component) = false) /\
    ha_TargetKind h = "Deployment" /\ ha_TargetName h = scaledDeployment mc component /\
    ha_MaxReplicas h = hpa_MaxReplicas spec /\
    ha_MinReplicas h = Some (default 1 (hpa_MinReplicas spec)) /\
    (forall m, hpa_MinReplicas spec = Some m -> m <= hpa_MaxReplicas spec).

Definition hpaWrite (mc : Milvus) (component : MilvusComponent) (w : kwrite) : Prop :=
  match w with
  | CreateHPA h | UpdateHPA h => autoscales mc component h
  | DeleteHPA h => IsControlledBy (ha_Meta h) (mi_Meta mc) = true
  | _ => False
  end.

Lemma wp_deleteHPA mc component :
  wp anyAnswer (deleteHPAIfExists mc component)
    (fun ws _ => Forall (hpaWrite mc component) ws /\ (length ws <= 1)%nat).
Proof.
  unfold deleteHPAIfExists. wp_steps.
  - intros e. case_if_bool; apply wp_ret || apply wp_fail; by simpl; auto.
  - intros hpa _. destruct (negb (IsControlledBy (ha_Meta hpa) (mi_Meta mc))) eqn:E; [apply wp_ret; by simpl; auto|].
    apply negb_false_iff in E. wp_steps; [intros e|]; simpl; split; repeat constructor; done.
Qed.

Lemma buildHPA_spec mc component spec name h :
  buildHPA mc component spec name = inr h ->
  ha_TargetName h = name /\ ha_MaxReplicas h = hpa_MaxReplicas spec /\
  ha_MinReplicas h = Some (default 1 (hpa_MinReplicas spec)) /\ ha_TargetKind h = "Deployment".
Proof. unfold buildHPA. case_match; intros [= <-]. done. Qed.

Lemma wp_createOrUpdateHPA mc component spec :
  GetHPASpec component (mi_Spec mc) = Some spec -> isUpgradeStopping mc = false -> hpaRangeInvalid spec = false ->
  (usesTwoDeployHPA mc component = true -> IsComponentRolling mc (Name component) = false) ->
  wp anyAnswer (createOrUpdateHPA mc component spec (scaledDeployment mc component))
    (fun ws _ => Forall (hpaWrite mc component) ws /\ (length ws <= 1)%nat).
Proof.
  intros Hspec Hstop Hrange Hroll. unfold createOrUpdateHPA.
  destruct (buildHPA mc component spec _) as [e|h] eqn:Hb; [apply wp_fail; by simpl; auto|].
  destruct (buildHPA_spec _ _ _ _ _ Hb) as (Ht & Hmax & Hmin & Hk).
  assert (forall existing, autoscales mc component (set_ha_Spec existing h)) as Hset.
  { intros existing. exists spec. repeat split; try done. intros m Hm. unfold hpaRangeInvalid in Hrange.
    rewrite Hm in Hrange. lia. }
  assert (autoscales mc component h) as Hh by (specialize (Hset h); by destruct h).
  wp_steps.
  - intros e. case_if_bool; [|apply wp_fail; by simpl; auto].
    wp_steps; [intros e'|]; simpl; split; repeat constructor; done.
  - intros existing _. case_if_bool; [|apply wp_ret; by simpl; auto].
    wp_steps; [intros e'|]; simpl; split; repeat constructor; by auto.
Qed.

Lemma wp_reconcileComponentHPA mc component :
  wp anyAnswer (reconcileComponentHPA mc component)
    (fun ws _ => Forall (hpaWrite mc component) ws /\ (length ws <= 1)%nat).
Proof.
  unfold reconcileComponentHPA. destruct (GetHPASpec component (mi_Spec mc)) as [spec|] eqn:Hspec;
    [|apply wp_deleteHPA].
  destruct (isUpgradeStopping mc) eqn:Hstop; [apply wp_deleteHPA|].
  destruct (hpaRangeInvalid spec) eqn:Hrange; [apply wp_fail; by simpl; auto|].
  pose proof (wp_createOrUpdateHPA mc component spec Hspec Hstop Hrange) as Hcu. unfold scaledDeployment in Hcu.
  destruct (usesTwoDeployHPA mc component); [|by apply Hcu].
  unfold reconcileTwoDeployHPA. destruct (IsComponentRolling mc (Name component)); [apply wp_deleteHPA|by apply Hcu].
Qed.

Lemma wp_reconcileHPAList mc components :
  wp anyAnswer (reconcileHPAList mc components)
    (fun ws _ => Forall (fun w => exists c, c ∈ components /\ hpaWrite mc c w) ws).
Proof.
  induction components as [|c cs IH]; simpl; [by apply wp_ret|].
  apply wp_bind, wp_wrap. eapply wp_mono; [|apply wp_reconcileComponentHPA]. intros ws o [Hws _].
  assert (Forall (fun w => exists c0, c0 ∈ c :: cs /\ hpaWrite mc c0 w) ws) as Hc.
  { eapply Forall_impl; [exact Hws|]. intros w Hw. exists c. split; [by apply elem_of_cons; left|done]. }
  destruct o as [[]|e|]; simpl; [|done..]. eapply wp_mono; [|exact IH]. intros ws' o' Hws'.
  apply Forall_app. split; [done|]. eapply Forall_impl; [exact Hws'|]. intros w (c0 & Hin & Hw).
  exists c0. split; [by apply elem_of_cons; right|done].
Qed.

(** A component without groups is itself the workload that is rolled out, under the
    mark and the slot of its name. *)
Lemma ungrouped_workload spec c : c ∈ GetComponentsBySpec spec -> GetDeploymentGroups c spec = [] ->
  c ∈ GetComponentWorkloadsBySpec spec /\ GetStateKey c = Name c.
Proof.
  intros Hc Hg. split; [apply workloads_elem; eauto|].
  unfold GetStateKey. by rewrite (table_no_group c) by (by eapply GetComponentsBySpec_table).
Qed.

(** A write for a component of the instance. *)
Definition ownedHpaWrite (mc : Milvus) (w : kwrite) : Prop :=
  exists c, c ∈ GetComponentsBySpec (mi_Spec mc) /\ hpaWrite mc c w /\
    (GetDeploymentGroups c (mi_Spec mc) = [] ->
     c ∈ GetComponentWorkloadsBySpec (mi_Spec mc) /\ GetStateKey c = Name c).

(** C38. Whatever fails, reconciling the autoscalers only deletes autoscalers
    that this instance controls, and only writes one for a component with a valid
    HPA spec while no upgrade stops the instance, within the bounds of the spec.
    Under two deployments it is written only without the rolling mark under the
    component's name, for the deployment of the slot recorded under that name;
    otherwise for the one deployment of that name.  If the component has no
    groups, it is itself the workload which that mark and that deployment are
    of. *)
Theorem hpa_follows_current mc tr o :
  exec (ReconcileHPAs mc) tr o ->
  Forall (ownedHpaWrite mc) (writes tr).
Proof.
  intros Hex. pose proof (wp_exec_any _ _ _ _ (wp_reconcileHPAList mc _) Hex) as Hall.
  eapply Forall_impl; [exact Hall|]. intros w (c & Hc & Hw). exists c. auto using ungrouped_workload.
Qed.

(** A written autoscaler needs no further update. *)
Lemma hpa_settles `{!DeepEqualLaws} existing desired :
  hpaSpecNeedsUpdate (set_ha_Spec existing desired) desired = false /\ hpaSpecNeedsUpdate desired desired = false.
Proof.
  unfold hpaSpecNeedsUpdate. simpl. rewrite !DeepEqual_spec, !bool_decide_true by done.
  by rewrite Z.eqb_refl.
Qed.
End Hpa.

(** ** Witnesses *)
Definition exDecodeHPA : DecodeHPA := {| DecodeMetric v := Some JNull; DecodeBehavior v := Some JNull |}.

(** The query node of [exMilvusHPA] as a stateful set. *)
Definition exHpaStatefulSet : Milvus :=
  let com := mi_Com (exMilvusHPA 2) in
  set_mi_Spec (exMilvusHPA 2)
    (set_spec_Com (mi_Spec (exMilvusHPA 2))
       (set_com_QueryNode com ((fun q => mkQueryNode (qn_Component q) (qn_Groups q) (Some (ApiTypes.mkStatefulSet true [])))
                                 <$> com_QueryNode com))).

(** The query node of [exMilvusHPA] in one group, which is being rolled out. *)
Definition exHpaGroup : DeploymentGroup := mkGroup "g" (Some 2) ∅ ∅ [] None None None None.
Definition exGroupedNode : MilvusComponent := set_group QueryNode exHpaGroup.
Definition exHpaGrouped : Milvus :=
  let com := mi_Com (exMilvusHPA 2) in
  SetComponentRolling
    (set_mi_Spec (exMilvusHPA 2)
       (set_spec_Com (mi_Spec (exMilvusHPA 2))
          (set_com_QueryNode com ((fun q => mkQueryNode (qn_Component q) [exHpaGroup] None) <$> com_QueryNode com))))
    (GetStateKey exGroupedNode) true.

Section Witnesses.
#[local] Existing Instance concreteSemver.
#[local] Existing Instance concreteKubeLib.
#[local] Existing Instance exDecodeHPA.

(** The query node's autoscaler is created; nothing else is found. *)
Definition exHpaServer : handler unit :=
  mkHandler (fun B (_ : kread B) _ => inl KNotFound) (fun _ s => (inr tt, s)).
Definition exHpaWrites (mc : Milvus) : list kwrite := writes (snd (fst (run exHpaServer (ReconcileHPAs mc) tt))).

Lemma exHpa_exec {A} (p : prog A) :
  exec p (snd (fst (run exHpaServer p tt))) (snd (run exHpaServer p tt)).
Proof. apply run_exec. Qed.

Lemma hpa_follows_current_witness :
  Forall (ownedHpaWrite (exMilvusHPA 2)) (exHpaWrites (exMilvusHPA 2)) /\ length (exHpaWrites (exMilvusHPA 2)) = 1%nat.
Proof.
  split; [|by vm_compute]. eapply hpa_follows_current. apply exHpa_exec.
Defined.

(** A query node that runs as a stateful set and has an HPA spec gets an
    autoscaler of a deployment, which does not exist. *)
Theorem hpa_of_statefulset : exists h,
  componentUsesStatefulSet exHpaStatefulSet QueryNode = true /\
  exHpaWrites exHpaStatefulSet = [CreateHPA h] /\
  ha_TargetKind h = "Deployment" /\ ha_TargetName h = "mi-milvus-querynode-0".
Proof. eexists. split; [by vm_compute|]. split; [by vm_compute|]. by vm_compute. Qed.

(** So does a query node whose deployments are those of a group, even while the
    group is being rolled out: no workload has a deployment of that name. *)
Theorem hpa_of_groups : exists h,
  exHpaWrites exHpaGrouped = [CreateHPA h] /\ IsComponentRolling exHpaGrouped (GetStateKey exGroupedNode) = true /\
  exGroupedNode ∈ GetComponentWorkloadsBySpec (mi_Spec exHpaGrouped) /\
  Forall (fun w => ha_TargetName h <> GetDeploymentName w (mi_Name exHpaGrouped) /\
                   ha_TargetName h <> formatComponentDeployName w exHpaGrouped 0 /\
                   ha_TargetName h <> formatComponentDeployName w exHpaGrouped 1)
    (GetComponentWorkloadsBySpec (mi_Spec exHpaGrouped)).
Proof.
  eexists. split; [by vm_compute|]. split; [by vm_compute|].
  split; apply (bool_decide_unpack _); by vm_compute.
Qed.
End Witnesses.
