(* ===== verification/StatefulSets.v ===== *)
(** * Stateful sets

    pkg/controllers/statefulset.go: the query, data and index node can run as
    stateful sets.  Their claims outlive the pods, so the operator deletes the
    claims of replicas it scaled away and those of stateful sets it removes,
    and grows claims when the template asks for more.

    A claim belongs to a replica by its name, template-statefulset-ordinal;
    the theorems of [StatefulSetProofs] are about which claims are touched. *)
From S2P Require Import Prelude KubeTypes Libs ApiTypes Labels Effects Utils Components DeployUtil PodTemplate.
From S2P Require Import KafkaSecrets Render Status.

Local Open Scope string_scope.
Local Open Scope list_scope.
Local Open Scope Z_scope.

(** [resource.Quantity.Cmp], and [Values.AsObject] to a claim. *)
Class ClaimLib := {
  QuantityCmp : string -> string -> Z;
  DecodeClaim : Values -> option Claim
}.

Definition ResourceStorage : string := "storage".

Definition statefulSetCapableComponents : list MilvusComponent := [QueryNode; DataNode; IndexNode].

Definition getComponentStatefulSetSpec (mc : Milvus) (component : MilvusComponent) : option ComponentStatefulSet :=
  let com := mi_Com mc in
  if bool_decide (Name component = "querynode") then q ← com_QueryNode com; qn_StatefulSet q
  else if bool_decide (Name component = "datanode") then d ← com_DataNode com; dn_StatefulSet d
  else if bool_decide (Name component = "indexnode") then i ← com_IndexNode com; in_StatefulSet i
  else None.

Definition GetStatefulSetServiceName (c : MilvusComponent) (instance : string) : string :=
  GetDeploymentName c instance.

Definition getStatefulSetReplicas (sts : StatefulSet) : Z := default 1 (sts_Replicas sts).

Definition set_sts_Template (s : StatefulSet) (t : PodTemplateSpec) : StatefulSet :=
  KubeTypes.mkStatefulSet (sts_Meta s) (sts_Replicas s) (sts_Selector s) t (sts_ServiceName s) (sts_UpdateStrategy s)
    (sts_MinReadySeconds s) (sts_ClaimTemplates s) (sts_ObservedGeneration s) (sts_StatusReplicas s)
    (sts_ReadyReplicas s) (sts_AvailableReplicas s) (sts_UpdatedReplicas s) (sts_CurrentRevision s)
    (sts_UpdateRevision s).

(** ** Ports of a service *)

Section Ports.
Context {DC : Decode}.

Definition portTarget (spec : MilvusSpec) (name : string) (number : Z) : IntOrString :=
  if bool_decide (com_TargetPortType (spec_Com spec) = ServiceTargetPortTypInteger) then intOf number else strOf name.

(** The target of an unnamed port is the one before it, unless targets are
    numbers. *)
Fixpoint sideCarPorts (spec : MilvusSpec) (ports : list ContainerPort) (targetPort : IntOrString) : list ServicePort :=
  match ports with
  | [] => []
  | port :: rest =>
      let target := if bool_decide (cp_Name port = "") then targetPort else strOf (cp_Name port) in
      let target := if bool_decide (com_TargetPortType (spec_Com spec) = ServiceTargetPortTypInteger)
                    then intOf (cp_ContainerPort port) else target in
      mkServicePort (cp_Name port) (cp_Protocol port) (cp_ContainerPort port) target 0
      :: sideCarPorts spec rest target
  end.

Definition GetServicePorts (c : MilvusComponent) (spec : MilvusSpec) : option (list ServicePort) :=
  port ← GetComponentPort c spec;
  sideCars ← GetSideCars c spec;
  restfulPort ← GetRestfulPort c spec;
  Some ([mkServicePort (GetPortName c) "TCP" port (portTarget spec (GetPortName c) port) 0;
         mkServicePort MetricPortName "TCP" MetricPort (portTarget spec MetricPortName MetricPort) 0]
        ++ sideCarPorts spec (concat (ct_Ports <$> sideCars)) (portTarget spec MetricPortName MetricPort)
        ++ if bool_decide (restfulPort = 0) then []
           else [mkServicePort RestfulPortName "TCP" restfulPort (portTarget spec RestfulPortName restfulPort) 0]).
End Ports.

Definition samePort (src dst : ServicePort) : Prop :=
  sp_Name src = sp_Name dst \/
  (sp_Protocol src = sp_Protocol dst /\ sp_Port src = sp_Port dst) \/
  (sp_NodePort dst <> 0 /\ sp_Protocol src = sp_Protocol dst /\ sp_NodePort src = sp_NodePort dst).

#[export] Instance samePort_dec src dst : Decision (samePort src dst).
Proof. unfold samePort. apply _. Defined.

Definition getServicePortIdx (srcPorts : list ServicePort) (dst : ServicePort) : Z :=
  first_index (fun src => samePort src dst) srcPorts.

(** [strings.ToLower] of the default name of a port. *)
Definition lowerAscii (a : Ascii.ascii) : Ascii.ascii :=
  let n := Ascii.nat_of_ascii a in
  if (65 <=? n)%nat && (n <=? 90)%nat then Ascii.ascii_of_nat (n + 32) else a.
Fixpoint ToLower (s : string) : string :=
  match s with EmptyString => EmptyString | String a s' => String (lowerAscii a) (ToLower s') end.

Definition mergePort (old dst : ServicePort) : ServicePort :=
  mkServicePort
    (if bool_decide (sp_Name dst = "") then ToLower (sp_Protocol dst +:+ "-" +:+ Itoa (sp_Port dst)) else sp_Name dst)
    (sp_Protocol dst) (sp_Port dst) (sp_TargetPort dst)
    (if sp_NodePort dst =? 0 then sp_NodePort old else sp_NodePort dst).

(** [merged] starts as the array of [src] itself: until the first append
    reallocates it, a write to [merged] is a write to [src]. *)
Fixpoint mergeServicePorts (src merged : list ServicePort) (aliased : bool) (dst : list ServicePort)
    : list ServicePort :=
  match dst with
  | [] => merged
  | dstPort :: rest =>
      let idx := getServicePortIdx src dstPort in
      if idx <? 0 then mergeServicePorts src (merged ++ [dstPort]) false rest
      else
        let merged := alter (fun old => mergePort old dstPort) (Z.to_nat idx) merged in
        mergeServicePorts (if aliased then merged else src) merged aliased rest
  end.

Definition MergeServicePort (src dst : list ServicePort) : list ServicePort :=
  match src, dst with
  | [], _ => dst
  | _, [] => src
  | _, _ => mergeServicePorts src src true dst
  end.

(** ** Claims of a stateful set *)

Fixpoint matchStatefulSetPVCOrdinal (pvcName : string) (prefixes : list string) : option Z :=
  match prefixes with
  | [] => None
  | prefix :: rest =>
      if HasPrefix pvcName prefix then
        match Atoi (slice_from pvcName (String.length prefix)) with
        | Some ordinal => if ordinal <? 0 then matchStatefulSetPVCOrdinal pvcName rest else Some (int32_of ordinal)
        | None => matchStatefulSetPVCOrdinal pvcName rest
        end
      else matchStatefulSetPVCOrdinal pvcName rest
  end.

Definition claimPrefixes (sts : StatefulSet) : list string :=
  (fun t => om_Name (clm_Meta t) +:+ "-" +:+ om_Name (sts_Meta sts) +:+ "-") <$> sts_ClaimTemplates sts.

(** [err := r.Delete(...)]: an object that is gone already is no error. *)
Definition deleteIgnoringNotFound (msg : string) (w : kwrite) : prog unit :=
  r ← attempt (write w);
  match r with
  | inl e => if IsNotFound e then Ret tt else Fail (EWrap msg e)
  | inr _ => Ret tt
  end.

Definition deleteClaim (msg : string) (pvc : Claim) : prog unit :=
  deleteIgnoringNotFound (msg +:+ om_Name (clm_Meta pvc))
    (DeleteClaim (om_Namespace (clm_Meta pvc)) (om_Name (clm_Meta pvc))).

(** Delete the claims that [stale] selects, in order. *)
Fixpoint deleteClaims (msg : string) (stale : Claim -> bool) (claims : list Claim) : prog unit :=
  match claims with
  | [] => Ret tt
  | pvc :: rest => (if stale pvc then deleteClaim msg pvc else Ret tt) ;; deleteClaims msg stale rest
  end.

Definition scaledDown (prefixes : list string) (desired : Z) (pvc : Claim) : bool :=
  bool_decide (om_DeletionTimestamp (clm_Meta pvc) = None)
  && match matchStatefulSetPVCOrdinal (om_Name (clm_Meta pvc)) prefixes with
     | Some ordinal => negb (ordinal <? desired)
     | None => false
     end.

Definition cleanupScaledDownStatefulSetPVCs (mc : Milvus) (sts : StatefulSet) : prog unit :=
  match sts_ClaimTemplates sts with
  | [] => Ret tt
  | _ =>
      selector ← deref (sts_Selector sts);
      claims ← wrap "list querynode pvcs" (read (ListClaims (mi_Namespace mc) selector));
      deleteClaims "delete scaled-down querynode pvc " (scaledDown (claimPrefixes sts) (getStatefulSetReplicas sts))
        claims
  end.

Definition belongsTo (prefixes : list string) (pvc : Claim) : bool :=
  bool_decide (om_DeletionTimestamp (clm_Meta pvc) = None)
  && bool_decide (is_Some (matchStatefulSetPVCOrdinal (om_Name (clm_Meta pvc)) prefixes)).

Definition deletePVCsForStatefulSet (mc : Milvus) (component : MilvusComponent) (sts : StatefulSet) : prog unit :=
  match sts_ClaimTemplates sts with
  | [] => Ret tt
  | _ =>
      claims ← wrap ("list " +:+ Name component +:+ " pvcs for stale statefulset")
                 (read (ListClaims (mi_Namespace mc) (NewComponentAppLabels (mi_Name mc) (Name component))));
      deleteClaims "delete stale pvc " (belongsTo (claimPrefixes sts)) claims
  end.

(** ** Expanding claims *)

Definition storageClassNameForPVC (pvc : Claim) : string := default "" (cls_StorageClassName (clm_Spec pvc)).

Definition allowsExpansion (sc : StorageClass) : bool := default false (scl_AllowVolumeExpansion sc).

Definition storageClassAllowsExpansion (name : string) : prog bool :=
  if negb (bool_decide (name = "")) then
    r ← attempt (read (GetStorageClass name));
    Ret (match r with inl _ => true | inr sc => allowsExpansion sc end)
  else
    r ← attempt (read ListStorageClasses);
    Ret (match r with
         | inl _ => true
         | inr l =>
             match list_find (fun sc => mget (scl_Annotations sc) "storageclass.kubernetes.io/is-default-class" = "true") l with
             | Some (_, sc) => allowsExpansion sc
             | None => true
             end
         end).

Definition claimStorage (c : Claim) : option string := rr_Requests (cls_Resources (clm_Spec c)) !! ResourceStorage.

Definition set_claimStorage (c : Claim) (q : string) : Claim :=
  let s := clm_Spec c in
  mkPersistentVolumeClaim (clm_Meta c)
    (mkClaimSpec (cls_AccessModes s)
       (mkRes (rr_Limits (cls_Resources s)) (<[ResourceStorage := q]> (rr_Requests (cls_Resources s))))
       (cls_StorageClassName s) (cls_VolumeName s) (cls_Rest s)).

Section StatefulSets.
Context {SV : Semver} {US : Unstructured} {KL : KubeLib} {DC : Decode} {DK : DecodeKafka} {JM : JsonMarshal}
  {OI : OperatorImage} {CL : ClaimLib}.

Definition renderVolumeClaimTemplates (mc : Milvus) (component : MilvusComponent) : err + list Claim :=
  match getComponentStatefulSetSpec mc component with
  | None => inr []
  | Some stsSpec =>
      match mapM DecodeClaim (sts_VolumeClaimTemplates stsSpec) with
      | None => inl (ENew ("parse " +:+ Name component +:+ " volumeClaimTemplates"))
      | Some claims => inr claims
      end
  end.

(** The wanted size of each template, by name. *)
Definition desiredSizes (templates : list Claim) : gmap string string :=
  fold_left (fun sizes t => match claimStorage t with
                            | Some q => <[om_Name (clm_Meta t) := q]> sizes
                            | None => sizes
                            end) templates ∅.

(** [for name := range desiredByName] iterates a map in any order: [pick]
    chooses one of the templates whose prefix matches. *)
Definition matchingTemplates (sizes : gmap string string) (sts : StatefulSet) (pvc : Claim)
    : list (string * string) :=
  filter (fun nq => HasPrefix (om_Name (clm_Meta pvc)) (fst nq +:+ "-" +:+ om_Name (sts_Meta sts) +:+ "-") = true)
    (map_to_list sizes).

Fixpoint expandClaims (pick : list (string * string) -> option (string * string)) (sizes : gmap string string)
    (sts : StatefulSet) (claims : list Claim) (support : list (string * bool)) : prog unit :=
  match claims with
  | [] => Ret tt
  | pvc :: rest =>
      let continue_ s := expandClaims pick sizes sts rest s in
      if negb (bool_decide (om_DeletionTimestamp (clm_Meta pvc) = None)) then continue_ support else
      match pick (matchingTemplates sizes sts pvc) with
      | None => continue_ support
      | Some (templateName, desired) =>
          if bool_decide (templateName = "") then continue_ support else
          if QuantityCmp desired (default "0" (claimStorage pvc)) <=? 0 then continue_ support else
          let scName := storageClassNameForPVC pvc in
          allowed ← (match list_find (fun kv => fst kv = scName) support with
                     | Some (_, (_, a)) => Ret a
                     | None => storageClassAllowsExpansion scName
                     end);
          let support := (scName, allowed) :: support in
          if negb allowed
          then attempt (write (RecordEvent "PVCExpansionUnsupported" (om_Name (clm_Meta pvc)))) ;; continue_ support
          else
            r ← attempt (write (UpdateClaim (set_claimStorage pvc desired)));
            (match r with
             | inl _ => attempt (write (RecordEvent "PVCExpansionFailed" (om_Name (clm_Meta pvc))))
             | inr _ => Ret (inr tt)
             end) ;;
            continue_ support
      end
  end.

Definition reconcileStatefulSetPVCExpansion (pick : list (string * string) -> option (string * string))
    (mc : Milvus) (component : MilvusComponent) (sts : StatefulSet) : prog unit :=
  match sts_ClaimTemplates sts with
  | [] => Ret tt
  | _ =>
      match renderVolumeClaimTemplates mc component with
      | inl e => Fail e
      | inr templates =>
          let sizes := desiredSizes templates in
          if bool_decide (sizes = ∅) then Ret tt else
          selector ← deref (sts_Selector sts);
          claims ← wrap "list querynode pvcs" (read (ListClaims (mi_Namespace mc) selector));
          expandClaims pick sizes sts claims []
      end
  end.

(** ** The headless service *)

Definition updateStatefulSetService (mc : Milvus) (service : Service) (component : MilvusComponent)
    (appLabels : gmap string string) : prog Service :=
  let meta := set_Labels (svc_Meta service) (MergeLabels [om_Labels (svc_Meta service); appLabels]) in
  match SetControllerReference (mi_Meta mc) meta with
  | None => Fail (ENew "already controlled")
  | Some meta =>
      ports ← deref (GetServicePorts component (mi_Spec mc));
      Ret (mkService meta (svc_Type service) "None" (svc_IPFamilyPolicy service) appLabels
             (MergeServicePort (svc_Ports service) ports) (svc_LoadBalancerIPs service))
  end.

Definition newMeta (name namespace : string) : ObjectMeta := mkMeta name namespace ∅ ∅ 0 "" "" [] None [].
Definition newService (name namespace : string) : Service := mkService (newMeta name namespace) "" "" None ∅ [] [].

Definition reconcileStatefulSetService (mc : Milvus) (component : MilvusComponent) : prog unit :=
  let appLabels := GetSelectorLabels component (mi_Name mc) in
  let name := GetStatefulSetServiceName component (mi_Name mc) in
  r ← attempt (read (GetService (mi_Namespace mc) name));
  match r with
  | inl e =>
      if IsNotFound e then
        svc ← updateStatefulSetService mc (newService name (mi_Namespace mc)) component appLabels;
        write (CreateService svc)
      else Fail e
  | inr old =>
      cur ← updateStatefulSetService mc old component appLabels;
      if DeepEqual old cur then Ret tt else write (UpdateService cur)
  end.

(** ** The stateful set *)

Context (storageEndpointEnv : list EnvVar).

(** Labels and annotations, then the owner. *)
Definition statefulSetMeta (mc : Milvus) (sts : StatefulSet) (component : MilvusComponent) : option ObjectMeta :=
  let meta := sts_Meta sts in
  let meta := match DeploymentGroupOf component with
              | Some _ =>
                  set_Annotations (set_Labels meta (desiredDeploymentLabels (mi_Name mc) component "" (om_Labels meta)))
                    (desiredDeploymentAnnotations component (om_Annotations meta))
              | None => set_Labels meta (MergeLabels [om_Labels meta; GetSelectorLabels component (mi_Name mc)])
              end in
  SetControllerReference (mi_Meta mc) meta.

Definition statefulSetReplicas (mc : Milvus) (sts : StatefulSet) (component : MilvusComponent) : option Z :=
  if com_EnableManualMode (mi_Com mc) then sts_Replicas sts
  else if negb (updater_IsHPAEnabled mc component) then GetReplicas component (mi_Spec mc)
  else if getStatefulSetReplicas sts =? 0 then int32Ptr 1 else sts_Replicas sts.

(** [templates[i].Labels = MergeLabels(...)]. *)
Definition stampTemplate (appLabels : gmap string string) (t : Claim) : Claim :=
  mkPersistentVolumeClaim (set_Labels (clm_Meta t) (MergeLabels [om_Labels (clm_Meta t); appLabels])) (clm_Spec t).

Definition updateStatefulSet (mc : Milvus) (sts : StatefulSet) (component : MilvusComponent) : prog StatefulSet :=
  let appLabels := GetSelectorLabels component (mi_Name mc) in
  match statefulSetMeta mc sts component with
  | None => Fail (EWrap "set controller reference" (ENew "already controlled"))
  | Some meta =>
      let isCreating := bool_decide (sts_Selector sts = None) in
      match renderVolumeClaimTemplates mc component with
      | inl e => Fail e
      | inr templates =>
          let replicas := statefulSetReplicas mc sts component in
          let s := KubeTypes.mkStatefulSet meta replicas
                     (Some (default appLabels (sts_Selector sts))) (sts_Template sts)
                     (GetStatefulSetServiceName component (mi_Name mc)) "RollingUpdate"
                     (if IsRollingUpdateEnabled mc then 30 else sts_MinReadySeconds sts)
                     (if isCreating then stampTemplate appLabels <$> templates else sts_ClaimTemplates sts)
                     (sts_ObservedGeneration sts) (sts_StatusReplicas sts) (sts_ReadyReplicas sts)
                     (sts_AvailableReplicas sts) (sts_UpdatedReplicas sts) (sts_CurrentRevision sts)
                     (sts_UpdateRevision sts) in
          spec ← deref (GetComponentSpec component (mi_Spec mc));
          let paused := csp_Paused (com_ComponentSpec (mi_Com mc)) || csp_Paused spec in
          if paused && negb isCreating then Ret s
          else
            template ← deref (renderPodTemplate mc component storageEndpointEnv (sts_Template s) appLabels
                                (isCreating || (getStatefulSetReplicas s =? 0)));
            Ret (set_sts_Template s template)
      end
  end.

Definition newStatefulSet (name namespace : string) : StatefulSet :=
  KubeTypes.mkStatefulSet (newMeta name namespace) None None emptyTemplate "" "" 0 [] 0 0 0 0 0 "" "".

Definition ReconcileComponentStatefulSet (pick : list (string * string) -> option (string * string))
    (mc : Milvus) (component : MilvusComponent) : prog unit :=
  wrap "reconcile statefulset headless service" (reconcileStatefulSetService mc component) ;;
  let name := GetDeploymentName component (mi_Name mc) in
  r ← attempt (read (GetStatefulSet (mi_Namespace mc) name));
  match r with
  | inl e =>
      if IsNotFound e then
        sts ← updateStatefulSet mc (newStatefulSet name (mi_Namespace mc)) component;
        write (CreateStatefulSet sts)
      else Fail e
  | inr old =>
      cur ← updateStatefulSet mc old component;
      (if DeepEqual old cur then Ret tt else write (UpdateStatefulSet cur)) ;;
      cleanupScaledDownStatefulSetPVCs mc cur ;;
      reconcileStatefulSetPVCExpansion pick mc component cur
  end.

(** ** Removing stateful sets *)

(** The service of a stateful set that is gone. *)
Definition deleteStatefulSetService (msg : string) (mc : Milvus) (name : string) : prog unit :=
  r ← attempt (read (GetService (mi_Namespace mc) name));
  match r with
  | inr svc => deleteIgnoringNotFound ("delete " +:+ msg) (DeleteService svc)
  | inl e => if IsNotFound e then Ret tt else Fail (EWrap ("get " +:+ msg) e)
  end.

Definition deleteComponentStatefulSetIfExists (mc : Milvus) (component : MilvusComponent) : prog unit :=
  let name := GetDeploymentName component (mi_Name mc) in
  r ← attempt (read (GetStatefulSet (mi_Namespace mc) name));
  match r with
  | inl e => if IsNotFound e then Ret tt else Fail (EWrap ("get " +:+ Name component +:+ " statefulset") e)
  | inr sts =>
      deleteIgnoringNotFound ("delete " +:+ Name component +:+ " statefulset") (DeleteStatefulSet sts) ;;
      deletePVCsForStatefulSet mc component sts ;;
      deleteStatefulSetService (Name component +:+ " statefulset service") mc name
  end.

Definition desiredStatefulSets (mc : Milvus) : list string :=
  (fun w => GetDeploymentName w (mi_Name mc)) <$>
    filter (fun w => componentUsesStatefulSet mc w = true) (GetComponentWorkloadsBySpec (mi_Spec mc)).

Fixpoint deleteStaleStatefulSets (mc : Milvus) (component : MilvusComponent) (l : list StatefulSet) : prog unit :=
  match l with
  | [] => Ret tt
  | sts :: rest =>
      (if negb (IsControlledBy (sts_Meta sts) (mi_Meta mc))
          || bool_decide (om_Name (sts_Meta sts) ∈ desiredStatefulSets mc)
       then Ret tt
       else
         deleteIgnoringNotFound ("delete stale statefulset " +:+ om_Name (sts_Meta sts)) (DeleteStatefulSet sts) ;;
         deletePVCsForStatefulSet mc component sts ;;
         deleteStatefulSetService ("stale statefulset service " +:+ om_Name (sts_Meta sts)) mc (om_Name (sts_Meta sts))) ;;
      deleteStaleStatefulSets mc component rest
  end.

Fixpoint cleanupStatefulSetsOf (mc : Milvus) (components : list MilvusComponent) : prog unit :=
  match components with
  | [] => Ret tt
  | component :: rest =>
      l ← wrap ("list " +:+ Name component +:+ " statefulsets")
            (read (ListStatefulSets (mi_Namespace mc) (NewComponentAppLabels (mi_Name mc) (Name component))));
      deleteStaleStatefulSets mc component l ;;
      cleanupStatefulSetsOf mc rest
  end.

Definition cleanupStaleStatefulSets (mc : Milvus) : prog unit :=
  cleanupStatefulSetsOf mc statefulSetCapableComponents.

Fixpoint deleteControlledDeployments (mc : Milvus) (component : MilvusComponent) (l : list Deployment) : prog unit :=
  match l with
  | [] => Ret tt
  | d :: rest =>
      (if negb (IsControlledBy (dep_Meta d) (mi_Meta mc)) then Ret tt
       else deleteIgnoringNotFound ("delete legacy " +:+ Name component +:+ " deployment " +:+ dep_Name d)
              (DeleteDeployment d)) ;;
      deleteControlledDeployments mc component rest
  end.

Definition deleteLegacyComponentDeployments (mc : Milvus) (component : MilvusComponent) : prog unit :=
  l ← wrap ("list legacy " +:+ Name component +:+ " deployments")
        (read (ListDeployments (mi_Namespace mc) (NewComponentAppLabels (mi_Name mc) (Name component))));
  deleteControlledDeployments mc component l.

Fixpoint deleteLegacyDeployments (mc : Milvus) (components : list MilvusComponent) : prog unit :=
  match components with
  | [] => Ret tt
  | component :: rest =>
      (if componentUsesStatefulSet mc component then deleteLegacyComponentDeployments mc component else Ret tt) ;;
      deleteLegacyDeployments mc rest
  end.

Definition cleanupStatefulSetWorkloadModes (mc : Milvus) : prog unit :=
  if negb (bool_decide (spec_Mode (mi_Spec mc) = MilvusModeCluster)) then Ret tt
  else deleteLegacyDeployments mc statefulSetCapableComponents ;; cleanupStaleStatefulSets mc.
End StatefulSets.
