(* ===== verification/StatefulSetProofs.v ===== *)
(** * Properties of stateful sets

    Which claims and stateful sets a reconcile may delete or change. *)
From S2P Require Import Prelude KubeTypes Libs ApiTypes Labels Effects Utils Components DeployUtil PodTemplate.
From S2P Require Import KafkaSecrets Render RenderProofs Status StatefulSets Examples.

Local Open Scope string_scope.
Local Open Scope list_scope.
Local Open Scope Z_scope.

(** ** Ordinals *)

Lemma HasPrefix_split p : forall s, HasPrefix s p = true -> exists s', s = p +:+ s'.
Proof.
  induction p as [|a p IH]; intros s; [by exists s|]. destruct s as [|b s]; [done|]. unfold HasPrefix. simpl.
  destruct (Ascii.ascii_dec a b) as [->|]; [|done]. intros Hp. destruct (IH s Hp) as [s' ->]. by exists s'.
Qed.

Lemma substring_full s : String.substring 0 (String.length s) s = s.
Proof. induction s as [|a s IH]; simpl; [done|]. by rewrite IH. Qed.

Lemma substring_all s : forall n, n = String.length s -> String.substring 0 n s = s.
Proof. intros n ->. apply substring_full. Qed.

Lemma slice_from_app p s : slice_from (p +:+ s) (String.length p) = s.
Proof.
  unfold slice_from, slice. rewrite string_length_app.
  replace (String.length p + String.length s - String.length p)%nat with (String.length s) by lia.
  induction p as [|a p IH]; [apply substring_full|exact IH].
Qed.

(** The number that names a claim, and what [matchStatefulSetPVCOrdinal]
    makes of it. *)
Lemma matchOrdinal_spec name prefixes k :
  matchStatefulSetPVCOrdinal name prefixes = Some k ->
  exists p s z, p ∈ prefixes /\ name = p +:+ s /\ Atoi s = Some z /\ 0 <= z /\ k = int32_of z.
Proof.
  induction prefixes as [|p ps IH]; simpl; [done|]. intros Hm.
  assert (matchStatefulSetPVCOrdinal name ps = Some k ->
          exists p0 s z, p0 ∈ p :: ps /\ name = p0 +:+ s /\ Atoi s = Some z /\ 0 <= z /\ k = int32_of z) as Hrest.
  { intros (p0 & s & z & Hin & Hz)%IH. exists p0, s, z. split; [by apply elem_of_cons; right|done]. }
  destruct (HasPrefix name p) eqn:Hp; [|by apply Hrest].
  destruct (HasPrefix_split p name Hp) as [s ->]. rewrite slice_from_app in Hm.
  destruct (Atoi s) as [z|] eqn:Hz; [|by apply Hrest]. destruct (z <? 0) eqn:Hneg; [by apply Hrest|].
  simplify_eq. exists p, s, z. split; [by apply elem_of_cons; left|]. repeat split; [done|lia].
Qed.

(** Truncation to 32 bits never exceeds the ordinal. *)
Lemma int32_of_le z : 0 <= z -> int32_of z <= z.
Proof.
  intros Hz. unfold int32_of.
  pose proof (Z.mod_le (z + 2147483648) 4294967296 ltac:(lia) ltac:(lia)). lia.
Qed.

(** ** Writes to claims *)

(** [claimOf sts name z]: the name of the claim of replica [z] for some template. *)
Definition claimOf (sts name : string) (z : Z) : Prop :=
  exists template s, name = template +:+ "-" +:+ sts +:+ "-" +:+ s /\ Atoi s = Some z.

(** The claim of that name among those in the cluster. *)
Definition claimKey (c : Claim) : string * string := (om_Namespace (clm_Meta c), om_Name (clm_Meta c)).

Definition storedClaim (claims : list Claim) (key : string * string) : option Claim :=
  snd <$> list_find (fun c => claimKey c = key) claims.

Lemma storedClaim_elem claims c : NoDup (claimKey <$> claims) -> c ∈ claims -> storedClaim claims (claimKey c) = Some c.
Proof.
  unfold storedClaim. intros Hnd Hc. induction claims as [|x claims IH]; [by apply not_elem_of_nil in Hc|].
  rewrite fmap_cons, NoDup_cons in Hnd. destruct Hnd as [Hx Hnd]. simpl. case_decide as E.
  - apply elem_of_cons in Hc as [-> |Hc]; [done|]. destruct Hx. rewrite E. by apply list_elem_of_fmap_2.
  - apply elem_of_cons in Hc as [-> |Hc]; [done|]. specialize (IH Hnd Hc). by destruct (list_find _ claims) as [[]|].
Qed.

Section Claims.
Context {SV : Semver} {US : Unstructured} {KL : KubeLib} {DC : Decode} {DK : DecodeKafka} {JM : JsonMarshal}
  {OI : OperatorImage} {CL : ClaimLib}.

(** Of the claims in the cluster: deletions are of claims of replicas from
    [replicas] on, an update makes the claim of that name larger than it is and
    changes nothing else. *)
Definition claimWrite (claims : list Claim) (sts : string) (replicas : Z) (w : kwrite) : Prop :=
  match w with
  | DeleteClaim ns name =>
      is_Some (storedClaim claims (ns, name)) /\ exists z, claimOf sts name z /\ replicas <= z
  | UpdateClaim c' =>
      match storedClaim claims (claimKey c') with
      | Some c => exists q, c' = set_claimStorage c q /\ 0 < QuantityCmp q (default "0" (claimStorage c))
      | None => False
      end
  | CreateStatefulSet _ | UpdateStatefulSet _ | CreateService _ | UpdateService _ | RecordEvent _ _ => True
  | _ => False
  end.

Lemma scaledDown_claim sts replicas pvc :
  scaledDown (claimPrefixes sts) replicas pvc = true ->
  exists z, claimOf (om_Name (sts_Meta sts)) (om_Name (clm_Meta pvc)) z /\ replicas <= z.
Proof.
  unfold scaledDown. intros [_ Hm]%andb_true_iff.
  destruct (matchStatefulSetPVCOrdinal _ _) as [k|] eqn:Ek; [|done].
  destruct (matchOrdinal_spec _ _ _ Ek) as (p & s & z & Hp & Hname & Hz & Hpos & ->).
  apply list_elem_of_fmap in Hp as (t & -> & _). exists z. split.
  - exists (om_Name (clm_Meta t)), s. split; [|done]. rewrite Hname. by rewrite !string_app_assoc.
  - pose proof (int32_of_le z Hpos). lia.
Qed.

Lemma wp_deleteIgnoring R msg w (P : kwrite -> Prop) :
  P w -> wp R (deleteIgnoringNotFound msg w) (fun ws _ => Forall P ws).
Proof.
  intros Hw. unfold deleteIgnoringNotFound. by writes_steps.
Qed.

Lemma wp_deleteClaims R msg stale claims (P : kwrite -> Prop) :
  (forall pvc, pvc ∈ claims -> stale pvc = true -> P (DeleteClaim (om_Namespace (clm_Meta pvc)) (om_Name (clm_Meta pvc)))) ->
  wp R (deleteClaims msg stale claims) (fun ws _ => Forall P ws).
Proof.
  intros HP. induction claims as [|pvc claims IH]; cbn [deleteClaims]; writes_steps;
    [apply wp_deleteIgnoring, HP; [by left|done]|apply IH; intros; apply HP; [by right|done]..].
Qed.

Lemma wp_expandClaims R pick sizes sts inCluster claims replicas name : forall support,
  NoDup (claimKey <$> inCluster) -> claims ⊆ inCluster ->
  wp R (expandClaims pick sizes sts claims support) (fun ws _ => Forall (claimWrite inCluster name replicas) ws).
Proof.
  intros support Hnd. revert support.
  induction claims as [|pvc claims IH]; intros support Hsub; cbn [expandClaims]; writes_steps;
    try (apply IH; set_solver); try done.
  - unfold storageClassAllowsExpansion. by writes_steps.
  - unfold claimWrite. change (claimKey (set_claimStorage pvc s0)) with (claimKey pvc).
    rewrite storedClaim_elem by set_solver. eexists. split; [done|]. lia.
Qed.

(** The stateful set or service that was read has the name that was asked for. *)
Definition namedAnswer (B : Type) (r : kread B) : B -> Prop :=
  match r in kread B' return B' -> Prop with
  | GetStatefulSet ns name => fun sts => om_Name (sts_Meta sts) = name
  | GetService ns name => fun svc => om_Name (svc_Meta svc) = name
  | _ => fun _ => True
  end.

(** ... and the claims that are listed are in the cluster. *)
Definition namedClaims (claims : list Claim) (B : Type) (r : kread B) : B -> Prop :=
  match r in kread B' return B' -> Prop with
  | ListClaims ns labels => fun l => l ⊆ claims
  | r => namedAnswer _ r
  end.

Lemma wp_headlessService R mc component (P : kwrite -> Prop) :
  (forall svc, P (CreateService svc) /\ P (UpdateService svc)) ->
  wp R (reconcileStatefulSetService mc component) (fun ws _ => Forall P ws).
Proof.
  intros HP. unfold reconcileStatefulSetService, updateStatefulSetService. writes_steps; apply HP.
Qed.

Context (storageEndpointEnv : list EnvVar).

(** An update writes nothing, keeps the name and takes the wanted replicas. *)
Lemma wp_updateStatefulSet `{!OwnerLaws} R mc sts component :
  wp R (updateStatefulSet storageEndpointEnv mc sts component)
    (fun ws o => ws = [] /\ forall s, o = ORet s ->
       om_Name (sts_Meta s) = om_Name (sts_Meta sts) /\ sts_Replicas s = statefulSetReplicas mc sts component).
Proof.
  unfold updateStatefulSet. destruct (statefulSetMeta mc sts component) as [meta|] eqn:Em; [|by apply wp_fail].
  assert (om_Name meta = om_Name (sts_Meta sts)) as Hname.
  { unfold statefulSetMeta in Em. apply SetControllerReference_owners in Em. rewrite Em. by destruct (DeploymentGroupOf component). }
  destruct (renderVolumeClaimTemplates mc component) as [e|templates]; [by apply wp_fail|].
  wp_steps; [done|]. intros spec _. case_if_bool.
  - apply wp_ret. split; [done|]. by intros s [= <-].
  - wp_steps; [done|]. intros t _. apply wp_ret. split; [done|]. by intros s [= <-].
Qed.

Lemma wp_cleanupClaims claims mc sts :
  NoDup (claimKey <$> claims) ->
  wp (namedClaims claims) (cleanupScaledDownStatefulSetPVCs mc sts)
    (fun ws _ => Forall (claimWrite claims (om_Name (sts_Meta sts)) (getStatefulSetReplicas sts)) ws).
Proof.
  intros Hnd. unfold cleanupScaledDownStatefulSetPVCs. case_match; [by apply wp_ret_writes|].
  wp_steps; [constructor|]. intros selector _. wp_steps; [constructor|]. intros listed Hl. apply wp_deleteClaims. intros pvc Hin Hs. split; [|by apply scaledDown_claim].
  fold (claimKey pvc). rewrite storedClaim_elem; [by eexists|done|by apply Hl].
Qed.

Lemma wp_claimExpansion claims pick mc component sts name replicas :
  NoDup (claimKey <$> claims) ->
  wp (namedClaims claims) (reconcileStatefulSetPVCExpansion pick mc component sts)
    (fun ws _ => Forall (claimWrite claims name replicas) ws).
Proof.
  intros Hnd. unfold reconcileStatefulSetPVCExpansion. case_match; [by apply wp_ret_writes|].
  case_match; [by apply wp_fail_writes|]. case_match; [by apply wp_ret_writes|].
  wp_steps; [constructor|]. intros selector _. wp_steps; [constructor|]. intros listed Hl. by apply wp_expandClaims.
Qed.

(** The replicas that the resource asks for, where no autoscaler decides. *)
Definition wantedReplicas (mc : Milvus) (component : MilvusComponent) : Z :=
  default 1 (GetReplicas component (mi_Spec mc)).

Lemma wp_reconcileStatefulSet `{!OwnerLaws} claims pick mc component :
  NoDup (claimKey <$> claims) ->
  com_EnableManualMode (mi_Com mc) = false -> updater_IsHPAEnabled mc component = false ->
  wp (namedClaims claims) (ReconcileComponentStatefulSet storageEndpointEnv pick mc component)
    (fun ws _ => Forall (claimWrite claims (GetDeploymentName component (mi_Name mc)) (wantedReplicas mc component)) ws).
Proof.
  intros Hnd Hman Hhpa. unfold ReconcileComponentStatefulSet.
  apply wp_then; [apply wp_wrap_writes, wp_headlessService; done|]. intros _.
  assert (forall sts, statefulSetReplicas mc sts component = GetReplicas component (mi_Spec mc)) as Hreps.
  { intros sts. unfold statefulSetReplicas. by rewrite Hman, Hhpa. }
  apply wp_bind, wp_attempt, wp_read.
  - intros e. case_if_bool; [|by apply wp_fail_writes]. apply wp_bind.
    eapply wp_mono; [|apply wp_updateStatefulSet]. intros ws [s|e'|] [-> _]; [|done..]. by apply wp_one_write.
  - intros old Hold. apply wp_bind. eapply wp_mono; [|apply wp_updateStatefulSet].
    intros ws [s|e'|] [-> Hs]; [|done..]. destruct (Hs s eq_refl) as [Hname Hrep].
    simpl in Hold. rewrite Hold in Hname. rewrite Hreps in Hrep.
    assert (getStatefulSetReplicas s = wantedReplicas mc component) as <-.
    { unfold getStatefulSetReplicas, wantedReplicas. by rewrite Hrep. }
    rewrite <- Hname. apply wp_then; [by writes_steps|]. intros _.
    apply wp_then; [by apply wp_cleanupClaims|]. intros _. by apply wp_claimExpansion.
Qed.

(** C19. Whatever fails, and in whatever order claims and templates are listed,
    reconciling a component that runs as a stateful set, whose replicas come from
    the resource (neither manual mode nor an autoscaler decides them), deletes of
    the claims in the cluster only those whose name ends in an ordinal at or
    beyond the wanted replicas, updates a claim only to one of a larger size than
    it has in the cluster and otherwise the same, and otherwise only creates or
    updates stateful sets and services and records events. *)
Theorem live_claims_kept `{!OwnerLaws} claims pick mc component tr o :
  exec (ReconcileComponentStatefulSet storageEndpointEnv pick mc component) tr o ->
  Forall (event_ok (namedClaims claims)) tr -> NoDup (claimKey <$> claims) ->
  com_EnableManualMode (mi_Com mc) = false -> updater_IsHPAEnabled mc component = false ->
  Forall (claimWrite claims (GetDeploymentName component (mi_Name mc)) (wantedReplicas mc component)) (writes tr).
Proof.
  intros Hex Hok Hnd Hman Hhpa.
  by apply (wp_exec (namedClaims claims) _ _ _ _ (wp_reconcileStatefulSet claims pick mc component Hnd Hman Hhpa) Hex).
Qed.

(** ** Removing stateful sets *)

Definition staleSet (mc : Milvus) (sts : StatefulSet) : Prop :=
  IsControlledBy (sts_Meta sts) (mi_Meta mc) = true /\ om_Name (sts_Meta sts) ∉ desiredStatefulSets mc.

(** What the cleanup may delete. *)
Definition cleanupWrite (mc : Milvus) (w : kwrite) : Prop :=
  match w with
  | DeleteDeployment d =>
      IsControlledBy (dep_Meta d) (mi_Meta mc) = true /\
      exists c, c ∈ statefulSetCapableComponents /\ componentUsesStatefulSet mc c = true
  | DeleteStatefulSet sts => staleSet mc sts
  | DeleteClaim _ name => exists sts z, staleSet mc sts /\ claimOf (om_Name (sts_Meta sts)) name z
  | DeleteService svc => exists sts, staleSet mc sts /\ om_Name (svc_Meta svc) = om_Name (sts_Meta sts)
  | _ => False
  end.

Lemma belongsTo_claim sts pvc :
  belongsTo (claimPrefixes sts) pvc = true -> exists z, claimOf (om_Name (sts_Meta sts)) (om_Name (clm_Meta pvc)) z.
Proof.
  unfold belongsTo. intros [_ Hm]%andb_true_iff. apply bool_decide_eq_true in Hm as [k Hk].
  destruct (matchOrdinal_spec _ _ _ Hk) as (p & s & z & Hp & Hname & Hz & Hpos & ->).
  apply list_elem_of_fmap in Hp as (t & -> & _). exists z, (om_Name (clm_Meta t)), s.
  split; [|done]. rewrite Hname. by rewrite !string_app_assoc.
Qed.

Lemma wp_deleteSetClaims R mc component sts :
  staleSet mc sts -> wp R (deletePVCsForStatefulSet mc component sts) (fun ws _ => Forall (cleanupWrite mc) ws).
Proof.
  intros Hst. unfold deletePVCsForStatefulSet. writes_steps. apply wp_deleteClaims.
  intros pvc _ (z & Hz)%belongsTo_claim. by exists sts, z.
Qed.

Lemma wp_deleteSetService msg mc sts :
  staleSet mc sts ->
  wp namedAnswer (deleteStatefulSetService msg mc (om_Name (sts_Meta sts))) (fun ws _ => Forall (cleanupWrite mc) ws).
Proof.
  intros Hst. unfold deleteStatefulSetService. apply wp_bind, wp_attempt, wp_read.
  - intros e. cbn beta iota. writes_steps.
  - intros svc Hsvc. simpl app. apply wp_deleteIgnoring. by exists sts.
Qed.

Lemma wp_deleteStaleSets mc component l :
  wp namedAnswer (deleteStaleStatefulSets mc component l) (fun ws _ => Forall (cleanupWrite mc) ws).
Proof.
  induction l as [|sts l IH]; cbn [deleteStaleStatefulSets]; [by apply wp_ret_writes|].
  apply wp_then; [|intros _; exact IH].
  destruct (negb _ || bool_decide _) eqn:E; [by apply wp_ret_writes|].
  apply orb_false_iff in E as [Hc%negb_false_iff Hn%bool_decide_eq_false].
  assert (staleSet mc sts) as Hst by done.
  apply wp_then; [by apply wp_deleteIgnoring|intros _]. apply wp_then; [by apply wp_deleteSetClaims|intros _].
  by apply wp_deleteSetService.
Qed.

Lemma wp_deleteLegacy mc components :
  components ⊆ statefulSetCapableComponents ->
  wp namedAnswer (deleteLegacyDeployments mc components) (fun ws _ => Forall (cleanupWrite mc) ws).
Proof.
  induction components as [|c cs IH]; cbn [deleteLegacyDeployments]; intros Hsub; [by apply wp_ret_writes|].
  apply wp_then; [|intros _; apply IH; set_solver].
  destruct (componentUsesStatefulSet mc c) eqn:Hc; [|by apply wp_ret_writes].
  unfold deleteLegacyComponentDeployments. apply wp_then; [apply wp_wrap_writes, wp_quiet_read|].
  intros l. induction l as [|d l IHl]; cbn [deleteControlledDeployments]; [by apply wp_ret_writes|].
  apply wp_then; [|intros _; exact IHl]. destruct (IsControlledBy _ _) eqn:Hd; [|by apply wp_ret_writes].
  apply wp_deleteIgnoring. split; [done|]. exists c. split; [set_solver|done].
Qed.

Lemma wp_cleanupSets mc components :
  wp namedAnswer (cleanupStatefulSetsOf mc components) (fun ws _ => Forall (cleanupWrite mc) ws).
Proof.
  induction components as [|c cs IH]; cbn [cleanupStatefulSetsOf]; [by apply wp_ret_writes|].
  apply wp_then; [apply wp_wrap_writes, wp_quiet_read|]. intros l.
  apply wp_then; [apply wp_deleteStaleSets|intros _; exact IH].
Qed.

(** Whatever fails, the cleanup of workload kinds deletes only deployments
    this instance controls while some component runs as a stateful set, only
    stateful sets it controls that no workload wants, and only claims and
    services named after such a stateful set; it creates and changes nothing. *)
Theorem cleanup_only_stale mc tr o :
  exec (cleanupStatefulSetWorkloadModes mc) tr o -> Forall (event_ok namedAnswer) tr ->
  Forall (cleanupWrite mc) (writes tr).
Proof.
  intros Hex Hok. refine (wp_exec namedAnswer _ (fun ws _ => Forall (cleanupWrite mc) ws) _ _ _ Hex Hok).
  unfold cleanupStatefulSetWorkloadModes. case_if_bool; [by apply wp_ret_writes|].
  apply wp_then; [by apply wp_deleteLegacy|intros _]. apply wp_cleanupSets.
Qed.
End Claims.

(** ** Witnesses *)
Section Witnesses.
#[local] Existing Instances concreteSemver concreteUnstructured concreteKubeLib concreteOwnerLaws.
#[local] Existing Instances exDecode exDecodeKafka exMarshal exOperatorImage.

(** Sizes are compared by their digits. *)
Definition exClaimLib : ClaimLib := {|
  QuantityCmp a b := default 0 (Atoi a) - default 0 (Atoi b);
  DecodeClaim v := Some (mkPersistentVolumeClaim (newMeta (strField (valuesJson v) "name") "")
                           (mkClaimSpec [] (mkRes ∅ {[ResourceStorage := strField (valuesJson v) "size"]}) None "" JNull))
|}.
#[local] Existing Instance exClaimLib.

(** Two query nodes as a stateful set with a claim each, in a cluster where
    four were running with smaller claims. *)
Definition exStsMilvus : Milvus :=
  let com := exCom 2 in
  exWithCom
    (set_com_QueryNode com
       (Some (mkQueryNode (exComponent (Some 2)) []
                (Some (ApiTypes.mkStatefulSet true [Some [("name", JStr "data"); ("size", JStr "20")]]))))).

Definition exClaim (name size : string) : Claim :=
  mkPersistentVolumeClaim (newMeta name "ns")
    (mkClaimSpec [] (mkRes ∅ {[ResourceStorage := size]}) None "" JNull).

Definition exSts (name : string) : StatefulSet :=
  KubeTypes.mkStatefulSet
    (mkMeta name "ns" ∅ ∅ 1 "uid-sts" "1" [mkOwner "Milvus" "mi" "uid-mi" true] None [])
    (Some 4) (Some (GetSelectorLabels QueryNode "mi")) emptyTemplate "" "" 0 [exClaim "data" "10"] 1 4 4 4 4 "" "".

Definition exClaims (names : list string) : list Claim :=
  concat ((fun sts => (fun i => exClaim ("data-" +:+ sts +:+ "-" +:+ i) "10") <$> ["0"; "1"; "2"; "3"]) <$> names).

(** [names]: the stateful sets that are listed; every one of them has four
    claims. *)
Definition exStsServer (names : list string) : handler unit :=
  mkHandler
    (fun B (r : kread B) _ =>
       match r in kread B' return kerr + B' with
       | GetStatefulSet ns name => inr (exSts name)
       | GetService ns name => inr (newService name ns)
       | ListStatefulSets ns labels => inr (exSts <$> names)
       | ListDeployments ns labels => inr [exDeployment "0" "milvus" 2]
       | ListClaims ns labels => inr (exClaims names)
       | _ => inl KNotFound
       end)
    (fun _ s => (inr tt, s)).

Lemma exSts_exec {A} names (p : prog A) :
  exec p (snd (fst (run (exStsServer names) p tt))) (snd (run (exStsServer names) p tt)).
Proof. apply run_exec. Qed.

Lemma exSts_ok {A} names (p : prog A) : Forall (event_ok namedAnswer) (snd (fst (run (exStsServer names) p tt))).
Proof. apply run_event_ok. intros B r s b. by destruct r; intros [= <-]. Qed.

Lemma exSts_claims {A} names (p : prog A) :
  Forall (event_ok (namedClaims (exClaims names))) (snd (fst (run (exStsServer names) p tt))).
Proof. apply run_event_ok. intros B r s b. destruct r; intros H; try discriminate H; injection H as <-; by try intros c Hc. Qed.

Definition exStsReconcile : prog unit :=
  ReconcileComponentStatefulSet [] head exStsMilvus QueryNode.
Definition exStsWrites (names : list string) (p : prog unit) : list kwrite :=
  writes (snd (fst (run (exStsServer names) p tt))).

(** Service, stateful set, two claims deleted and four updates. *)
Lemma live_claims_kept_witness :
  let names := ["mi-milvus-querynode"] in
  Forall (claimWrite (exClaims names) "mi-milvus-querynode" 2) (exStsWrites names exStsReconcile) /\
  length (exStsWrites names exStsReconcile) = 8%nat.
Proof.
  split; [|by vm_compute].
  refine (live_claims_kept [] (exClaims ["mi-milvus-querynode"]) head exStsMilvus QueryNode _ _ (exSts_exec _ exStsReconcile)
            (exSts_claims _ _) _ _ _); [apply (bool_decide_unpack _); vm_compute; exact I|vm_compute; reflexivity..].
Defined.

(** The stateful set of a group that is gone. *)
Lemma cleanup_only_stale_witness :
  let names := ["mi-milvus-querynode"; "mi-milvus-querynode-g"] in
  Forall (cleanupWrite exStsMilvus) (exStsWrites names (cleanupStatefulSetWorkloadModes exStsMilvus)) /\
  length (exStsWrites names (cleanupStatefulSetWorkloadModes exStsMilvus)) = 19%nat.
Proof.
  split; [|by vm_compute].
  exact (cleanup_only_stale exStsMilvus _ _ (exSts_exec _ (cleanupStatefulSetWorkloadModes exStsMilvus)) (exSts_ok _ _)).
Defined.
End Witnesses.
