(* ===== verification/Deployments.v ===== *)
(** * Deployments

    The reconciler of pkg/controllers/deployments.go with
    deployment_cluster_to_standalone.go and [resolveStorageSecretRefEnv] of
    configmaps.go: every workload of the resource is brought to its desired
    state by the controller that its mode asks for, then the workloads that are
    not wanted any more are removed.

    [ReconcileDeployments] composes the deploy controller ([DeployCtrl]), the
    stateful sets ([StatefulSets]) and the one-deployment mode of this file.
    The error of several failed components has the text of all of them, as
    errors.Join makes it. *)
From S2P Require Import Prelude KubeTypes Libs ApiTypes Labels Effects Utils Components DependencyGraph.
From S2P Require Import DeployUtil DeployCtrl PodTemplate KafkaSecrets Render Status StatefulSets.

Local Open Scope string_scope.
Local Open Scope list_scope.
Local Open Scope Z_scope.

Definition MilvusName : string := "milvus".
Definition Minio : string := "minio".

Definition emptyDeployment (name namespace : string) : Deployment :=
  mkDeployment (newMeta name namespace)
    (mkDSpec None ∅ emptyTemplate (mkStrategy "" None) 0 false None) (mkDStatus 0 0 0 0 0 0 []).

(** [for ... { if err := f(x); err != nil { return err } }]. *)
Fixpoint forEach {A} (f : A -> prog unit) (l : list A) : prog unit :=
  match l with
  | [] => Ret tt
  | x :: rest => f x ;; forEach f rest
  end.

(** ** The environment of the storage *)
Section Storage.
Context {US : Unstructured}.

Definition GetMinioSecure (conf : Values) : bool := GetBoolValue conf ["minio"; "useSSL"].

Definition getMinioPortEnvIfServiceExists (mc : Milvus) : prog (list EnvVar) :=
  r ← attempt (read (GetService (mi_Namespace mc) Minio));
  match r with
  | inl e => if IsNotFound e then Ret [] else Fail (EWrap "check minio service" e)
  | inr _ => Ret (GetStorageEndpointEnv (sto_Endpoint (dep_Storage (spec_Dep (mi_Spec mc))))
                    (GetMinioSecure (spec_Conf (mi_Spec mc))))
  end.

(** The keys of the secret that upstream Silo writes. *)
Definition siloKey (e : EnvVar) : EnvVar :=
  match ev_ValueFrom e with
  | Some (SecretKeyRef name key) =>
      mkEnv (ev_Name e) (ev_Value e)
        (Some (SecretKeyRef name (if bool_decide (key = AccessKey) then "rootUser" else "rootPassword")))
  | _ => e
  end.

Definition resolveStorageSecretRefEnv (mc : Milvus) : prog (list EnvVar) :=
  let ref := sto_SecretRef (dep_Storage (spec_Dep (mi_Spec mc))) in
  let env := GetStorageSecretRefEnv ref in
  if bool_decide (ref = "") then Ret env
  else
    data ← wrap "get storage secret for pod environment" (read (GetSecret (mi_Namespace mc) ref));
    Ret (if bool_decide (data !! AccessKey = None) && bool_decide (data !! SecretKey = None)
            && bool_decide (is_Some (data !! "rootUser"))
         then siloKey <$> env else env).
End Storage.

(** ** Changing from standalone to cluster *)

Definition labelServicePod (pod : Pod) : prog unit :=
  let labels := om_Labels (pod_Meta pod) in
  if bool_decide (mget labels ServiceLabel = TrueStr) then Ret tt
  else
    wrap ("label pod " +:+ om_Name (pod_Meta pod))
      (write (UpdatePod (mkPod (set_Labels (pod_Meta pod) (<[ServiceLabel := TrueStr]> labels)) (pod_Phase pod)
                           (pod_Reason pod) (pod_Conditions pod) (pod_ContainerStatuses pod)))).

Definition labelServicePods (mc : Milvus) : prog unit :=
  forEach (fun serviceComponent =>
             pods ← wrap ("list [" +:+ Name serviceComponent +:+ "] pods")
                      (read (ListPods (mi_Namespace mc) (NewComponentAppLabels (mi_Name mc) (Name serviceComponent))));
             forEach labelServicePod pods)
    [MilvusStandalone; Proxy].

Definition handleOldInstanceChangingMode (mc : Milvus) (component : MilvusComponent) : prog unit :=
  if negb (IsPodServiceLabelAdded mc) && Milvus_IsChangingMode mc && Is component MilvusStandalone then
    wrap "label service pods" (labelServicePods mc) ;;
    let mc := set_mi_Annotations mc (<[PodServiceLabelAddedAnnotation := TrueStr]> (mi_Annotations mc)) in
    wrap "update milvus annotation" (write (UpdateMilvus mc)) ;;
    Fail (EWrap "requeue after updated milvus annotation" ErrRequeue)
  else Ret tt.

(** ** One deployment *)
Section Deployments.
Context {SV : Semver} {US : Unstructured} {IS : IntStr} {KL : KubeLib} {DC : Decode} {DK : DecodeKafka}
  {JM : JsonMarshal} {OI : OperatorImage} {CL : ClaimLib} {KM : KubeMessages}.

Section OneDeploy.
Context (storageEndpointEnv : list EnvVar).

(** [MilvusReconciler.updateDeployment]: while a pod of the component is
    terminating its template is left alone. *)
Definition reconciler_updateDeployment (mc : Milvus) (deployment : Deployment) (component : MilvusComponent)
    : prog Deployment :=
  hasTerminatingPod ← wrap "check component has terminating pod" (CheckComponentHasTerminatingPod mc component);
  if hasTerminatingPod : bool then deref (updateDeploymentWithoutPodTemplate mc component deployment)
  else
    r ← deref (updateDeployment mc component storageEndpointEnv deployment);
    match r with inl msg => Fail (ENew msg) | inr d => Ret d end.

Definition ReconcileComponentDeployment (mc : Milvus) (component : MilvusComponent) : prog unit :=
  let name := GetDeploymentName component (mi_Name mc) in
  r ← attempt (read (GetDeployment (mi_Namespace mc) name));
  match r with
  | inl e =>
      if IsNotFound e then
        new ← reconciler_updateDeployment mc (emptyDeployment name (mi_Namespace mc)) component;
        write (CreateDeployment new)
      else Fail e
  | inr old =>
      handleOldInstanceChangingMode mc component ;;
      cur ← reconciler_updateDeployment mc old component;
      if DeepEqual old cur then Ret tt else write (UpdateDeployment cur)
  end.

(** ** Choosing the controller of a workload *)

Definition componentUsesTwoDeployments (mc : Milvus) (component : MilvusComponent) : bool :=
  Is component QueryNode || bool_decide (com_RollingMode (mi_Com mc) = RollingModeV3).

Definition scaleDownIdleDeployment (mc : Milvus) (deployment : Deployment) : prog unit :=
  if negb (IsControlledBy (dep_Meta deployment) (mi_Meta mc)) || (getDeployReplicas deployment =? 0) then Ret tt
  else wrap ("scale down idle standalone deployment " +:+ dep_Name deployment)
         (write (UpdateDeployment (set_dep_Replicas deployment (int32Ptr 0)))).

Definition scaleDownIdleStandalone (mc : Milvus) : prog unit :=
  if com_EnableManualMode (mi_Com mc) then Ret tt
  else
    deployments ← wrap "list idle standalone deployments"
      (read (ListDeployments (mi_Namespace mc) (NewComponentAppLabels (mi_Name mc) (Name MilvusStandalone))));
    forEach (scaleDownIdleDeployment mc) deployments.

(** [CommonComponentReconciler.Reconcile] is [ReconcileComponentDeployment]. *)
Definition reconcileWorkload (pick : list (string * string) -> option (string * string)) (mc : Milvus)
    (component : MilvusComponent) : prog unit :=
  if IsIdleClusterStandalone (mi_Spec mc) component then scaleDownIdleStandalone mc
  else if componentUsesStatefulSet mc component then
    ReconcileComponentStatefulSet storageEndpointEnv pick mc component
  else if componentUsesTwoDeployments mc component then
    @DeployCtrl.Reconcile SV US IS KL (milvusTemplateUpdater storageEndpointEnv) component
      ReconcileComponentDeployment mc
  else ReconcileComponentDeployment mc component.

(** Every workload is tried; the errors are collected. *)
Fixpoint reconcileWorkloads (pick : list (string * string) -> option (string * string)) (mc : Milvus)
    (workloads : list MilvusComponent) (errs : list err) : prog (list err) :=
  match workloads with
  | [] => Ret errs
  | component :: rest =>
      r ← attempt (reconcileWorkload pick mc component);
      reconcileWorkloads pick mc rest (match r with inl e => errs ++ [e] | inr _ => errs end)
  end.
End OneDeploy.

(** ** Removing deployments *)

Definition DeleteDeploymentsIfExists (mc : Milvus) (component : MilvusComponent) : prog unit :=
  let name := GetDeploymentName component (mi_Name mc) in
  r ← attempt (read (GetDeployment (mi_Namespace mc) name));
  match r with
  | inl e =>
      if IsNotFound e then Ret tt
      else Fail (EWrap ("get deployment " +:+ mi_Namespace mc +:+ "/" +:+ name +:+ " failed") e)
  | inr deployment =>
      wrap ("delete deployment " +:+ om_Namespace (dep_Meta deployment) +:+ "/" +:+ dep_Name deployment +:+ " failed")
        (write (DeleteDeployment deployment))
  end.

Definition RemoveOldStandlone (mc : Milvus) : prog unit :=
  deployments ← read (ListDeployments (mi_Namespace mc) (NewComponentAppLabels (mi_Name mc) MilvusName));
  forEach (fun d => write (DeleteDeployment d)) deployments.

(** [desiredGroups[name][group]], as the list of its pairs. *)
Definition desiredGroups (workloads : list MilvusComponent) : list (string * string) :=
  (fun w => (Name w, GetDeploymentGroupName w)) <$> workloads.

Definition staleDeployment (mc : Milvus) (workloads : list MilvusComponent) (d : Deployment) : Prop :=
  let componentName := mget (dep_Labels d) AppLabelComponent in
  IsControlledBy (dep_Meta d) (mi_Meta mc) = true /\
  componentName ∈ fst <$> desiredGroups workloads /\
  (componentName, mget (dep_Labels d) DeploymentGroupLabel) ∉ desiredGroups workloads.

#[export] Instance staleDeployment_dec mc workloads d : Decision (staleDeployment mc workloads d).
Proof. unfold staleDeployment. apply _. Defined.

(** The deployment that serves a workload. *)
Definition servesWorkload (mc : Milvus) (workload : MilvusComponent) (d : Deployment) : bool :=
  IsControlledBy (dep_Meta d) (mi_Meta mc) &&
  if componentUsesTwoDeployments mc workload then
    bool_decide (mget (dep_Labels d) AppLabelComponent = Name workload)
    && MatchesDeploymentGroup workload (dep_Labels d)
    && bool_decide (GetLabelGroupID (Name workload) (dep_Labels d) = GetCurrentGroupId mc (GetStateKey workload))
  else bool_decide (dep_Name d = GetDeploymentName workload (mi_Name mc)).

Definition workloadReady (mc : Milvus) (deployments : list Deployment) (workload : MilvusComponent) : bool :=
  if componentUsesTwoDeployments mc workload
     && bool_decide (GetCurrentGroupId mc (GetStateKey workload) = "") then false
  else
    match list_find (fun d => servesWorkload mc workload d = true) deployments with
    | None => false
    | Some (_, desired) => (getDeployReplicas desired =? 0) || DeploymentReady (dep_Status desired)
    end.

Definition desiredWorkloadsReadyForCleanup (mc : Milvus) (workloads : list MilvusComponent)
    (deployments : list Deployment) : bool :=
  forallb (workloadReady mc deployments) workloads.

Definition cleanupStaleDeploymentGroups (mc : Milvus) : prog unit :=
  deployments ← wrap "list deployments for deployment-group cleanup"
                  (read (ListDeployments (mi_Namespace mc) (NewAppLabels (mi_Name mc))));
  let workloads := GetComponentWorkloadsBySpec (mi_Spec mc) in
  let stale := filter (staleDeployment mc workloads) deployments in
  match stale with
  | [] => Ret tt
  | _ =>
      let components := (fun d => mget (dep_Labels d) AppLabelComponent) <$> stale in
      let workloadsToGate := filter (fun w => Name w ∈ components) workloads in
      if negb (desiredWorkloadsReadyForCleanup mc workloadsToGate deployments) then Ret tt
      else
        forEach (fun d => deleteIgnoringNotFound
                            ("delete stale deployment " +:+ om_Namespace (dep_Meta d) +:+ "/" +:+ dep_Name d)
                            (DeleteDeployment d)) stale
  end.

Definition cleanupIndexNodeIfNeeded (mc : Milvus) : prog unit :=
  if IsVersionGreaterThan2_6 (mi_Spec mc) && IsImageUpdated Proxy mc
     && bool_decide (is_Some (com_IndexNode (mi_Com mc))) then
    DeleteDeploymentsIfExists mc IndexNode ;;
    deleteComponentStatefulSetIfExists mc IndexNode ;;
    write (UpdateMilvus (set_mi_Spec mc (set_spec_Com (mi_Spec mc) (set_com_IndexNode (mi_Com mc) None))))
  else Ret tt.

Definition cleanupCoordinatorsIfNeeded (mc : Milvus) : prog unit :=
  if UseMixCoord (mi_Spec mc) && IsImageUpdated MixCoord mc && HasCoordsSpec mc then
    forEach (DeleteDeploymentsIfExists mc) MilvusCoords ;;
    write (UpdateMilvus (SetCoordsNil mc))
  else Ret tt.

(** *** deployment_cluster_to_standalone.go *)

Definition expectedDeployment (mc : Milvus) (d : Deployment) : bool :=
  containsComponent (GetComponentsBySpec (mi_Spec mc)) (mget (dep_Labels d) AppLabelComponent).

Definition CleanupDeploymentClusterToStandalone (mc : Milvus) : prog unit :=
  if negb (bool_decide (spec_Mode (mi_Spec mc) = MilvusModeStandalone)) || com_EnableManualMode (mi_Com mc)
  then Ret tt
  else
    deployments ← wrap "list deployments by instance label"
                    (read (ListDeployments (mi_Namespace mc) (NewAppLabels (mi_Name mc))));
    let expected := filter (fun d => expectedDeployment mc d = true) deployments in
    let toDelete := filter (fun d => expectedDeployment mc d = false) deployments in
    let foundComponents := remove_dups ((fun d => mget (dep_Labels d) AppLabelComponent) <$> expected) in
    match toDelete with
    | [] => Ret tt
    | _ =>
        if (length foundComponents <? length (GetComponentsBySpec (mi_Spec mc)))%nat
           || negb (forallb (fun d => DeploymentReady (dep_Status d)) expected) then Ret tt
        else
          forEach (fun d => deleteIgnoringNotFound
                              ("delete deployment " +:+ om_Namespace (dep_Meta d) +:+ "/" +:+ dep_Name d)
                              (DeleteDeployment d)) toDelete
    end.

(** ** All of them *)

Definition newline : string := String "010" EmptyString.

Definition deploymentsError (errs : list err) : err :=
  match list_find (fun e => errors_Is e ErrRequeue = true) errs with
  | Some (_, e) => EWrap "reconcile milvus deployments error" e
  | None => ENew ("reconcile milvus deployments errs: " +:+ Join newline (Error <$> errs))
  end.

Definition ReconcileDeployments (pick : list (string * string) -> option (string * string)) (mc : Milvus) : prog unit :=
  storageEndpointEnv ← getMinioPortEnvIfServiceExists mc;
  storageSecretEnv ← resolveStorageSecretRefEnv mc;
  let env := storageEndpointEnv ++ storageSecretEnv in
  RemoveOldStandlone mc ;;
  cleanupStatefulSetWorkloadModes mc ;;
  errs ← reconcileWorkloads env pick mc (GetComponentWorkloadsBySpec (mi_Spec mc)) [];
  match errs with
  | [] =>
      cleanupStaleDeploymentGroups mc ;;
      CleanupDeploymentClusterToStandalone mc ;;
      cleanupIndexNodeIfNeeded mc ;;
      cleanupCoordinatorsIfNeeded mc
  | _ => Fail (deploymentsError errs)
  end.
End Deployments.
