(* ===== verification/DeploymentProofs.v ===== *)
(** * Properties of the deployment reconciler

    Which deployments a reconcile may delete and when, what it may change while
    pods terminate, and that one component's failure does not keep the others
    from being reconciled. *)
From S2P Require Import Prelude KubeTypes Libs ApiTypes Labels Effects Utils Components DependencyGraph.
From S2P Require Import DeployUtil DeployCtrl PodTemplate KafkaSecrets Render RenderProofs Status StatefulSets Deployments.
From S2P Require Import Group Examples StatefulSetProofs.

Local Open Scope string_scope.
Local Open Scope list_scope.
Local Open Scope Z_scope.

Lemma wp_forEach {A} R (f : A -> prog unit) (P : kwrite -> Prop) l :
  (forall x, x ∈ l -> wp R (f x) (fun ws _ => Forall P ws)) -> wp R (forEach f l) (fun ws _ => Forall P ws).
Proof.
  induction l as [|x l IH]; cbn [forEach]; intros Hf; [by apply wp_ret_writes|].
  apply wp_then; [apply Hf; by apply elem_of_cons; left|]. intros _. apply IH. intros y Hy. apply Hf.
  by apply elem_of_cons; right.
Qed.

(** The deployments that a reconcile lists are [l]. *)
Definition listedAnswer (l : list Deployment) (B : Type) (r : kread B) : B -> Prop :=
  match r in kread B' return B' -> Prop with
  | ListDeployments _ _ => fun b => b = l
  | _ => fun _ => True
  end.

Section Cleanup.
Context {SV : Semver} {US : Unstructured} {IS : IntStr} {KL : KubeLib} {DC : Decode} {DK : DecodeKafka}
  {JM : JsonMarshal} {OI : OperatorImage} {CL : ClaimLib} {KM : KubeMessages}.

(** ** Groups that are gone *)

(** A workload is safe to serve alone: one of the listed deployments serves it
    and is ready, or wants no replicas. *)
Definition servedBy (mc : Milvus) (l : list Deployment) (w : MilvusComponent) : Prop :=
  exists d, d ∈ l /\ servesWorkload mc w d = true /\
    (getDeployReplicas d = 0 \/ DeploymentReady (dep_Status d) = true).

Lemma workloadReady_served mc l w : workloadReady mc l w = true -> servedBy mc l w.
Proof.
  unfold workloadReady. case_if_bool; [done|].
  destruct (list_find _ l) as [[i d]|] eqn:Ef; [|done]. apply list_find_Some in Ef as (Hl & Hs & _).
  intros [Hz|Hr]%orb_true_iff; exists d; (split; [by eapply list_elem_of_lookup_2|split; [done|]]).
  - left. lia.
  - by right.
Qed.

(** A stale deployment serves no workload of the two-deployment mode. *)
Lemma stale_serves_none mc ws w d :
  staleDeployment mc ws d -> w ∈ ws -> componentUsesTwoDeployments mc w = true -> servesWorkload mc w d = false.
Proof.
  intros (_ & _ & Hn) Hw Htwo. unfold servesWorkload. rewrite Htwo. apply not_true_iff_false.
  intros [_ [[Hname%bool_decide_eq_true Hgroup%bool_decide_eq_true]%andb_true_iff _]%andb_true_iff]%andb_true_iff.
  apply Hn, list_elem_of_fmap. exists w. split; [|done]. by rewrite Hname, Hgroup.
Qed.

Definition staleWrite (mc : Milvus) (l : list Deployment) (w : kwrite) : Prop :=
  match w with
  | DeleteDeployment d =>
      d ∈ l /\ staleDeployment mc (GetComponentWorkloadsBySpec (mi_Spec mc)) d /\
      forall c, c ∈ GetComponentWorkloadsBySpec (mi_Spec mc) ->
        (Name c = mget (dep_Labels d) AppLabelComponent -> servedBy mc l c) /\
        (componentUsesTwoDeployments mc c = true -> servesWorkload mc c d = false)
  | _ => False
  end.

Lemma wp_staleGroups mc l :
  wp (listedAnswer l) (cleanupStaleDeploymentGroups mc) (fun ws _ => Forall (staleWrite mc l) ws).
Proof.
  unfold cleanupStaleDeploymentGroups. apply wp_bind, wp_wrap, wp_read; [intros e; constructor|].
  intros b Hb. simpl in Hb. subst b. cbv zeta. simpl app. set (ws := GetComponentWorkloadsBySpec _).
  destruct (filter (staleDeployment mc ws) l) as [|d0 ds] eqn:Estale; [by apply wp_ret_writes|].
  rewrite <- Estale. case_if_bool; [by apply wp_ret_writes|]. apply negb_false_iff in E.
  apply wp_forEach. intros d Hd. apply list_elem_of_filter in Hd as [Hst Hl].
  apply wp_deleteIgnoring. split; [done|]. split; [done|]. intros c Hc. split.
  - intros Hname. apply workloadReady_served. unfold desiredWorkloadsReadyForCleanup in E.
    rewrite forallb_forall in E. apply E, list_elem_of_In, list_elem_of_filter. split; [|done].
    apply list_elem_of_fmap. exists d. split; [done|]. by apply list_elem_of_filter.
  - intros Htwo. by eapply stale_serves_none.
Qed.

(** C18. Whatever fails, the cleanup of deployment groups deletes only
    deployments this instance controls, of a component it still has and of a
    group it no longer wants; and only when every wanted workload of that
    component is served by a listed deployment that is ready or wants no
    replicas.  It never deletes a deployment that serves a workload of the
    two-deployment mode. *)
Theorem stale_groups_gated mc l tr o :
  exec (cleanupStaleDeploymentGroups mc) tr o -> Forall (event_ok (listedAnswer l)) tr ->
  Forall (staleWrite mc l) (writes tr).
Proof. intros Hex Hok. apply (wp_exec _ _ _ _ _ (wp_staleGroups mc l) Hex Hok). Qed.

(** ** From cluster to standalone *)

Definition standaloneWrite (mc : Milvus) (l : list Deployment) (w : kwrite) : Prop :=
  match w with
  | DeleteDeployment d =>
      d ∈ l /\ spec_Mode (mi_Spec mc) = MilvusModeStandalone /\ com_EnableManualMode (mi_Com mc) = false /\
      (forall c, c ∈ GetComponentsBySpec (mi_Spec mc) ->
         Name c <> mget (dep_Labels d) AppLabelComponent /\
         exists e, e ∈ l /\ mget (dep_Labels e) AppLabelComponent = Name c) /\
      (forall c e, c ∈ GetComponentsBySpec (mi_Spec mc) -> e ∈ l ->
         mget (dep_Labels e) AppLabelComponent = Name c -> DeploymentReady (dep_Status e) = true)
  | _ => False
  end.

Lemma containsComponent_spec cs name : containsComponent cs name = true <-> exists c, c ∈ cs /\ Name c = name.
Proof.
  unfold containsComponent. rewrite existsb_exists. split.
  - intros (c & Hc%list_elem_of_In & Hn%bool_decide_eq_true). eauto.
  - intros (c & Hc%list_elem_of_In & Hn). exists c. split; [done|]. by apply bool_decide_eq_true.
Qed.

(** As many names as components, all of them names of components: every
    component is found. *)
Lemma all_names_found (cs : list MilvusComponent) (found : list string) :
  NoDup found -> found ⊆ Name <$> cs -> (length found <? length cs)%nat = false ->
  forall c, c ∈ cs -> Name c ∈ found.
Proof.
  intros Hnd Hsub Hlen%Nat.ltb_ge c Hc.
  assert (length (Name <$> cs) <= length found)%nat as Hle by (by rewrite length_fmap).
  assert (found ≡ₚ Name <$> cs) as Hperm.
  { apply submseteq_length_Permutation; [by apply NoDup_submseteq|done]. }
  rewrite Hperm. apply list_elem_of_fmap. eauto.
Qed.

Lemma wp_clusterToStandalone mc l :
  wp (listedAnswer l) (CleanupDeploymentClusterToStandalone mc) (fun ws _ => Forall (standaloneWrite mc l) ws).
Proof.
  unfold CleanupDeploymentClusterToStandalone. case_if_bool; [by apply wp_ret_writes|].
  apply orb_false_iff in E as [Hmode%negb_false_iff%bool_decide_eq_true Hman].
  apply wp_bind, wp_wrap, wp_read; [intros e; constructor|]. intros b Hb. simpl in Hb. subst b. cbv zeta. simpl app.
  destruct (filter (fun d => expectedDeployment mc d = false) l) as [|d0 ds] eqn:Edel; [by apply wp_ret_writes|].
  rewrite <- Edel. case_if_bool; [by apply wp_ret_writes|].
  apply orb_false_iff in E as [Hlen Hready%negb_false_iff]. rewrite forallb_forall in Hready.
  apply wp_forEach. intros d Hd. apply list_elem_of_filter in Hd as [Hexp Hl].
  apply wp_deleteIgnoring. split; [done|]. split; [done|]. split; [done|]. split.
  - intros c Hc. split.
    + intros Hname. assert (expectedDeployment mc d = true); [|congruence].
      apply containsComponent_spec. eauto.
    + assert (Name c ∈ (fun d => mget (dep_Labels d) AppLabelComponent) <$>
                         filter (fun d => expectedDeployment mc d = true) l) as Hin.
      { apply elem_of_remove_dups. revert Hc. apply all_names_found; [apply NoDup_remove_dups| |done].
        intros x. rewrite elem_of_remove_dups, !list_elem_of_fmap. intros (e & -> & He).
        apply list_elem_of_filter in He as [(c' & Hc' & Hn)%containsComponent_spec _]. by exists c'. }
      apply list_elem_of_fmap in Hin as (e & He & Hin). apply list_elem_of_filter in Hin as [_ Hin]. by exists e.
  - intros c e Hc He Hname. apply Hready, list_elem_of_In, list_elem_of_filter. split; [|done].
    apply containsComponent_spec. eauto.
Qed.

(** Whatever fails, after a change to standalone the cluster's deployments
    are deleted only outside manual mode, only if they are of no component the
    resource still has, and only when every component it has is found among
    the listed deployments and all of those are ready. *)
Theorem cluster_removed_when_ready mc l tr o :
  exec (CleanupDeploymentClusterToStandalone mc) tr o -> Forall (event_ok (listedAnswer l)) tr ->
  Forall (standaloneWrite mc l) (writes tr).
Proof. intros Hex Hok. apply (wp_exec _ _ _ _ _ (wp_clusterToStandalone mc l) Hex Hok). Qed.

(** ** One deployment *)

Section OneDeploy.
Context (mc : Milvus) (component : MilvusComponent) (storageEndpointEnv : list EnvVar).
Context (old : Deployment) (pods : list Pod).

(** The deployment that is read is [old], the pods of the component are [pods]. *)
Definition oneDeployAnswer (B : Type) (r : kread B) : B -> Prop :=
  match r in kread B' return B' -> Prop with
  | GetDeployment _ _ => fun d => d = old
  | ListPods _ labels => fun l => labels = GetSelectorLabels component (mi_Name mc) -> l = pods
  | _ => fun _ => True
  end.

Definition image (d : Deployment) : string :=
  default "" (ct_Image <$> containerOf component (dsp_Template (dep_Spec d))).

(** What an update of the deployment may do to its pods. *)
Definition gatedUpdate (d : Deployment) : Prop :=
  (filterTerminatingPod pods <> [] -> dsp_Template (dep_Spec d) = dsp_Template (dep_Spec old)) /\
  (updatesImage mc component (getDeployReplicas d =? 0) = false -> image d = image old).

Definition oneDeployWrite (w : kwrite) : Prop :=
  match w with
  | UpdateDeployment d => gatedUpdate d
  | CreateDeployment _ | UpdatePod _ => True
  | UpdateMilvus _ => IsPodServiceLabelAdded mc = false /\ Is component MilvusStandalone = true
  | _ => False
  end.

Lemma withoutTemplate_template d d' :
  updateDeploymentWithoutPodTemplate mc component d = Some d' ->
  dsp_Template (dep_Spec d') = dsp_Template (dep_Spec d) /\ dsp_Selector (dep_Spec d') = dsp_Selector (dep_Spec d).
Proof.
  unfold updateDeploymentWithoutPodTemplate. intros (spec & _ & H)%bind_Some.
  apply bind_Some in H as (st & _ & [= <-]). destruct (com_EnableManualMode _); [done|].
  unfold updateDeploymentReplicas. repeat case_if_bool; done.
Qed.

(** The labels and annotations of [updateDeployment] leave the rest alone. *)
Lemma updateDeployment_image spec sidecars d :
  mergedSpec mc component = Some spec -> GetSideCars component (mi_Spec mc) = Some sidecars ->
  Name component ∉ ct_Name <$> sidecars -> dsp_Selector (dep_Spec old) <> ∅ ->
  updateDeployment mc component storageEndpointEnv old = Some (inr d) ->
  updatesImage mc component (getDeployReplicas d =? 0) = false -> image d = image old.
Proof.
  intros Hspec Hside Hn Hsel H Himg. unfold updateDeployment in H.
  set (d0 := match DeploymentGroupOf component with Some _ => _ | None => _ end) in H.
  assert (dep_Spec d0 = dep_Spec old) as Hd0 by (subst d0; by destruct (DeploymentGroupOf component)).
  destruct (SetControllerReference _ _) as [meta|]; [|done]. cbv zeta in H. simpl in H.
  rewrite Hd0, bool_decide_eq_false_2 in H by done. apply bind_Some in H as (d1 & Hd1 & H).
  apply withoutTemplate_template in Hd1 as [Htemp _]. simpl in Htemp. rewrite Hd0 in Htemp.
  apply bind_Some in H as (t & Ht & [= <-]). rewrite Htemp in Ht.
  destruct (render_container_spec _ _ _ _ _ _ _ _ _ Hspec Hside Hn Ht) as (c & Hc & Hr & _).
  unfold image. simpl. rewrite Hc. simpl. simpl in Hr. unfold getDeployReplicas in Himg. simpl in Himg.
  unfold getDeployReplicas in Hr. by rewrite Himg in Hr.
Qed.

Lemma wp_reconciler_updateDeployment spec sidecars :
  mergedSpec mc component = Some spec -> GetSideCars component (mi_Spec mc) = Some sidecars ->
  Name component ∉ ct_Name <$> sidecars -> dsp_Selector (dep_Spec old) <> ∅ ->
  wp oneDeployAnswer (reconciler_updateDeployment storageEndpointEnv mc old component)
    (fun ws o => ws = [] /\ forall d, o = ORet d -> gatedUpdate d).
Proof.
  intros Hspec Hside Hn Hsel. unfold reconciler_updateDeployment, CheckComponentHasTerminatingPod.
  apply wp_bind, wp_wrap, wp_bind, wp_read; [done|]. intros l Hl. simpl in Hl. rewrite (Hl eq_refl). clear Hl l.
  apply wp_ret. simpl app. destruct (filterTerminatingPod pods) as [|p ps] eqn:Epods.
  - apply wp_bind, wp_deref; [done|]. intros [msg|d] Hd; simpl; [by apply wp_fail|].
    apply wp_ret. split; [done|]. intros d' [= <-]. split; [done|]. by eapply updateDeployment_image.
  - apply wp_deref; [done|]. intros d [Ht _]%withoutTemplate_template. split; [done|]. intros d' [= <-].
    split; [done|]. intros _. unfold image. by rewrite Ht.
Qed.

Lemma wp_handleOldInstance :
  wp oneDeployAnswer (handleOldInstanceChangingMode mc component) (fun ws _ => Forall oneDeployWrite ws).
Proof.
  unfold handleOldInstanceChangingMode. case_if_bool; [|by apply wp_ret_writes].
  apply andb_true_iff in E as [[Hadd%negb_true_iff _]%andb_true_iff Hst].
  apply wp_then.
  - apply wp_wrap_writes. unfold labelServicePods. apply wp_forEach. intros c _. writes_steps.
    apply wp_forEach. intros p _. unfold labelServicePod. by writes_steps.
  - intros _. writes_steps. done.
Qed.

(** C20. One deployment per component: whatever fails, no deployment is deleted;
    an existing deployment keeps its pod template while a pod of the component
    is terminating; and its image changes only when the image gate is open:
    rolling updates off, a forced mode, no replicas left, or every component it
    depends on updated. *)
Theorem one_deploy_gated spec sidecars tr o :
  exec (ReconcileComponentDeployment storageEndpointEnv mc component) tr o ->
  Forall (event_ok oneDeployAnswer) tr ->
  mergedSpec mc component = Some spec -> GetSideCars component (mi_Spec mc) = Some sidecars ->
  Name component ∉ ct_Name <$> sidecars -> dsp_Selector (dep_Spec old) <> ∅ ->
  Forall oneDeployWrite (writes tr).
Proof.
  intros Hex Hok Hspec Hside Hn Hsel.
  refine (wp_exec oneDeployAnswer _ (fun ws _ => Forall oneDeployWrite ws) _ _ _ Hex Hok).
  unfold ReconcileComponentDeployment. apply wp_bind, wp_attempt, wp_read.
  - intros e. case_if_bool; [|by apply wp_fail_writes].
    unfold reconciler_updateDeployment, CheckComponentHasTerminatingPod. by writes_steps.
  - intros d Hd. simpl in Hd. subst d. apply wp_then; [apply wp_handleOldInstance|]. intros _. apply wp_bind.
    eapply wp_mono; [|by eapply wp_reconciler_updateDeployment].
    intros ws [cur|e|] [-> Hcur]; [|done..]. simpl app. case_if_bool; [by apply wp_ret_writes|].
    apply wp_one_write. by apply Hcur.
Qed.
End OneDeploy.

(** ** All workloads *)

(** [tried ws tr errs]: the calls [tr] are those of the workloads [ws], one
    after the other and each to its end, and [errs] are the errors they ended
    in. *)
Fixpoint tried (f : MilvusComponent -> prog unit) (ws : list MilvusComponent) (tr : list event) (errs : list err)
    : Prop :=
  match ws with
  | [] => tr = [] /\ errs = []
  | w :: ws' =>
      exists tr1 tr2, tr = tr1 ++ tr2 /\
        ((exec (f w) tr1 (ORet tt) /\ tried f ws' tr2 errs) \/
         (exists e errs', exec (f w) tr1 (OFail e) /\ errs = e :: errs' /\ tried f ws' tr2 errs'))
  end.

Lemma exec_workloads env pick mc ws : forall errs tr o,
  exec (reconcileWorkloads env pick mc ws errs) tr o ->
  o = OPanic \/ exists errs', o = ORet (errs ++ errs') /\ tried (reconcileWorkload env pick mc) ws tr errs'.
Proof.
  induction ws as [|w ws IH]; intros errs tr o; cbn [reconcileWorkloads tried].
  - intros [-> ->]. right. exists []. by rewrite app_nil_r.
  - intros (tr1 & o1 & tr2 & -> & (o0 & H0 & ->)%exec_attempt & H)%exec_bind.
    destruct o0 as [[]|e|]; [| |left; by destruct H].
    + destruct (IH _ _ _ H) as [?|(errs' & -> & Ht)]; [by left|]. right. exists errs'. split; [done|].
      exists tr1, tr2. split; [done|]. by left.
    + destruct (IH _ _ _ H) as [?|(errs' & -> & Ht)]; [by left|]. right. exists (e :: errs').
      rewrite <- app_assoc. split; [done|]. exists tr1, tr2. split; [done|]. right. by exists e, errs'.
Qed.

Lemma deploymentsError_requeue errs :
  errors_Is (deploymentsError errs) ErrRequeue = true <-> exists e, e ∈ errs /\ errors_Is e ErrRequeue = true.
Proof.
  unfold deploymentsError. destruct (list_find _ errs) as [[i e]|] eqn:Ef.
  - apply list_find_Some in Ef as (Hi & He & _). simpl. rewrite He. split; [|done]. intros _. exists e.
    split; [by eapply list_elem_of_lookup_2|done].
  - apply list_find_None in Ef. rewrite Forall_forall in Ef. simpl. split; [done|]. intros (e & Hin & He).
    by destruct (Ef e Hin).
Qed.

(** One workload's failure does not keep the others from being reconciled:
    unless one panics, each workload is reconciled to its own end in the order
    of the component table, the errors are exactly those of the workloads that
    failed, and the combined error asks for a requeue exactly if one of them
    does. *)
Theorem workloads_independent env pick mc ws tr o :
  exec (reconcileWorkloads env pick mc ws []) tr o ->
  o = OPanic \/
  exists errs, o = ORet errs /\ tried (reconcileWorkload env pick mc) ws tr errs /\
    (errors_Is (deploymentsError errs) ErrRequeue = true <-> exists e, e ∈ errs /\ errors_Is e ErrRequeue = true).
Proof.
  intros [?|(errs & -> & Ht)]%exec_workloads; [by left|]. right. exists errs. split; [done|]. split; [done|].
  apply deploymentsError_requeue.
Qed.
End Cleanup.

(** ** Witnesses *)
Section Witnesses.
#[local] Existing Instances concreteSemver concreteUnstructured concreteIntStr concreteKubeLib concreteOwnerLaws.
#[local] Existing Instances exDecode exDecodeKafka exMarshal exOperatorImage exClaimLib.

Definition exMessages : KubeMessages := {| kerr_Error _ := "kube error" |}.
#[local] Existing Instance exMessages.

(** A server with the given deployments, where nothing else is found. *)
Definition exDepServer (l : list Deployment) : handler unit :=
  mkHandler
    (fun B (r : kread B) _ =>
       match r in kread B' return kerr + B' with
       | ListDeployments ns labels => inr l
       | GetDeployment ns name =>
           match list_find (fun d => dep_Name d = name) l with Some (_, d) => inr d | None => inl KNotFound end
       | ListPods ns labels => inr []
       | _ => inl KNotFound
       end)
    (fun _ s => (inr tt, s)).

Lemma exDep_exec {A} l (p : prog A) :
  exec p (snd (fst (run (exDepServer l) p tt))) (snd (run (exDepServer l) p tt)).
Proof. apply run_exec. Qed.
Definition exDepWrites (l : list Deployment) (p : prog unit) : list kwrite :=
  writes (snd (fst (run (exDepServer l) p tt))).
Lemma exDep_listed {A} l (p : prog A) : Forall (event_ok (listedAnswer l)) (snd (fst (run (exDepServer l) p tt))).
Proof. apply run_event_ok. intros B r s b. destruct r; try done. by intros [= <-]. Qed.

Definition exCondition : DeploymentCondition := mkDCond DeploymentAvailableType ConditionTrue "" "" 0 0.
Definition exReady (d : Deployment) : Deployment := set_dep_Conditions d [exCondition].

(** Slot 0 of the query node serves, a deployment of a group is left over. *)
Definition exStale : Deployment :=
  let d := exDeployment "1" "milvus" 1 in set_dep_Labels d (<[DeploymentGroupLabel := "g"]> (dep_Labels d)).
Definition exStaleList : list Deployment := [exReady (exDeployment "0" "milvus" 2); exStale].
Definition exCurrentMilvus : Milvus := SetCurrentGroupID (exMilvus 2) "querynode" 0.

Lemma stale_groups_gated_witness :
  Forall (staleWrite exCurrentMilvus exStaleList)
    (exDepWrites exStaleList (cleanupStaleDeploymentGroups exCurrentMilvus)) /\
  length (exDepWrites exStaleList (cleanupStaleDeploymentGroups exCurrentMilvus)) = 1%nat.
Proof.
  split; [|by vm_compute].
  exact (stale_groups_gated exCurrentMilvus exStaleList _ _
           (exDep_exec exStaleList (cleanupStaleDeploymentGroups exCurrentMilvus)) (exDep_listed _ _)).
Defined.

(** Standalone is ready, the query node of the cluster is left over. *)
Definition exStandaloneMilvus : Milvus :=
  let m := exMilvus 1 in
  set_mi_Spec m (mkSpec MilvusModeStandalone (spec_Com (mi_Spec m)) (spec_Dep (mi_Spec m)) None None).
Definition exStandaloneList : list Deployment :=
  [exReady (set_dep_Labels (exDeployment "0" "milvus" 1) (GetSelectorLabels MilvusStandalone "mi"));
   exDeployment "1" "milvus" 1].

Lemma cluster_removed_when_ready_witness :
  Forall (standaloneWrite exStandaloneMilvus exStandaloneList)
    (exDepWrites exStandaloneList (CleanupDeploymentClusterToStandalone exStandaloneMilvus)) /\
  length (exDepWrites exStandaloneList (CleanupDeploymentClusterToStandalone exStandaloneMilvus)) = 1%nat.
Proof.
  split; [|by vm_compute].
  exact (cluster_removed_when_ready exStandaloneMilvus exStandaloneList _ _
           (exDep_exec exStandaloneList (CleanupDeploymentClusterToStandalone exStandaloneMilvus)) (exDep_listed _ _)).
Defined.

(** The single deployment of the query node. *)
Definition exOneDeploy : Deployment :=
  let d := exDeployment "0" "milvusdb/milvus:v2.4.0" 1 in
  set_dep_Meta d (mkMeta "mi-milvus-querynode" "ns" (dep_Labels d) ∅ 1 "uid-0" "1"
                    [mkOwner "Milvus" "mi" "uid-mi" true] None []).

Lemma exDep_one {A} old (p : prog A) :
  Forall (event_ok (oneDeployAnswer (exMilvus 2) QueryNode old [])) (snd (fst (run (exDepServer [old]) p tt))).
Proof.
  apply run_event_ok. intros B r s b. destruct r; try done; simpl.
  - by intros [= <-].
  - destruct (decide (dep_Name old = name)); [by intros [= <-]|done].
Qed.

Lemma one_deploy_gated_witness :
  let p := ReconcileComponentDeployment [] (exMilvus 2) QueryNode in
  Forall (oneDeployWrite (exMilvus 2) QueryNode exOneDeploy []) (exDepWrites [exOneDeploy] p) /\
  length (exDepWrites [exOneDeploy] p) = 1%nat.
Proof.
  split; [|by vm_compute].
  assert (exists spec, mergedSpec (exMilvus 2) QueryNode = Some spec) as [spec Hspec] by (vm_compute; eexists; reflexivity).
  refine (one_deploy_gated (exMilvus 2) QueryNode [] exOneDeploy [] spec [] _ _
            (exDep_exec [exOneDeploy] (ReconcileComponentDeployment [] (exMilvus 2) QueryNode))
            (exDep_one _ _) Hspec _ (not_elem_of_nil _) _).
  - by vm_compute.
  - assert (mget (dsp_Selector (dep_Spec exOneDeploy)) AppLabelComponent = "querynode") as Hl by (vm_compute; reflexivity).
    intros Heq. rewrite Heq in Hl. by vm_compute in Hl.
Defined.

(** No deployment exists: the query node and the data node are created. *)
Definition exReconcileAll : prog (list err) := reconcileWorkloads [] head (exMilvus 2) [QueryNode; DataNode] [].

Lemma workloads_independent_witness : exists errs,
  snd (run (exDepServer []) exReconcileAll tt) = ORet errs /\ length errs = 2%nat /\
  tried (reconcileWorkload [] head (exMilvus 2)) [QueryNode; DataNode]
    (snd (fst (run (exDepServer []) exReconcileAll tt))) errs.
Proof.
  assert (match snd (run (exDepServer []) exReconcileAll tt) with ORet errs => length errs | _ => 0%nat end = 2%nat)
    as Hlen by (vm_compute; reflexivity).
  destruct (workloads_independent [] head (exMilvus 2) [QueryNode; DataNode] _ _ (exDep_exec [] exReconcileAll))
    as [Hp|(errs & Ho & Ht & _)]; [by rewrite Hp in Hlen|].
  rewrite Ho in Hlen. by exists errs.
Defined.

(** ** Index nodes of the two-deployment mode *)

(** An update to 2.6 whose proxy has been rolled out. *)
Definition exUpgraded : Milvus :=
  let image := "milvusdb/milvus:v2.6.0" in
  let m := exMilvus 1 in
  mkMilvus (mi_Meta m) (set_spec_Com (mi_Spec m) (exComOf image 1))
    (mkStatus StatusHealthy [] "" JNull
       {[ "proxy" := mkDeployStatus 1 image
                       (mkDStatus 1 1 1 1 1 0
                          [mkDCond DeploymentProgressingType ConditionTrue NewReplicaSetAvailableReason "" 0 0]) ]}
       ∅ RollingModeV3 1 image "").

Definition exIndexSlot : Deployment :=
  let d := exDeployment "0" "milvusdb/milvus:v2.5.4" 1 in
  set_dep_Meta d (mkMeta "mi-milvus-indexnode-0" "ns" (SetGroupIDStr "indexnode" (GetSelectorLabels IndexNode "mi") "0")
                    ∅ 1 "uid-0" "1" [mkOwner "Milvus" "mi" "uid-mi" true] None []).

(** The writes of a cleanup, as the names of the deployments it deletes and the
    resource it updates. *)
Definition deletedNames (ws : list kwrite) : list string :=
  omap (fun w => match w with DeleteDeployment d => Some (dep_Name d) | _ => None end) ws.
Definition updatedMilvus (ws : list kwrite) : option Milvus :=
  head (omap (fun w => match w with UpdateMilvus m => Some m | _ => None end) ws).

(** The update to 2.6 removes the index node from the resource; in the
    two-deployment mode its deployments are named after slots, and the cleanup,
    which deletes by the name without slot, leaves them running: neither this
    reconcile nor the cleanups of later ones delete any. *)
Theorem index_slots_survive :
  let ws := exDepWrites [exIndexSlot] (cleanupIndexNodeIfNeeded exUpgraded) in
  componentUsesTwoDeployments exUpgraded IndexNode = true /\
  dep_Name exIndexSlot = formatComponentDeployName IndexNode exUpgraded 0 /\
  (deletedNames ws = [] /\
   match updatedMilvus ws with
   | Some m =>
       com_IndexNode (mi_Com m) = None /\
       deletedNames (exDepWrites [exIndexSlot] (cleanupStaleDeploymentGroups m)) = [] /\
       deletedNames (exDepWrites [exIndexSlot] (CleanupDeploymentClusterToStandalone m)) = [] /\
       deletedNames (exDepWrites [exIndexSlot] (cleanupIndexNodeIfNeeded m)) = []
   | None => False
   end).
Proof. by vm_compute. Qed.
End Witnesses.
