(* ===== verification/Network.v ===== *)
(** * Services, ingresses and pod monitors

    pkg/controllers/services.go, ingress.go and podmonitor.go: the service that
    clients connect to, its ingress, and the monitor that scrapes the pods. *)
From S2P Require Import Prelude KubeTypes Libs ApiTypes Labels Effects Utils Components PodTemplate StatefulSets.

Local Open Scope string_scope.
Local Open Scope list_scope.
Local Open Scope Z_scope.

Definition MetricPath : string := "/metrics".
Definition EtcdMetricPortName : string := "client".

(** ** Services *)

Definition GetServiceType (c : MilvusComponent) (spec : MilvusSpec) : option string :=
  if Is c Proxy || Is c MilvusStandalone then sc_ServiceType <$> GetServiceComponent spec else Some "ClusterIP".

Section Network.
Context {US : Unstructured} {KL : KubeLib} {DC : Decode} {MO : MapOrder}.

Definition updateService (mc : Milvus) (service : Service) (component : MilvusComponent) : prog Service :=
  let meta := set_Labels (svc_Meta service) (MergeLabels [om_Labels (svc_Meta service); NewAppLabels (mi_Name mc)]) in
  match SetControllerReference (mi_Meta mc) meta with
  | None => Fail (ENew "already controlled")
  | Some meta =>
      ports ← deref (GetServicePorts component (mi_Spec mc));
      let selector := if IsPodServiceLabelAdded mc then NewServicePodLabels (mi_Name mc)
                      else NewComponentAppLabels (mi_Name mc) (Name component) in
      type ← deref (GetServiceType component (mi_Spec mc));
      sc ← deref (GetServiceComponent (mi_Spec mc));
      let policy := match sc_ServiceIPFamilyPolicy sc with Some p => Some p | None => svc_IPFamilyPolicy service end in
      let meta := set_Annotations (set_Labels meta (MergeLabels [om_Labels meta; sc_ServiceLabels sc]))
                    (MergeLabels [om_Annotations meta; sc_ServiceAnnotations sc]) in
      Ret (mkService meta type (svc_ClusterIP service) policy selector (MergeServicePort (svc_Ports service) ports)
             (svc_LoadBalancerIPs service))
  end.

Definition ReconcileComponentService (mc : Milvus) (component : MilvusComponent) : prog unit :=
  if negb (IsService component) then Ret tt
  else if Milvus_IsChangingMode mc && negb (IsPodServiceLabelAdded mc) then Ret tt
  else
    let name := GetServiceInstanceName (mi_Name mc) in
    r ← attempt (read (GetService (mi_Namespace mc) name));
    match r with
    | inl e =>
        if IsNotFound e then
          new ← updateService mc (newService name (mi_Namespace mc)) component;
          write (CreateService new)
        else Fail e
    | inr old =>
        cur ← updateService mc old component;
        if DeepEqual old cur then Ret tt else write (UpdateService cur)
    end.

Definition ReconcileServices (mc : Milvus) : prog unit :=
  wrap "reconcile milvus services"
    (ReconcileComponentService mc
       (if bool_decide (spec_Mode (mi_Spec mc) = MilvusModeCluster) then Proxy else MilvusStandalone)).

(** ** Ingresses *)

Definition Render (crd : ObjectMeta) (spec : MilvusIngress) : Ingress :=
  mkIngressObject
    (mkMeta (om_Name crd +:+ "-milvus") (om_Namespace crd) (ing_Labels spec) (ing_Annotations spec) 0 "" "" [] None [])
    (ing_IngressClassName spec)
    ((fun kv => (snd kv, fst kv)) <$> range (ing_TLSSecretRefs spec))
    ((fun host => mkIngressRule host "/" (GetServiceInstanceName (om_Name crd)) MilvusPort) <$> ing_Hosts spec)
    JNull.

Definition sameIngressSpec (a b : Ingress) : bool :=
  DeepEqual (ino_ClassName a, ino_TLS a, ino_Rules a) (ino_ClassName b, ino_TLS b, ino_Rules b).

Definition reconcileIngress (crd : ObjectMeta) (ingress : MilvusIngress) : prog unit :=
  let new := Render crd ingress in
  match SetControllerReference crd (ino_Meta new) with
  | None => Fail (EWrap "failed to set controller reference" (ENew "already controlled"))
  | Some meta =>
      let new := mkIngressObject meta (ino_ClassName new) (ino_TLS new) (ino_Rules new) (ino_Status new) in
      r ← attempt (read (GetIngress (om_Namespace crd) (om_Name crd +:+ "-milvus")));
      match r with
      | inl e =>
          if IsNotFound e then wrap "failed to create ingress" (write (CreateIngress new))
          else Fail (EWrap "failed to get ingress" e)
      | inr old =>
          if sameIngressSpec old new && DeepEqual (ino_Meta old) (ino_Meta new) then Ret tt
          else
            let meta := set_Annotations
                          (set_Labels (ino_Meta old)
                             (MergeLabels [om_Labels (ino_Meta old); om_Labels (ino_Meta new)]))
                          (MergeLabels [om_Annotations (ino_Meta old); om_Annotations (ino_Meta new)]) in
            wrap "failed to update ingress"
              (write (UpdateIngress (mkIngressObject meta (ino_ClassName new) (ino_TLS new) (ino_Rules new)
                                       (ino_Status old))))
      end
  end.

Definition ReconcileIngress (mc : Milvus) : prog unit :=
  sc ← deref (GetServiceComponent (mi_Spec mc));
  match sc_Ingress sc with None => Ret tt | Some ingress => reconcileIngress (mi_Meta mc) ingress end.

(** ** Pod monitors *)

Definition metricEndpoints (mc : Milvus) (interval : string) : list MetricsEndpoint :=
  let endpoint port := mkMetricsEndpoint true interval MetricPath port [] in
  let etcd := dep_Etcd (spec_Dep (mi_Spec mc)) in
  let helmPodMonitor := match etcd_InCluster etcd with
                        | Some ic => GetBoolValue (ic_Values ic) ["metrics"; "podMonitor"; "enabled"]
                        | None => false
                        end in
  [endpoint MetricPortName]
  ++ if negb (etcd_External etcd) && negb helmPodMonitor then [endpoint EtcdMetricPortName] else [].

Definition updatePodMonitor (mc : Milvus) (podmonitor : PodMonitor) : err + PodMonitor :=
  let appLabels := NewAppLabels (mi_Name mc) in
  let meta := set_Labels (pm_Meta podmonitor) (MergeLabels [om_Labels (pm_Meta podmonitor); appLabels]) in
  match SetControllerReference (mi_Meta mc) meta with
  | None => inl (ENew "already controlled")
  | Some meta =>
      let interval := if bool_decide (com_MetricInterval (mi_Com mc) = "") then "30s"
                      else com_MetricInterval (mi_Com mc) in
      let addedMetricLabels := range (com_MetricLabels (mi_Com mc)) in
      let desired := metricEndpoints mc interval in
      let endpoints := if negb (length (pm_Endpoints podmonitor) =? length desired)%nat then desired
                       else pm_Endpoints podmonitor in
      let relabel e := match addedMetricLabels with [] => me_MetricRelabelConfigs e | l => l end in
      let endpoints := (fun e => mkMetricsEndpoint (me_HonorLabels e) interval (me_Path e) (me_Port e) (relabel e))
                         <$> endpoints in
      inr (mkPodMonitor meta endpoints [mi_Namespace mc] (delete AppLabelManagedBy appLabels)
             [AppLabelInstance; AppLabelName; AppLabelComponent; DeploymentGroupLabel])
  end.

Definition ofSum {A} (x : err + A) : prog A := match x with inl e => Fail e | inr a => Ret a end.

Definition ReconcilePodMonitor (mc : Milvus) : prog unit :=
  if com_DisableMetric (mi_Com mc) then Ret tt
  else
    r ← attempt (read (GetPodMonitor (mi_Namespace mc) (mi_Name mc)));
    match r with
    | inl e =>
        if IsNoMatchError e then Ret tt
        else if IsNotFound e then
          new ← ofSum (updatePodMonitor mc (mkPodMonitor (newMeta (mi_Name mc) (mi_Namespace mc)) [] [] ∅ []));
          write (CreatePodMonitor new)
        else Fail e
    | inr old =>
        cur ← ofSum (updatePodMonitor mc old);
        if DeepEqual old cur then Ret tt else write (UpdatePodMonitor cur)
    end.
End Network.
