(* ===== verification/ConfigMaps.v ===== *)
(** * Configuration

    pkg/controllers/configmaps.go and the rest of kafka_secrets.go: the
    configuration of an instance is a template overlaid with the user's values
    and the addresses of the dependencies, written to config maps; credentials
    of Kafka stay in their Secret and only a checksum of them reaches the
    resource.

    The template and YAML are text/template and sigs.k8s.io/yaml: the interface
    [ConfigLib], where [None] is an error. *)
From S2P Require Import Prelude KubeTypes Libs ApiTypes UpgradeTypes Values Labels Sha256 Effects Utils Components PodTemplate.
From S2P Require Import KafkaSecrets Render Deployments.

Local Open Scope string_scope.
Local Open Scope list_scope.
Local Open Scope Z_scope.

(** [templatedConf]: the template of the configuration executed on a resource
    and unmarshalled; [YamlMarshal]; base64 of bytes, as encoding/json writes
    them. *)
Class ConfigLib := {
  templatedConf : Milvus -> option (list (string * json));
  YamlMarshal : list (string * json) -> option string;
  Base64 : string -> string
}.

Definition UserYaml : string := "user.yaml".
Definition HookYaml : string := "hook.yaml".
Definition KafkaCACertPath : string := KafkaCAMountPath +:+ "/" +:+ KafkaCACertKey.
Definition MqTypeConfigKey : string := "messageQueue".

Definition MsgStreamType_string (t : MsgStreamType) : string :=
  match t with
  | MsgStreamTypeUnset => ""
  | MsgStreamTypePulsar => "pulsar"
  | MsgStreamTypeKafka => "kafka"
  | MsgStreamTypeWoodPecker => "woodpecker"
  | MsgStreamTypeRocksMQ => "rocksmq"
  | MsgStreamTypeNatsMQ => "natsmq"
  | MsgStreamTypeCustom => "custom"
  end.

(** ** Secrets *)

(** The legacy keys of MinIO, or the keys of Silo when neither is there. *)
Definition storageSecretKeys (data : gmap string string) : option string * option string :=
  if bool_decide (data !! AccessKey = None) && bool_decide (data !! SecretKey = None)
  then (data !! "rootUser", data !! "rootPassword") else (data !! AccessKey, data !! SecretKey).

Definition getMinioAccessInfo (mc : Milvus) : prog (string * string) :=
  let ref := sto_SecretRef (dep_Storage (spec_Dep (mi_Spec mc))) in
  if bool_decide (ref = "") then Ret ("", "")
  else
    r ← attempt (read (GetSecret (mi_Namespace mc) ref));
    Ret (match r with inl _ => ("", "") | inr data => let '(ak, sk) := storageSecretKeys data in (default "" ak, default "" sk) end).

Record kafkaSecret := mkKafkaSecret { ks_Username : string; ks_Password : string; ks_CACert : string }.

Definition getKafkaSecret (mc : Milvus) : prog kafkaSecret :=
  let ref := kaf_SecretRef (dep_Kafka (spec_Dep (mi_Spec mc))) in
  if bool_decide (ref = "") then Ret (mkKafkaSecret "" "" "")
  else
    let key := mi_Namespace mc +:+ "/" +:+ ref in
    data ← wrap ("get kafka sasl secret[" +:+ key +:+ "]") (read (GetSecret (mi_Namespace mc) ref));
    match list_find (fun required => mget data required = "") [KafkaSaslUsernameKey; KafkaSaslPasswordKey] with
    | Some (_, required) => Fail (ENew ("kafka sasl secret[" +:+ key +:+ "] has no [" +:+ required +:+ "] key"))
    | None => Ret (mkKafkaSecret (mget data KafkaSaslUsernameKey) (mget data KafkaSaslPasswordKey)
                     (mget data KafkaCACertKey))
    end.

Definition kafkaSecretReader (namespace name key : string) : prog string :=
  data ← read (GetSecret namespace name);
  if bool_decide (mget data key = "")
  then Fail (ENew ("kafka Secret " +:+ namespace +:+ "/" +:+ name +:+ " missing or empty key " +:+ key))
  else Ret (mget data key).

Section Config.
Context {US : Unstructured} {KL : KubeLib} {DK : DecodeKafka} {JM : JsonMarshal} {CF : ConfigLib}.

(** ** Checksums *)

Definition refJson (r : SecretKeyReference) : json :=
  JObj [("name", JStr (ref_Name r)); ("key", JStr (ref_Key r)); ("namespace", JStr (ref_Namespace r))].

Fixpoint checksumEntries (refs : list (option SecretKeyReference)) : prog (list json) :=
  match refs with
  | [] => Ret []
  | None :: rest => checksumEntries rest
  | Some r :: rest =>
      data ← kafkaSecretReader (ref_Namespace r) (ref_Name r) (ref_Key r);
      entries ← checksumEntries rest;
      Ret (JObj [("Ref", refJson r); ("Value", JStr (Base64 data))] :: entries)
  end.

Definition kafkaSecretRefsChecksum (mc : Milvus) : prog string :=
  match parseKafkaSecretRefs mc with
  | (_, Some msg) => Fail (ENew msg)
  | (refs, None) =>
      entries ← checksumEntries (all refs);
      match entries with
      | [] => Ret ""
      | _ => Ret (CheckSum (string_bytes (default "" (Marshal (JArr entries)))))
      end
  end.

Definition isKafka (mc : Milvus) : bool :=
  bool_decide (dep_MsgStreamType (spec_Dep (mi_Spec mc)) = MsgStreamTypeKafka).

Definition saslCheckSum (s : kafkaSecret) : string :=
  CheckSum (string_bytes (ks_Username s +:+ ":" +:+ ks_Password s +:+ ":" +:+ ks_CACert s)).

(** The resource, which the caller goes on with, and the update of it. *)
Definition SyncKafkaSaslCheckSum (mc : Milvus) : prog Milvus :=
  let oldCheckSum := mget (mi_Annotations mc) KafkaSaslCheckSumAnnotation in
  newCheckSum ← (if isKafka mc && negb (bool_decide (kaf_SecretRef (dep_Kafka (spec_Dep (mi_Spec mc))) = ""))
                 then s ← getKafkaSecret mc; Ret (saslCheckSum s) else Ret "");
  newCheckSum ← (if isKafka mc then
                   sum ← kafkaSecretRefsChecksum mc;
                   Ret (if bool_decide (sum = "") then newCheckSum
                        else CheckSum (string_bytes (newCheckSum +:+ ":" +:+ sum)))
                 else Ret newCheckSum);
  if bool_decide (oldCheckSum = newCheckSum) then Ret mc
  else
    let mc := set_mi_Annotations mc
                (if bool_decide (newCheckSum = "") then delete KafkaSaslCheckSumAnnotation (mi_Annotations mc)
                 else <[KafkaSaslCheckSumAnnotation := newCheckSum]> (mi_Annotations mc)) in
    wrap "update kafka sasl checksum annotation" (write (UpdateMilvus mc)) ;; Ret mc.

(** ** The configuration *)

Definition SetValue (o : list (string * json)) (v : json) (fields : list string) : list (string * json) :=
  SetNestedField o v fields.
Definition SetStringSlice (o : list (string * json)) (v : list string) (fields : list string)
    : list (string * json) := SetNestedField o (JArr (JStr <$> v)) fields.

(** The paths of certificates that are referenced, in the configuration. *)
Definition certificatePaths (refs : KafkaSecretRefs) : list (string * string) :=
  omap (fun item => match item with (Some _, fp) => Some fp | (None, _) => None end)
    [(kr_CACertSecret refs, ("tlsCaCert", "/secrets/kafka/ssl/ca-cert"));
     (kr_CertSecret refs, ("tlsCert", "/secrets/kafka/ssl/tls.crt"));
     (kr_KeySecret refs, ("tlsKey", "/secrets/kafka/ssl/tls.key"))].

Definition set_mi_Conf (mc : Milvus) (conf : list (string * json)) : Milvus :=
  let s := mi_Spec mc in
  set_mi_Spec mc (mkSpec (spec_Mode s) (spec_Com s) (spec_Dep s) (Some conf) (spec_HookConf s)).

Definition renderKafkaCertPaths (mc : Milvus) (conf : list (string * json)) : string + list (string * json) :=
  match parseKafkaSecretRefs (set_mi_Conf mc conf) with
  | (_, Some msg) => inl msg
  | (refs, None) =>
      inr (fold_left (fun conf fp =>
                        SetValue (SetValue conf (JBool true) ["kafka"; "ssl"; "enabled"])
                          (JStr (snd fp)) ["kafka"; "ssl"; fst fp])
             (certificatePaths refs) conf)
  end.

(** The part of the configuration that depends on the message stream. *)
Definition messageStreamConf (mc : Milvus) (conf : list (string * json)) : prog (list (string * json)) :=
  let dep := spec_Dep (mi_Spec mc) in
  match dep_MsgStreamType dep with
  | MsgStreamTypeKafka =>
      let conf := SetStringSlice conf (elems (kaf_BrokerList (dep_Kafka dep))) ["kafka"; "brokerList"] in
      conf ← (if bool_decide (kaf_SecretRef (dep_Kafka dep) = "") then Ret conf
              else
                s ← getKafkaSecret mc;
                Ret (if bool_decide (ks_CACert s = "") then conf
                     else SetValue (SetValue conf (JBool true) ["kafka"; "ssl"; "enabled"])
                            (JStr KafkaCACertPath) ["kafka"; "ssl"; "tlsCaCert"]));
      match renderKafkaCertPaths mc conf with
      | inl msg => Fail (ENew msg)
      | inr conf => Ret (delete_key (delete_key conf "pulsar") "rocksmq")
      end
  | MsgStreamTypePulsar =>
      let '(host, port) := GetHostPort (default "" (head (Pulsar_GetEndpoints (dep_Pulsar dep)))) in
      let conf := SetValue (SetValue conf (JStr host) ["pulsar"; "address"]) (JNum port) ["pulsar"; "port"] in
      Ret (delete_key (delete_key conf "kafka") "rocksmq")
  | MsgStreamTypeRocksMQ =>
      let conf := match get_key conf "rocksmq" with
                  | None | Some JNull => set_key conf "rocksmq" (JObj [])
                  | Some _ => conf
                  end in
      Ret (delete_key (delete_key conf "pulsar") "kafka")
  | MsgStreamTypeWoodPecker =>
      conf ← (if wp_External (dep_WoodPecker dep) then
                match Marshal (poolsJson (wp_QuorumBufferPools (dep_WoodPecker dep))) with
                | None => Fail (EWrap "marshal woodpecker quorumBufferPools" (ENew "json"))
                | Some pools =>
                    Ret (SetValue (SetValue conf (JStr "service") ["woodpecker"; "storage"; "type"])
                           (JStr pools) ["woodpecker"; "client"; "quorum"; "quorumBufferPools"])
                end
              else Ret conf);
      Ret (delete_key (delete_key (delete_key conf "pulsar") "kafka") "rocksmq")
  | _ => Ret conf
  end.

(** [conf["mq"].(map[string]interface{})] panics on anything but an object. *)
Definition messageStreamType (mc : Milvus) (conf : list (string * json)) : prog (list (string * json)) :=
  let t := dep_MsgStreamType (spec_Dep (mi_Spec mc)) in
  if bool_decide (t = MsgStreamTypeCustom) then Ret conf
  else
    match get_key conf "mq" with
    | None | Some JNull | Some (JObj _) =>
        let mq := match get_key conf "mq" with Some (JObj mq) => mq | _ => [] end in
        let name := JStr (MsgStreamType_string t) in
        Ret (set_key (set_key conf "mq" (JObj (set_key mq "type" name))) MqTypeConfigKey name)
    | Some _ => Panic
    end.

Definition renderConf (mc : Milvus) : prog (list (string * json)) :=
  match templatedConf mc with
  | None => Fail (ENew "template")
  | Some conf =>
      let dep := spec_Dep (mi_Spec mc) in
      keys ← getMinioAccessInfo mc;
      let conf := SetValue conf (JStr (fst keys)) ["minio"; "accessKeyID"] in
      let conf := SetValue conf (JStr (snd keys)) ["minio"; "secretAccessKey"] in
      let conf := MergeValues conf (default [] (spec_Conf (mi_Spec mc))) in
      let conf := SetStringSlice conf (elems (etcd_Endpoints (dep_Etcd dep))) ["etcd"; "endpoints"] in
      let '(host, port) := GetStorageHostPort (sto_Endpoint (dep_Storage dep)) (GetMinioSecure (spec_Conf (mi_Spec mc))) in
      let conf := SetValue (SetValue conf (JStr host) ["minio"; "address"]) (JNum port) ["minio"; "port"] in
      conf ← messageStreamConf mc conf;
      messageStreamType mc conf
  end.

Definition updateConfigMap (mc : Milvus) (configmap : ConfigMap) : prog ConfigMap :=
  conf ← renderConf mc;
  match YamlMarshal conf with
  | None => Fail (ENew "yaml")
  | Some milvusYaml =>
      let meta := set_Labels (cm_Meta configmap) (MergeLabels [om_Labels (cm_Meta configmap); NewAppLabels (mi_Name mc)]) in
      match SetControllerReference (mi_Meta mc) meta with
      | None => Fail (ENew "already controlled")
      | Some meta =>
          let data := <[UserYaml := milvusYaml]> (cm_Data configmap) in
          match spec_HookConf (mi_Spec mc) with
          | None | Some [] => Ret (mkConfigMap meta data)
          | Some hook =>
              match YamlMarshal hook with
              | None => Fail (ENew "yaml")
              | Some hookYaml => Ret (mkConfigMap meta (<[HookYaml := hookYaml]> data))
              end
          end
      end
  end.

(** ** Config maps *)

#[export] Instance ConfigMap_eq_dec : EqDecision ConfigMap.
Proof. solve_decision. Defined.

(** A config map that is gone is created under the name of the active one. *)
Definition reconcileOneConfigMap (mc : Milvus) (namespace name : string) : prog unit :=
  r ← attempt (read (GetConfigMap namespace name));
  match r with
  | inl e =>
      if IsNotFound e then
        new ← updateConfigMap mc (mkConfigMap (StatefulSets.newMeta (GetActiveConfigMap mc) (mi_Namespace mc)) ∅);
        write (CreateConfigMap new)
      else Fail e
  | inr old =>
      cur ← updateConfigMap mc old;
      if DeepEqual old cur then Ret tt else write (UpdateConfigMap cur)
  end.

Definition ReconcileConfigMaps (mc : Milvus) : prog unit :=
  if com_EnableManualMode (mi_Com mc) then reconcileOneConfigMap mc (mi_Namespace mc) (GetActiveConfigMap mc)
  else
    items ← wrap "list configmaps" (read (ListConfigMaps (mi_Namespace mc) (NewAppLabels (mi_Name mc))));
    let items := match items with
                 | [] => [mkConfigMap (StatefulSets.newMeta (GetActiveConfigMap mc) (mi_Namespace mc)) ∅]
                 | _ => items
                 end in
    forEach (fun cm => wrap "reconcile configmap"
                         (reconcileOneConfigMap mc (om_Namespace (cm_Meta cm)) (om_Name (cm_Meta cm)))) items.
End Config.
