(* ===== verification/ConfigProofs.v ===== *)
(** * Properties of the configuration

    One message queue is configured, credentials of Kafka do not reach the
    config map, and the certificates it names are those that are mounted. *)
From S2P Require Import Prelude KubeTypes Libs ApiTypes UpgradeTypes Values Labels Sha256 Effects Utils Components PodTemplate.
From S2P Require Import DeployUtil KafkaSecrets Render RenderProofs Group Deployments ConfigMaps Examples DeploymentProofs.

Local Open Scope string_scope.
Local Open Scope list_scope.
Local Open Scope Z_scope.

Section Config.
Context {US : Unstructured} {KL : KubeLib} {DK : DecodeKafka} {JM : JsonMarshal} {CF : ConfigLib}.

(** ** One message queue *)

Definition queueKeys : list string := ["pulsar"; "kafka"; "rocksmq"].

(** The sections of the other queues are gone, and both names of the type are
    set. *)
Definition oneQueue (t : MsgStreamType) (conf : list (string * json)) : Prop :=
  (forall q, q ∈ queueKeys -> q <> MsgStreamType_string t -> get_key conf q = None) /\
  get_path (JObj conf) ["mq"; "type"] = Some (JStr (MsgStreamType_string t)) /\
  get_key conf MqTypeConfigKey = Some (JStr (MsgStreamType_string t)).

Definition exclusive (t : MsgStreamType) : bool :=
  match t with
  | MsgStreamTypeKafka | MsgStreamTypePulsar | MsgStreamTypeRocksMQ | MsgStreamTypeWoodPecker => true
  | _ => false
  end.

Lemma exclusive_no_queue mc conf tr conf' :
  exclusive (dep_MsgStreamType (spec_Dep (mi_Spec mc))) = true ->
  exec (messageStreamConf mc conf) tr (ORet conf') ->
  forall q, q ∈ queueKeys -> q <> MsgStreamType_string (dep_MsgStreamType (spec_Dep (mi_Spec mc))) ->
  get_key conf' q = None.
Proof.
  intros Hex H q Hq Hne. apply list_elem_of_In in Hq. simpl in Hq. unfold messageStreamConf in H.
  destruct (dep_MsgStreamType (spec_Dep (mi_Spec mc))) eqn:Et; try done; simpl in Hne.
  - destruct (GetHostPort _) as [host port]. destruct H as [_ [= ->]]. rewrite !get_delete_key.
    destruct Hq as [<-|[<-|[<-|[]]]]; done.
  - apply exec_bind in H as (tr1 & o1 & tr2 & -> & _ & H). destruct o1 as [c|e|]; [|by destruct H..].
    destruct (renderKafkaCertPaths mc c) as [msg|c']; [by destruct H|]. destruct H as [_ [= ->]].
    rewrite !get_delete_key. destruct Hq as [<-|[<-|[<-|[]]]]; done.
  - apply exec_bind in H as (tr1 & o1 & tr2 & -> & _ & H). destruct o1 as [c|e|]; [|by destruct H..].
    destruct H as [_ [= ->]]. rewrite !get_delete_key. destruct Hq as [<-|[<-|[<-|[]]]]; done.
  - destruct H as [_ [= ->]]. rewrite !get_delete_key. destruct Hq as [<-|[<-|[<-|[]]]]; done.
Qed.

Lemma messageStreamType_sets mc conf tr conf' :
  dep_MsgStreamType (spec_Dep (mi_Spec mc)) <> MsgStreamTypeCustom ->
  exec (messageStreamType mc conf) tr (ORet conf') ->
  let name := MsgStreamType_string (dep_MsgStreamType (spec_Dep (mi_Spec mc))) in
  get_path (JObj conf') ["mq"; "type"] = Some (JStr name) /\ get_key conf' MqTypeConfigKey = Some (JStr name) /\
  forall q, q ∈ queueKeys -> get_key conf' q = get_key conf q.
Proof.
  intros Hc H. unfold messageStreamType in H. rewrite bool_decide_eq_false_2 in H by done.
  set (name := JStr (MsgStreamType_string _)) in *.
  assert (exists mq, conf' = set_key (set_key conf "mq" (JObj (set_key mq "type" name))) MqTypeConfigKey name) as [mq ->].
  { exists (match get_key conf "mq" with Some (JObj mq) => mq | _ => [] end).
    destruct (get_key conf "mq") as [[]|]; destruct H as [_ H]; try done; by injection H as ->. }
  cbn [get_path]. rewrite !get_set_key. split; [|split; [done|]].
  - simpl. by rewrite get_set_key.
  - intros q Hq%list_elem_of_In. simpl in Hq. rewrite !get_set_key.
    destruct Hq as [<-|[<-|[<-|[]]]]; done.
Qed.

(** The last steps of rendering. *)
Lemma renderConf_steps mc tr conf : exec (renderConf mc) tr (ORet conf) ->
  exists c0 tr1 c tr2, exec (messageStreamConf mc c0) tr1 (ORet c) /\ exec (messageStreamType mc c) tr2 (ORet conf).
Proof.
  intros H. unfold renderConf in H. destruct (templatedConf mc) as [c0|]; [|by destruct H].
  apply exec_bind in H as (tr1 & [keys|e|] & tr2 & -> & _ & H); [|by destruct H..].
  destruct (GetStorageHostPort _ _) as [host port].
  apply exec_bind in H as (tr3 & [c|e|] & tr4 & -> & Hm & H); [|by destruct H..]. eauto 10.
Qed.

(** Whatever the template and the user's values contain, the rendered
    configuration of an instance on Kafka, Pulsar, RocksMQ or Woodpecker has no
    section of another of these queues, and names its queue under both keys
    that Milvus reads. *)
Theorem one_message_queue mc tr conf :
  exclusive (dep_MsgStreamType (spec_Dep (mi_Spec mc))) = true ->
  exec (renderConf mc) tr (ORet conf) -> oneQueue (dep_MsgStreamType (spec_Dep (mi_Spec mc))) conf.
Proof.
  intros Hx (c0 & tr1 & c & tr2 & Hm & H)%renderConf_steps.
  assert (dep_MsgStreamType (spec_Dep (mi_Spec mc)) <> MsgStreamTypeCustom) as Hc by (intros E; by rewrite E in Hx).
  destruct (messageStreamType_sets _ _ _ _ Hc H) as (Hmq & Hkey & Hq). split; [|done].
  intros q Hin Hne. rewrite Hq by done. by eapply exclusive_no_queue.
Qed.

(** ** Credentials *)

(** The Secret of Kafka holds [kafka], every other one [other]. *)
Definition secretsAre (mc : Milvus) (kafka other : gmap string string) (B : Type) (r : kread B) : B -> Prop :=
  match r in kread B' return B' -> Prop with
  | GetSecret _ name => fun b =>
      b = if bool_decide (name = kaf_SecretRef (dep_Kafka (spec_Dep (mi_Spec mc)))) then kafka else other
  | _ => fun _ => True
  end.

Lemma getKafkaSecret_CA mc kafka other tr s :
  kaf_SecretRef (dep_Kafka (spec_Dep (mi_Spec mc))) <> "" ->
  exec (getKafkaSecret mc) tr (ORet s) -> Forall (event_ok (secretsAre mc kafka other)) tr ->
  ks_CACert s = mget kafka KafkaCACertKey.
Proof.
  intros Hr H Hok. unfold getKafkaSecret in H. rewrite bool_decide_eq_false_2 in H by done. simpl in H.
  destruct H as ([e|data] & tr' & -> & H); [by destruct H|].
  apply Forall_cons in Hok as [Hd _]. simpl in Hd. rewrite bool_decide_eq_true_2 in Hd by done. subst data.
  simpl in H. repeat (case_decide; simpl in H; [by destruct H|]). destruct H as [_ [= ->]]. done.
Qed.

Lemma messageStreamConf_stable mc kafka1 kafka2 other conf tr1 tr2 c1 c2 :
  mget kafka1 KafkaCACertKey = mget kafka2 KafkaCACertKey ->
  exec (messageStreamConf mc conf) tr1 (ORet c1) -> Forall (event_ok (secretsAre mc kafka1 other)) tr1 ->
  exec (messageStreamConf mc conf) tr2 (ORet c2) -> Forall (event_ok (secretsAre mc kafka2 other)) tr2 -> c1 = c2.
Proof.
  intros Hca H1 Ok1 H2 Ok2. unfold messageStreamConf in *.
  destruct (dep_MsgStreamType (spec_Dep (mi_Spec mc))).
  2:{ destruct (GetHostPort _). destruct H1 as [_ [= ->]], H2 as [_ [= ->]]. done. }
  2:{ apply exec_bind in H1 as (t1 & [a1|e|] & t1' & -> & Ha1 & H1); [|by destruct H1..].
      apply exec_bind in H2 as (t2 & [a2|e|] & t2' & -> & Ha2 & H2); [|by destruct H2..].
      apply Forall_app in Ok1 as [Ok1 _]. apply Forall_app in Ok2 as [Ok2 _].
      assert (a1 = a2) as ->.
      { case_bool_decide as Hr; [by destruct Ha1 as [_ [= ->]], Ha2 as [_ [= ->]]|].
        apply exec_bind in Ha1 as (u1 & [s1|e|] & u1' & -> & Hs1 & Ha1); [|by destruct Ha1..].
        apply exec_bind in Ha2 as (u2 & [s2|e|] & u2' & -> & Hs2 & Ha2); [|by destruct Ha2..].
        apply Forall_app in Ok1 as [Ok1 _]. apply Forall_app in Ok2 as [Ok2 _].
        destruct Ha1 as [_ [= ->]], Ha2 as [_ [= ->]].
        by rewrite (getKafkaSecret_CA _ _ _ _ _ Hr Hs1 Ok1), (getKafkaSecret_CA _ _ _ _ _ Hr Hs2 Ok2), Hca. }
      destruct (renderKafkaCertPaths mc a2) as [msg|c]; [by destruct H1|].
      by destruct H1 as [_ [= ->]], H2 as [_ [= ->]]. }
  2:{ apply exec_bind in H1 as (t1 & [a1|e|] & t1' & -> & Ha1 & H1); [|by destruct H1..].
      apply exec_bind in H2 as (t2 & [a2|e|] & t2' & -> & Ha2 & H2); [|by destruct H2..].
      destruct H1 as [_ [= ->]], H2 as [_ [= ->]]. do 3 f_equal. repeat (case_match; try by destruct Ha1).
      all: by destruct Ha1 as [_ [= ->]], Ha2 as [_ [= ->]]. }
  all: by destruct H1 as [_ [= ->]], H2 as [_ [= ->]].
Qed.

Lemma getMinio_value mc kafka other tr keys :
  sto_SecretRef (dep_Storage (spec_Dep (mi_Spec mc))) <> kaf_SecretRef (dep_Kafka (spec_Dep (mi_Spec mc))) ->
  exec (getMinioAccessInfo mc) tr (ORet keys) -> Forall (event_ok (secretsAre mc kafka other)) tr -> no_failure tr ->
  keys = if bool_decide (sto_SecretRef (dep_Storage (spec_Dep (mi_Spec mc))) = "") then ("", "")
         else (default "" (fst (storageSecretKeys other)), default "" (snd (storageSecretKeys other))).
Proof.
  intros Hne H Hok Hf. unfold getMinioAccessInfo in H. case_bool_decide; [by destruct H as [_ [= ->]]|].
  simpl in H. destruct H as ([e|data] & tr' & -> & H); [done|].
  apply Forall_cons in Hok as [Hd _]. simpl in Hd. rewrite bool_decide_eq_false_2 in Hd by done. subst data.
  destruct H as [_ H]. simplify_eq. by destruct (storageSecretKeys other).
Qed.

(** The credentials of Kafka do not reach the configuration: two renders that
    read Secrets with different user names and passwords but the same
    certificate give the same configuration, as long as the storage has a
    Secret of its own. *)
Theorem kafka_credentials_stay mc kafka1 kafka2 other tr1 tr2 conf1 conf2 :
  sto_SecretRef (dep_Storage (spec_Dep (mi_Spec mc))) <> kaf_SecretRef (dep_Kafka (spec_Dep (mi_Spec mc))) ->
  mget kafka1 KafkaCACertKey = mget kafka2 KafkaCACertKey ->
  exec (renderConf mc) tr1 (ORet conf1) -> Forall (event_ok (secretsAre mc kafka1 other)) tr1 -> no_failure tr1 ->
  exec (renderConf mc) tr2 (ORet conf2) -> Forall (event_ok (secretsAre mc kafka2 other)) tr2 -> no_failure tr2 ->
  conf1 = conf2.
Proof.
  intros Hne Hca H1 Ok1 Hf1 H2 Ok2 Hf2. unfold renderConf in *. destruct (templatedConf mc) as [c0|]; [|by destruct H1].
  apply exec_bind in H1 as (t1 & [k1|e|] & t1' & -> & Hk1 & H1); [|by destruct H1..].
  apply exec_bind in H2 as (t2 & [k2|e|] & t2' & -> & Hk2 & H2); [|by destruct H2..].
  apply Forall_app in Ok1 as [Ok1 Ok1']. apply Forall_app in Ok2 as [Ok2 Ok2'].
  unfold no_failure in *. rewrite forallb_app in Hf1, Hf2.
  apply andb_true_iff in Hf1 as [Hf1 _]. apply andb_true_iff in Hf2 as [Hf2 _].
  assert (k1 = k2) as ->.
  { by rewrite (getMinio_value _ _ _ _ _ Hne Hk1 Ok1 Hf1), (getMinio_value _ _ _ _ _ Hne Hk2 Ok2 Hf2). }
  destruct (GetStorageHostPort _ _) as [host port].
  apply exec_bind in H1 as (u1 & [a1|e|] & u1' & -> & Ha1 & H1); [|by destruct H1..].
  apply exec_bind in H2 as (u2 & [a2|e|] & u2' & -> & Ha2 & H2); [|by destruct H2..].
  apply Forall_app in Ok1' as [Ok1' _]. apply Forall_app in Ok2' as [Ok2' _].
  assert (a1 = a2) as -> by by eapply messageStreamConf_stable.
  unfold messageStreamType in *. case_bool_decide; [by destruct H1 as [_ [= ->]], H2 as [_ [= ->]]|].
  destruct (get_key a2 "mq") as [[]|]; destruct H1 as [_ H1], H2 as [_ H2]; try done; congruence.
Qed.

(** ** Certificates *)

Lemma certificate_paths_sources refs field path :
  (field, path) ∈ certificatePaths refs ->
  exists name key file, (name, key, file) ∈ certificateSources refs /\ path = kafkaSslMountPath +:+ "/" +:+ file.
Proof.
  unfold certificatePaths, certificateSources.
  destruct (kr_CACertSecret refs) as [r1|], (kr_CertSecret refs) as [r2|], (kr_KeySecret refs) as [r3|]; simpl;
    rewrite ?elem_of_cons, ?elem_of_nil; intros Hin;
    repeat match goal with H0 : _ \/ _ |- _ => destruct H0 as [H0|H0] end; try done; simplify_eq;
    eexists _, _, _; (split; [|reflexivity]); rewrite ?elem_of_cons; eauto.
Qed.

Lemma find_by_elem {A} (key : A -> string) k l x : find_by key k l = Some x -> x ∈ l.
Proof.
  induction l as [|y l IH]; [done|]. simpl. case_decide; [intros [= ->]; by apply elem_of_cons; left|].
  intros Hf. apply elem_of_cons. right. by apply IH.
Qed.

Lemma putR_elem {A} (key : A -> string) x l : x ∈ putR key x l.
Proof.
  apply (find_by_elem key (key x)). rewrite find_putR. by rewrite decide_True.
Qed.

(** Every certificate path that the configuration names is mounted: the
    template of a component on Kafka has, at the directory of these paths, a
    volume that is none of the user's and that projects each referenced Secret
    key to the file of its path. *)
Theorem certificates_mounted component mc t previous users c field path :
  containerOf component t = Some c ->
  dep_MsgStreamType (spec_Dep (mi_Spec mc)) = MsgStreamTypeKafka ->
  (field, path) ∈ certificatePaths (fst (parseKafkaSecretRefs mc)) ->
  let t' := injectKafkaSecretsIntoTemplate t previous mc (Name component) users in
  exists c' m v sources name key file,
    containerOf component t' = Some c' /\ m ∈ ct_VolumeMounts c' /\ v ∈ ps_Volumes (pt_Spec t') /\
    vm_Name m = vol_Name v /\ vol_Name v ∉ userVolumeNames users /\
    vol_Source v = VProjected sources (Some 420) /\ (name, key, file) ∈ sources /\
    path = vm_MountPath m +:+ "/" +:+ file.
Proof.
  intros Hc Hk Hp. cbv zeta. destruct (certificate_paths_sources _ _ _ Hp) as (name & key & file & Hs & Hpath).
  unfold injectKafkaSecretsIntoTemplate. rewrite (bool_decide_eq_true_2 _ Hk).
  unfold containerOf, containerIn in Hc.
  destruct (keyIndex ct_Name (ps_Containers (pt_Spec t)) (Name component) <? 0) eqn:E;
    [by rewrite (find_by_absent _ _ _ E) in Hc|].
  rewrite !containerIndex_key, E, (lookup_keyIndex ct_Name) by done. rewrite Hc.
  destruct (certificateSources _) as [|s0 ss] eqn:Es; [by apply not_elem_of_nil in Hs|].
  set (volumeName := freeVolumeName _ _ _). pose proof (find_by_key _ _ _ _ Hc) as Hn.
  eexists _, (mkMount volumeName true kafkaSslMountPath ""), (mkVolume volumeName (VProjected (s0 :: ss) (Some 420))),
    (s0 :: ss), name, key, file.
  split; [|split; [|split; [|split; [done|split; [|split; [done|split; [done|done]]]]]]].
  - unfold containerOf, containerIn. simpl. rewrite (insert_keyIndex ct_Name) by done. rewrite find_putR.
    by rewrite decide_True.
  - simpl. unfold addVolumeMount. change (GetVolumeMountIndex ?l ?k) with (keyIndex vm_MountPath l k).
    rewrite (put_putR vm_MountPath _ (mkMount volumeName true kafkaSslMountPath "")). apply putR_elem.
  - simpl. unfold addVolume. change (GetVolumeIndex ?l ?k) with (keyIndex vol_Name l k).
    rewrite (put_putR vol_Name _ (mkVolume volumeName (VProjected (s0 :: ss) (Some 420)))). apply putR_elem.
  - apply freeVolumeName_free.
Qed.
End Config.

(** ** Witnesses *)
Section Witnesses.
#[local] Existing Instances concreteUnstructured concreteKubeLib exDecodeKafka exMarshal.

Definition exConfig : ConfigLib := {|
  templatedConf m := Some [("etcd", JObj [("rootPath", JStr (mi_Name m))]); ("pulsar", JObj [("address", JStr "a")])];
  YamlMarshal o := Some "yaml";
  Base64 s := s
|}.
#[local] Existing Instance exConfig.

(** The instance of [exKafkaMilvus] with credentials in a Secret. *)
Definition exSaslMilvus : Milvus :=
  let s := mi_Spec exKafkaMilvus in
  let dep := spec_Dep s in
  set_mi_Spec exKafkaMilvus
    (mkSpec (spec_Mode s) (spec_Com s)
       (mkDep (dep_Etcd dep) MsgStreamTypeKafka (dep_Pulsar dep) (mkKafka None true (Some ["kafka:9092"]) "sasl")
          (dep_WoodPecker dep) (dep_RocksMQ dep) (dep_NatsMQ dep) (dep_Storage dep) (dep_Tei dep)
          (dep_CustomMsgStream dep)) (spec_Conf s) None).

Definition exKafkaSecret (username password : string) : gmap string string :=
  {[ KafkaSaslUsernameKey := username; KafkaSaslPasswordKey := password; KafkaCACertKey := "ca" ]}.

Definition exSecretServer (kafka : gmap string string) (cms : list string) : handler unit :=
  mkHandler
    (fun B (r : kread B) _ =>
       match r in kread B' return kerr + B' with
       | GetSecret ns name => inr (if bool_decide (name = "sasl") then kafka else ∅)
       | ListConfigMaps ns labels => inr ((fun n => mkConfigMap (StatefulSets.newMeta n ns) ∅) <$> cms)
       | GetConfigMap ns name =>
           if bool_decide (name ∈ cms) then inr (mkConfigMap (StatefulSets.newMeta name ns) ∅) else inl KNotFound
       | _ => inl KNotFound
       end)
    (fun _ s => (inr tt, s)).

Lemma exSecret_exec {A} kafka cms (p : prog A) :
  exec p (snd (fst (run (exSecretServer kafka cms) p tt))) (snd (run (exSecretServer kafka cms) p tt)).
Proof. apply run_exec. Qed.

Lemma exSecret_ok {A} kafka cms (p : prog A) :
  Forall (event_ok (secretsAre exSaslMilvus kafka ∅)) (snd (fst (run (exSecretServer kafka cms) p tt))).
Proof. apply run_event_ok. intros B r s b. destruct r; try done. simpl. by intros [= <-]. Qed.

Definition exConf (kafka : gmap string string) : list (string * json) :=
  match snd (run (exSecretServer kafka []) (renderConf exSaslMilvus) tt) with ORet c => c | _ => [] end.

Definition exRun (kafka : gmap string string) : list event :=
  snd (fst (run (exSecretServer kafka []) (renderConf exSaslMilvus) tt)).

Lemma exConf_exec kafka :
  match snd (run (exSecretServer kafka []) (renderConf exSaslMilvus) tt) with ORet _ => true | _ => false end = true ->
  exec (renderConf exSaslMilvus) (exRun kafka) (ORet (exConf kafka)).
Proof.
  pose proof (exSecret_exec kafka [] (renderConf exSaslMilvus)) as H. unfold exConf, exRun.
  by destruct (snd (run _ _ tt)).
Qed.

Lemma one_message_queue_witness :
  oneQueue MsgStreamTypeKafka (exConf (exKafkaSecret "u" "p")) /\
  get_path (JObj (exConf (exKafkaSecret "u" "p"))) ["kafka"; "ssl"; "tlsCaCert"]
  = Some (JStr "/secrets/kafka/ssl/ca-cert").
Proof.
  split; [|by vm_compute].
  refine (one_message_queue exSaslMilvus (exRun (exKafkaSecret "u" "p")) _ _ _);
    [by vm_compute|apply exConf_exec; by vm_compute].
Defined.

Lemma kafka_credentials_stay_witness :
  exConf (exKafkaSecret "u1" "p1") = exConf (exKafkaSecret "u2" "p2").
Proof.
  refine (kafka_credentials_stay exSaslMilvus (exKafkaSecret "u1" "p1") (exKafkaSecret "u2" "p2") ∅
            (exRun (exKafkaSecret "u1" "p1")) (exRun (exKafkaSecret "u2" "p2")) _ _ _ _
            (exConf_exec _ _) (exSecret_ok _ _ _) _ (exConf_exec _ _) (exSecret_ok _ _ _) _);
    by vm_compute.
Defined.

Definition exKafkaTemplate : PodTemplateSpec := exTemplate ∅ "milvus".

Lemma certificates_mounted_witness : exists c,
  containerOf QueryNode exKafkaTemplate = Some c /\
  let t' := injectKafkaSecretsIntoTemplate exKafkaTemplate emptyTemplate exKafkaMilvus "querynode" None in
  exists c' m v sources name key file,
    containerOf QueryNode t' = Some c' /\ m ∈ ct_VolumeMounts c' /\ v ∈ ps_Volumes (pt_Spec t') /\
    vm_Name m = vol_Name v /\ vol_Name v ∉ userVolumeNames None /\
    vol_Source v = VProjected sources (Some 420) /\ (name, key, file) ∈ sources /\
    "/secrets/kafka/ssl/ca-cert" = vm_MountPath m +:+ "/" +:+ file.
Proof.
  eexists. split; [reflexivity|].
  refine (certificates_mounted QueryNode exKafkaMilvus exKafkaTemplate emptyTemplate None _ "tlsCaCert" _ eq_refl eq_refl _).
  apply list_elem_of_In. vm_compute. by left.
Defined.

(** ** A config map that is never created *)

(** [exKafkaMilvus] with another active config map. *)
Definition exSwitched : Milvus :=
  let com := mi_Com (exMilvus 1) in
  set_mi_Spec (exMilvus 1)
    (set_spec_Com (mi_Spec (exMilvus 1))
       (mkCom (com_ComponentSpec com) (com_TargetPortType com) (com_ImageUpdateMode com) (com_EnableRollingUpdate com)
          (com_DisableMetric com) (com_MetricInterval com) (com_MetricLabels com) (com_ToolImage com)
          (com_DummyImage com) (com_UpdateToolImage com) (com_UpdateConfigMapOnly com) (com_RollingMode com)
          (com_EnableManualMode com) "mi-next" (com_RunAsNonRoot com) (com_StreamingMode com) (com_Proxy com)
          (com_MixCoord com) (com_RootCoord com) (com_IndexCoord com) (com_DataCoord com) (com_QueryCoord com)
          (com_IndexNode com) (com_DataNode com) (com_QueryNode com) (com_StreamingNode com) (com_Standalone com)
          (com_Cdc com))).

Definition exConfigWrites (mc : Milvus) (cms : list string) : list kwrite :=
  writes (snd (fst (run (exSecretServer ∅ cms) (ReconcileConfigMaps mc) tt))).
Definition writtenConfigMaps (ws : list kwrite) : list string :=
  omap (fun w => match w with
                 | CreateConfigMap c | UpdateConfigMap c => Some (om_Name (cm_Meta c))
                 | _ => None
                 end) ws.

(** Switching the active config map outside manual mode to a name that does
    not exist: the reconcile updates the config map that is there and creates
    none, while new pods mount the one of the new name. *)
Theorem active_config_missing :
  GetActiveConfigMap exSwitched = "mi-next" /\ com_EnableManualMode (mi_Com exSwitched) = false /\
  writtenConfigMaps (exConfigWrites exSwitched ["mi"]) = ["mi"] /\
  (forall t, In (configVolumeByName "mi-next")
               (ps_Volumes (pt_Spec (updateBuiltInVolumes exSwitched t)))) .
Proof.
  split; [by vm_compute|]. split; [by vm_compute|]. split; [by vm_compute|]. intros t.
  apply list_elem_of_In. unfold updateBuiltInVolumes, addVolumes.
  assert (GetActiveConfigMap exSwitched = "mi-next") as -> by (by vm_compute).
  assert (GetKafkaSecretRef exSwitched = "") as -> by (by vm_compute). simpl.
  apply (find_by_elem vol_Name "milvus-config"). unfold addVolume.
  change (GetVolumeIndex ?l ?k) with (keyIndex vol_Name l k).
  rewrite (put_putR vol_Name _ toolVolume), find_putR. rewrite decide_False by done.
  rewrite (put_putR vol_Name _ (configVolumeByName "mi-next")), find_putR. by rewrite decide_True.
Qed.

(** The checksum of Kafka's credentials does not tell all credentials apart:
    these two differ in user name and password, so the pods have to restart,
    but have the same checksum. *)
Theorem sasl_checksum_ambiguous :
  let s := mkKafkaSecret "admin:x" "y" "" in
  let s' := mkKafkaSecret "admin" "x:y" "" in
  ks_Username s <> ks_Username s' /\ ks_Password s <> ks_Password s' /\ saslCheckSum s = saslCheckSum s'.
Proof. cbv zeta. split; [done|]. split; [done|]. unfold saslCheckSum. by do 2 f_equal. Qed.
End Witnesses.
