(* ===== verification/NetworkProofs.v ===== *)
(** * Properties of services, ingresses and pod monitors *)
From S2P Require Import Prelude KubeTypes Libs ApiTypes Labels Effects Utils Components PodTemplate StatefulSets Network.
From S2P Require Import RenderProofs Examples.

Local Open Scope string_scope.
Local Open Scope list_scope.
Local Open Scope Z_scope.

Section Network.
Context {US : Unstructured} {KL : KubeLib} {DC : Decode} {MO : MapOrder}.

(** ** Services *)

(** The selector of the service: pods labelled as serving, once the pods of an
    instance that predates the label have it. *)
Definition servingSelector (mc : Milvus) (s : Service) : Prop :=
  svc_Selector s = (if IsPodServiceLabelAdded mc then NewServicePodLabels (mi_Name mc)
                    else NewComponentAppLabels (mi_Name mc)
                           (Name (if bool_decide (spec_Mode (mi_Spec mc) = MilvusModeCluster) then Proxy
                                  else MilvusStandalone))) /\
  (Milvus_IsChangingMode mc = true -> IsPodServiceLabelAdded mc = true).

Definition serviceWrite (mc : Milvus) (w : kwrite) : Prop :=
  match w with
  | CreateService s | UpdateService s => servingSelector mc s
  | _ => False
  end.

Lemma wp_updateService R mc service component :
  wp R (updateService mc service component)
    (fun ws o => ws = [] /\ forall s, o = ORet s ->
       svc_Selector s = (if IsPodServiceLabelAdded mc then NewServicePodLabels (mi_Name mc)
                         else NewComponentAppLabels (mi_Name mc) (Name component)) /\
       svc_ClusterIP s = svc_ClusterIP service).
Proof.
  unfold updateService. destruct (SetControllerReference _ _) as [meta|]; [|by apply wp_fail].
  wp_steps; [done|]. intros ports _. wp_steps; [done|]. intros ty _. wp_steps; [done|]. intros sc _.
  apply wp_ret. split; [done|]. by intros s [= <-].
Qed.

(** Whatever fails, a change from standalone to cluster never points the
    service at pods that lack the service label: the service is written with
    the label selector only after the pods have been labelled, with the
    selector of the serving component before, and while the mode is changing
    it is not written until then.  No service is deleted. *)
Theorem service_follows_pods mc tr o :
  exec (ReconcileServices mc) tr o -> Forall (serviceWrite mc) (writes tr).
Proof.
  intros Hex. refine (wp_exec_any _ (fun ws _ => Forall (serviceWrite mc) ws) _ _ _ Hex).
  unfold ReconcileServices. apply wp_wrap_writes. unfold ReconcileComponentService.
  set (c := if bool_decide _ then Proxy else MilvusStandalone).
  case_if_bool; [by apply wp_ret_writes|]. case_if_bool; [by apply wp_ret_writes|].
  assert (Milvus_IsChangingMode mc = true -> IsPodServiceLabelAdded mc = true) as Hch.
  { intros Hm. rewrite Hm in E0. by apply negb_false_iff in E0. }
  apply wp_bind, wp_attempt, wp_read.
  - intros e. case_if_bool; [|by apply wp_fail_writes]. apply wp_bind.
    eapply wp_mono; [|apply wp_updateService]. intros ws [s|e'|] [-> Hs]; [|done..].
    apply wp_one_write. by destruct (Hs s eq_refl).
  - intros old _. apply wp_bind. eapply wp_mono; [|apply wp_updateService]. intros ws [s|e'|] [-> Hs]; [|done..].
    simpl app. case_if_bool; [by apply wp_ret_writes|]. apply wp_one_write. by destruct (Hs s eq_refl).
Qed.

(** ** Ingresses *)

Definition ingressIs (old : Ingress) (B : Type) (r : kread B) : B -> Prop :=
  match r in kread B' return B' -> Prop with
  | GetIngress _ _ => fun i => i = old
  | _ => fun _ => True
  end.

(** Every reconcile of an instance with an ingress updates the ingress, also
    when nothing changed: the metadata it compares is that of a fresh object,
    which the metadata of a stored object never equals. *)
Theorem ingress_always_updated `{!DeepEqualLaws} `{!OwnerLaws} crd ingress old meta tr o :
  SetControllerReference crd (ino_Meta (Render crd ingress)) = Some meta ->
  om_ResourceVersion (ino_Meta old) <> "" ->
  exec (reconcileIngress crd ingress) tr o -> Forall (event_ok (ingressIs old)) tr ->
  (forall ns name e, Ev (Read (GetIngress ns name)) (inl e) ∉ tr) ->
  exists i, writes tr = [UpdateIngress i].
Proof.
  intros Hm Hrv Hex Hok Hread. unfold reconcileIngress in Hex. rewrite Hm in Hex.
  destruct Hex as ([e|i] & tr' & -> & Hex).
  { exfalso. eapply Hread. apply elem_of_cons. by left. }
  apply Forall_cons in Hok as [Hi _]. simpl in Hi. subst i.
  assert (om_ResourceVersion meta = "") as Hmeta.
  { apply SetControllerReference_owners in Hm. by rewrite Hm. }
  cbn -[sameIngressSpec] in Hex. rewrite (DeepEqual_spec (ino_Meta old)) in Hex.
  rewrite (bool_decide_eq_false_2 (ino_Meta old = meta)), andb_false_r in Hex by congruence.
  destruct Hex as (x & tr'' & -> & Hex). eexists. unfold writes. simpl.
  destruct x; destruct Hex as [-> _]; reflexivity.
Qed.

(** ** Pod monitors *)

(** Relabellings of a pod monitor outlive the setting they came from: once
    the metric labels are removed from the resource, an update of the monitor
    keeps those it has. *)
Theorem metric_labels_stick `{!MapOrderLaws} mc old new :
  com_MetricLabels (mi_Com mc) = ∅ -> updatePodMonitor mc old = inr new ->
  length (pm_Endpoints old)
    = length (metricEndpoints mc (if bool_decide (com_MetricInterval (mi_Com mc) = "") then "30s"
                                  else com_MetricInterval (mi_Com mc))) ->
  me_MetricRelabelConfigs <$> pm_Endpoints new = me_MetricRelabelConfigs <$> pm_Endpoints old.
Proof.
  intros Hl Hu Hlen. unfold updatePodMonitor in Hu. destruct (SetControllerReference _ _) as [meta|]; [|done].
  injection Hu as <-. rewrite Hl, Hlen, Nat.eqb_refl. simpl.
  assert (range (∅ : gmap string string) = []) as ->.
  { apply Permutation_nil. rewrite (range_perm ∅). by rewrite map_to_list_empty. }
  rewrite <- list_fmap_compose. by apply list_fmap_ext.
Qed.
End Network.

(** ** Witnesses *)
Section Witnesses.
#[local] Existing Instances concreteUnstructured concreteKubeLib concreteMapOrder exDecode.
#[local] Existing Instances concreteDeepEqualLaws concreteOwnerLaws concreteMapOrderLaws.

Definition exIngress : MilvusIngress := mkIngress ∅ ∅ None ["milvus.example"] ∅.

(** What the reconcile itself would write, as stored by the API server. *)
Definition exStored : Ingress :=
  let new := Render (mi_Meta (exMilvus 1)) exIngress in
  mkIngressObject
    (mkMeta "mi-milvus" "ns" ∅ ∅ 1 "uid-ing" "7" [mkOwner "Milvus" "mi" "uid-mi" true] None [])
    (ino_ClassName new) (ino_TLS new) (ino_Rules new) JNull.

Definition exNetServer : handler unit :=
  mkHandler
    (fun B (r : kread B) _ =>
       match r in kread B' return kerr + B' with
       | GetIngress ns name => inr exStored
       | _ => inl KNotFound
       end)
    (fun _ s => (inr tt, s)).
Lemma exNet_exec {A} (p : prog A) : exec p (snd (fst (run exNetServer p tt))) (snd (run exNetServer p tt)).
Proof. apply run_exec. Qed.

Lemma ingress_always_updated_witness : exists i,
  writes (snd (fst (run exNetServer (reconcileIngress (mi_Meta (exMilvus 1)) exIngress) tt))) = [UpdateIngress i].
Proof.
  destruct (SetControllerReference (mi_Meta (exMilvus 1)) (ino_Meta (Render (mi_Meta (exMilvus 1)) exIngress)))
    as [meta|] eqn:Em; [|by vm_compute in Em].
  refine (ingress_always_updated (mi_Meta (exMilvus 1)) exIngress exStored meta _ _ Em _
            (exNet_exec (reconcileIngress (mi_Meta (exMilvus 1)) exIngress)) _ _).
  - done.
  - apply run_event_ok. intros B r s b. destruct r; try done. by intros [= <-].
  - intros ns name e Hin. apply list_elem_of_In in Hin. vm_compute in Hin.
    destruct Hin as [Hin|[Hin|[]]]; by inversion Hin.
Defined.

(** Nothing is found: the service is created. *)
Lemma service_follows_pods_witness :
  Forall (serviceWrite (exMilvus 1)) (writes (snd (fst (run exNetServer (ReconcileServices (exMilvus 1)) tt)))) /\
  length (writes (snd (fst (run exNetServer (ReconcileServices (exMilvus 1)) tt)))) = 1%nat.
Proof. split; [|by vm_compute]. exact (service_follows_pods (exMilvus 1) _ _ (exNet_exec _)). Defined.

(** A monitor that was written with a metric label, and the resource without. *)
Definition exMonitor : PodMonitor :=
  mkPodMonitor (newMeta "mi" "ns") [mkMetricsEndpoint true "30s" MetricPath MetricPortName [("team", "search")]] [] ∅ [].

Lemma metric_labels_stick_witness : exists new,
  updatePodMonitor (exMilvus 1) exMonitor = inr new /\
  me_MetricRelabelConfigs <$> pm_Endpoints new = [[("team", "search")]].
Proof.
  destruct (updatePodMonitor (exMilvus 1) exMonitor) as [e|new] eqn:E; [by vm_compute in E|].
  exists new. split; [done|].
  rewrite (metric_labels_stick (exMilvus 1) exMonitor new eq_refl E); by vm_compute.
Defined.
End Witnesses.
