(* ===== verification/Tools.v ===== *)
(** * The tools in a pod

    tool/cp/main.go, with which the init container copies the tools to the volume
    of the pod, and tool/merge/main.go, which merges the configuration that the
    operator renders over the one of the image.  The start script of the container
    (scripts/run.sh) runs the merge on the main configuration unless the container
    has MILVUS_OPERATOR_LAYERED_CONFIG set to true; then it links the rendered
    configuration beside the image's, and Milvus itself reads both.  A run goes
    from the files before it to those after it and an exit status; flags are given
    parsed.

    The theorems: the rendered and the merged configuration have one message
    queue; what a run of either tool does to the files. *)
From S2P Require Import Prelude KubeTypes Libs ApiTypes UpgradeTypes Values Labels Effects Utils Components PodTemplate.
From S2P Require Import DeployUtil KafkaSecrets Render RenderProofs Group Deployments ConfigMaps Examples DeploymentProofs ConfigProofs.

Local Open Scope string_scope.
Local Open Scope list_scope.
Local Open Scope Z_scope.

(** sigs.k8s.io/yaml; [None] is an error. *)
Class YamlTool := {
  tool_Unmarshal : string -> option Values;
  tool_Marshal : list (string * json) -> option string
}.

(** Files by path; a file that is there may not be readable, and a path may not
    be writable. *)
Record files := mkFiles {
  fs_content : gmap string string;
  fs_readable : string -> bool;
  fs_writable : string -> bool
}.

Definition ReadFile (fs : files) (path : string) : option string :=
  if fs_readable fs path then fs_content fs !! path else None.
Definition WriteFile (fs : files) (path data : string) : option files :=
  if fs_writable fs path then Some (mkFiles (<[path := data]> (fs_content fs)) (fs_readable fs) (fs_writable fs))
  else None.

Inductive exitStatus := Exit (code : Z) | Panicked.

(** ** Merging *)

Definition mqConfigsToDelete : list string := ["kafka"; "rocksmq"; "natsmq"; "pulsar"].

(** [dst[k]], where nil stands for absent. *)
Definition nonNil (o : list (string * json)) (k : string) : option json :=
  match get_key o k with Some JNull => None | v => v end.

(** The sections to delete; [None] is the panic of the type assertion. *)
Definition sectionsToDelete (dst : list (string * json)) : option (list string) :=
  match nonNil dst MqTypeConfigKey with
  | None => Some (filter (fun q => nonNil dst q = None) mqConfigsToDelete)
  | Some (JStr mqType) => Some (filter (fun q => q <> mqType) mqConfigsToDelete)
  | Some _ => None
  end.

Definition mergedConfig (src dst : Values) : option (list (string * json)) :=
  let dst := MergeValues (default [] dst) (default [] src) in
  sections ← sectionsToDelete dst;
  Some (fold_left delete_key sections dst).

Definition checkFileExists (fs : files) (path : string) : bool := bool_decide (is_Some (fs_content fs !! path)).

Section Tools.
Context {YT : YamlTool}.

Definition readYaml (fs : files) (path : string) : option Values := bs ← ReadFile fs path; tool_Unmarshal bs.

Definition merge_main (srcPath dstPath : string) (fs : files) : files * exitStatus :=
  if bool_decide (srcPath = "") || bool_decide (dstPath = "") then (fs, Exit 1)
  else if negb (checkFileExists fs srcPath) || negb (checkFileExists fs dstPath) then (fs, Exit 0)
  else
    match readYaml fs srcPath, readYaml fs dstPath with
    | Some src, Some dst =>
        match mergedConfig src dst with
        | None => (fs, Panicked)
        | Some merged =>
            match bs ← tool_Marshal merged; WriteFile fs dstPath bs with
            | None => (fs, Exit 1)
            | Some fs' => (fs', Exit 0)
            end
        end
    | _, _ => (fs, Exit 1)
    end.
End Tools.

(** ** Copying *)

Definition cp (src dst : string) (fs : files) : option files := data ← ReadFile fs src; WriteFile fs dst data.

(** The loop over the sources; a source without a destination panics. *)
Fixpoint cpLoop (srcFiles dstFiles : list string) (fs : files) : files * exitStatus :=
  match srcFiles with
  | [] => (fs, Exit 0)
  | src :: srcs =>
      match dstFiles with
      | [] => (fs, Panicked)
      | dst :: dsts =>
          match cp src dst fs with
          | None => (fs, Exit 1)
          | Some fs' => cpLoop srcs dsts fs'
          end
      end
  end.

Definition cp_main (args : list string) (fs : files) : files * exitStatus :=
  match args with
  | [srcs; dsts] => cpLoop (Split ","%char srcs) (Split ","%char dsts) fs
  | _ => (fs, Exit 1)
  end.

(** ** From the operator to the pod *)

Lemma get_delete_keys ks : forall o k,
  get_key (fold_left delete_key ks o) k = if bool_decide (k ∈ ks) then None else get_key o k.
Proof.
  induction ks as [|k0 ks IH]; intros o k; cbn [fold_left]; [by rewrite bool_decide_eq_false_2 by apply not_elem_of_nil|].
  rewrite IH, get_delete_key. destruct (decide (k ∈ ks)) as [Hin|Hin].
  - rewrite !bool_decide_eq_true_2 by (try apply elem_of_cons; auto). done.
  - rewrite (bool_decide_eq_false_2 (k ∈ ks)) by done. destruct (decide (k0 = k)) as [->|Hne].
    + by rewrite bool_decide_eq_true_2 by (apply elem_of_cons; auto).
    + rewrite bool_decide_eq_false_2; [done|]. rewrite elem_of_cons. intros [->|?]; done.
Qed.

Lemma merged_string src dst k s :
  NoDup (fst <$> src) -> get_key src k = Some (JStr s) -> get_key (MergeValues dst src) k = Some (JStr s).
Proof. intros Hnd Hk. rewrite merge_get, Hk by done. by destruct (get_key dst k) as [[]|]. Qed.

Section OneQueue.
Context {US : Unstructured} {KL : KubeLib} {DK : DecodeKafka} {JM : JsonMarshal} {CF : ConfigLib}.

(** The queue is named under both keys that Milvus reads. *)
Definition namesQueue (t : MsgStreamType) (conf : list (string * json)) : Prop :=
  get_path (JObj conf) ["mq"; "type"] = Some (JStr (MsgStreamType_string t)) /\
  get_key conf MqTypeConfigKey = Some (JStr (MsgStreamType_string t)).

(** C39. The configuration of an instance whose message stream is not a custom one,
    whatever the template, the user's values and the configuration of the image
    contain.  As rendered (the file that a container with layered configuration
    gets), it names its queue under both keys, and has no section of another queue
    when that is Kafka, Pulsar, RocksMQ or Woodpecker.  Merged over the image's
    configuration (which the start script does for the other images), it names the
    queue under both keys and has the section of no other queue; the merge does
    not panic. *)
Theorem pod_config_one_queue mc tr conf image :
  let t := dep_MsgStreamType (spec_Dep (mi_Spec mc)) in
  t <> MsgStreamTypeCustom -> exec (renderConf mc) tr (ORet conf) -> uniqueAlong (JObj conf) ["mq"; "type"] ->
  namesQueue t conf /\ (exclusive t = true -> oneQueue t conf) /\
  exists merged, mergedConfig (Some conf) image = Some merged /\ namesQueue t merged /\
    (forall q, q ∈ mqConfigsToDelete -> q <> MsgStreamType_string t -> get_key merged q = None).
Proof.
  intros t Ht Hex Hu. destruct (renderConf_steps mc tr conf Hex) as (c0 & tr1 & c & tr2 & _ & Hset).
  destruct (messageStreamType_sets mc c tr2 conf Ht Hset) as (Hmq & Hkey & _). fold t in Hmq, Hkey.
  split; [done|]. split; [intros Hx; by eapply one_message_queue|].
  set (dst := MergeValues (default [] image) conf).
  assert (get_key dst MqTypeConfigKey = Some (JStr (MsgStreamType_string t))) as Hk.
  { apply merged_string; [apply Hu|done]. }
  assert (get_path (JObj dst) ["mq"; "type"] = Some (JStr (MsgStreamType_string t))) as Hp.
  { unfold dst. rewrite <- mergeJson_objects. by apply merge_overrides. }
  unfold mergedConfig. simpl. fold dst. unfold sectionsToDelete, nonNil. rewrite Hk. simpl.
  eexists. split; [reflexivity|]. split; [split|].
  - cbn [get_path] in *. rewrite get_delete_keys, bool_decide_eq_false_2; [done|].
    intros [_ Hin]%list_elem_of_filter. apply list_elem_of_In in Hin. simpl in Hin. naive_solver.
  - rewrite get_delete_keys, bool_decide_eq_false_2; [done|].
    intros [_ Hin]%list_elem_of_filter. apply list_elem_of_In in Hin. simpl in Hin. naive_solver.
  - intros q Hq Hne. rewrite get_delete_keys, bool_decide_eq_true_2; [done|]. by apply list_elem_of_filter.
Qed.
End OneQueue.

(** A run of the merge changes no file but its destination, and none unless it
    succeeds. *)
Theorem merge_main_frame `{YamlTool} s d fs fs' st :
  merge_main s d fs = (fs', st) ->
  (forall p, p <> d -> fs_content fs' !! p = fs_content fs !! p) /\ (st <> Exit 0 -> fs' = fs).
Proof.
  unfold merge_main. destruct (_ || _); [by intros [= <- <-]|]. destruct (_ || _); [by intros [= <- <-]|].
  destruct (readYaml fs s) as [src|], (readYaml fs d) as [dst|]; try (by intros [= <- <-]).
  destruct (mergedConfig src dst) as [merged|]; [|by intros [= <- <-]].
  destruct (tool_Marshal merged) as [bs|]; simpl; [|by intros [= <- <-]]. unfold WriteFile.
  destruct (fs_writable fs d); intros [= <- <-]; [|done]. split; [|done].
  intros p Hp. simpl. by rewrite lookup_insert_ne.
Qed.

(** Copying with as many destinations as sources copies every file, if all can be
    read and written and no destination is another's source or destination. *)
Theorem cp_copies srcs : forall dsts fs,
  length srcs = length dsts -> NoDup dsts -> (forall s, s ∈ srcs -> s ∉ dsts) ->
  (forall s, s ∈ srcs -> is_Some (ReadFile fs s)) -> (forall d, d ∈ dsts -> fs_writable fs d = true) ->
  exists fs', cpLoop srcs dsts fs = (fs', Exit 0) /\
    (forall i s d, srcs !! i = Some s -> dsts !! i = Some d -> fs_content fs' !! d = fs_content fs !! s) /\
    (forall p, p ∉ dsts -> fs_content fs' !! p = fs_content fs !! p).
Proof.
  induction srcs as [|s srcs IH]; intros [|d dsts] fs Hlen Hnd Hdis Hr Hw; try done.
  { exists fs. split; [done|]. split; [|done]. intros i s d Hs. by rewrite lookup_nil in Hs. }
  apply NoDup_cons in Hnd as [Hd Hnd]. injection Hlen as Hlen.
  destruct (Hr s) as [data Hdata]; [constructor|].
  assert (fs_content fs !! s = Some data) as Hs.
  { unfold ReadFile in Hdata. by destruct (fs_readable fs s). }
  set (fs1 := mkFiles (<[d := data]> (fs_content fs)) (fs_readable fs) (fs_writable fs)).
  assert (forall x, x ∈ srcs -> x <> d) as Hne.
  { intros x Hx ->. apply (Hdis d); [by constructor|constructor]. }
  destruct (IH dsts fs1) as (fs' & Hrun & Hcopy & Hkeep); [done|done|..].
  { intros x Hx Hin. apply (Hdis x); by constructor. }
  { intros x Hx. unfold ReadFile. simpl. rewrite lookup_insert_ne by (intros ->; by apply (Hne x)).
    apply Hr. by constructor. }
  { intros x Hx. apply Hw. by constructor. }
  exists fs'. split; [|split].
  - simpl. unfold cp. rewrite Hdata. simpl. unfold WriteFile. by rewrite Hw by constructor.
  - intros [|i] s' d'; simpl.
    + intros [= <-] [= <-]. rewrite Hkeep by done. simpl. by rewrite lookup_insert_eq, Hs.
    + intros Hs' Hd'. rewrite (Hcopy i s' d' Hs' Hd'). simpl. rewrite lookup_insert_ne; [done|].
      intros <-. apply (Hne d); [|done]. by eapply list_elem_of_lookup_2.
  - intros p Hp. apply not_elem_of_cons in Hp as [Hpd Hp]. rewrite Hkeep by done. simpl. by rewrite lookup_insert_ne.
Qed.

(** ** Witness *)

Section Witness.
#[local] Existing Instances concreteUnstructured concreteKubeLib exDecodeKafka exMarshal exConfig.

(** The configuration of an image for all queues, under an instance on Kafka. *)
Definition exImageConf : list (string * json) :=
  [("mq", JObj [("type", JStr "default")]); ("pulsar", JObj []); ("natsmq", JObj []); ("kafka", JObj [])].

Lemma pod_config_one_queue_witness : exists merged,
  mergedConfig (Some (exConf (exKafkaSecret "u" "p"))) (Some exImageConf) = Some merged /\
  get_key merged "pulsar" = None /\ get_path (JObj merged) ["mq"; "type"] = Some (JStr "kafka").
Proof.
  destruct (pod_config_one_queue exSaslMilvus (exRun (exKafkaSecret "u" "p")) (exConf (exKafkaSecret "u" "p"))
              (Some exImageConf)) as (_ & _ & merged & Hm & [Ht _] & Hq).
  - by vm_compute.
  - apply exConf_exec; by vm_compute.
  - vm_compute. split; [|split; [|done]]; apply (bool_decide_unpack _); by vm_compute.
  - exists merged. split; [exact Hm|]. split; [|exact Ht]. apply Hq; [|done].
    apply list_elem_of_In. simpl. auto.
Defined.
End Witness.
