(* ===== verification/Defaults.v ===== *)
(** * Defaults of a resource

    The rest of apis/milvus.io/v1beta1/milvus_webhook.go: the defaults of the
    dependencies, with the default chart values of pkg/helm/values; and
    [Default], the whole of them, which the webhook and every reconcile run.

    The default values come from a file that is read at start: [provider] is its
    contents by chart. *)
From S2P Require Import Prelude KubeTypes Libs ApiTypes Values Labels Effects Utils Components Webhook.
From S2P Require Import Examples.

Local Open Scope string_scope.
Local Open Scope list_scope.
Local Open Scope Z_scope.

(** ** Default chart values *)

Definition ChartVersionPulsarV2 : string := "pulsar-v2".
Definition ChartVersionPulsarV3 : string := "pulsar-v3".
Definition ChartVersionEtcdV6 : string := "etcd-v6".
Definition ChartVersionEtcdV8 : string := "etcd-v8".

Inductive DependencyKind :=
  | DependencyKindEtcd
  | DependencyKindStorage
  | DependencyKindPulsar
  | DependencyKindKafka
  | DependencyKindTei.

#[export] Instance DependencyKind_eq_dec : EqDecision DependencyKind.
Proof. solve_decision. Defined.

(** [MustInitDefaultValuesProvider] after reading the file: [None] is the panic
    of a failed type assertion. *)
Definition objectOf (o : list (string * json)) (k : string) : option (list (string * json)) :=
  match get_key o k with Some (JObj v) => Some v | _ => None end.

Definition imageValues (repository tag : string) : json :=
  JObj [("repository", JStr repository); ("tag", JStr tag); ("pullPolicy", JStr "IfNotPresent")].

Definition initDefaultValues (values : list (string * json)) : option (gmap string (list (string * json))) :=
  pulsarV3 ← objectOf values "pulsarv3";
  let pulsarV3 := set_key (set_key pulsarV3 "name" (JStr "pulsar")) "nameOverride" (JStr "") in
  storage ← objectOf values "minio";
  let storage := set_key storage "nameOverride" (JStr "minio") in
  let storage := set_key storage "image" (imageValues "pgsty/silo" "RELEASE.2026-09-03T13-18-01Z") in
  let storage := set_key storage "mcImage" (imageValues "pgsty/mc" "RELEASE.2026-09-13T00-00-00Z") in
  let storage := set_key storage "replicas" (JNum 4) in
  etcd ← objectOf values "etcd";
  pulsar ← objectOf values "pulsar";
  kafka ← objectOf values "kafka";
  Some {[ "etcd" := etcd; "minio" := storage; "pulsar" := pulsar; "pulsarv3" := pulsarV3; "kafka" := kafka ]}.

Definition chartOf (dependency : DependencyKind) (chartVersion : string) : string :=
  match dependency with
  | DependencyKindEtcd => "etcd"
  | DependencyKindStorage => "minio"
  | DependencyKindPulsar => if bool_decide (chartVersion = ChartVersionPulsarV3) then "pulsarv3" else "pulsar"
  | DependencyKindKafka => "kafka"
  | DependencyKindTei => "tei"
  end.

Section Defaults.
Context {SV : Semver} {US : Unstructured} {AL : AdmissionLib}.
Context (provider : gmap string (list (string * json))).

(** [None] is the nil map of a chart without defaults. *)
Definition GetDefaultValues (dependency : DependencyKind) (chartVersion : string) : Values :=
  provider !! chartOf dependency chartVersion.

(** ** Annotations *)

Definition isLegacy (r : Milvus) : bool := bool_decide (mget (mi_Labels r) OperatorVersionLabel = LegacyVersion).
Definition LegacyNeedSyncValues (r : Milvus) : bool :=
  isLegacy r && negb (bool_decide (mget (mi_Annotations r) DependencyValuesLegacySyncedAnnotation = TrueStr)).
Definition SetLegacySynced (r : Milvus) : Milvus :=
  set_mi_Annotations r (<[DependencyValuesLegacySyncedAnnotation := TrueStr]> (mi_Annotations r)).
Definition setDefaultValueMerged (r : Milvus) : Milvus :=
  set_mi_Annotations r (<[DependencyValuesMergedAnnotation := TrueStr]> (mi_Annotations r)).
Definition defaultValuesMerged (r : Milvus) : bool :=
  bool_decide (mget (mi_Annotations r) DependencyValuesMergedAnnotation = TrueStr).

(** ** Dependencies *)

Definition emptyInCluster : InClusterConfig := mkInCluster None "" DeletionPolicyUnset false.

Definition set_ic_Values (ic : InClusterConfig) (v : Values) : InClusterConfig :=
  mkInCluster v (ic_ChartVersion ic) (ic_DeletionPolicy ic) (ic_PVCDeletion ic).
Definition set_ic_ChartVersion (ic : InClusterConfig) (v : string) : InClusterConfig :=
  mkInCluster (ic_Values ic) v (ic_DeletionPolicy ic) (ic_PVCDeletion ic).
Definition default_ic_DeletionPolicy (ic : InClusterConfig) (p : DependencyDeletionPolicy) : InClusterConfig :=
  mkInCluster (ic_Values ic) (ic_ChartVersion ic)
    (match ic_DeletionPolicy ic with DeletionPolicyUnset => p | q => q end) (ic_PVCDeletion ic).

(** A nil configuration or nil values become empty ones. *)
Definition ensureInCluster (ic : option InClusterConfig) : InClusterConfig :=
  let ic := default emptyInCluster ic in set_ic_Values ic (Some (default [] (ic_Values ic))).

(** [defaultValuesByDependency]: the user's values over the chart's, unless that
    was done before; a legacy resource counts as done. *)
Definition defaultValuesByDependency (r : Milvus) (dependency : DependencyKind) (ic : InClusterConfig)
    : Milvus * InClusterConfig :=
  let r := if isLegacy r then setDefaultValueMerged r else r in
  if defaultValuesMerged r then (r, ic)
  else
    (r, set_ic_Values ic
          (match GetDefaultValues dependency (ic_ChartVersion ic) with
           | None => None
           | Some valueData => Some (MergeValues valueData (default [] (ic_Values ic)))
           end)).

Definition set_mi_Dep (r : Milvus) (dep : MilvusDependencies) : Milvus :=
  let s := mi_Spec r in
  set_mi_Spec r (mkSpec (spec_Mode s) (spec_Com s) dep (spec_Conf s) (spec_HookConf s)).
Definition mi_Dep (r : Milvus) : MilvusDependencies := spec_Dep (mi_Spec r).

Definition set_dep_Etcd (dep : MilvusDependencies) (e : MilvusEtcd) : MilvusDependencies :=
  mkDep e (dep_MsgStreamType dep) (dep_Pulsar dep) (dep_Kafka dep) (dep_WoodPecker dep) (dep_RocksMQ dep)
    (dep_NatsMQ dep) (dep_Storage dep) (dep_Tei dep) (dep_CustomMsgStream dep).
Definition set_dep_Pulsar (dep : MilvusDependencies) (p : MilvusPulsar) : MilvusDependencies :=
  mkDep (dep_Etcd dep) (dep_MsgStreamType dep) p (dep_Kafka dep) (dep_WoodPecker dep) (dep_RocksMQ dep)
    (dep_NatsMQ dep) (dep_Storage dep) (dep_Tei dep) (dep_CustomMsgStream dep).
Definition set_dep_Kafka (dep : MilvusDependencies) (k : MilvusKafka) : MilvusDependencies :=
  mkDep (dep_Etcd dep) (dep_MsgStreamType dep) (dep_Pulsar dep) k (dep_WoodPecker dep) (dep_RocksMQ dep)
    (dep_NatsMQ dep) (dep_Storage dep) (dep_Tei dep) (dep_CustomMsgStream dep).
Definition set_dep_Storage (dep : MilvusDependencies) (s : MilvusStorage) : MilvusDependencies :=
  mkDep (dep_Etcd dep) (dep_MsgStreamType dep) (dep_Pulsar dep) (dep_Kafka dep) (dep_WoodPecker dep) (dep_RocksMQ dep)
    (dep_NatsMQ dep) s (dep_Tei dep) (dep_CustomMsgStream dep).
Definition set_dep_Tei (dep : MilvusDependencies) (t : MilvusTei) : MilvusDependencies :=
  mkDep (dep_Etcd dep) (dep_MsgStreamType dep) (dep_Pulsar dep) (dep_Kafka dep) (dep_WoodPecker dep) (dep_RocksMQ dep)
    (dep_NatsMQ dep) (dep_Storage dep) t (dep_CustomMsgStream dep).

Definition etcdEndpoint (r : Milvus) (i : nat) : string :=
  mi_Name r +:+ "-etcd-" +:+ Itoa (Z.of_nat i) +:+ "." +:+ mi_Name r +:+ "-etcd-headless." +:+ mi_Namespace r +:+ ":2379".

Definition defaultEtcd (r : Milvus) : Milvus :=
  let e := dep_Etcd (mi_Dep r) in
  if etcd_External e then r
  else
    let ic := ensureInCluster (etcd_InCluster e) in
    let ic := if bool_decide (ic_ChartVersion ic = "") && IsFirstTimeStarting r
              then set_ic_ChartVersion ic ChartVersionEtcdV8 else ic in
    let data := default [] (ic_Values ic) in
    let count := match GetNumberValue data "replicaCount" with
                 | Some n => n
                 | None => if bool_decide (spec_Mode (mi_Spec r) = MilvusModeStandalone) then 1 else 3
                 end in
    let ic := match GetNumberValue data "replicaCount" with
              | Some _ => ic
              | None => set_ic_Values ic (Some (set_key data "replicaCount" (JNum count)))
              end in
    let endpoints := match elems (etcd_Endpoints e) with
                     | [] => etcdEndpoint r <$> seq 0 (Z.to_nat count)
                     | eps => eps
                     end in
    let '(r, ic) := defaultValuesByDependency r DependencyKindEtcd ic in
    set_mi_Dep r (set_dep_Etcd (mi_Dep r)
                    (mkEtcd (Some endpoints) false (Some (default_ic_DeletionPolicy ic DeletionPolicyRetain)))).

Definition defaultKafka (r : Milvus) : Milvus :=
  let k := dep_Kafka (mi_Dep r) in
  if kaf_External k then r
  else
    let '(r, ic) := defaultValuesByDependency r DependencyKindKafka (ensureInCluster (kaf_InCluster k)) in
    set_mi_Dep r (set_dep_Kafka (mi_Dep r)
                    (mkKafka (Some (default_ic_DeletionPolicy ic DeletionPolicyRetain)) false
                       (Some [mi_Name r +:+ "-kafka." +:+ mi_Namespace r +:+ ":9092"]) (kaf_SecretRef k))).

Definition defaultPulsar (r : Milvus) : Milvus :=
  let p := dep_Pulsar (mi_Dep r) in
  if pul_External p then r
  else
    let ic := ensureInCluster (pul_InCluster p) in
    let ic := if bool_decide (ic_ChartVersion ic = "")
              then set_ic_ChartVersion ic (if IsFirstTimeStarting r then ChartVersionPulsarV3 else ChartVersionPulsarV2)
              else ic in
    let '(r, ic) := defaultValuesByDependency r DependencyKindPulsar ic in
    set_mi_Dep r (set_dep_Pulsar (mi_Dep r)
                    (mkPulsar (Some (default_ic_DeletionPolicy ic DeletionPolicyRetain)) false
                       (mi_Name r +:+ "-pulsar-proxy." +:+ mi_Namespace r +:+ ":6650") (pul_Endpoints p))).

Definition setDefaultMsgStreamConfigs (r : Milvus) : Milvus :=
  match dep_MsgStreamType (mi_Dep r) with
  | MsgStreamTypeKafka => defaultKafka r
  | MsgStreamTypePulsar => defaultPulsar r
  | _ => r
  end.

Definition defaultMsgStream (r : Milvus) : Milvus :=
  setDefaultMsgStreamConfigs (set_mi_Spec r (setDefaultMsgStreamType (mi_Spec r))).

Definition defaultStorage (r : Milvus) : Milvus :=
  let s := dep_Storage (mi_Dep r) in
  let type := setDefaultStr (sto_Type s) "MinIO" in
  if sto_External s then
    set_mi_Dep r (set_dep_Storage (mi_Dep r)
                    (mkStorage type (sto_SecretRef s) (sto_Endpoint s) (sto_InCluster s) true (sto_SSL s)))
  else
    let ic := ensureInCluster (sto_InCluster s) in
    let data := default [] (ic_Values ic) in
    let ic := if bool_decide (spec_Mode (mi_Spec r) = MilvusModeStandalone)
                 && bool_decide (get_key data "mode" = None)
              then set_ic_Values ic (Some (set_key data "mode" (JStr "standalone"))) else ic in
    let '(r, ic) := defaultValuesByDependency r DependencyKindStorage ic in
    set_mi_Dep r (set_dep_Storage (mi_Dep r)
                    (mkStorage type (mi_Name r +:+ "-minio") (mi_Name r +:+ "-minio." +:+ mi_Namespace r +:+ ":9000")
                       (Some (default_ic_DeletionPolicy ic DeletionPolicyRetain)) false (sto_SSL s))).

Definition defaultTei (r : Milvus) : Milvus :=
  let t := dep_Tei (mi_Dep r) in
  if tei_Enabled t then
    set_mi_Dep r (set_dep_Tei (mi_Dep r)
                    (mkTei (Some (default_ic_DeletionPolicy (ensureInCluster (tei_InCluster t)) DeletionPolicyDelete)) true))
  else r.

Definition DefaultDependencies (r : Milvus) : Milvus :=
  setDefaultValueMerged (defaultTei (defaultStorage (defaultMsgStream (defaultEtcd r)))).

(** [Default]: [None] is the panic of a missing component. *)
Definition Default (Version : string) (r : Milvus) : option Milvus :=
  let r := DefaultMeta Version r in
  let r := set_mi_Spec r (DefaultMode (mi_Spec r)) in
  spec ← DefaultComponents (mi_Spec r);
  let r := DefaultDependencies (set_mi_Spec r spec) in
  Some (set_mi_Spec r (DefaultConf (mi_Spec r))).
End Defaults.
