(* ===== verification/DefaultsProofs.v ===== *)
(** * Properties of the defaults of dependencies

    Defaulting the dependencies settles in one step, so that a reconcile, which
    defaults the resource and writes it when it changed, does not keep writing
    it. *)
From S2P Require Import Prelude KubeTypes Libs ApiTypes Values Labels Effects Utils Components Webhook Defaults.
From S2P Require Import Examples.

Local Open Scope string_scope.
Local Open Scope list_scope.
Local Open Scope Z_scope.

Section Settle.
Context {SV : Semver} (provider : gmap string (list (string * json))).

(** Every chart that is merged has default values. *)
Definition complete : Prop :=
  forall d v, d <> DependencyKindTei -> is_Some (GetDefaultValues provider d v).

Lemma initDefaultValues_complete values p :
  initDefaultValues values = Some p -> forall d v, d <> DependencyKindTei -> is_Some (GetDefaultValues p d v).
Proof.
  unfold initDefaultValues. intros H d v Hd. simplify_option_eq. unfold GetDefaultValues.
  destruct d; simpl; try done; try (case_bool_decide; by eauto); by eauto.
Qed.

(** A configuration that defaulting leaves alone. *)
Definition settledIC (ic : option InClusterConfig) : Prop :=
  exists c data, ic = Some c /\ ic_Values c = Some data /\ ic_DeletionPolicy c <> DeletionPolicyUnset.

Lemma ensure_settled ic : settledIC ic -> Some (ensureInCluster ic) = ic.
Proof.
  intros (c & data & -> & Hv & _). destruct c. simpl in *. subst. done.
Qed.

Lemma policy_settled c p : ic_DeletionPolicy c <> DeletionPolicyUnset -> default_ic_DeletionPolicy c p = c.
Proof. destruct c as [v cv [] d]; done. Qed.

Definition merged (r : Milvus) : Prop := mi_Annotations r !! DependencyValuesMergedAnnotation = Some TrueStr.

Lemma setMerged_id r : merged r -> setDefaultValueMerged r = r.
Proof.
  intros H. unfold setDefaultValueMerged. rewrite (insert_id _ _ _ H). destruct r as [[] ? ?]. done.
Qed.

Lemma defaultValues_id r d ic : merged r -> defaultValuesByDependency provider r d ic = (r, ic).
Proof.
  intros H. unfold defaultValuesByDependency. rewrite (setMerged_id r H).
  assert (defaultValuesMerged r = true) as Hm.
  { unfold defaultValuesMerged, mget. rewrite H. done. }
  destruct (isLegacy r); by rewrite Hm.
Qed.

(** The resource apart from annotations and dependencies. *)
Definition sameFrame (r r' : Milvus) : Prop :=
  mi_Name r' = mi_Name r /\ mi_Namespace r' = mi_Namespace r /\ mi_Status r' = mi_Status r /\
  spec_Mode (mi_Spec r') = spec_Mode (mi_Spec r).

Lemma defaultValues_frame r d ic r' ic' :
  complete -> d <> DependencyKindTei -> (exists data, ic_Values ic = Some data) ->
  defaultValuesByDependency provider r d ic = (r', ic') ->
  mi_Spec r' = mi_Spec r /\ sameFrame r r' /\ ic_ChartVersion ic' = ic_ChartVersion ic /\
  (exists data, ic_Values ic' = Some data) /\
  (ic' = ic \/ exists defaults, ic_Values ic' = Some (MergeValues defaults (default [] (ic_Values ic)))).
Proof.
  intros Hp Hd [data Hdata]. unfold defaultValuesByDependency.
  assert (forall b : bool, mi_Spec (if b then setDefaultValueMerged r else r) = mi_Spec r /\
                           sameFrame r (if b then setDefaultValueMerged r else r)) as Hr by (by intros []).
  destruct (Hr (isLegacy r)) as [Hs Hf]. destruct (defaultValuesMerged _); intros [= <- <-].
  - repeat split; try apply Hf; eauto.
  - destruct (Hp d (ic_ChartVersion ic) Hd) as [defs Hdefs]. rewrite Hdefs.
    repeat split; try apply Hf; simpl; eauto.
Qed.

(** ** What each step establishes *)

Definition etcdSettled (r : Milvus) : Prop :=
  let e := dep_Etcd (mi_Dep r) in
  etcd_External e = true \/
  settledIC (etcd_InCluster e) /\
  (forall c, etcd_InCluster e = Some c ->
     (ic_ChartVersion c = "" -> IsFirstTimeStarting r = false) /\
     exists n, GetNumberValue (default [] (ic_Values c)) "replicaCount" = Some n /\
       exists eps, etcd_Endpoints e = Some eps /\ (eps = [] -> Z.to_nat n = 0%nat)).

Definition streamSettled (r : Milvus) : Prop :=
  match dep_MsgStreamType (mi_Dep r) with
  | MsgStreamTypeUnset => False
  | MsgStreamTypeKafka =>
      let k := dep_Kafka (mi_Dep r) in
      kaf_External k = true \/
      settledIC (kaf_InCluster k) /\ kaf_BrokerList k = Some [mi_Name r +:+ "-kafka." +:+ mi_Namespace r +:+ ":9092"]
  | MsgStreamTypePulsar =>
      let p := dep_Pulsar (mi_Dep r) in
      pul_External p = true \/
      settledIC (pul_InCluster p) /\ pul_Endpoint p = mi_Name r +:+ "-pulsar-proxy." +:+ mi_Namespace r +:+ ":6650" /\
      (forall c, pul_InCluster p = Some c -> ic_ChartVersion c <> "")
  | _ => True
  end.

Definition storageSettled (r : Milvus) : Prop :=
  let s := dep_Storage (mi_Dep r) in
  sto_Type s <> "" /\
  (sto_External s = true \/
   settledIC (sto_InCluster s) /\ sto_SecretRef s = mi_Name r +:+ "-minio" /\
   sto_Endpoint s = mi_Name r +:+ "-minio." +:+ mi_Namespace r +:+ ":9000" /\
   (forall c, sto_InCluster s = Some c -> spec_Mode (mi_Spec r) = MilvusModeStandalone ->
      get_key (default [] (ic_Values c)) "mode" <> None)).

Definition teiSettled (r : Milvus) : Prop :=
  tei_Enabled (dep_Tei (mi_Dep r)) = true -> settledIC (tei_InCluster (dep_Tei (mi_Dep r))).

(** ** A settled resource is a fixed point *)

Lemma set_mi_Dep_id r : set_mi_Dep r (mi_Dep r) = r.
Proof. by destruct r as [? [] ?]. Qed.

Lemma defaultEtcd_id r : merged r -> etcdSettled r -> defaultEtcd provider r = r.
Proof.
  intros Hm He. unfold defaultEtcd. destruct He as [->|[Hic He]]; [done|].
  destruct (etcd_External (dep_Etcd (mi_Dep r))) eqn:Ex; [done|].
  pose proof (ensure_settled _ Hic) as Hen. destruct Hic as (c & data & Hc & Hv & Hp).
  destruct (He c Hc) as [Hcv (n & Hn & eps & Heps & Hep)]. rewrite Hc in Hen. injection Hen as Hen. rewrite Hc, Hen.
  rewrite Hv in Hn. simpl in Hn.
  assert (bool_decide (ic_ChartVersion c = "") && IsFirstTimeStarting r = false) as ->.
  { case_bool_decide as Hb; [by rewrite Hcv|done]. }
  rewrite Hv. simpl. rewrite Hn, defaultValues_id by done. rewrite policy_settled by done.
  assert (Some (match elems (etcd_Endpoints (dep_Etcd (mi_Dep r))) with
                | [] => etcdEndpoint r <$> seq 0 (Z.to_nat n)
                | eps => eps
                end) = etcd_Endpoints (dep_Etcd (mi_Dep r))) as ->.
  { rewrite Heps. destruct eps; [|done]. simpl. by rewrite (Hep eq_refl). }
  rewrite <- Ex, <- Hc. destruct r as [? [? ? []] ?]. unfold mi_Dep, set_mi_Dep, set_dep_Etcd. simpl.
  by destruct dep_Etcd.
Qed.

Lemma defaultMsgStream_id r : merged r -> streamSettled r -> defaultMsgStream provider r = r.
Proof.
  intros Hm Hs. unfold defaultMsgStream.
  assert (set_mi_Spec r (setDefaultMsgStreamType (mi_Spec r)) = r) as ->.
  { unfold streamSettled, mi_Dep in Hs. unfold setDefaultMsgStreamType.
    destruct (dep_MsgStreamType (spec_Dep (mi_Spec r))); try done; by destruct r. }
  unfold setDefaultMsgStreamConfigs, streamSettled in *.
  destruct (dep_MsgStreamType (mi_Dep r)) eqn:Et; try done.
  - unfold defaultPulsar. destruct Hs as [->|(Hic & Hep & Hcv)]; [done|].
    destruct (pul_External (dep_Pulsar (mi_Dep r))) eqn:Ex; [done|].
    pose proof (ensure_settled _ Hic) as Hen. destruct Hic as (c & data & Hc & Hv & Hp).
    rewrite Hc in Hen. injection Hen as Hen. rewrite Hc, Hen.
    rewrite bool_decide_eq_false_2 by (by apply Hcv). rewrite defaultValues_id, policy_settled by done.
    rewrite <- Hep, <- Hc, <- Ex. destruct r as [? [? ? []] ?]. unfold mi_Dep, set_mi_Dep, set_dep_Pulsar. simpl.
    by destruct dep_Pulsar.
  - unfold defaultKafka. destruct Hs as [->|[Hic Hep]]; [done|].
    destruct (kaf_External (dep_Kafka (mi_Dep r))) eqn:Ex; [done|].
    pose proof (ensure_settled _ Hic) as Hen. destruct Hic as (c & data & Hc & Hv & Hp).
    rewrite Hc in Hen. injection Hen as Hen. rewrite Hc, Hen. rewrite defaultValues_id, policy_settled by done.
    rewrite <- Hep, <- Hc, <- Ex. destruct r as [? [? ? []] ?]. unfold mi_Dep, set_mi_Dep, set_dep_Kafka. simpl.
    by destruct dep_Kafka.
Qed.

Lemma defaultStorage_id r : merged r -> storageSettled r -> defaultStorage provider r = r.
Proof.
  intros Hm [Hty Hs]. unfold defaultStorage, setDefaultStr. rewrite bool_decide_eq_false_2 by done.
  destruct (sto_External (dep_Storage (mi_Dep r))) eqn:Ex.
  - rewrite <- Ex. destruct r as [? [? ? []] ?]. unfold mi_Dep, set_mi_Dep, set_dep_Storage. simpl. by destruct dep_Storage.
  - destruct Hs as [?|(Hic & Href & Hep & Hmode)]; [done|].
    pose proof (ensure_settled _ Hic) as Hen. destruct Hic as (c & data & Hc & Hv & Hp).
    rewrite Hc in Hen. injection Hen as Hen. rewrite Hc, Hen.
    assert (bool_decide (spec_Mode (mi_Spec r) = MilvusModeStandalone)
            && bool_decide (get_key (default [] (ic_Values c)) "mode" = None) = false) as ->.
    { case_bool_decide as Hb; [|done]. apply bool_decide_eq_false_2. by apply Hmode. }
    rewrite defaultValues_id, policy_settled by done. rewrite <- Hep, <- Href, <- Hc, <- Ex.
    destruct r as [? [? ? []] ?]. unfold mi_Dep, set_mi_Dep, set_dep_Storage. simpl. by destruct dep_Storage.
Qed.

Lemma defaultTei_id r : teiSettled r -> defaultTei r = r.
Proof.
  intros Hs. unfold defaultTei, teiSettled in *. destruct (tei_Enabled (dep_Tei (mi_Dep r))) eqn:Ex; [|done].
  specialize (Hs eq_refl). pose proof (ensure_settled _ Hs) as Hen. destruct Hs as (c & data & Hc & Hv & Hp).
  rewrite Hc in Hen. injection Hen as Hen. rewrite Hc, Hen, policy_settled by done. rewrite <- Ex, <- Hc.
  destruct r as [? [? ? []] ?]. unfold mi_Dep, set_mi_Dep, set_dep_Tei. simpl. by destruct dep_Tei.
Qed.

(** ** The steps settle *)

Lemma ensure_values ic : exists data, ic_Values (ensureInCluster ic) = Some data.
Proof. by eexists. Qed.

Lemma policy_set c p : p <> DeletionPolicyUnset -> ic_DeletionPolicy (default_ic_DeletionPolicy c p) <> DeletionPolicyUnset.
Proof. intros Hp. simpl. by destruct (ic_DeletionPolicy c). Qed.

Lemma settled_policy c data p :
  p <> DeletionPolicyUnset -> ic_Values c = Some data -> settledIC (Some (default_ic_DeletionPolicy c p)).
Proof. intros Hp Hv. eexists _, data. split; [done|]. split; [done|]. by apply policy_set. Qed.

(** A number of the user survives the merge. *)
Lemma merge_number defaults patch k n :
  NoDup (fst <$> patch) -> GetNumberValue patch k = Some n -> GetNumberValue (MergeValues defaults patch) k = Some n.
Proof.
  intros Hnd. unfold GetNumberValue. rewrite merge_get by done.
  destruct (get_key patch k) as [[]|]; try done. intros [= ->]. by destruct (get_key defaults k) as [[]|].
Qed.

Lemma set_key_keys (o : list (string * json)) k v k' : k' ∈ fst <$> set_key o k v -> k' = k \/ k' ∈ fst <$> o.
Proof.
  induction o as [|[k0 v0] o IH]; simpl.
  - rewrite elem_of_cons. intros [->|?]; [by left|by right].
  - destruct (decide (k0 = k)) as [->|]; simpl; rewrite !elem_of_cons; intros [->|H]; auto. destruct (IH H); auto.
Qed.

Lemma set_key_NoDup (o : list (string * json)) k v : NoDup (fst <$> o) -> NoDup (fst <$> set_key o k v).
Proof.
  induction o as [|[k0 v0] o IH]; simpl; intros Hnd; [apply NoDup_singleton|].
  apply NoDup_cons in Hnd as [Hn Hnd]. destruct (decide (k0 = k)) as [->|Hne]; simpl; [by constructor|].
  constructor; [|by apply IH]. by intros [?|?]%set_key_keys.
Qed.

(** The merge keeps the keys of the patch. *)
Lemma merge_key defaults patch k : get_key patch k <> None -> get_key (MergeValues defaults patch) k <> None.
Proof.
  assert (forall patch o, get_key o k <> None -> get_key (MergeValues o patch) k <> None) as Hkeep.
  { induction patch0 as [|[k0 v0] rest IH]; intros o Ho; [done|]. cbn [MergeValues]. apply IH.
    rewrite get_set_key. by destruct (decide (k0 = k)). }
  revert defaults. induction patch as [|[k0 v0] rest IH]; intros defaults; [done|]. cbn [MergeValues get_key].
  destruct (decide (k0 = k)) as [->|Hne]; [|apply IH]. intros _. apply Hkeep. rewrite get_set_key.
  by rewrite decide_True.
Qed.

(** The values the user wrote, as a Go map: every key once. *)
Definition etcdValues (r : Milvus) : list (string * json) :=
  default [] (etcd_InCluster (dep_Etcd (mi_Dep r)) ≫= ic_Values).

Lemma defaultEtcd_settles r :
  complete -> NoDup (fst <$> etcdValues r) ->
  etcdSettled (defaultEtcd provider r) /\ sameFrame r (defaultEtcd provider r).
Proof.
  intros Hp Hnd. unfold defaultEtcd. destruct (etcd_External (dep_Etcd (mi_Dep r))) eqn:Ex.
  { split; [by left|done]. }
  set (ic := if _ && _ then set_ic_ChartVersion _ _ else _).
  assert (ic_Values ic = Some (etcdValues r)) as Hv.
  { subst ic. unfold etcdValues. destruct (bool_decide _ && _); by destruct (etcd_InCluster _). }
  assert (ic_ChartVersion ic = "" -> IsFirstTimeStarting r = false) as Hcv.
  { subst ic. case_bool_decide as Hb; [|done]. by destruct (IsFirstTimeStarting r). }
  clearbody ic. rewrite Hv. simpl. set (data := etcdValues r) in *.
  set (n := match GetNumberValue data "replicaCount" with Some n => n | None => _ end).
  set (ic' := match GetNumberValue data "replicaCount" with Some _ => ic | None => _ end).
  assert (exists data', ic_Values ic' = Some data' /\ NoDup (fst <$> data') /\
            GetNumberValue data' "replicaCount" = Some n /\ ic_ChartVersion ic' = ic_ChartVersion ic) as
    (data' & Hv' & Hnd' & Hn & Hcv').
  { subst ic' n. destruct (GetNumberValue data "replicaCount") eqn:En; [by eauto|]. eexists. split; [done|].
    split; [by apply set_key_NoDup|]. split; [|done]. unfold GetNumberValue. rewrite get_set_key. by rewrite decide_True. }
  destruct (defaultValuesByDependency provider r DependencyKindEtcd ic') as [r1 ic1] eqn:Ed.
  destruct (defaultValues_frame r DependencyKindEtcd ic' r1 ic1 Hp ltac:(done) (ex_intro _ _ Hv') Ed) as (Hs & Hf & Hcv1 & [data1 Hv1] & Hm).
  split; [|exact Hf]. right. simpl. split; [by eapply settled_policy|]. intros c [= <-]. simpl. split.
  - rewrite Hcv1, Hcv'. intros Hc. unfold IsFirstTimeStarting. simpl. destruct Hf as (_ & _ & -> & _). by apply Hcv.
  - exists n. split.
    + destruct Hm as [->|[defs Hdefs]]; [by rewrite Hv'|]. rewrite Hdefs, Hv'. simpl. by apply merge_number.
    + eexists. split; [done|]. destruct (elems (etcd_Endpoints (dep_Etcd (mi_Dep r)))); [|done]. by destruct (Z.to_nat n).
Qed.

Lemma streamType_frame r :
  sameFrame r (set_mi_Spec r (setDefaultMsgStreamType (mi_Spec r))) /\
  dep_MsgStreamType (mi_Dep (set_mi_Spec r (setDefaultMsgStreamType (mi_Spec r)))) <> MsgStreamTypeUnset /\
  dep_Etcd (mi_Dep (set_mi_Spec r (setDefaultMsgStreamType (mi_Spec r)))) = dep_Etcd (mi_Dep r).
Proof.
  unfold setDefaultMsgStreamType, mi_Dep.
  destruct (dep_MsgStreamType (spec_Dep (mi_Spec r))) eqn:Et; simpl; try (split; [done|]; split; [congruence|done]).
  split; [done|]. split; [|done]. by repeat case_match.
Qed.

Lemma defaultMsgStream_settles r :
  complete ->
  streamSettled (defaultMsgStream provider r) /\ sameFrame r (defaultMsgStream provider r) /\
  dep_Etcd (mi_Dep (defaultMsgStream provider r)) = dep_Etcd (mi_Dep r).
Proof.
  intros Hp. unfold defaultMsgStream. destruct (streamType_frame r) as (Hf & Ht & He).
  set (r0 := set_mi_Spec r _) in *. clearbody r0.
  assert (streamSettled (setDefaultMsgStreamConfigs provider r0) /\ sameFrame r0 (setDefaultMsgStreamConfigs provider r0) /\
          dep_Etcd (mi_Dep (setDefaultMsgStreamConfigs provider r0)) = dep_Etcd (mi_Dep r0)) as (H1 & H2 & H3).
  { unfold setDefaultMsgStreamConfigs. destruct (dep_MsgStreamType (mi_Dep r0)) eqn:Et; try done;
      try (split; [by unfold streamSettled; rewrite Et|done]).
    - unfold defaultPulsar. destruct (pul_External (dep_Pulsar (mi_Dep r0))) eqn:Ex.
      { split; [|done]. unfold streamSettled. rewrite Et. by left. }
      set (ic := if bool_decide _ then set_ic_ChartVersion _ _ else _).
      assert (exists data, ic_Values ic = Some data) as Hv by (subst ic; case_bool_decide; by eexists).
      assert (ic_ChartVersion ic <> "") as Hcv.
      { subst ic. case_bool_decide; [|done]. simpl. by destruct (IsFirstTimeStarting r0). }
      clearbody ic. destruct (defaultValuesByDependency provider r0 DependencyKindPulsar ic) as [r1 ic1] eqn:Ed.
      destruct (defaultValues_frame r0 DependencyKindPulsar ic r1 ic1 Hp ltac:(done) Hv Ed) as (Hs & Hf1 & Hcv1 & [data1 Hv1] & _).
      unfold mi_Dep in *. rewrite Hs. split; [|split; [exact Hf1|done]]. unfold streamSettled, mi_Dep. simpl. rewrite Et.
      right. simpl. split; [by eapply settled_policy|]. split; [done|]. intros c [= <-]. simpl. by rewrite Hcv1.
    - unfold defaultKafka. destruct (kaf_External (dep_Kafka (mi_Dep r0))) eqn:Ex.
      { split; [|done]. unfold streamSettled. rewrite Et. by left. }
      destruct (defaultValuesByDependency provider r0 DependencyKindKafka _) as [r1 ic1] eqn:Ed.
      destruct (defaultValues_frame r0 DependencyKindKafka _ r1 ic1 Hp ltac:(done) (ensure_values _) Ed) as (Hs & Hf1 & _ & [data1 Hv1] & _).
      unfold mi_Dep in *. rewrite Hs. split; [|split; [exact Hf1|done]]. unfold streamSettled, mi_Dep. simpl. rewrite Et.
      right. simpl. split; [by eapply settled_policy|done]. }
  split; [done|]. rewrite H3. split; [|done]. unfold sameFrame in *. destruct Hf as (? & ? & ? & ?), H2 as (? & ? & ? & ?).
  repeat split; congruence.
Qed.

(** The dependencies that come before the storage. *)
Definition sameEarlier (r r' : Milvus) : Prop :=
  dep_Etcd (mi_Dep r') = dep_Etcd (mi_Dep r) /\ dep_MsgStreamType (mi_Dep r') = dep_MsgStreamType (mi_Dep r) /\
  dep_Kafka (mi_Dep r') = dep_Kafka (mi_Dep r) /\ dep_Pulsar (mi_Dep r') = dep_Pulsar (mi_Dep r).

Lemma defaultStorage_settles r :
  complete ->
  storageSettled (defaultStorage provider r) /\ sameFrame r (defaultStorage provider r) /\
  sameEarlier r (defaultStorage provider r).
Proof.
  intros Hp. unfold defaultStorage. set (ty := setDefaultStr _ "MinIO").
  assert (ty <> "") as Hty by (subst ty; unfold setDefaultStr; by case_bool_decide).
  destruct (sto_External (dep_Storage (mi_Dep r))) eqn:Ex; [split; [split; [done|by left]|done]|].
  set (ic := if _ && _ then set_ic_Values _ _ else _).
  assert ((exists data, ic_Values ic = Some data) /\
          (spec_Mode (mi_Spec r) = MilvusModeStandalone -> get_key (default [] (ic_Values ic)) "mode" <> None)) as [Hv Hmode].
  { subst ic. case_bool_decide as Em; [|by split; [eexists; reflexivity|]]. rewrite andb_true_l.
    case_bool_decide as Hk; (split; [eexists; reflexivity|]); intros _; [|done].
    simpl. by rewrite get_set_key, decide_True. }
  clearbody ic ty. destruct (defaultValuesByDependency provider r DependencyKindStorage ic) as [r1 ic1] eqn:Ed.
  destruct (defaultValues_frame r DependencyKindStorage ic r1 ic1 Hp ltac:(done) Hv Ed)
    as (Hs & Hf & _ & [data1 Hv1] & Hm).
  unfold sameEarlier, mi_Dep in *. rewrite Hs. split; [|split; [exact Hf|done]].
  split; [done|]. right. simpl. split; [by eapply settled_policy|]. split; [done|]. split; [done|].
  intros c [= <-] Hst. simpl. unfold mi_Dep in *. simpl in Hst. rewrite Hs in Hst.
  destruct Hm as [->|[defs Hdefs]]; [by apply Hmode|]. rewrite Hdefs. simpl. by apply merge_key, Hmode.
Qed.

Lemma defaultTei_settles r :
  teiSettled (defaultTei r) /\ sameFrame r (defaultTei r) /\ sameEarlier r (defaultTei r) /\
  dep_Storage (mi_Dep (defaultTei r)) = dep_Storage (mi_Dep r).
Proof.
  unfold defaultTei. destruct (tei_Enabled (dep_Tei (mi_Dep r))) eqn:Ex; [|by split; [unfold teiSettled; rewrite Ex|]].
  split; [|done]. intros _. simpl. by eapply settled_policy.
Qed.

(** ** Later steps keep what earlier ones settled *)

Lemma etcdSettled_frame r r' :
  etcdSettled r -> dep_Etcd (mi_Dep r') = dep_Etcd (mi_Dep r) -> sameFrame r r' -> etcdSettled r'.
Proof. unfold etcdSettled, IsFirstTimeStarting. intros H -> (_ & _ & -> & _). exact H. Qed.

Lemma streamSettled_frame r r' : streamSettled r -> sameEarlier r r' -> sameFrame r r' -> streamSettled r'.
Proof. unfold streamSettled. intros H (_ & -> & -> & ->) (-> & -> & _ & _). exact H. Qed.

Lemma storageSettled_frame r r' :
  storageSettled r -> dep_Storage (mi_Dep r') = dep_Storage (mi_Dep r) -> sameFrame r r' -> storageSettled r'.
Proof. unfold storageSettled. intros H -> (-> & -> & _ & ->). exact H. Qed.

Lemma sameFrame_trans r r' r'' : sameFrame r r' -> sameFrame r' r'' -> sameFrame r r''.
Proof. unfold sameFrame. intros (? & ? & ? & ?) (? & ? & ? & ?). repeat split; congruence. Qed.

Record settled (r : Milvus) : Prop := {
  st_merged : merged r;
  st_etcd : etcdSettled r;
  st_stream : streamSettled r;
  st_storage : storageSettled r;
  st_tei : teiSettled r
}.

Lemma DefaultDependencies_settled r :
  complete -> NoDup (fst <$> etcdValues r) -> settled (DefaultDependencies provider r).
Proof.
  intros Hp Hnd. unfold DefaultDependencies.
  destruct (defaultEtcd_settles r Hp Hnd) as [He _]. set (r1 := defaultEtcd provider r) in *.
  destruct (defaultMsgStream_settles r1 Hp) as (Hs & Hf2 & He2). set (r2 := defaultMsgStream provider r1) in *.
  destruct (defaultStorage_settles r2 Hp) as (Ho & Hf3 & Hd3). set (r3 := defaultStorage provider r2) in *.
  destruct (defaultTei_settles r3) as (Ht & Hf4 & Hd4 & Ho4). set (r4 := defaultTei r3) in *.
  assert (sameFrame r4 (setDefaultValueMerged r4)) as Hf5 by done.
  assert (mi_Dep (setDefaultValueMerged r4) = mi_Dep r4) as Hd5 by done.
  split.
  - apply lookup_insert_eq.
  - eapply etcdSettled_frame; [exact He| |].
    + rewrite Hd5. destruct Hd4 as [-> _], Hd3 as [-> _]. exact He2.
    + by eapply sameFrame_trans, sameFrame_trans, sameFrame_trans.
  - eapply streamSettled_frame; [exact Hs| |by eapply sameFrame_trans, sameFrame_trans].
    destruct Hd3 as (? & ? & ? & ?), Hd4 as (? & ? & ? & ?). unfold sameEarlier. rewrite Hd5. repeat split; congruence.
  - eapply storageSettled_frame; [exact Ho|by rewrite Hd5|]. by eapply sameFrame_trans.
  - exact Ht.
Qed.

(** Defaulting the dependencies settles: on a resource whose dependencies
    were defaulted it changes nothing, whatever chart values the user wrote and
    the operator's defaults are.  So the reconcile's write of a resource that
    defaulting changed does not repeat. *)
Theorem dependencies_settle r :
  complete -> NoDup (fst <$> etcdValues r) ->
  DefaultDependencies provider (DefaultDependencies provider r) = DefaultDependencies provider r.
Proof.
  intros Hp Hnd. pose proof (DefaultDependencies_settled r Hp Hnd) as Hs.
  set (r' := DefaultDependencies provider r) in *. clearbody r'. destruct Hs as [Hm He Hst Hso Ht].
  unfold DefaultDependencies. rewrite defaultEtcd_id, defaultMsgStream_id, defaultStorage_id, defaultTei_id by done.
  by apply setMerged_id.
Qed.
End Settle.

(** ** Witness *)

Definition exChartFile : list (string * json) :=
  (fun k => (k, JObj [("image", JObj [("tag", JStr "1")])])) <$> ["etcd"; "minio"; "pulsar"; "pulsarv3"; "kafka"].

(** A cluster with dependencies of its own. *)
Definition exFresh : Milvus :=
  mkMilvus (exMeta ∅ ∅)
    (mkSpec MilvusModeCluster (exCom 1)
       (mkDep (mkEtcd None false (Some (mkInCluster (Some [("replicaCount", JNum 5)]) "" DeletionPolicyDelete true)))
          MsgStreamTypePulsar (mkPulsar None false "" []) (mkKafka None false None "") (mkWoodpecker exPersistence false None)
          exPersistence exPersistence (mkStorage "" "" "" None false None) (mkTei None false) None) None None)
    (mkStatus StatusUnset [] "" JNull ∅ ∅ RollingModeV3 0 "" "").

Section Witness.
#[local] Existing Instance concreteSemver.

Lemma dependencies_settle_witness : exists provider,
  initDefaultValues exChartFile = Some provider /\
  DefaultDependencies provider (DefaultDependencies provider exFresh) = DefaultDependencies provider exFresh /\
  length (elems (etcd_Endpoints (dep_Etcd (mi_Dep (DefaultDependencies provider exFresh))))) = 5%nat.
Proof.
  destruct (initDefaultValues exChartFile) as [p|] eqn:Ep; [|by vm_compute in Ep]. exists p. split; [done|]. split.
  - apply (dependencies_settle p exFresh).
    + exact (initDefaultValues_complete _ _ Ep).
    + apply (bool_decide_unpack _). by vm_compute.
  - vm_compute in Ep. injection Ep as <-. by vm_compute.
Defined.
End Witness.
