(* ===== verification/Alpha.v ===== *)
(** * The deprecated v1alpha1 API

    apis/milvus.io/v1alpha1: the v1alpha1 Milvus resource with its conversion to
    and from the stored version v1beta1 (milvus_webhook.go), MilvusCluster with
    its conversion to a Milvus resource (milvuscluster_types.go); and
    pkg/controllers/milvuscluster/convert_controller.go: the controller that
    keeps a Milvus resource as the mirror of a MilvusCluster.

    The maps and pointers that a conversion shares between its two resources
    are not written after it through the resource that they came from, so
    values stand for them. *)
From S2P Require Import Prelude KubeTypes Libs ApiTypes UpgradeTypes Values Labels Effects Utils Components.
From S2P Require Import Webhook Defaults.

Local Open Scope string_scope.
Local Open Scope list_scope.
Local Open Scope Z_scope.

(** ** The Milvus resource *)

Record AlphaSpec := mkAlphaSpec {
  al_ComponentSpec : ComponentSpec;
  al_Replicas : option Z;
  al_Persistence : Persistence;
  al_Ingress : option MilvusIngress;
  al_ServiceType : string;
  al_ServiceIPFamilyPolicy : option string;
  al_DisableMetric : bool;
  al_ServiceLabels : gmap string string;
  al_ServiceAnnotations : gmap string string;
  al_Dep : MilvusDependencies;
  al_Conf : Values
}.

Record AlphaMilvus := mkAlphaMilvus {
  am_Meta : ObjectMeta;
  am_Spec : AlphaSpec;
  am_Status : MilvusStatus
}.

(** ** Zero values *)

Definition zeroPersistence : Persistence := mkPersistence false false (mkPVC "" ∅ ∅ None).
Definition zeroDep : MilvusDependencies :=
  mkDep (mkEtcd None false None) MsgStreamTypeUnset (mkPulsar None false "" []) (mkKafka None false None "")
    (mkWoodpecker zeroPersistence false None) zeroPersistence zeroPersistence
    (mkStorage "" "" "" None false None) (mkTei None false) None.
Definition zeroCom : MilvusComponents :=
  mkCom emptyComponentSpec ServiceTargetPortTypeString ImageUpdateModeUnset None false "" ∅ "" "" false None
    RollingModeNotSet false "" false None None None None None None None None None None None None None.
Definition zeroStatus : MilvusStatus := mkStatus StatusUnset [] "" JNull ∅ ∅ 0 0 "" "".
Definition zeroMilvus : Milvus := mkMilvus emptyMeta (mkSpec MilvusModeUnset zeroCom zeroDep None None) zeroStatus.
Definition zeroAlpha : AlphaMilvus :=
  mkAlphaMilvus emptyMeta
    (mkAlphaSpec emptyComponentSpec None zeroPersistence None "" None false ∅ ∅ zeroDep None) zeroStatus.

(** ** Conversion *)

Definition set_dep_RocksMQ (dep : MilvusDependencies) (p : Persistence) : MilvusDependencies :=
  mkDep (dep_Etcd dep) (dep_MsgStreamType dep) (dep_Pulsar dep) (dep_Kafka dep) (dep_WoodPecker dep) p
    (dep_NatsMQ dep) (dep_Storage dep) (dep_Tei dep) (dep_CustomMsgStream dep).

Definition set_com_DisableMetric (c : MilvusComponents) (b : bool) : MilvusComponents :=
  mkCom (com_ComponentSpec c) (com_TargetPortType c) (com_ImageUpdateMode c) (com_EnableRollingUpdate c) b
    (com_MetricInterval c) (com_MetricLabels c) (com_ToolImage c) (com_DummyImage c) (com_UpdateToolImage c)
    (com_UpdateConfigMapOnly c) (com_RollingMode c) (com_EnableManualMode c) (com_ActiveConfigMap c)
    (com_RunAsNonRoot c) (com_StreamingMode c) (com_Proxy c) (com_MixCoord c) (com_RootCoord c) (com_IndexCoord c)
    (com_DataCoord c) (com_QueryCoord c) (com_IndexNode c) (com_DataNode c) (com_QueryNode c) (com_StreamingNode c)
    (com_Standalone c) (com_Cdc c).

Definition ConvertSpecTo (r : AlphaSpec) (dst : MilvusSpec) : MilvusSpec :=
  let standalone :=
    mkServiceComponent (mkComponent (al_ComponentSpec r) (al_Replicas r) None [] []) (al_ServiceType r)
      (al_ServiceIPFamilyPolicy r) 0 0 (al_ServiceLabels r) (al_ServiceAnnotations r) (al_Ingress r) in
  mkSpec MilvusModeStandalone
    (set_com_Standalone (set_com_DisableMetric zeroCom (al_DisableMetric r)) (Some standalone))
    (set_dep_RocksMQ (al_Dep r) (al_Persistence r)) (al_Conf r) (spec_HookConf dst).

Definition ConvertTo (r : AlphaMilvus) (dst : Milvus) : Milvus :=
  mkMilvus (am_Meta r) (ConvertSpecTo (am_Spec r) (mi_Spec dst)) (am_Status r).

(** The source gets an empty standalone component when it has none. *)
Definition ConvertFrom (r : AlphaMilvus) (src : Milvus) : AlphaMilvus * Milvus :=
  let standalone := default zeroService (com_Standalone (mi_Com src)) in
  let src := set_mi_Spec src (set_spec_Com (mi_Spec src) (set_com_Standalone (mi_Com src) (Some standalone))) in
  let spec :=
    mkAlphaSpec (co_ComponentSpec (sc_Component standalone)) (co_Replicas (sc_Component standalone))
      (al_Persistence (am_Spec r)) (sc_Ingress standalone) (sc_ServiceType standalone)
      (sc_ServiceIPFamilyPolicy standalone) (com_DisableMetric (mi_Com src)) (sc_ServiceLabels standalone)
      (sc_ServiceAnnotations standalone) (mi_Dep src) (spec_Conf (mi_Spec src)) in
  (mkAlphaMilvus (mi_Meta src) spec (mi_Status src), src).

(** ** MilvusCluster *)

Definition MCFinalizerName : string := "milvuscluster.milvus.io/finalizer".

(** controller-runtime's [SetControllerReference] with a MilvusCluster as the
    owner; [None] when the object has another controller. *)
Class ClusterOwner := { SetClusterReference : ObjectMeta -> ObjectMeta -> option ObjectMeta }.

(** It changes nothing but the owner references, and nothing when the reference
    is there. *)
Class ClusterOwnerLaws `{ClusterOwner} := {
  cluster_owner_frame owner obj obj' :
    SetClusterReference owner obj = Some obj' -> obj' = set_Owners obj (om_OwnerReferences obj');
  cluster_owner_again owner obj obj' :
    SetClusterReference owner obj = Some obj' -> SetClusterReference owner obj' = Some obj'
}.

Section Alpha.
Context {SV : Semver} {US : Unstructured} {CO : ClusterOwner}.
Context (provider : gmap string (list (string * json))) (Version : string).

(** [ConvertToMilvus] up to its call of [Default]. *)
Definition mirrored (r : MilvusCluster) (dst : Milvus) : Milvus :=
  let m := mi_Meta dst in
  mkMilvus (mkMeta (om_Name (mcl_Meta r)) (om_Namespace (mcl_Meta r)) (om_Labels (mcl_Meta r)) (mcl_Annotations r)
              (om_Generation m) (om_UID m) (om_ResourceVersion m) (om_OwnerReferences m) (om_DeletionTimestamp m)
              (om_Finalizers m))
    (mkSpec MilvusModeCluster (mcs_Com (mcl_Spec r)) (mcs_Dep (mcl_Spec r)) (mcs_Conf (mcl_Spec r))
       (spec_HookConf (mi_Spec dst)))
    (mi_Status dst).

(** [None] is the panic of [Default]. *)
Definition ConvertToMilvus (r : MilvusCluster) (dst : Milvus) : option Milvus :=
  Default provider Version (mirrored r dst).

Definition UpdateStatusFrom (r : MilvusCluster) (src : Milvus) : MilvusCluster :=
  mkMilvusCluster (mcl_Meta r) (mcl_Spec r) (mi_Status src).

(** ** The controller *)

Definition set_Finalizers (m : ObjectMeta) (l : list string) : ObjectMeta :=
  mkMeta (om_Name m) (om_Namespace m) (om_Labels m) (om_Annotations m) (om_Generation m) (om_UID m)
    (om_ResourceVersion m) (om_OwnerReferences m) (om_DeletionTimestamp m) l.

Definition withoutFinalizer (c : MilvusCluster) : MilvusCluster :=
  set_mcl_Meta c (set_Finalizers (mcl_Meta c) (filter (fun f => f <> MCFinalizerName) (om_Finalizers (mcl_Meta c)))).

(** The conversion with the MilvusCluster as controller of the result. *)
Definition ownedMirror (c : MilvusCluster) (beta : Milvus) : prog Milvus :=
  converted ← deref (ConvertToMilvus c beta);
  match SetClusterReference (mcl_Meta c) (mi_Meta converted) with
  | None => Fail (EWrap "set controller reference" (ENew "already owned"))
  | Some meta => Ret (mkMilvus meta (mi_Spec converted) (mi_Status converted))
  end.

(** Labels, annotations and dependencies, or components, of the Milvus resource. *)
Definition withBetaMeta (c : MilvusCluster) (beta : Milvus) : ObjectMeta :=
  set_Annotations (set_Labels (mcl_Meta c) (mi_Labels beta)) (mi_Annotations beta).
Definition withBetaDep (c : MilvusCluster) (beta : Milvus) : MilvusCluster :=
  mkMilvusCluster (withBetaMeta c beta) (mkClusterSpec (mcs_Com (mcl_Spec c)) (mi_Dep beta) (mcs_Conf (mcl_Spec c)))
    (mcl_Status c).
Definition withBetaCom (c : MilvusCluster) (beta : Milvus) : MilvusCluster :=
  mkMilvusCluster (withBetaMeta c beta) (mkClusterSpec (mi_Com beta) (mcs_Dep (mcl_Spec c)) (mcs_Conf (mcl_Spec c)))
    (mcl_Status c).

(** The annotation of an upgrade decides which of the two follows the other. *)
Definition followUpgrade (c : MilvusCluster) (beta : Milvus) : prog unit :=
  if bool_decide (mget (mcl_Annotations c) UpgradeAnnotation = AnnotationUpgrading) then Ret tt
  else if bool_decide (mget (mcl_Annotations c) UpgradeAnnotation = AnnotationUpgraded) then
    wrap "error update beta to alpha" (write (UpdateMilvusCluster (withBetaCom c beta)))
  else
    mirror ← ownedMirror c beta;
    wrap "error update milvus spec " (write (UpdateMilvus mirror)).

(** The Milvus resource exists. *)
Definition followBeta (c : MilvusCluster) (beta : Milvus) : prog unit :=
  let c := UpdateStatusFrom c beta in
  wrap "error update milvus status" (write (UpdateMilvusClusterStatus c)) ;;
  if LegacyNeedSyncValues beta then Ret tt
  else
    c ← (if bool_decide (mget (mcl_Annotations c) DependencyValuesMergedAnnotation = TrueStr) then Ret c
         else
           let c := withBetaDep c beta in
           wrap "error update beta to alpha" (write (UpdateMilvusCluster c)) ;; Ret c);
    followUpgrade c beta.

Definition removeOldFinalizer (c : MilvusCluster) : prog unit :=
  if bool_decide (MCFinalizerName ∈ om_Finalizers (mcl_Meta c))
  then write (UpdateMilvusCluster (withoutFinalizer c)) else Ret tt.

Definition createMirror (c : MilvusCluster) : prog unit :=
  mirror ← ownedMirror c zeroMilvus;
  wrap "error create milvus " (write (CreateMilvus mirror)).

Definition cluster_Reconcile (namespace name : string) : prog unit :=
  r ← attempt (read (GetMilvusCluster namespace name));
  match r with
  | inl e => if IsNotFound e then Ret tt else Fail (EWrap "error get milvus " e)
  | inr c =>
      if bool_decide (is_Some (om_DeletionTimestamp (mcl_Meta c))) then removeOldFinalizer c
      else
        b ← attempt (read (GetMilvus namespace name));
        match b with
        | inl e => if IsNotFound e then createMirror c else Fail (EWrap "error get milvus " e)
        | inr beta => followBeta c beta
        end
  end.
End Alpha.
