(* ===== verification/AlphaProofs.v ===== *)
(** * Properties of the v1alpha1 API

    Which resources survive a conversion; that the mirror of a MilvusCluster
    settles after one pass of its controller; when the controller leaves the
    mirror alone.  And where that fails: a resource loses the persistence of its
    message queue, the mirror its rollout state, and an upgrade its stop. *)
From S2P Require Import Prelude KubeTypes Libs ApiTypes UpgradeTypes Values Labels Effects Utils Components.
From S2P Require Import Webhook Defaults Alpha UpgradeFsm Examples DefaultsProofs.

Local Open Scope string_scope.
Local Open Scope list_scope.
Local Open Scope Z_scope.

(** ** Conversion *)

(** What v1alpha1 can express of a standalone component and of the components. *)
Definition alphaService (s : ServiceComponent) : Prop :=
  let c := sc_Component s in
  co_HPA c = None /\ co_SideCars c = [] /\ co_InitContainers c = [] /\ sc_Port s = 0 /\ sc_ServiceRestfulPort s = 0.

Definition alphaCom (c : MilvusComponents) : Prop :=
  (exists s, com_Standalone c = Some s /\ alphaService s) /\
  set_com_Standalone (set_com_DisableMetric c false) None = zeroCom.

Definition expressible (b : Milvus) : Prop :=
  spec_Mode (mi_Spec b) = MilvusModeStandalone /\ alphaCom (mi_Com b) /\ spec_HookConf (mi_Spec b) = None /\
  dep_RocksMQ (mi_Dep b) = zeroPersistence.

(** A stored resource read and written back through v1alpha1. *)
Definition throughAlpha (b : Milvus) : Milvus := ConvertTo (ConvertFrom zeroAlpha b).1 zeroMilvus.

Lemma throughAlpha_dep b : mi_Dep (throughAlpha b) = set_dep_RocksMQ (mi_Dep b) zeroPersistence.
Proof. done. Qed.

(** C29. A stored resource survives being read and written back through v1alpha1
    exactly when it is a standalone one that uses nothing newer than v1alpha1
    and has no persistence configured for RocksMQ. *)
Theorem alpha_roundtrip b : throughAlpha b = b <-> expressible b.
Proof.
  split.
  - intros H. rewrite <- H. unfold expressible, alphaCom, alphaService. simpl. split; [done|]. split; [|done].
    split; [|done]. eexists. by split.
  - intros (Hm & [(s & Hs & Hsv) Hc] & Hh & Hr). destruct b as [meta [mode com dep conf hook] st].
    unfold mi_Com, mi_Dep in *. simpl in *. subst. unfold throughAlpha, ConvertFrom, ConvertTo, ConvertSpecTo. simpl.
    f_equal. f_equal.
    + unfold mi_Com. simpl. rewrite Hs. simpl. destruct com. simpl in *. unfold set_com_DisableMetric in Hc. simpl in Hc.
      injection Hc. intros. subst. destruct s as [[] ]. unfold alphaService in Hsv. simpl in Hsv.
      destruct Hsv as (-> & -> & -> & -> & ->). done.
    + unfold mi_Dep. simpl. destruct dep. simpl in *. by subst.
Qed.

(** Reading through v1alpha1 keeps what writing through it gives, but for the
    persistence, which moves to the dependencies; the next write erases it. *)
Theorem alpha_persistence_lost r :
  let stored := ConvertTo r zeroMilvus in
  let again := throughAlpha stored in
  dep_RocksMQ (mi_Dep stored) = al_Persistence (am_Spec r) /\ dep_RocksMQ (mi_Dep again) = zeroPersistence /\
  set_mi_Dep again (set_dep_RocksMQ (mi_Dep again) (al_Persistence (am_Spec r))) = stored.
Proof. split; [done|]. split; [done|]. by destruct r as [? [] ?]. Qed.

(** ** Defaulting reads and writes a part of a resource *)

(** The rest of the metadata, and the hooks, replaced. *)
Definition rebase (m : ObjectMeta) (hook : Values) (r : Milvus) : Milvus :=
  let o := mi_Meta r in
  let s := mi_Spec r in
  mkMilvus (mkMeta (om_Name o) (om_Namespace o) (om_Labels o) (om_Annotations o) (om_Generation m) (om_UID m)
              (om_ResourceVersion m) (om_OwnerReferences m) (om_DeletionTimestamp m) (om_Finalizers m))
    (mkSpec (spec_Mode s) (spec_Com s) (spec_Dep s) (spec_Conf s) hook) (mi_Status r).

Lemma rebase_id r : rebase (mi_Meta r) (spec_HookConf (mi_Spec r)) r = r.
Proof. by destruct r as [[] [] ?]. Qed.

Section Rebase.
Context {SV : Semver} {US : Unstructured} (provider : gmap string (list (string * json))) (Version : string).
Context (m : ObjectMeta) (hook : Values).
Notation rb := (rebase m hook).

(** The steps of [DefaultMeta]. *)
Definition metaNamespace (r : Milvus) : Milvus :=
  let o := mi_Meta r in
  mkMilvus (mkMeta (om_Name o) (setDefaultStr (om_Namespace o) "default") (om_Labels o) (om_Annotations o)
              (om_Generation o) (om_UID o) (om_ResourceVersion o) (om_OwnerReferences o) (om_DeletionTimestamp o)
              (om_Finalizers o)) (mi_Spec r) (mi_Status r).
Definition metaVersion (r : Milvus) : Milvus :=
  if bool_decide (mget (mi_Labels r) OperatorVersionLabel = "") then
    if negb (IsFirstTimeStarting r) then
      set_mi_Annotations (set_mi_Labels r (<[OperatorVersionLabel := LegacyVersion]> (mi_Labels r)))
        (<[DependencyValuesLegacySyncedAnnotation := FalseStr]> (mi_Annotations r))
    else set_mi_Labels r (<[OperatorVersionLabel := Version]> (mi_Labels r))
  else r.
Definition metaService (r : Milvus) : Milvus :=
  if IsFirstTimeStarting r
  then set_mi_Annotations r (<[PodServiceLabelAddedAnnotation := TrueStr]> (mi_Annotations r)) else r.
Definition metaGroup (r : Milvus) : Milvus :=
  if bool_decide (mget (mi_Annotations r) OldAnnotationCurrentQueryNodeGroupID = "") then r
  else
    let r := SetCurrentGroupIDStr r "querynode" (mget (mi_Annotations r) OldAnnotationCurrentQueryNodeGroupID) in
    set_mi_Annotations r (<[OldAnnotationCurrentQueryNodeGroupID := ""]> (mi_Annotations r)).

Lemma DefaultMeta_steps r : DefaultMeta Version r = metaGroup (metaService (metaVersion (metaNamespace r))).
Proof. done. Qed.

Lemma rebase_meta r : DefaultMeta Version (rb r) = rb (DefaultMeta Version r).
Proof.
  rewrite !DefaultMeta_steps. change (metaNamespace (rb r)) with (rb (metaNamespace r)).
  generalize (metaNamespace r). clear r. intros r.
  assert (metaVersion (rb r) = rb (metaVersion r)) as ->.
  { unfold metaVersion. change (mi_Labels (rb r)) with (mi_Labels r).
    change (IsFirstTimeStarting (rb r)) with (IsFirstTimeStarting r). destruct (bool_decide _); [|done].
    by destruct (IsFirstTimeStarting r). }
  generalize (metaVersion r). clear r. intros r.
  assert (metaService (rb r) = rb (metaService r)) as ->.
  { unfold metaService. change (IsFirstTimeStarting (rb r)) with (IsFirstTimeStarting r).
    by destruct (IsFirstTimeStarting r). }
  generalize (metaService r). clear r. intros r. unfold metaGroup.
  change (mi_Annotations (rb r)) with (mi_Annotations r). by destruct (bool_decide _).
Qed.

Lemma rebase_values r d ic :
  defaultValuesByDependency provider (rb r) d ic
  = (rb (defaultValuesByDependency provider r d ic).1, (defaultValuesByDependency provider r d ic).2).
Proof.
  unfold defaultValuesByDependency. replace (isLegacy (rb r)) with (isLegacy r) by done.
  destruct (isLegacy r).
  - replace (defaultValuesMerged (setDefaultValueMerged (rb r))) with (defaultValuesMerged (setDefaultValueMerged r)) by done.
    by destruct (defaultValuesMerged _).
  - replace (defaultValuesMerged (rb r)) with (defaultValuesMerged r) by done. by destruct (defaultValuesMerged _).
Qed.

Lemma rebase_dep r dep : set_mi_Dep (rb r) dep = rb (set_mi_Dep r dep).
Proof. done. Qed.

(** A step that stores a configuration with its default values. *)
Ltac rebase_step :=
  rewrite rebase_values; destruct (defaultValuesByDependency _ _ _ _); done.

Lemma rebase_etcd r : defaultEtcd provider (rb r) = rb (defaultEtcd provider r).
Proof.
  unfold defaultEtcd. change (mi_Dep (rb r)) with (mi_Dep r). destruct (etcd_External _); [done|].
  change (IsFirstTimeStarting (rb r)) with (IsFirstTimeStarting r). change (spec_Mode (mi_Spec (rb r))) with (spec_Mode (mi_Spec r)).
  cbv zeta. change (etcdEndpoint (rb r)) with (etcdEndpoint r). rebase_step.
Qed.

Lemma rebase_stream r : defaultMsgStream provider (rb r) = rb (defaultMsgStream provider r).
Proof.
  unfold defaultMsgStream.
  assert (set_mi_Spec (rb r) (setDefaultMsgStreamType (mi_Spec (rb r)))
          = rb (set_mi_Spec r (setDefaultMsgStreamType (mi_Spec r)))) as ->.
  { unfold setDefaultMsgStreamType. change (spec_Dep (mi_Spec (rb r))) with (spec_Dep (mi_Spec r)).
    change (IsVersionGreaterThan2_6 (mi_Spec (rb r))) with (IsVersionGreaterThan2_6 (mi_Spec r)).
    by destruct (dep_MsgStreamType _). }
  generalize (set_mi_Spec r (setDefaultMsgStreamType (mi_Spec r))). clear r. intros r.
  unfold setDefaultMsgStreamConfigs. change (mi_Dep (rb r)) with (mi_Dep r). destruct (dep_MsgStreamType _); try done.
  - unfold defaultPulsar. change (mi_Dep (rb r)) with (mi_Dep r). destruct (pul_External _); [done|].
    change (IsFirstTimeStarting (rb r)) with (IsFirstTimeStarting r). cbv zeta. rebase_step.
  - unfold defaultKafka. change (mi_Dep (rb r)) with (mi_Dep r). destruct (kaf_External _); [done|]. cbv zeta. rebase_step.
Qed.

Lemma rebase_storage r : defaultStorage provider (rb r) = rb (defaultStorage provider r).
Proof.
  unfold defaultStorage. change (mi_Dep (rb r)) with (mi_Dep r). cbv zeta. destruct (sto_External _); [done|].
  change (spec_Mode (mi_Spec (rb r))) with (spec_Mode (mi_Spec r)). rebase_step.
Qed.

Lemma rebase_tei r : defaultTei (rb r) = rb (defaultTei r).
Proof. unfold defaultTei. change (mi_Dep (rb r)) with (mi_Dep r). by destruct (tei_Enabled _). Qed.

Lemma rebase_merged r : setDefaultValueMerged (rb r) = rb (setDefaultValueMerged r).
Proof. done. Qed.

Lemma rebase_dependencies r : DefaultDependencies provider (rb r) = rb (DefaultDependencies provider r).
Proof.
  unfold DefaultDependencies. rewrite rebase_etcd, rebase_stream, rebase_storage, rebase_tei, rebase_merged. reflexivity.
Qed.

(** The spec as far as defaulting reads it. *)
Definition rehook (s : MilvusSpec) : MilvusSpec := mkSpec (spec_Mode s) (spec_Com s) (spec_Dep s) (spec_Conf s) hook.

Lemma rebase_replicas s : defaultComponentsReplicas (rehook s) = rehook <$> defaultComponentsReplicas s.
Proof.
  unfold defaultComponentsReplicas. change (spec_Mode (rehook s)) with (spec_Mode s).
  change (spec_Com (rehook s)) with (spec_Com s). change (defaultClusterReplicas (rehook s)) with (defaultClusterReplicas s).
  destruct (if bool_decide _ then _ else _) as [com|]; [|done]. cbn [mbind option_bind].
  change (UseCdc (set_spec_Com (rehook s) com)) with (UseCdc (set_spec_Com s com)).
  by destruct (if UseCdc _ then _ else _).
Qed.

Lemma rehook_com s com : set_spec_Com (rehook s) com = rehook (set_spec_Com s com).
Proof. done. Qed.
Lemma rehook_version s : IsVersionGreaterThan2_6 (rehook s) = IsVersionGreaterThan2_6 s.
Proof. done. Qed.
Lemma rehook_streaming s : UseStreamingNode (rehook s) = UseStreamingNode s.
Proof. done. Qed.

Lemma rehook_cluster s com : defaultClusterComponents (rehook s) com = defaultClusterComponents s com.
Proof.
  unfold defaultClusterComponents. cbv zeta. rewrite !rehook_com, rehook_version, rehook_streaming. reflexivity.
Qed.

Lemma rebase_components s : DefaultComponents (rehook s) = rehook <$> DefaultComponents s.
Proof.
  unfold DefaultComponents. cbv zeta. rewrite <- rebase_replicas, <- rehook_com, rehook_cluster. reflexivity.
Qed.

Lemma rebase_spec r s : set_mi_Spec (rb r) (rehook s) = rb (set_mi_Spec r s).
Proof. done. Qed.
Lemma rebase_read r : mi_Spec (rb r) = rehook (mi_Spec r).
Proof. done. Qed.
Lemma rehook_mode s : DefaultMode (rehook s) = rehook (DefaultMode s).
Proof. done. Qed.
Lemma rehook_conf s : DefaultConf (rehook s) = rehook (DefaultConf s).
Proof. done. Qed.

Lemma rebase_Default r : Default provider Version (rb r) = rb <$> Default provider Version r.
Proof.
  unfold Default. cbv zeta. rewrite rebase_meta, !rebase_read, rehook_mode, !rebase_spec, !rebase_read, rebase_components.
  destruct (DefaultComponents _) as [s|]; [|reflexivity]. cbn [fmap option_fmap option_map mbind option_bind].
  rewrite rebase_spec, rebase_dependencies, rebase_read, rehook_conf, rebase_spec. reflexivity.
Qed.
End Rebase.

(** ** What defaulting leaves of labels, annotations and status *)

Definition stateKept (r r' : Milvus) : Prop :=
  mi_Status r' = mi_Status r /\
  (forall k, k <> OperatorVersionLabel -> mget (mi_Labels r') k = mget (mi_Labels r) k) /\
  (forall k, k ∉ [DependencyValuesLegacySyncedAnnotation; PodServiceLabelAddedAnnotation;
                  DependencyValuesMergedAnnotation] ->
     mget (mi_Annotations r') k = mget (mi_Annotations r) k).

#[local] Instance stateKept_preorder : PreOrder stateKept.
Proof.
  split; [by intros r|]. intros a b c (Hs & Hl & Ha) (Hs' & Hl' & Ha'). split; [congruence|]. split; intros k Hk.
  - by rewrite Hl', Hl.
  - by rewrite Ha', Ha.
Qed.

Lemma stateKept_spec r s : stateKept r (set_mi_Spec r s).
Proof. done. Qed.

Lemma stateKept_annotation r k v :
  k ∈ [DependencyValuesLegacySyncedAnnotation; PodServiceLabelAddedAnnotation; DependencyValuesMergedAnnotation] ->
  stateKept r (set_mi_Annotations r (<[k := v]> (mi_Annotations r))).
Proof.
  intros Hin. split; [done|]. split; [done|]. intros k' Hk'. apply mget_insert_ne. intros ->. done.
Qed.

Lemma stateKept_version r v : stateKept r (set_mi_Labels r (<[OperatorVersionLabel := v]> (mi_Labels r))).
Proof. split; [done|]. split; [|done]. intros k Hk. by apply mget_insert_ne. Qed.

Section StateKept.
Context {SV : Semver} {US : Unstructured} (provider : gmap string (list (string * json))) (Version : string).

Lemma kept_merged r : stateKept r (setDefaultValueMerged r).
Proof. apply stateKept_annotation. by do 2 constructor; constructor. Qed.

Lemma kept_values r d ic : stateKept r (defaultValuesByDependency provider r d ic).1.
Proof.
  unfold defaultValuesByDependency.
  assert (stateKept r (if isLegacy r then setDefaultValueMerged r else r)) as H
    by (destruct (isLegacy r); [apply kept_merged|done]).
  by destruct (defaultValuesMerged _).
Qed.

Ltac kept_step :=
  lazymatch goal with |- stateKept _ (let '(_, _) := defaultValuesByDependency ?p ?r ?d ?ic in _) =>
    pose proof (kept_values r d ic); destruct (defaultValuesByDependency p r d ic); done end.

Lemma kept_dependencies r : stateKept r (DefaultDependencies provider r).
Proof.
  unfold DefaultDependencies. etransitivity; [|apply kept_merged].
  transitivity (defaultEtcd provider r).
  { unfold defaultEtcd. destruct (etcd_External _); [done|]. cbv zeta. kept_step. }
  transitivity (defaultMsgStream provider (defaultEtcd provider r)).
  { generalize (defaultEtcd provider r). clear r. intros r. unfold defaultMsgStream.
    transitivity (set_mi_Spec r (setDefaultMsgStreamType (mi_Spec r))); [done|].
    generalize (set_mi_Spec r (setDefaultMsgStreamType (mi_Spec r))). clear r. intros r.
    unfold setDefaultMsgStreamConfigs. destruct (dep_MsgStreamType _); try done.
    - unfold defaultPulsar. destruct (pul_External _); [done|]. cbv zeta. kept_step.
    - unfold defaultKafka. destruct (kaf_External _); [done|]. cbv zeta. kept_step. }
  generalize (defaultMsgStream provider (defaultEtcd provider r)). clear r. intros r.
  transitivity (defaultStorage provider r).
  { unfold defaultStorage. cbv zeta. destruct (sto_External _); [done|]. kept_step. }
  generalize (defaultStorage provider r). clear r. intros r. unfold defaultTei. by destruct (tei_Enabled _).
Qed.

Lemma kept_meta r :
  mget (mi_Annotations r) OldAnnotationCurrentQueryNodeGroupID = "" -> stateKept r (DefaultMeta Version r).
Proof.
  intros Hold. rewrite DefaultMeta_steps.
  assert (stateKept r (metaService (metaVersion Version (metaNamespace r)))) as Hk.
  { transitivity (metaNamespace r); [done|]. generalize (metaNamespace r). clear r Hold. intros r.
    transitivity (metaVersion Version r).
    - unfold metaVersion. destruct (bool_decide _); [|done]. destruct (IsFirstTimeStarting r); simpl.
      + apply stateKept_version.
      + etransitivity; [apply (stateKept_version r LegacyVersion)|].
        apply (stateKept_annotation (set_mi_Labels r _)). constructor.
    - generalize (metaVersion Version r). clear r. intros r. unfold metaService. destruct (IsFirstTimeStarting r); [|done].
      apply stateKept_annotation. by do 2 constructor. }
  set (r' := metaService _) in *. unfold metaGroup.
  assert (mget (mi_Annotations r') OldAnnotationCurrentQueryNodeGroupID = "") as ->.
  { destruct Hk as (_ & _ & Ha). rewrite Ha; [done|]. apply (bool_decide_unpack _). by vm_compute. }
  by rewrite bool_decide_eq_true_2.
Qed.

Lemma kept_Default r r' :
  mget (mi_Annotations r) OldAnnotationCurrentQueryNodeGroupID = "" ->
  Default provider Version r = Some r' -> stateKept r r'.
Proof.
  intros Hold. unfold Default. cbv zeta. pose proof (kept_meta r Hold) as Hm.
  generalize dependent (DefaultMeta Version r). intros r1 Hm.
  destruct (DefaultComponents _) as [s|]; [|done]. cbn [mbind option_bind]. intros [= <-].
  etransitivity; [exact Hm|]. etransitivity; [|apply stateKept_spec]. etransitivity; [|apply kept_dependencies]. done.
Qed.

(** The status is kept whatever the annotations are. *)
Lemma status_Default r r' : Default provider Version r = Some r' -> mi_Status r' = mi_Status r.
Proof.
  unfold Default. cbv zeta.
  assert (mi_Status (DefaultMeta Version r) = mi_Status r) as Hm.
  { rewrite DefaultMeta_steps. unfold metaGroup, metaService, metaVersion. by repeat case_match. }
  generalize dependent (DefaultMeta Version r). intros r1 Hm.
  destruct (DefaultComponents _) as [s|]; [|done]. cbn [mbind option_bind]. intros [= <-].
  rewrite <- Hm. apply (kept_dependencies (set_mi_Spec (set_mi_Spec r1 (DefaultMode (mi_Spec r1))) s)).
Qed.
End StateKept.

(** ** The mirror *)

Section Mirror.
Context {SV : Semver} {US : Unstructured} {CO : ClusterOwner} {COL : ClusterOwnerLaws}.
Context (provider : gmap string (list (string * json))) (Version : string).
Notation ownedMirror := (ownedMirror provider Version).
Notation cluster_Reconcile := (cluster_Reconcile provider Version).

Lemma ownedMirror_inv c b b' :
  ownedMirror c b = Ret b' ->
  exists d, ConvertToMilvus provider Version c b = Some d /\ mi_Spec b' = mi_Spec d /\ mi_Status b' = mi_Status d /\
    SetClusterReference (mcl_Meta c) (mi_Meta d) = Some (mi_Meta b') /\
    mi_Meta b' = set_Owners (mi_Meta d) (om_OwnerReferences (mi_Meta b')).
Proof.
  unfold Alpha.ownedMirror. destruct (ConvertToMilvus _ _ _ _) as [d|]; [|done]. cbn.
  destruct (SetClusterReference _ _) as [meta|] eqn:Hm; [|done]. intros [= <-]. exists d. simpl.
  repeat split; [done|]. by eapply cluster_owner_frame.
Qed.

Lemma mirrored_rebase c b b' :
  mi_Status b' = mi_Status b ->
  mirrored c b' = rebase (mi_Meta b') (spec_HookConf (mi_Spec b')) (mirrored c b).
Proof. intros H. unfold mirrored, rebase. simpl. by rewrite H. Qed.

Lemma convert_rebase c b b' d :
  ConvertToMilvus provider Version c b = Some d -> mi_Status b' = mi_Status b ->
  ConvertToMilvus provider Version c b' = Some (rebase (mi_Meta b') (spec_HookConf (mi_Spec b')) d).
Proof.
  unfold ConvertToMilvus. intros Hd Hs. rewrite (mirrored_rebase c b b' Hs), rebase_Default, Hd. reflexivity.
Qed.

Lemma convert_kept c b d :
  mget (mcl_Annotations c) OldAnnotationCurrentQueryNodeGroupID = "" ->
  ConvertToMilvus provider Version c b = Some d -> stateKept (mirrored c b) d.
Proof. unfold ConvertToMilvus. intros Hold Hd. exact (kept_Default provider Version (mirrored c b) d Hold Hd). Qed.

Lemma convert_status c b d : ConvertToMilvus provider Version c b = Some d -> mi_Status d = mi_Status b.
Proof. unfold ConvertToMilvus. intros ->%status_Default. reflexivity. Qed.

(** Converting into the converted resource changes nothing. *)
Lemma ownedMirror_again c b b' : ownedMirror c b = Ret b' -> ownedMirror c b' = Ret b'.
Proof.
  intros H. apply ownedMirror_inv in H as (d & Hd & Hs & Hst & Hown & Hmeta).
  pose proof (convert_status c b d Hd) as Hstat. pose proof (convert_rebase c b b' d Hd) as Hc.
  unfold Alpha.ownedMirror. rewrite Hc by congruence.
  assert (rebase (mi_Meta b') (spec_HookConf (mi_Spec b')) d = b') as ->.
  { clear Hc Hd Hown. destruct b' as [m' s' st'], d as [[] [] st]. simpl in *. subst. simpl. unfold rebase. simpl.
    by rewrite Hmeta. }
  cbn [deref mbind prog_mbind prog_bind]. rewrite (cluster_owner_again _ _ _ Hown). by destruct b'.
Qed.

(** The cluster is in the API server, the Milvus resource too. *)
Definition serves (c : MilvusCluster) (b : Milvus) (B : Type) (r : kread B) : B -> Prop :=
  match r in kread B return B -> Prop with
  | GetMilvusCluster _ _ => fun x => x = c
  | GetMilvus _ _ => fun x => x = b
  | _ => fun _ => True
  end.

Definition valuesMerged (c : MilvusCluster) : bool :=
  bool_decide (mget (mcl_Annotations c) DependencyValuesMergedAnnotation = TrueStr).

(** The MilvusCluster with which a pass decides what follows what. *)
Definition synced (c : MilvusCluster) (b : Milvus) : MilvusCluster :=
  let c := UpdateStatusFrom c b in if valuesMerged c then c else withBetaDep c b.

Lemma synced_merged c b : valuesMerged c = true -> synced c b = UpdateStatusFrom c b.
Proof. intros H. unfold synced. change (valuesMerged (UpdateStatusFrom c b)) with (valuesMerged c). by rewrite H. Qed.

(** The status of the MilvusCluster is not converted. *)
Lemma mirrored_status c b x : mirrored (UpdateStatusFrom c b) x = mirrored c x.
Proof. done. Qed.
Lemma ownedMirror_status c b x : ownedMirror (UpdateStatusFrom c b) x = ownedMirror c x.
Proof. unfold Alpha.ownedMirror, ConvertToMilvus. rewrite mirrored_status. reflexivity. Qed.

Definition upgradeMark (c : MilvusCluster) : string := mget (mcl_Annotations c) UpgradeAnnotation.

(** When a pass writes a Milvus resource, and what. *)
Definition mirrorWrite (c : MilvusCluster) (b : Milvus) (w : kwrite) : Prop :=
  match w with
  | UpdateMilvus m =>
      LegacyNeedSyncValues b = false /\ upgradeMark (synced c b) <> AnnotationUpgrading /\
      upgradeMark (synced c b) <> AnnotationUpgraded /\ ownedMirror (synced c b) b = Ret m
  | CreateMilvus m => ownedMirror c zeroMilvus = Ret m
  | _ => True
  end.

Lemma wp_mirror R c b (f : Milvus -> prog unit) (P : kwrite -> Prop) :
  (forall m, ownedMirror c b = Ret m -> wp R (f m) (fun ws _ => Forall P ws)) ->
  wp R (prog_bind f (ownedMirror c b)) (fun ws _ => Forall P ws).
Proof.
  intros Hf. destruct (ownedMirror c b) as [m|e| |B q k] eqn:Hm.
  - by apply Hf.
  - constructor.
  - constructor.
  - exfalso. revert Hm. unfold Alpha.ownedMirror. generalize (ConvertToMilvus provider Version c b). intros [d|]; [|done].
    cbn [deref mbind prog_mbind prog_bind]. by destruct (SetClusterReference _ _).
Qed.

Lemma followUpgrade_writes R c b (P : kwrite -> Prop) :
  P (UpdateMilvusCluster (withBetaCom c b)) ->
  (forall m, upgradeMark c <> AnnotationUpgrading -> upgradeMark c <> AnnotationUpgraded ->
     ownedMirror c b = Ret m -> P (UpdateMilvus m)) ->
  wp R (followUpgrade provider Version c b) (fun ws _ => Forall P ws).
Proof.
  intros Hc Hm. unfold followUpgrade. case_bool_decide as H1; [apply wp_ret_writes|].
  case_bool_decide as H2; [by apply wp_wrap_writes, wp_one_write|].
  apply wp_mirror. intros m Hmir. by apply wp_wrap_writes, wp_one_write, Hm.
Qed.

Lemma cluster_writes ns n c b :
  wp (serves c b) (cluster_Reconcile ns n) (fun ws _ => Forall (mirrorWrite c b) ws).
Proof.
  unfold Alpha.cluster_Reconcile. apply wp_bind, wp_attempt, wp_read; cbv beta iota.
  { intros e. writes_steps. }
  intros x Hx. simpl in Hx. subst x. case_bool_decide.
  { unfold removeOldFinalizer. by writes_steps. }
  apply wp_bind, wp_attempt, wp_read; cbv beta iota.
  { intros e. case_match; [|apply wp_fail_writes]. apply wp_mirror. intros m Hm. by apply wp_wrap_writes, wp_one_write. }
  intros x Hx. simpl in Hx. subst x. unfold followBeta. cbv zeta.
  apply wp_then; [by apply wp_wrap_writes, wp_one_write|]. intros [].
  destruct (LegacyNeedSyncValues b) eqn:Hl; [apply wp_ret_writes|].
  assert (wp (serves c b) (followUpgrade provider Version (synced c b) b) (fun ws _ => Forall (mirrorWrite c b) ws)) as Hf.
  { apply followUpgrade_writes; [done|]. by intros m H1 H2 Hm. }
  unfold synced, valuesMerged in Hf. case_bool_decide; [exact Hf|].
  apply wp_bind, wp_bind, wp_wrap, wp_write; [by repeat constructor|]. cbv beta iota. apply wp_ret. cbv beta iota.
  eapply wp_mono; [|exact Hf]. intros ws o' Hws. by constructor.
Qed.

Lemma cluster_update ns n c b tr o m :
  exec (cluster_Reconcile ns n) tr o -> Forall (event_ok (serves c b)) tr -> UpdateMilvus m ∈ writes tr ->
  mirrorWrite c b (UpdateMilvus m).
Proof.
  intros Hex Hok Hin.
  pose proof (wp_exec (serves c b) _ _ _ _ (cluster_writes ns n c b) Hex Hok) as Hall.
  rewrite Forall_forall in Hall. by apply Hall.
Qed.

(** C30. The mirror settles: a pass that reads the MilvusCluster unchanged and the
    Milvus resource that an earlier pass wrote writes, if any, the same resource
    again; what Kubernetes keeps in its metadata, its hooks and its finalizers
    were kept by the earlier pass. *)
Theorem mirror_settles ns n c b b' m tr o tr' o' :
  valuesMerged c = true ->
  exec (cluster_Reconcile ns n) tr o -> Forall (event_ok (serves c b)) tr -> UpdateMilvus b' ∈ writes tr ->
  exec (cluster_Reconcile ns n) tr' o' -> Forall (event_ok (serves c b')) tr' -> UpdateMilvus m ∈ writes tr' ->
  m = b' /\ mi_Status b' = mi_Status b /\ spec_HookConf (mi_Spec b') = spec_HookConf (mi_Spec b) /\
  om_Finalizers (mi_Meta b') = om_Finalizers (mi_Meta b).
Proof.
  intros Hv Hex Hok Hin Hex' Hok' Hin'.
  destruct (cluster_update _ _ _ _ _ _ _ Hex Hok Hin) as (_ & _ & _ & Hb).
  destruct (cluster_update _ _ _ _ _ _ _ Hex' Hok' Hin') as (_ & _ & _ & Hm).
  rewrite synced_merged, ownedMirror_status in Hb, Hm by done.
  rewrite (ownedMirror_again _ _ _ Hb) in Hm. injection Hm as <-. split; [done|].
  apply ownedMirror_inv in Hb as (d & Hd & Hs & Hst & _ & Hmeta).
  pose proof (convert_status _ _ _ Hd) as Hstat.
  pose proof (convert_rebase _ _ b _ Hd eq_refl) as Hfix. rewrite Hd in Hfix. injection Hfix as Hfix.
  rewrite Hst, Hs, Hmeta. split; [done|]. rewrite Hfix. done.
Qed.

(** ** Upgrades *)

Lemma stopMilvus_marks milvus :
  wp anyAnswer (stopMilvus milvus)
    (fun ws _ => Forall (fun w => match w with UpdateMilvusCluster c => upgradeMark c = AnnotationUpgrading | _ => True end) ws).
Proof.
  unfold stopMilvus, annotateAlphaCR. writes_steps; try done. apply mget_insert_eq.
Qed.

(** C12. An upgrade that has stopped a Milvus resource and marked the MilvusCluster
    it mirrors keeps it: as long as the mark is there, no pass of the
    MilvusCluster's controller writes the Milvus resource, whatever it reads of
    it, once the dependencies' values were synced. *)
Theorem marked_mirror_kept milvus tr0 o0 c ns n b tr o m :
  exec (stopMilvus milvus) tr0 o0 -> UpdateMilvusCluster c ∈ writes tr0 -> valuesMerged c = true ->
  exec (cluster_Reconcile ns n) tr o -> Forall (event_ok (serves c b)) tr -> UpdateMilvus m ∉ writes tr.
Proof.
  intros Hex0 Hin0 Hv Hex Hok Hin.
  pose proof (wp_exec_any _ _ _ _ (stopMilvus_marks milvus) Hex0) as Hall. rewrite Forall_forall in Hall.
  specialize (Hall _ Hin0). simpl in Hall.
  destruct (cluster_update _ _ _ _ _ _ _ Hex Hok Hin) as (_ & Hmark & _).
  by rewrite synced_merged in Hmark.
Qed.

Lemma followUpgrade_mirrors c b m :
  upgradeMark c = "" -> ownedMirror c b = Ret m ->
  followUpgrade provider Version c b = wrap "error update milvus spec " (write (UpdateMilvus m)).
Proof.
  unfold followUpgrade. fold (upgradeMark c). intros -> Hm.
  rewrite (bool_decide_eq_false_2 ("" = AnnotationUpgrading)), (bool_decide_eq_false_2 ("" = AnnotationUpgraded)) by done.
  rewrite Hm. reflexivity.
Qed.

(** An answer of a failure-free execution. *)
Ltac next_answer x :=
  destruct x as [?|x]; [done|];
  lazymatch goal with H : Forall _ _ |- _ => apply Forall_cons in H as [Hev H] end;
  lazymatch goal with H : no_failure (_ :: ?t) |- _ => apply andb_prop in H as [_ H]; change (no_failure t) in H end.

(** Before that, the sync itself drops the mark: the pass that the mark triggers
    copies the annotations of the Milvus resource over those of the
    MilvusCluster, and then writes the MilvusCluster's components, with their
    replicas, over the stopped ones. *)
Theorem unsynced_mark_dropped milvus c ns n tr o m :
  let marked := annotatedCluster c AnnotationUpgrading in
  let b := stoppedMilvus milvus in
  valuesMerged c = false -> om_DeletionTimestamp (mcl_Meta c) = None ->
  mget (mi_Annotations milvus) UpgradeAnnotation = "" -> LegacyNeedSyncValues b = false ->
  ownedMirror (synced marked b) b = Ret m ->
  exec (cluster_Reconcile ns n) tr o -> Forall (event_ok (serves marked b)) tr -> no_failure tr ->
  o = ORet tt /\ upgradeMark (synced marked b) = "" /\
  writes tr = [UpdateMilvusClusterStatus (UpdateStatusFrom marked b); UpdateMilvusCluster (synced marked b); UpdateMilvus m].
Proof.
  intros marked b Hv Hdel Hmark Hl Hm Hex Hok Hnf.
  assert (valuesMerged (UpdateStatusFrom marked b) = false) as Hvm.
  { rewrite <- Hv. unfold valuesMerged. f_equal. simpl. unfold mcl_Annotations. simpl. by rewrite mget_insert_ne. }
  assert (synced marked b = withBetaDep (UpdateStatusFrom marked b) b) as Hs by (unfold synced; by rewrite Hvm).
  assert (upgradeMark (synced marked b) = "") as Hu.
  { rewrite Hs. unfold upgradeMark. simpl. unfold mcl_Annotations. simpl. unfold mi_Annotations. simpl. by rewrite mget_insert_ne. }
  hnf in Hex. destruct Hex as (x & tr1 & -> & Hex). next_answer x. simpl in Hev. subst.
  cbv beta iota in Hex. cbn [mbind prog_mbind prog_bind attempt] in Hex.
  rewrite bool_decide_eq_false_2 in Hex by (simpl; rewrite Hdel; by intros []).
  hnf in Hex. destruct Hex as (x & tr2 & -> & Hex). next_answer x. simpl in Hev. subst.
  hnf in Hex. destruct Hex as (x & tr3 & -> & Hex). next_answer x. clear Hev.
  cbn [mbind prog_mbind prog_bind wrap] in Hex. rewrite Hl in Hex.
  change (bool_decide (mget (mcl_Annotations (UpdateStatusFrom marked b)) DependencyValuesMergedAnnotation = TrueStr))
    with (valuesMerged (UpdateStatusFrom marked b)) in Hex. rewrite Hvm in Hex. cbv zeta in Hex. rewrite <- Hs in Hex.
  hnf in Hex. destruct Hex as (x4 & tr4 & -> & Hex). next_answer x4. clear Hev.
  cbn [mbind prog_mbind prog_bind wrap] in Hex. rewrite (followUpgrade_mirrors _ _ _ Hu Hm) in Hex.
  hnf in Hex. destruct Hex as (x5 & tr5 & -> & Hex). next_answer x5. clear Hev.
  cbn in Hex. destruct x, x4, x5, Hex as [-> ->]. done.
Qed.

(** ** The rollout state *)

Lemma suffix_ne n prefix a p q :
  (n <= length (String.list_ascii_of_string p))%nat ->
  take n (reverse (String.list_ascii_of_string p)) <> take n (reverse (String.list_ascii_of_string q)) ->
  (prefix +:+ a +:+ p)%string <> q.
Proof.
  intros Hn Hne H. apply Hne. rewrite <- H, !to_list_app, !reverse_app, <- (assoc_L (++)), take_app_le; [done|].
  by rewrite length_reverse.
Qed.

Ltac other_suffix prefix a p := apply (suffix_ne 2 prefix a p); [vm_compute; lia|by vm_compute].

(** A pass keeps no rollout state of the mirror: the current group, the change
    of mode and the rollout of every component are those of the MilvusCluster's
    own annotations and labels, whatever the Milvus resource had. *)
Theorem mirror_rollout_state ns n c b tr o m component :
  valuesMerged c = true -> mget (mcl_Annotations c) OldAnnotationCurrentQueryNodeGroupID = "" ->
  exec (cluster_Reconcile ns n) tr o -> Forall (event_ok (serves c b)) tr -> UpdateMilvus m ∈ writes tr ->
  GetCurrentGroupId m component = mget (mcl_Annotations c) (GetComponentCurrentGroupIDLabel component) /\
  IsChangingMode m component = bool_decide (mget (mcl_Annotations c) (getChangingModeLabel component) = TrueStr) /\
  GetComponentRollingId m component = mget (om_Labels (mcl_Meta c)) (GetRollingIdLabelByComponent component).
Proof.
  intros Hv Hold Hex Hok Hin. destruct (cluster_update _ _ _ _ _ _ _ Hex Hok Hin) as (_ & _ & _ & Hm).
  rewrite synced_merged, ownedMirror_status in Hm by done.
  apply ownedMirror_inv in Hm as (d & Hd & _ & _ & _ & Hmeta). pose proof (convert_kept _ _ _ Hold Hd) as Hk.
  clear Hex Hok Hin Hd. revert Hk. generalize d, Hmeta. clear d Hmeta. intros d Hmeta (_ & Hl & Ha).
  unfold GetCurrentGroupId, IsChangingMode, GetComponentRollingId, mi_Annotations, mi_Labels in *. rewrite Hmeta. simpl.
  rewrite !Ha, Hl; [done|other_suffix MilvusIO component "-rolling-id"| |]; rewrite !not_elem_of_cons;
    (split_and!; [..|by intros ?%elem_of_nil]).
  1-3: other_suffix "milvus.io/changing-" component "-mode".
  all: other_suffix MilvusIO component "-current-group-id".
Qed.
End Mirror.

(** ** Witnesses *)

Definition concreteClusterOwner : ClusterOwner := {|
  SetClusterReference owner obj :=
    if existsb (fun o => or_Controller o && negb (bool_decide (or_UID o = om_UID owner))) (om_OwnerReferences obj) then None
    else Some (set_Owners obj (mkOwner "MilvusCluster" (om_Name owner) (om_UID owner) true
                                 :: filter (fun o => or_UID o <> om_UID owner) (om_OwnerReferences obj)))
|}.

Lemma concreteClusterOwnerLaws : @ClusterOwnerLaws concreteClusterOwner.
Proof.
  split; simpl; intros owner obj obj'; case_match eqn:E; try done; intros [= <-]; [done|].
  simpl. rewrite bool_decide_eq_true_2 by done. simpl.
  assert (existsb (fun o => or_Controller o && negb (bool_decide (or_UID o = om_UID owner)))
            (filter (fun o => or_UID o <> om_UID owner) (om_OwnerReferences obj)) = false) as ->.
  { apply not_true_iff_false. rewrite existsb_exists. intros (o & Ho & Hb). apply not_true_iff_false in E. apply E.
    apply existsb_exists. exists o. split; [|done]. apply list_elem_of_In in Ho. apply list_elem_of_In.
    by apply list_elem_of_filter in Ho as [_ ?]. }
  rewrite filter_cons_False by (simpl; tauto). by rewrite list_filter_filter_l by done.
Qed.

Section Witness.
#[local] Existing Instances concreteSemver concreteUnstructured concreteClusterOwner concreteClusterOwnerLaws.

(** A pass without failures over a MilvusCluster that was synced. *)
Definition exPass (c : MilvusCluster) (b : Milvus) (updates : list kwrite) : list event :=
  [Ev (Read (GetMilvusCluster "ns" "mi")) (inr c); Ev (Read (GetMilvus "ns" "mi")) (inr b);
   Ev (Write (UpdateMilvusClusterStatus (UpdateStatusFrom c b))) (inr tt)]
  ++ ((fun w => Ev (Write w) (inr tt)) <$> updates).

Lemma exPass_served c b ws : Forall (event_ok (serves c b)) (exPass c b ws).
Proof.
  unfold exPass. apply Forall_app. split; [by repeat constructor|]. apply Forall_fmap, Forall_forall. by intros w _.
Qed.

Lemma exPass_exec provider Version c b ws :
  om_DeletionTimestamp (mcl_Meta c) = None -> LegacyNeedSyncValues b = false -> valuesMerged c = true ->
  exec (followUpgrade provider Version (UpdateStatusFrom c b) b) ((fun w => Ev (Write w) (inr tt)) <$> ws) (ORet tt) ->
  exec (cluster_Reconcile provider Version "ns" "mi") (exPass c b ws) (ORet tt).
Proof.
  intros Hdel Hl Hv Hf. eexists _, _. split; [reflexivity|]. cbn [mbind prog_mbind prog_bind attempt].
  rewrite bool_decide_eq_false_2 by (rewrite Hdel; by intros []).
  eexists _, _. split; [reflexivity|]. cbn [mbind prog_mbind prog_bind attempt]. unfold followBeta. cbv zeta.
  eexists _, _. split; [reflexivity|]. cbn [mbind prog_mbind prog_bind wrap]. rewrite Hl.
  unfold valuesMerged in Hv. change (mcl_Annotations (UpdateStatusFrom c b)) with (mcl_Annotations c). by rewrite Hv.
Qed.

Definition exProvider : gmap string (list (string * json)) := default ∅ (initDefaultValues exChartFile).

(** A MilvusCluster whose values were synced, with the Milvus resource it owns. *)
Definition exClusterMeta : ObjectMeta :=
  mkMeta "mi" "ns" {[OperatorVersionLabel := "v1"]} {[DependencyValuesMergedAnnotation := TrueStr]} 1 "uid-cluster" "1" []
    None [].
Definition exAlphaCluster : MilvusCluster := mkMilvusCluster exClusterMeta (mkClusterSpec (exCom 2) exDep None) exStatus.
Definition exBeta : Milvus :=
  mkMilvus (mkMeta "mi" "ns" {[OperatorVersionLabel := "v1"]}
              {[DependencyValuesMergedAnnotation := TrueStr; GetComponentCurrentGroupIDLabel "querynode" := "1"]}
              3 "uid-mi" "7" [mkOwner "MilvusCluster" "mi" "uid-cluster" true] None ["milvus.milvus.io/finalizer"])
    (exSpec 1) exStatus.
Definition mirrorOf (c : MilvusCluster) (b : Milvus) : Milvus :=
  match ownedMirror exProvider "v1" c b with Ret m => m | _ => b end.

Lemma exMirror_eq :
  let b' := mirrorOf exAlphaCluster exBeta in
  ownedMirror exProvider "v1" exAlphaCluster exBeta = Ret b' /\ LegacyNeedSyncValues b' = false /\
  GetReplicas QueryNode (mi_Spec b') = Some 2.
Proof. by vm_compute. Qed.

Lemma exPass_update c b m :
  om_DeletionTimestamp (mcl_Meta c) = None -> LegacyNeedSyncValues b = false -> valuesMerged c = true ->
  upgradeMark c = "" -> ownedMirror exProvider "v1" c b = Ret m ->
  exec (cluster_Reconcile exProvider "v1" "ns" "mi") (exPass c b [UpdateMilvus m]) (ORet tt).
Proof.
  intros Hdel Hl Hv Hu Hm. apply exPass_exec; [done..|]. rewrite (followUpgrade_mirrors _ _ _ _ m).
  - eexists _, _. by split.
  - exact Hu.
  - by rewrite ownedMirror_status.
Qed.

(** A cluster of two replicas over a mirror of one: the next pass writes the same. *)
Lemma mirror_settles_witness :
  let b' := mirrorOf exAlphaCluster exBeta in
  UpdateMilvus b' ∈ writes (exPass exAlphaCluster exBeta [UpdateMilvus b']) /\
  GetReplicas QueryNode (mi_Spec exBeta) = Some 1 /\ GetReplicas QueryNode (mi_Spec b') = Some 2 /\
  mi_Status b' = mi_Status exBeta /\ om_Finalizers (mi_Meta b') = ["milvus.milvus.io/finalizer"].
Proof.
  intros b'. destruct exMirror_eq as (Hm & Hl & Hr). pose proof (ownedMirror_again exProvider "v1" _ _ _ Hm) as Hm'.
  fold b' in Hm, Hm', Hl, Hr. clearbody b'.
  destruct (mirror_settles exProvider "v1" "ns" "mi" exAlphaCluster exBeta b' b'
              (exPass exAlphaCluster exBeta [UpdateMilvus b']) (ORet tt)
              (exPass exAlphaCluster b' [UpdateMilvus b']) (ORet tt)) as (_ & Hs & _ & Hf).
  - by vm_compute.
  - by apply exPass_update.
  - apply exPass_served.
  - by do 2 constructor.
  - by apply exPass_update.
  - apply exPass_served.
  - by do 2 constructor.
  - split_and!; [by do 2 constructor|by vm_compute|exact Hr|exact Hs|]. rewrite Hf. reflexivity.
Defined.

(** An upgrade of that resource stops it; the next pass leaves it alone. *)
Lemma marked_mirror_kept_witness :
  exists tr0 c tr,
    exec (stopMilvus exBeta) tr0 (ORet (stoppedMilvus exBeta)) /\ UpdateMilvusCluster c ∈ writes tr0 /\
    exec (cluster_Reconcile exProvider "v1" "ns" "mi") tr (ORet tt) /\
    forall m, UpdateMilvus m ∉ writes tr.
Proof.
  set (c := annotatedCluster exAlphaCluster AnnotationUpgrading). set (b := stoppedMilvus exBeta).
  set (tr0 := [Ev (Read (GetMilvusCluster "ns" "mi")) (inr exAlphaCluster); Ev (Write (UpdateMilvusCluster c)) (inr tt);
               Ev (Write (UpdateMilvus b)) (inr tt)]).
  assert (exec (stopMilvus exBeta) tr0 (ORet b)) as H0 by (repeat (eexists _, _; split; [reflexivity|]); done).
  assert (exec (cluster_Reconcile exProvider "v1" "ns" "mi") (exPass c b []) (ORet tt)) as H1.
  { apply exPass_exec; by vm_compute. }
  exists tr0, c, (exPass c b []). split; [exact H0|]. split; [constructor|]. split; [exact H1|]. intros m.
  apply (marked_mirror_kept exProvider "v1" exBeta tr0 (ORet b) c "ns" "mi" b (exPass c b []) (ORet tt) m).
  - exact H0.
  - constructor.
  - by vm_compute.
  - exact H1.
  - apply exPass_served.
Defined.

(** The pass that syncs a MilvusCluster. *)
Definition exSyncPass (c : MilvusCluster) (b m : Milvus) : list event :=
  exPass c b [UpdateMilvusCluster (synced c b); UpdateMilvus m].

Lemma exSyncPass_exec provider Version c b m :
  om_DeletionTimestamp (mcl_Meta c) = None -> LegacyNeedSyncValues b = false -> valuesMerged c = false ->
  upgradeMark (synced c b) = "" -> ownedMirror provider Version (synced c b) b = Ret m ->
  exec (cluster_Reconcile provider Version "ns" "mi") (exSyncPass c b m) (ORet tt).
Proof.
  intros Hdel Hl Hv Hu Hm. eexists _, _. split; [reflexivity|]. cbn [mbind prog_mbind prog_bind attempt].
  rewrite bool_decide_eq_false_2 by (rewrite Hdel; by intros []).
  eexists _, _. split; [reflexivity|]. cbn [mbind prog_mbind prog_bind attempt]. unfold followBeta. cbv zeta.
  eexists _, _. split; [reflexivity|]. cbn [mbind prog_mbind prog_bind wrap]. rewrite Hl.
  assert (synced c b = withBetaDep (UpdateStatusFrom c b) b) as Hs.
  { unfold synced. change (valuesMerged (UpdateStatusFrom c b)) with (valuesMerged c). by rewrite Hv. }
  change (bool_decide (mget (mcl_Annotations (UpdateStatusFrom c b)) DependencyValuesMergedAnnotation = TrueStr))
    with (valuesMerged c). rewrite Hv, <- Hs.
  eexists _, _. split; [reflexivity|]. cbn [mbind prog_mbind prog_bind wrap]. rewrite (followUpgrade_mirrors _ _ _ _ _ Hu Hm).
  eexists _, _. by split.
Qed.

Definition exUnsynced : MilvusCluster :=
  mkMilvusCluster (set_Annotations exClusterMeta ∅) (mcl_Spec exAlphaCluster) exStatus.
Definition exMarked : MilvusCluster := annotatedCluster exUnsynced AnnotationUpgrading.
Definition exStopped : Milvus := stoppedMilvus exBeta.
Definition exRestarted : Milvus := mirrorOf (synced exMarked exStopped) exStopped.

Lemma exRestarted_eq :
  ownedMirror exProvider "v1" (synced exMarked exStopped) exStopped = Ret exRestarted /\
  GetReplicas QueryNode (mi_Spec exStopped) = Some 0 /\ GetReplicas QueryNode (mi_Spec exRestarted) = Some 2.
Proof. by vm_compute. Qed.

(** Had the MilvusCluster not been synced, the pass would restart the query
    nodes that the upgrade has stopped. *)
Lemma unsynced_mark_dropped_witness :
  GetReplicas QueryNode (mi_Spec exStopped) = Some 0 /\ GetReplicas QueryNode (mi_Spec exRestarted) = Some 2 /\
  upgradeMark exMarked = AnnotationUpgrading /\ upgradeMark (synced exMarked exStopped) = "".
Proof.
  destruct exRestarted_eq as (Hm & H0 & H2). split_and!; [exact H0|exact H2|by vm_compute|].
  apply (unsynced_mark_dropped exProvider "v1" exBeta exUnsynced "ns" "mi" (exSyncPass exMarked exStopped exRestarted)
           (ORet tt) exRestarted).
  - by vm_compute.
  - reflexivity.
  - by vm_compute.
  - by vm_compute.
  - exact Hm.
  - by apply exSyncPass_exec; [reflexivity|vm_compute|vm_compute|vm_compute|].
  - apply exPass_served.
  - reflexivity.
Defined.
End Witness.
