(* ===== verification/Dependencies.v ===== *)
(** * Dependencies

    pkg/controllers/dependencies.go and pkg/helm/helm.go: the dependencies that
    run in the cluster are Helm releases; a release is installed, and updated
    when its values changed or its last operation failed.  Growing the claims of
    etcd needs its stateful set to be replaced, which is saved first.

    Helm keeps its releases in the cluster: its operations are calls.  The loops
    that wait for a deletion poll until the context is cancelled: [polls] is the
    number of polls until then. *)
From S2P Require Import Prelude KubeTypes Libs ApiTypes Values Labels Effects Utils Components K8sUtil.
From S2P Require Import PodTemplate StatefulSets Defaults Webhook.

Local Open Scope string_scope.
Local Open Scope list_scope.
Local Open Scope Z_scope.

(** ** Chart requests

    [rq_Values] is [None] for a nil map. *)

Record ChartRequest := mkRequest {
  rq_ReleaseName : string;
  rq_Namespace : string;
  rq_Chart : string;
  rq_Values : option (list (string * json))
}.

Definition NeedUpdate (status : string) : bool :=
  bool_decide (status = "failed") || bool_decide (status = "unknown") || bool_decide (status = "uninstalled").

Definition GetChartPathByName (chart : string) : string := "config/assets/charts/" +:+ chart.

Definition inClusterOf (dep : MilvusDependencies) (kind : DependencyKind) : option InClusterConfig :=
  match kind with
  | DependencyKindEtcd => etcd_InCluster (dep_Etcd dep)
  | DependencyKindStorage => sto_InCluster (dep_Storage dep)
  | DependencyKindPulsar => pul_InCluster (dep_Pulsar dep)
  | DependencyKindKafka => kaf_InCluster (dep_Kafka dep)
  | DependencyKindTei => tei_InCluster (dep_Tei dep)
  end.

(** The values that Silo's chart takes under other names than MinIO's. *)
Definition siloValues (mc : Milvus) (values : list (string * json)) : list (string * json) :=
  let copy o k k' := match get_key o k with
                     | Some _ => o
                     | None => set_key o k (default JNull (get_key o k'))
                     end in
  let v := copy (copy values "rootUser" "accessKey") "rootPassword" "secretKey" in
  let v := set_key v "fullnameOverride" (JStr (mi_Name mc +:+ "-minio")) in
  let v := set_key v "nameOverride" (JStr "minio") in
  let account := match get_key v "serviceAccount" with Some (JObj a) => a | _ => [] end in
  let account := match get_key account "name" with
                 | Some (JStr name) =>
                     if bool_decide (name = "") then set_key account "name" (JStr (mi_Name mc +:+ "-minio")) else account
                 | _ => set_key account "name" (JStr (mi_Name mc +:+ "-minio"))
                 end in
  set_key v "serviceAccount" (JObj account).

(** [None] is the panic of a nil configuration. *)
Definition GetChartRequest (mc : Milvus) (dep : DependencyKind) (chart : string) : option ChartRequest :=
  inCluster ← inClusterOf (spec_Dep (mi_Spec mc)) dep;
  let chartKind := match dep with
                   | DependencyKindPulsar =>
                       if bool_decide (ic_ChartVersion inCluster = ChartVersionPulsarV3) then "pulsar" else chart
                   | _ => chart
                   end in
  let chartDir := match dep with
                  | DependencyKindStorage => "silo"
                  | DependencyKindPulsar =>
                      if bool_decide (ic_ChartVersion inCluster = ChartVersionPulsarV3) then "pulsarv3" else chart
                  | DependencyKindEtcd =>
                      if bool_decide (ic_ChartVersion inCluster = ChartVersionEtcdV6) then "etcdv6" else "etcdv8"
                  | _ => chart
                  end in
  let chartValues := default [] (ic_Values inCluster) in
  let chartValues := match dep with DependencyKindStorage => siloValues mc chartValues | _ => chartValues end in
  Some (mkRequest (mi_Name mc +:+ "-" +:+ chartKind) (mi_Namespace mc) (GetChartPathByName chartDir)
          (Some chartValues)).

(** [reflect.DeepEqual] of two values: a map has no order. *)
Fixpoint sameJson (a b : json) : bool :=
  match a, b with
  | JObj l, JObj l' =>
      (length l =? length l')%nat &&
      (fix go (l : list (string * json)) : bool :=
         match l with
         | [] => true
         | (k, v) :: rest => match get_key l' k with Some v' => sameJson v v' | None => false end && go rest
         end) l
  | JArr l, JArr l' =>
      (fix go (l l' : list json) : bool :=
         match l, l' with
         | [], [] => true
         | x :: r, y :: r' => sameJson x y && go r r'
         | _, _ => false
         end) l l'
  | _, _ => bool_decide (a = b)
  end.

(** [strings.Contains]. *)
Definition Contains (s sub : string) : bool := bool_decide (is_Some (String.index 0 sub s)).

Section Helm.
Context {SV : Semver} {KL : KubeLib} {CL : ClaimLib} {KM : KubeMessages}.
Context (ParseQuantity : string -> option string) (polls : nat).

(** [fmt.Errorf("msg: %v", err)]: the text of the error, without its chain. *)
Definition textError (msg : string) (e : err) : err := ENew (msg +:+ ": " +:+ Error e).
Definition errorf {A} (msg : string) (p : prog A) : prog A :=
  r ← attempt p; match r with inl e => Fail (textError msg e) | inr a => Ret a end.

(** ** Replacing the stateful set of etcd *)

Definition getCurrentStorageSize (sts : StatefulSet) : string :=
  default "0" (t ← head (sts_ClaimTemplates sts); claimStorage t).

Definition cleared (s : StatefulSet) (templates : list Claim) : StatefulSet :=
  let m := sts_Meta s in
  KubeTypes.mkStatefulSet
    (mkMeta (om_Name m) (om_Namespace m) (om_Labels m) (om_Annotations m) (om_Generation m) (om_UID m) ""
       (om_OwnerReferences m) (om_DeletionTimestamp m) (om_Finalizers m))
    (sts_Replicas s) (sts_Selector s) (sts_Template s) (sts_ServiceName s) (sts_UpdateStrategy s)
    (sts_MinReadySeconds s) templates 0 0 0 0 0 "" "".

Definition set_sts_ClaimTemplates (s : StatefulSet) (templates : list Claim) : StatefulSet :=
  KubeTypes.mkStatefulSet (sts_Meta s) (sts_Replicas s) (sts_Selector s) (sts_Template s) (sts_ServiceName s)
    (sts_UpdateStrategy s) (sts_MinReadySeconds s) templates (sts_ObservedGeneration s) (sts_StatusReplicas s)
    (sts_ReadyReplicas s) (sts_AvailableReplicas s) (sts_UpdatedReplicas s) (sts_CurrentRevision s)
    (sts_UpdateRevision s).

Definition createNewStatefulSet (templateSts : StatefulSet) (newQuantity : string) : prog unit :=
  errorf "failed to create new StatefulSet"
    (write (CreateStatefulSet
              (cleared templateSts ((fun t => set_claimStorage t newQuantity) <$> sts_ClaimTemplates templateSts)))).

(** [waitFor...Deletion]: the error's text is searched for "not found". *)
Fixpoint waitForDeletion {B} (n : nat) (msg : string) (get : kread B) : prog unit :=
  match n with
  | O => Fail (ENew ("context cancelled while waiting for " +:+ msg +:+ " deletion"))
  | S n' =>
      r ← attempt (read get);
      match r with
      | inl e => if Contains (Error e) "not found" then Ret tt else Fail e
      | inr _ => waitForDeletion n' msg get
      end
  end.

Fixpoint resizeClaims (namespace releaseName newQuantity : string) (from count : nat) : prog unit :=
  match count with
  | O => Ret tt
  | S count' =>
      let pvcName := "data-" +:+ releaseName +:+ "-" +:+ Itoa (Z.of_nat from) in
      pvc ← errorf ("failed to get PVC " +:+ pvcName) (read (GetClaim namespace pvcName));
      errorf ("failed to update PVC " +:+ pvcName) (write (UpdateClaim (set_claimStorage pvc newQuantity))) ;;
      resizeClaims namespace releaseName newQuantity (S from) count'
  end.

(** The stateful set, restored from the saved one when it is gone; [None]: there
    is neither. *)
Definition currentStatefulSet (namespace stsName saveName : string) : prog (option StatefulSet) :=
  r ← attempt (read (GetStatefulSet namespace stsName));
  match r with
  | inr sts => Ret (Some sts)
  | inl e =>
      if IsNotFound e then
        saved ← attempt (GetSavedObject namespace saveName);
        match saved with
        | inl e' => if IsNotFound e' then Ret None else Fail (textError "failed to get saved StatefulSet" e')
        | inr (SavedStatefulSet savedSts) =>
            createNewStatefulSet savedSts (getCurrentStorageSize savedSts) ;; Ret (Some savedSts)
        | inr _ => Fail (textError "failed to get saved StatefulSet" (ENew "wrong kind"))
        end
      else Fail (textError "failed to get StatefulSet" e)
  end.

Definition resizedTemplates (newQuantity : string) (templates : list Claim) : list Claim :=
  match templates with [] => [] | t :: rest => set_claimStorage t newQuantity :: rest end.

(** The previous copy is deleted. *)
Definition forgetSaved (namespace saveName : string) : prog unit :=
  r ← attempt (write (DeleteRevision namespace saveName));
  match r with
  | inl e => if IsNotFound e then Ret tt else Fail (textError "failed to delete controller revision" e)
  | inr _ => Ret tt
  end.

Definition reconcilePVCs (namespace releaseName newSize : string) (mc : Milvus) : prog unit :=
  match ParseQuantity newSize with
  | None => Fail (ENew "failed to parse new size")
  | Some newQuantity =>
      let saveName := releaseName +:+ "-old-sts" in
      cur ← currentStatefulSet namespace releaseName saveName;
      match cur with
      | None => Ret tt
      | Some currentSts =>
          if QuantityCmp (getCurrentStorageSize currentSts) newQuantity =? 0 then Ret tt
          else
            replicas ← deref (sts_Replicas currentSts);
            resizeClaims namespace releaseName newQuantity 0 (Z.to_nat replicas) ;;
            let currentSts := set_sts_ClaimTemplates currentSts
                                (resizedTemplates newQuantity (sts_ClaimTemplates currentSts)) in
            forgetSaved namespace saveName ;;
            errorf "failed to wait for StatefulSet deletion"
              (waitForDeletion polls "ControllerRevision" (GetRevision namespace saveName)) ;;
            errorf "failed to save StatefulSet" (SaveObject mc saveName (SavedStatefulSet currentSts)) ;;
            errorf "failed to delete StatefulSet" (write (OrphanDeleteStatefulSet namespace releaseName)) ;;
            errorf "failed to wait for StatefulSet deletion"
              (waitForDeletion polls "StatefulSet" (GetStatefulSet namespace releaseName)) ;;
            createNewStatefulSet currentSts newQuantity
      end
  end.

(** ** Releases *)

(** The size of the persistence, or the error of reading it. *)
Definition persistenceSize (which : string) (values : list (string * json)) : err + string :=
  match get_key values "persistence" with
  | None | Some JNull =>
      inl (ENew (if bool_decide (which = "old") then "old opersistence is nil" else which +:+ " persistence is nil"))
  | Some (JObj p) =>
      match get_key p "size" with
      | None | Some JNull => inl (ENew (which +:+ " persistence size is nil"))
      | Some (JStr size) => inr size
      | Some _ => inl (ENew (which +:+ " persistence size is not a string"))
      end
  | Some _ => inl (ENew (which +:+ " persistence is not a map"))
  end.

Definition sumProg {A} (x : err + A) : prog A := match x with inl e => Fail e | inr a => Ret a end.

Definition pulsarChart : string := GetChartPathByName "pulsar".

(** [request.Values["initialize"] = b] for the chart of Pulsar; assigning to a
    nil map panics. *)
Definition setInitialize (isPulsar : bool) (values : option (list (string * json))) (b : bool) :
    prog (option (list (string * json))) :=
  if isPulsar then v ← deref values; Ret (Some (set_key v "initialize" (JBool b))) else Ret values.

(** [reflect.DeepEqual(vals, request.Values)]: a nil map is no empty map. *)
Definition deepEqualValues (vals : list (string * json)) (values : option (list (string * json))) : bool :=
  match values with Some v => sameJson (JObj vals) (JObj v) | None => false end.

(** [LocalHelmReconciler.Reconcile]. *)
Definition helm_Reconcile (request : ChartRequest) (mc : Milvus) : prog unit :=
  let ns := rq_Namespace request in
  let release := rq_ReleaseName request in
  let isPulsar := bool_decide (rq_Chart request = pulsarChart) in
  exist ← read (HelmReleaseExist ns release);
  if negb exist then
    values ← setInitialize isPulsar (rq_Values request) true;
    write (HelmInstall ns release (rq_Chart request) (default [] values))
  else
    vals ← read (HelmGetValues ns release);
    status ← read (HelmGetStatus ns release);
    let vals := if isPulsar then delete_key vals "initialize" else vals in
    let deepEqual := deepEqualValues vals (rq_Values request) in
    if deepEqual && negb (NeedUpdate status) then Ret tt
    else
      values ← setInitialize isPulsar (rq_Values request) false;
      (if Contains release "etcd" then
         oldSize ← sumProg (persistenceSize "old" vals);
         newSize ← sumProg (persistenceSize "new" (default [] values));
         reconcilePVCs ns release newSize mc
       else Ret tt) ;;
      write (HelmUpdate ns release (rq_Chart request) (default [] values)).

Definition helm_GetValues (namespace release : string) : prog (list (string * json)) :=
  exist ← read (HelmReleaseExist namespace release);
  if negb exist then Ret [] else read (HelmGetValues namespace release).

(** ** Reconcilers of the dependencies *)

Definition set_etcd_ChartVersion (mc : Milvus) (version : string) : Milvus :=
  let e := dep_Etcd (mi_Dep mc) in
  set_mi_Dep mc (set_dep_Etcd (mi_Dep mc)
                   (mkEtcd (etcd_Endpoints e) (etcd_External e)
                      ((fun ic => set_ic_ChartVersion ic version) <$> etcd_InCluster e))).

Definition ensureEtcdChartVersion (mc : Milvus) : prog Milvus :=
  match etcd_InCluster (dep_Etcd (mi_Dep mc)) with
  | None => Fail (ENew "etcd inCluster config is required when etcd is not external")
  | Some ic =>
      if negb (bool_decide (ic_ChartVersion ic = "")) then Ret mc
      else
        let release := mi_Name mc +:+ "-etcd" in
        exist ← read (HelmReleaseExist (mi_Namespace mc) release);
        version ←
          (if negb exist then Ret ChartVersionEtcdV8
           else
             text ← wrap ("failed to get etcd chart version from helm release " +:+ release)
                      (read (HelmGetChartVersion (mi_Namespace mc) release));
             match sv_ParseTolerant text with
             | None => Fail (ENew ("failed to parse etcd chart version " +:+ text +:+ " as semantic version"))
             | Some v =>
                 if sv_Major v =? 6 then Ret ChartVersionEtcdV6
                 else if sv_Major v =? 8 then Ret ChartVersionEtcdV8
                 else Fail (ENew ("unsupported etcd chart version " +:+ text))
             end);
        let mc := set_etcd_ChartVersion mc version in
        write (UpdateMilvus mc) ;; Ret mc
  end.

Definition ReconcileEtcd (mc : Milvus) : prog unit :=
  if etcd_External (dep_Etcd (mi_Dep mc)) then Ret tt
  else
    mc ← ensureEtcdChartVersion mc;
    request ← deref (GetChartRequest mc DependencyKindEtcd "etcd");
    helm_Reconcile request mc.

Definition ReconcileKafka (mc : Milvus) : prog unit :=
  if kaf_External (dep_Kafka (mi_Dep mc)) then Ret tt
  else request ← deref (GetChartRequest mc DependencyKindKafka "kafka"); helm_Reconcile request mc.

Definition ReconcilePulsar (mc : Milvus) : prog unit :=
  if pul_External (dep_Pulsar (mi_Dep mc)) then Ret tt
  else request ← deref (GetChartRequest mc DependencyKindPulsar "pulsar"); helm_Reconcile request mc.

Definition ReconcileMsgStream (mc : Milvus) : prog unit :=
  match dep_MsgStreamType (mi_Dep mc) with
  | MsgStreamTypeKafka => ReconcileKafka mc
  | MsgStreamTypePulsar => ReconcilePulsar mc
  | _ => Ret tt
  end.

(** A release of MinIO's own chart keeps that chart and its values. *)
Definition ReconcileMinio (mc : Milvus) : prog unit :=
  if sto_External (dep_Storage (mi_Dep mc)) then Ret tt
  else
    request ← deref (GetChartRequest mc DependencyKindStorage "minio");
    exists_ ← read (HelmReleaseExist (mi_Namespace mc) (rq_ReleaseName request));
    request ←
      (if exists_ : bool then
         version ← read (HelmGetChartVersion (mi_Namespace mc) (rq_ReleaseName request));
         if HasPrefix version "8." then
           ic ← deref (sto_InCluster (dep_Storage (mi_Dep mc)));
           Ret (mkRequest (rq_ReleaseName request) (rq_Namespace request) (GetChartPathByName "minio")
                  (ic_Values ic))
         else Ret request
       else Ret request);
    helm_Reconcile request mc.

Definition ReconcileTei (mc : Milvus) : prog unit :=
  if negb (tei_Enabled (dep_Tei (mi_Dep mc))) then Ret tt
  else request ← deref (GetChartRequest mc DependencyKindTei "tei"); helm_Reconcile request mc.
End Helm.
