(* ===== verification/Probes.v ===== *)
(** * Probes of the dependencies

    pkg/controllers/conditions.go, status_cluster.go and pkg/external: how the
    readiness of etcd, object storage and message stream is found out.  A probe
    is a program whose calls go to the dependency; it is tried up to three
    times.  [GetEtcdCondition], [GetMinioCondition] and [GetMsgStreamCondition]
    give the probe of a resource and the endpoints it is cached under
    ([EndpointCache]).

    PEM, X.509 and PKCS#8 are [KafkaTls], the decoding of the Kafka section is
    [DecodeKafkaConf], which [KafkaDecode] defines; timeouts and closing of connections are left out.  Text
    functions of the standard library are written out for ASCII text. *)
From stdpp Require Import sorting.
From S2P Require Import Prelude KubeTypes Libs ApiTypes Values Labels Effects Utils Components Group.
From S2P Require Import Status PodTemplate KafkaSecrets StatefulSets Deployments ConfigMaps Dependencies.

Local Open Scope string_scope.
Local Open Scope list_scope.

(** ** Text *)

Definition upperAscii (a : ascii) : ascii :=
  let n := nat_of_ascii a in if (97 <=? n)%nat && (n <=? 122)%nat then ascii_of_nat (n - 32) else a.

(** [strings.ToUpper] of ASCII text. *)
Fixpoint ToUpper (s : string) : string :=
  match s with EmptyString => "" | String a s' => String (upperAscii a) (ToUpper s') end.

Definition isSpace (a : ascii) : bool :=
  let n := nat_of_ascii a in ((9 <=? n)%nat && (n <=? 13)%nat) || (n =? 32)%nat.

Fixpoint TrimLeft (s : string) : string :=
  match s with
  | EmptyString => ""
  | String a s' => if isSpace a then TrimLeft s' else s
  end.

(** A blank rest is dropped. *)
Fixpoint TrimRight (s : string) : string :=
  match s with
  | EmptyString => ""
  | String a s' =>
      match TrimRight s' with
      | EmptyString => if isSpace a then "" else String a ""
      | r => String a r
      end
  end.

(** [strings.TrimSpace]. *)
Definition TrimSpace (s : string) : string := TrimRight (TrimLeft s).

Definition TrimSuffix (s suffix : string) : string :=
  if HasSuffix s suffix then String.substring 0 (String.length s - String.length suffix) s else s.

(** The verb [%q] of printable text. *)
Fixpoint quoted (s : string) : string :=
  match s with
  | EmptyString => ""
  | String a s' =>
      if bool_decide (nat_of_ascii a = 34 \/ nat_of_ascii a = 92)
      then String (ascii_of_nat 92) (String a (quoted s')) else String a (quoted s')
  end.
Definition Quote (s : string) : string :=
  let q := String (ascii_of_nat 34) "" in q +:+ quoted s +:+ q.

(** ** Retries *)

Definition DefaultMaxRetry : nat := 3.

(** The loop of [DoWithBackoff]; [last] is the error of the last attempt. *)
Fixpoint backoffLoop (maxRetry : nat) (fn : prog unit) (last : option err) : prog (option err) :=
  match maxRetry with
  | O => Ret last
  | S n =>
      r ← attempt fn;
      match r with
      | inr _ => Ret None
      | inl e => backoffLoop n fn (Some e)
      end
  end.

Definition DoWithBackoff (name : string) (fn : prog unit) (maxRetry : nat) : prog unit :=
  e ← backoffLoop maxRetry fn None;
  match e with
  | None => Ret tt
  | Some e =>
      Fail (EWrap ("dowithbackoff[" +:+ name +:+ "] failed after " +:+ Itoa (Z.of_nat maxRetry) +:+ " retries") e)
  end.

(** ** Dialling *)

Definition connectFailed (addr : string) (message : string) : string :=
  "connect " +:+ addr +:+ " failed: " +:+ message.

(** crypto/x509, crypto/tls, encoding/pem, youmark/pkcs8 and the preparation of
    SCRAM credentials; a parse gives [None] for an error, where its text is not
    used, and errors are given by their text otherwise. *)
Record PemBlock := mkPemBlock { pem_Type : string; pem_Headers : gmap string string; pem_Bytes : string }.

Class KafkaTls := {
  AppendCertsFromPEM : string -> bool;
  pem_Decode : string -> option PemBlock;
  pem_EncodeToMemory : string -> string -> string;
  privateKey : Type;
  ParseEncryptedPKCS8 : string -> string -> string + privateKey;
  MarshalPKCS8 : privateKey -> string + string;
  ParsePKCS8 : string -> option privateKey;
  isKnownKey : privateKey -> bool;
  keyTypeName : privateKey -> string;
  ParsePKCS1 : string -> option privateKey;
  ParseEC : string -> option privateKey;
  X509KeyPair : string -> string -> option string;
  ScramError : string -> string -> option string
}.

Section Probes.
Context {US : Unstructured} {KM : KubeMessages}.

(** [TCPDialConditionGetter]: every address must answer. *)
Fixpoint TCPDial_GetCondition (conditionType : string) (tcpAddrs : list string) : prog MilvusCondition :=
  match tcpAddrs with
  | [] => Ret (newCondition conditionType ConditionTrue "ConnectionOK" "")
  | addr :: rest =>
      r ← attempt (read (DialTCP addr));
      match r with
      | inl e => Ret (newCondition conditionType ConditionFalse "ConnectionFailed" (connectFailed addr (Error e)))
      | inr _ => TCPDial_GetCondition conditionType rest
      end
  end.

(** The loop of [PulsarConditionGetter]: any broker may answer. *)
Fixpoint dialAny (endpoints : list string) (errMsgs : list string) : prog MilvusCondition :=
  match endpoints with
  | [] => Ret (newCondition MsgStreamReady ConditionFalse "ConnectionFailed" (Join "; " errMsgs))
  | endpoint :: rest =>
      r ← attempt (read (DialTCP endpoint));
      match r with
      | inr _ => Ret (newCondition MsgStreamReady ConditionTrue "ConnectionOK" "")
      | inl e => dialAny rest (errMsgs ++ [connectFailed endpoint (Error e)])
      end
  end.

Definition Pulsar_GetCondition (endpoints : list string) : prog MilvusCondition :=
  match endpoints with
  | [] => Ret (newCondition MsgStreamReady ConditionFalse "ConnectionFailed" "no pulsar endpoint configured")
  | _ => dialAny endpoints []
  end.

(** ** etcd *)

Record EtcdAuthConfig := mkEtcdAuth { ea_Enabled : bool; ea_Username : string; ea_Password : string }.
Record EtcdEndPointHealth := mkEndpointHealth { eh_Ep : string; eh_Health : bool; eh_Error : string }.

Definition etcdHealthKey : string := "health".

(** The client of one endpoint. *)
Definition etcdClientConfig (authConfig : EtcdAuthConfig) (ep : string) : etcdConfig :=
  if ea_Enabled authConfig then mkEtcdConfig ep (ea_Username authConfig) (ea_Password authConfig)
  else mkEtcdConfig ep "" "".

(** The message repeats itself: [errMsg += errMsg + alarm]. *)
Definition alarmMessage (alarms : list string) : string :=
  fold_left (fun errMsg alarm => errMsg +:+ (errMsg +:+ alarm)) alarms "Active Alarm(s): ".

Definition checkEtcd (cliCfg : etcdConfig) : prog unit :=
  wrap "failed to create etcd client" (read (EtcdNewClient cliCfg)) ;;
  r ← attempt (read (EtcdGetKey cliCfg etcdHealthKey));
  match r with
  | inl e =>
      if bool_decide (e = EKube KPermissionDenied) then Ret tt else Fail e
  | inr _ => Ret tt
  end ;;
  alarms ← wrap "Unable to fetch the alarm list" (read (EtcdAlarmList cliCfg));
  match alarms with
  | [] => Ret tt
  | _ => Fail (ENew (alarmMessage alarms))
  end.

(** The goroutine of one endpoint. *)
Definition endpointHealth (authConfig : EtcdAuthConfig) (ep : string) : prog EtcdEndPointHealth :=
  r ← attempt (DoWithBackoff "checkEtcd" (checkEtcd (etcdClientConfig authConfig ep)) DefaultMaxRetry);
  Ret (match r with
       | inr _ => mkEndpointHealth ep true ""
       | inl e => mkEndpointHealth ep false (Error e)
       end).

(** The results are collected in the order the goroutines finish. *)
Definition GetEndpointsHealth (sc : schedule) (authConfig : EtcdAuthConfig) (endpoints : list string)
    : prog (gmap string EtcdEndPointHealth) :=
  hs ← par (endpointHealth authConfig <$> endpoints) (sc_calls sc);
  Ret (fold_left (fun health h => <[eh_Ep h := h]> health) (inOrder (sc_order sc) hs) ∅).

Definition healthOf (health : gmap string EtcdEndPointHealth) (ep : string) : EtcdEndPointHealth :=
  default (mkEndpointHealth "" false "") (health !! ep).

(** The loop over the endpoints: whether one is healthy, and the errors of the
    others. *)
Fixpoint sumHealth (health : gmap string EtcdEndPointHealth) (endpoints : list string) : bool * string :=
  match endpoints with
  | [] => (false, "")
  | ep :: rest =>
      let '(ready, msg) := sumHealth health rest in
      let h := healthOf health ep in
      if eh_Health h then (true, msg) else (ready, "[" +:+ ep +:+ ":" +:+ eh_Error h +:+ "]" +:+ msg)
  end.

Definition GetEtcdCondition (sc : schedule) (authCfg : EtcdAuthConfig) (endpoints : list string) : prog MilvusCondition :=
  health ← GetEndpointsHealth sc authCfg endpoints;
  let '(etcdReady, msg) := sumHealth health endpoints in
  Ret (if etcdReady : bool
       then newCondition EtcdReady ConditionTrue "EtcdReady" "Etcd endpoints is healthy"
       else newCondition EtcdReady ConditionFalse "EtcdNotReady" ("All etcd endpoints are unhealthy" +:+ ":" +:+ msg)).

Definition GetStringValue (values : Values) (fields : list string) : option string :=
  NestedString (default [] values) fields.
Definition GetStringValueWithDefault (conf : Values) (defaultVal : string) (fields : list string) : string :=
  default defaultVal (GetStringValue conf fields).

Definition wrapEtcdConditionGetter (sc : schedule) (m : Milvus) (endpoints : list string) : prog MilvusCondition :=
  let conf := spec_Conf (mi_Spec m) in
  if GetBoolValue conf ["etcd"; "ssl"; "enabled"] then TCPDial_GetCondition EtcdReady endpoints
  else
    GetEtcdCondition sc
      (mkEtcdAuth (GetBoolValue conf ["etcd"; "auth"; "enabled"])
         (default "" (GetStringValue conf ["etcd"; "auth"; "userName"]))
         (default "" (GetStringValue conf ["etcd"; "auth"; "password"]))) endpoints.

(** ** Object storage *)

Record StorageConditionInfo := mkStorageInfo {
  si_Namespace : string;
  si_Bucket : string;
  si_Storage : MilvusStorage;
  si_UseSSL : bool;
  si_UseIAM : bool;
  si_IAMEndpoint : string;
  si_StorageAccount : string;
  si_UseVirtualHost : bool
}.

Record CheckMinIOArgs := mkMinIOArgs {
  ma_Type : string;
  ma_AK : string;
  ma_SK : string;
  ma_Bucket : string;
  ma_Endpoint : string;
  ma_UseSSL : bool;
  ma_UseIAM : bool;
  ma_IAMEndpoint : string;
  ma_UseVirtualHost : bool;
  ma_CACertificate : string;
  ma_InsecureSkipVerify : bool
}.

Definition StorageTypeS3 : string := "S3".
Definition StorageTypeAzure : string := "Azure".

Context {KT : KafkaTls}.

(** The transport of a client, when SSL is on and customized. *)
Definition customTransport (args : CheckMinIOArgs) : prog (option tlsConfig) :=
  if ma_UseSSL args && (negb (bool_decide (ma_CACertificate args = "")) || ma_InsecureSkipVerify args) then
    if bool_decide (ma_CACertificate args = "")
    then Ret (Some (mkTls None None (ma_InsecureSkipVerify args)))
    else if AppendCertsFromPEM (ma_CACertificate args)
    then Ret (Some (mkTls (Some (ma_CACertificate args)) None (ma_InsecureSkipVerify args)))
    else Fail (ENew "failed to parse CA certificate")
  else Ret None.

Definition isHealthyByServerInfo (states : list string) : prog unit :=
  if existsb (fun state => bool_decide (state = "ok" \/ state = "online")) states then Ret tt
  else Fail (ENew "no server ready in server info").

(** One attempt.  MinIO's admin client is created before its transport is
    set. *)
Definition checkMinioOnce (args : CheckMinIOArgs) : prog unit :=
  if bool_decide (ma_Type args = StorageTypeS3) then
    let endpoint := if ma_UseSSL args then TrimSuffix (ma_Endpoint args) ":443" else ma_Endpoint args in
    transport ← customTransport args;
    let cli := mkStorageClient endpoint (ma_AK args) (ma_SK args) (ma_UseSSL args) (ma_UseVirtualHost args) transport in
    read (MinioNew cli) ;;
    _ ← read (MinioBucketLocation cli (ma_Bucket args));
    Ret tt
  else if bool_decide (ma_Type args = StorageTypeAzure) then
    if bool_decide (ma_AK args = "")
    then Fail (ENew "azure storage account name is required to be set as minio.accessKeyID") else Ret tt
  else
    let cli := mkStorageClient (ma_Endpoint args) (ma_AK args) (ma_SK args) (ma_UseSSL args) false in
    read (MadminNew (cli None)) ;;
    transport ← customTransport args;
    states ← read (MadminServerInfo (cli transport));
    isHealthyByServerInfo states.

Definition CheckMinIO (args : CheckMinIOArgs) : prog unit :=
  DoWithBackoff "checkMinIO" (checkMinioOnce args) DefaultMaxRetry.

Definition newErrStorageCondResult (reason message : string) : MilvusCondition :=
  newCondition StorageReady ConditionFalse reason message.

(** The credentials of the storage, or the condition that says why there are
    none. *)
Definition storageCredentials (info : StorageConditionInfo) : prog (MilvusCondition + string * string) :=
  if si_UseIAM info then Ret (inr ("", ""))
  else
    r ← attempt (read (GetSecret (si_Namespace info) (sto_SecretRef (si_Storage info))));
    Ret (match r with
         | inl e =>
             inl (if IsNotFound e then newErrStorageCondResult "SecretNotExist" "Secret not exist"
                  else newErrStorageCondResult "ClientError" (Error e))
         | inr data =>
             match storageSecretKeys data with
             | (Some accesskey, Some secretkey) => inr (accesskey, secretkey)
             | _ => inl (newErrStorageCondResult "SecretNotExist" "accesskey or secretkey not exist in secret")
             end
         end).

(** The certificate authority and whether certificates are left unchecked. *)
Definition storageTls (info : StorageConditionInfo) : prog (MilvusCondition + string * bool) :=
  match sto_SSL (si_Storage info) with
  | Some ssl =>
      if negb (ssl_Enabled ssl) then Ret (inr ("", false))
      else if bool_decide (ssl_CACertificateRef ssl = "") then Ret (inr ("", ssl_InsecureSkipVerify ssl))
      else
        r ← attempt (read (GetSecret (si_Namespace info) (ssl_CACertificateRef ssl)));
        Ret (match r with
             | inl e =>
                 inl (if IsNotFound e then newErrStorageCondResult "SecretNotExist" "SSL CA certificate secret not exist"
                      else newErrStorageCondResult "ClientError" ("Failed to load CA certificate" +:+ ": " +:+ Error e))
             | inr data =>
                 match (data : gmap string string) !! "ca.crt" with
                 | Some caCertificate => inr (caCertificate, ssl_InsecureSkipVerify ssl)
                 | None => inl (newErrStorageCondResult "ClientError"
                                  "CA certificate not found in secret, expected key: ca.crt")
                 end
             end)
  | None => Ret (inr ("", false))
  end.

Definition GetMinioCondition (info : StorageConditionInfo) : prog MilvusCondition :=
  credentials ← storageCredentials info;
  match credentials with
  | inl c => Ret c
  | inr (accesskey, secretkey) =>
      let storage := si_Storage info in
      let ak := if bool_decide (sto_Type storage = StorageTypeAzure) && bool_decide (accesskey = "")
                then si_StorageAccount info else accesskey in
      tls ← storageTls info;
      match tls with
      | inl c => Ret c
      | inr (caCertificate, insecureSkipVerify) =>
          r ← attempt (CheckMinIO (mkMinIOArgs (sto_Type storage) ak secretkey (si_Bucket info) (sto_Endpoint storage)
                         (si_UseSSL info) (si_UseIAM info) (si_IAMEndpoint info) (si_UseVirtualHost info)
                         caCertificate insecureSkipVerify));
          Ret (match r with
               | inl e => newErrStorageCondResult "ClientError" (Error e)
               | inr _ => newCondition StorageReady ConditionTrue "StorageReady" ""
               end)
      end
  end.

Definition GetMinioUseIAM (conf : Values) : bool := GetBoolValue conf ["minio"; "useIAM"].
Definition GetMinioIAMEndpoint (conf : Values) : string := GetStringValueWithDefault conf "" ["minio"; "iamEndpoint"].
Definition GetMinioBucket (conf : Values) : string :=
  GetStringValueWithDefault conf "milvus-bucket" ["minio"; "bucketName"].
Definition GetAzureStorageAccount (conf : Values) : string :=
  GetStringValueWithDefault conf "" ["minio"; "accessKeyID"].
Definition ShouldUseVirtualHost (conf : Values) : bool :=
  GetBoolValue conf ["minio"; "useVirtualHost"]
  || match GetStringValue conf ["minio"; "cloudProvider"] with
     | Some cloudProvider => negb (bool_decide (cloudProvider = "aws"))
     | None => false
     end.

Definition storageInfo (mc : Milvus) : StorageConditionInfo :=
  let conf := spec_Conf (mi_Spec mc) in
  mkStorageInfo (mi_Namespace mc) (GetMinioBucket conf) (dep_Storage (spec_Dep (mi_Spec mc)))
    (GetMinioSecure conf) (GetMinioUseIAM conf) (GetMinioIAMEndpoint conf) (GetAzureStorageAccount conf)
    (ShouldUseVirtualHost conf).

(** ** Kafka *)

(** [external.CheckKafkaConfig]; of [SSLConfig] only the references, as no probe
    reads its field [Enabled]. *)
Record SSLConfig := mkSSLConfig {
  sc_CACertSecret : option SecretKeyReference;
  sc_CertSecret : option SecretKeyReference;
  sc_KeySecret : option SecretKeyReference;
  sc_KeyPasswordSecret : option SecretKeyReference
}.

Record CheckKafkaConfig := mkCheckKafka {
  ck_SecretReader : option (string -> string -> string -> prog string);
  ck_CACert : string;
  ck_Namespace : string;
  ck_BrokerList : list string;
  ck_SecurityProtocol : string;
  ck_SASLMechanisms : string;
  ck_SASLUsername : string;
  ck_SASLPassword : string;
  ck_SASLUsernameSecret : option SecretKeyReference;
  ck_SASLPasswordSecret : option SecretKeyReference;
  ck_SSL : SSLConfig
}.

(** [Values.AsObject] into a configuration of the given namespace. *)
Class DecodeKafkaConf := { DecodeCheckKafka : list (string * json) -> string -> string + CheckKafkaConfig }.
Context {DK : DecodeKafka} {DKC : DecodeKafkaConf}.

Definition secretText (ns name key : string) : string :=
  "(ns=" +:+ Quote ns +:+ ", name=" +:+ Quote name +:+ ", key=" +:+ Quote key +:+ ")".

Definition firstNonEmpty (a b : string) : string := if bool_decide (a = "") then b else a.

Definition getFromSecret (conf : CheckKafkaConfig) (ref : SecretKeyReference) (nsDefault : string) : prog string :=
  match ck_SecretReader conf with
  | None => Fail (ENew "SecretReader not configured by controller")
  | Some SecretReader =>
      let ns := firstNonEmpty (ref_Namespace ref) nsDefault in
      if bool_decide (ref_Name ref = "") || bool_decide (ref_Key ref = "") || bool_decide (ns = "")
         || negb (bool_decide (ns = nsDefault))
      then Fail (ENew "Kafka Secret must have name/key and belong to the Milvus namespace")
      else
        secretValue ← wrap ("read secret " +:+ secretText ns (ref_Name ref) (ref_Key ref))
                        (SecretReader ns (ref_Name ref) (ref_Key ref));
        if bool_decide (secretValue = "")
        then Fail (ENew ("secret data empty " +:+ secretText ns (ref_Name ref) (ref_Key ref)))
        else Ret secretValue
  end.

Definition rewrapped (k : privateKey) : prog string :=
  match MarshalPKCS8 k with
  | inl e => Fail (EWrap "marshal PKCS#8" (ENew e))
  | inr der => Ret (pem_EncodeToMemory "PRIVATE KEY" der)
  end.

Definition normalizePrivateKeyPEM (keyPEM password : string) : prog string :=
  match pem_Decode keyPEM with
  | None => Fail (ENew "no PEM block in key")
  | Some block =>
      if bool_decide (ToUpper (TrimSpace (pem_Type block)) = "ENCRYPTED PRIVATE KEY") then
        if bool_decide (password = "") then Fail (ENew "encrypted PKCS#8 key provided but password is empty")
        else
          match ParseEncryptedPKCS8 (pem_Bytes block) password with
          | inl e => Fail (EWrap "unable to parse encrypted PKCS#8 key" (ENew e))
          | inr priv =>
              match MarshalPKCS8 priv with
              | inl e => Fail (EWrap "unable to marshal PKCS#8" (ENew e))
              | inr der => Ret (pem_EncodeToMemory "PRIVATE KEY" der)
              end
          end
      else if bool_decide (is_Some (pem_Headers block !! "Proc-Type")) || Contains (ToUpper keyPEM) "DEK-INFO:"
      then Fail (ENew ("legacy PEM encryption is not supported; supply unencrypted PKCS#8 or " +:+
                       "PBES2-encrypted PKCS#8"))
      else
        let der := pem_Bytes block in
        match ParsePKCS8 der with
        | Some k =>
            if isKnownKey k then Ret (pem_EncodeToMemory "PRIVATE KEY" der)
            else Fail (ENew ("unsupported PKCS#8 key type " +:+ keyTypeName k))
        | None =>
            match ParsePKCS1 der with
            | Some pk => rewrapped pk
            | None =>
                match ParseEC der with
                | Some ec => rewrapped ec
                | None => Fail (ENew "unsupported or malformed private key")
                end
            end
        end
  end.

Definition external_GetKafkaConfFromCR (mc : Milvus) : prog CheckKafkaConfig :=
  let empty := mkCheckKafka None "" (mi_Namespace mc) [] "" "" "" "" None None (mkSSLConfig None None None None) in
  match get_key (default [] (spec_Conf (mi_Spec mc))) "kafka" with
  | None => Ret empty
  | Some (JObj data) =>
      match DecodeCheckKafka data (mi_Namespace mc) with
      | inl e => Fail (EWrap "decode kafka config failed" (ENew e))
      | inr conf => Ret conf
      end
  | Some _ => Fail (ENew "kafka config must be an object")
  end.

(** That of pkg/controllers checks the references first. *)
Definition GetKafkaConfFromCR (mc : Milvus) : prog CheckKafkaConfig :=
  match snd (parseKafkaSecretRefs mc) with
  | Some e => Fail (ENew e)
  | None => external_GetKafkaConfFromCR mc
  end.

(** The client certificate and its key. *)
Definition clientCertificate (conf : CheckKafkaConfig) : prog (option (string * string)) :=
  match sc_CertSecret (ck_SSL conf), sc_KeySecret (ck_SSL conf) with
  | None, None => Ret None
  | Some certRef, Some keyRef =>
      certPEM ← wrap "read client cert" (getFromSecret conf certRef (ck_Namespace conf));
      keyPEM ← wrap "read client key" (getFromSecret conf keyRef (ck_Namespace conf));
      pw ← match sc_KeyPasswordSecret (ck_SSL conf) with
           | Some ref => wrap "read client key password" (getFromSecret conf ref (ck_Namespace conf))
           | None => Ret ""
           end;
      keyPEM ← (if negb (bool_decide (pw = "")) then wrap "normalize private key" (normalizePrivateKeyPEM keyPEM pw)
                else
                  r ← attempt (normalizePrivateKeyPEM keyPEM "");
                  Ret (match r with inr norm => norm | inl _ => keyPEM end));
      match X509KeyPair certPEM keyPEM with
      | Some e => Fail (EWrap "x509 key pair" (ENew e))
      | None => Ret (Some (certPEM, keyPEM))
      end
  | _, _ => Fail (ENew "client certificate and key Secret refs must be configured together")
  end.

(** The certificate authorities: those of the reference, else those of
    [dependencies.kafka.secretRef]. *)
Definition kafkaRootCAs (conf : CheckKafkaConfig) : prog (option string) :=
  match sc_CACertSecret (ck_SSL conf) with
  | Some ref =>
      caPEM ← wrap ("read CA cert " +:+ secretText (firstNonEmpty (ref_Namespace ref) (ck_Namespace conf))
                                         (ref_Name ref) (ref_Key ref))
                (getFromSecret conf ref (ck_Namespace conf));
      if AppendCertsFromPEM caPEM then Ret (Some caPEM) else Fail (ENew "append CA cert failed")
  | None =>
      if bool_decide (ck_CACert conf = "") then Ret None
      else if AppendCertsFromPEM (ck_CACert conf) then Ret (Some (ck_CACert conf))
      else Fail (ENew "no certificate found in kafka CA cert")
  end.

(** A credential: the Secret it refers to, else the literal. *)
Definition credential (what : string) (conf : CheckKafkaConfig) (ref : option SecretKeyReference) (literal : string)
    : prog string :=
  match ref with
  | Some r => wrap ("read SASL " +:+ what) (getFromSecret conf r (ck_Namespace conf))
  | None => Ret literal
  end.

Definition scram (what : string) (mechanism : string -> string -> saslMechanism) (user pass : string)
    : prog saslMechanism :=
  if bool_decide (user = "") || bool_decide (pass = "")
  then Fail (ENew (what +:+ " requires non-empty username/password"))
  else match ScramError user pass with
       | Some e => Fail (ENew e)
       | None => Ret (mechanism user pass)
       end.

Definition kafkaMechanism (conf : CheckKafkaConfig) : prog saslMechanism :=
  user ← credential "username" conf (ck_SASLUsernameSecret conf) (ck_SASLUsername conf);
  pass ← credential "password" conf (ck_SASLPasswordSecret conf) (ck_SASLPassword conf);
  let mechanism := ToUpper (TrimSpace (ck_SASLMechanisms conf)) in
  if bool_decide (mechanism = "SCRAM-SHA-256") then scram "SCRAM-SHA-256" ScramSHA256 user pass
  else if bool_decide (mechanism = "SCRAM-SHA-512") then scram "SCRAM-SHA-512" ScramSHA512 user pass
  else if bool_decide (mechanism = "" \/ mechanism = "PLAIN") then Ret (PlainMechanism user pass)
  else Fail (ENew ("unsupported SASL mechanism: " +:+ ck_SASLMechanisms conf)).

Definition kafkaProtocol (conf : CheckKafkaConfig) : string := ToUpper (TrimSpace (ck_SecurityProtocol conf)).
Definition useTLS (conf : CheckKafkaConfig) : bool := bool_decide (kafkaProtocol conf ∈ ["SSL"; "SASL_SSL"]).
Definition useSASL (conf : CheckKafkaConfig) : bool :=
  bool_decide (kafkaProtocol conf ∈ ["SASL_PLAINTEXT"; "SASL_SSL"]).

Definition GetKafkaDialer (conf : CheckKafkaConfig) : prog kafkaDialer :=
  tls ← (if useTLS conf then
           rootCAs ← kafkaRootCAs conf;
           certificate ← clientCertificate conf;
           Ret (Some (mkTls rootCAs certificate false))
         else Ret None);
  mech ← (if useSASL conf then m ← kafkaMechanism conf; Ret (Some m) else Ret None);
  if bool_decide (kafkaProtocol conf ∈ [""; "PLAINTEXT"; "SSL"; "SASL_PLAINTEXT"; "SASL_SSL"])
  then Ret (mkDialer tls mech)
  else Fail (ENew ("unsupported security protocol: " +:+ ck_SecurityProtocol conf)).

Definition checkKafkaBroker (dialer : kafkaDialer) (broker : string) : prog unit :=
  wrap ("dial broker[" +:+ broker +:+ "]") (read (KafkaDial dialer broker)) ;;
  wrap ("set deadline on broker[" +:+ broker +:+ "]") (read (KafkaSetDeadline dialer broker)) ;;
  wrap ("probe broker[" +:+ broker +:+ "]") (read (KafkaApiVersions dialer broker)).

(** Any broker that answers is enough. *)
Fixpoint checkBrokers (dialer : kafkaDialer) (brokers : list string) (errs : list err) : prog unit :=
  match brokers with
  | [] => Fail (ENew (Join (String (ascii_of_nat 10) "") (Error <$> errs)))
  | broker :: rest =>
      r ← attempt (checkKafkaBroker dialer broker);
      match r with
      | inr _ => Ret tt
      | inl e => checkBrokers dialer rest (errs ++ [e])
      end
  end.

Definition CheckKafka (conf : CheckKafkaConfig) : prog unit :=
  match ck_BrokerList conf with
  | [] => Fail (ENew "broker list is empty")
  | brokers =>
      dialer ← wrap "get kafka dialer failed" (GetKafkaDialer conf);
      DoWithBackoff "checkKafka" (checkBrokers dialer brokers []) DefaultMaxRetry
  end.

Definition newErrMsgStreamCondResult (reason message : string) : MilvusCondition :=
  newCondition MsgStreamReady ConditionFalse reason message.
Definition msgStreamReadyCondition : MilvusCondition :=
  newCondition MsgStreamReady ConditionTrue "MsgStreamReady" "".

Definition GetKafkaCondition (cfg : CheckKafkaConfig) : prog MilvusCondition :=
  r ← attempt (CheckKafka cfg);
  Ret (match r with
       | inl e => newErrMsgStreamCondResult "MsgStreamNotReady" (Error e)
       | inr _ => msgStreamReadyCondition
       end).

(** ** The probes of a resource *)

(** A condition that needs no probe, or a probe of endpoints.  The key of the
    cache sorts the endpoints in place before the probe runs, so the probe gets
    the sorted list. *)
Inductive probePlan :=
  | Known (c : MilvusCondition)
  | ProbeEndpoints (getter : list string -> prog MilvusCondition) (eps : list string).

Definition set_ck_Secret (conf : CheckKafkaConfig) (s : kafkaSecret) : CheckKafkaConfig :=
  mkCheckKafka (ck_SecretReader conf) (ks_CACert s) (ck_Namespace conf) (ck_BrokerList conf) (ck_SecurityProtocol conf)
    (ck_SASLMechanisms conf) (ks_Username s) (ks_Password s) (ck_SASLUsernameSecret conf) (ck_SASLPasswordSecret conf)
    (ck_SSL conf).
Definition set_ck_Brokers (conf : CheckKafkaConfig) (brokers : list string) : CheckKafkaConfig :=
  mkCheckKafka (Some kafkaSecretReader) (ck_CACert conf) (ck_Namespace conf) brokers (ck_SecurityProtocol conf)
    (ck_SASLMechanisms conf) (ck_SASLUsername conf) (ck_SASLPassword conf) (ck_SASLUsernameSecret conf)
    (ck_SASLPasswordSecret conf) (ck_SSL conf).

Definition kafkaConfOf (mc : Milvus) : prog CheckKafkaConfig :=
  conf ← GetKafkaConfFromCR mc;
  if bool_decide (kaf_SecretRef (dep_Kafka (spec_Dep (mi_Spec mc))) = "") then Ret conf
  else s ← getKafkaSecret mc; Ret (set_ck_Secret conf s).

Definition GetMsgStreamCondition (mc : Milvus) : prog probePlan :=
  let dep := spec_Dep (mi_Spec mc) in
  match dep_MsgStreamType dep with
  | MsgStreamTypePulsar => Ret (ProbeEndpoints Pulsar_GetCondition (Pulsar_GetEndpoints (dep_Pulsar dep)))
  | MsgStreamTypeKafka =>
      r ← attempt (kafkaConfOf mc);
      Ret (match r with
           | inl e => Known (newCondition MsgStreamReady ConditionUnknown "" (Error e))
           | inr conf =>
               ProbeEndpoints (fun brokers => GetKafkaCondition (set_ck_Brokers conf brokers))
                 (elems (kaf_BrokerList (dep_Kafka dep)))
           end)
  | MsgStreamTypeWoodPecker =>
      Ret (if negb (wp_External (dep_WoodPecker dep)) then Known msgStreamReadyCondition
           else ProbeEndpoints (TCPDial_GetCondition MsgStreamReady) (SeedEndpoints (dep_WoodPecker dep)))
  | _ => Ret (Known msgStreamReadyCondition)
  end.

Definition syncer_GetMinioCondition (mc : Milvus) : probePlan :=
  ProbeEndpoints (fun _ => GetMinioCondition (storageInfo mc)) [sto_Endpoint (dep_Storage (spec_Dep (mi_Spec mc)))].

Definition syncer_GetEtcdCondition (sc : schedule) (mc : Milvus) : probePlan :=
  ProbeEndpoints (wrapEtcdConditionGetter sc mc) (elems (etcd_Endpoints (dep_Etcd (spec_Dep (mi_Spec mc))))).

(** What a plan gives when it is probed. *)
Definition runPlan (plan : probePlan) : prog MilvusCondition :=
  match plan with
  | Known c => Ret c
  | ProbeEndpoints getter eps => getter (merge_sort String.le eps)
  end.

(** The probe of a condition type. *)
Definition probeOf (sc : schedule) (t : string) (mc : Milvus) : prog MilvusCondition :=
  if bool_decide (t = EtcdReady) then runPlan (syncer_GetEtcdCondition sc mc)
  else if bool_decide (t = StorageReady) then runPlan (syncer_GetMinioCondition mc)
  else plan ← GetMsgStreamCondition mc; runPlan plan.
End Probes.
