(* ===== verification/ProbeProofs.v ===== *)
(** * Properties of the probes

    What a probe reports is what the dependency answered: etcd is ready exactly
    when an endpoint answered without an alarm, Kafka when a broker answered;
    the Kafka client is the one the configuration asks for, with credentials
    from the Secrets it refers to; storage is probed with the credentials of its
    Secret; and every probe ends in a condition of its own type, without
    writing anything. *)
From stdpp Require Import sorting.
From S2P Require Import Prelude KubeTypes Libs ApiTypes Values Labels Effects Utils Components Group Calls.
From S2P Require Import Status PodTemplate KafkaSecrets StatefulSets Deployments ConfigMaps Dependencies Probes.
From S2P Require Import Examples EndpointCache EndpointProofs.

Local Open Scope string_scope.
Local Open Scope list_scope.
Local Open Scope nat_scope.

(** ** Executions *)

(** All executions of a program with a bounded number of calls. *)
Ltac exec_cases H :=
  lazymatch type of H with
  | exec (mbind _ _) _ _ =>
      let t1 := fresh "t" in let o1 := fresh "o" in let t2 := fresh "t" in let H1 := fresh "H" in
      apply exec_bind in H as (t1 & o1 & t2 & -> & H1 & H); exec_cases H1; cbv beta iota in H; exec_cases H
  | exec (wrap _ _) _ _ =>
      let o1 := fresh "o" in apply exec_wrap in H as (o1 & H & ->); exec_cases H; cbv beta iota
  | exec (attempt _) _ _ =>
      let o1 := fresh "o" in apply exec_attempt in H as (o1 & H & ->); exec_cases H; cbv beta iota
  | exec (read _) _ _ =>
      let x := fresh "x" in apply exec_read in H as (x & -> & ->); destruct x; cbv beta iota
  | exec (Ret _) _ _ => destruct H as [-> ->]
  | exec (Fail _) _ _ => destruct H as [-> ->]
  | exec Panic _ _ => destruct H as [-> ->]
  | exec (if ?b then _ else _) _ _ => destruct b eqn:?; exec_cases H
  | exec (match ?y with _ => _ end) _ _ => destruct y eqn:?; exec_cases H
  | _ = [] /\ _ = _ => destruct H as [-> ->]
  | _ => idtac
  end.

(** The outcome of a function that returns an error or nil. *)
Definition noPanic {A} (o : outcome A) : Prop := match o with OPanic => False | _ => True end.

(** A function whose success is visible in its calls: it succeeds exactly when
    one of them satisfies [sig], and makes at most [n] calls. *)
Definition signals (sig : event -> Prop) (n : nat) (fn : prog unit) : Prop :=
  forall tr o, exec fn tr o -> noPanic o /\ (o = ORet tt <-> Exists sig tr) /\ length tr <= n.

Lemma backoff_signals sig b fn : signals sig b fn -> forall n last tr o,
  exec (backoffLoop n fn last) tr o ->
  exists r, o = ORet r /\ (Exists sig tr -> r = None) /\ (r = None -> Exists sig tr \/ n = 0 /\ last = None) /\
    length tr <= n * b.
Proof.
  intros Hfn. induction n as [|n IH]; intros last tr o Hex.
  { destruct Hex as [-> ->]. exists last. split; [done|]. split; [by intros ?%Exists_nil|]. split; [by right|]. simpl. lia. }
  cbn [backoffLoop] in Hex. apply exec_bind in Hex as (tr1 & o1 & tr2 & -> & H1 & H2).
  apply exec_attempt in H1 as (o' & H1 & ->). destruct (Hfn _ _ H1) as (Hnp & Hsig & Hlen).
  destruct o' as [[]|e|]; [| |done].
  - destruct H2 as [-> ->]. exists None. rewrite app_nil_r. split; [done|]. split; [done|].
    split; [intros _; left; by apply Hsig|]. simpl. lia.
  - destruct (IH _ _ _ H2) as (r & -> & Hs & Hr & Hl). exists r. split; [done|].
    assert (~ Exists sig tr1) as Hno by (intros H%Hsig; done).
    split; [rewrite Exists_app; tauto|].
    split; [intros ->; left; destruct (Hr eq_refl) as [?|[_ ?]]; [rewrite Exists_app; tauto|done]|].
    rewrite length_app. simpl. lia.
Qed.

Lemma DoWithBackoff_signals sig b name fn n : 0 < n -> signals sig b fn -> signals sig (n * b) (DoWithBackoff name fn n).
Proof.
  intros Hn Hfn tr o Hex. unfold DoWithBackoff in Hex. apply exec_bind in Hex as (tr1 & o1 & tr2 & -> & H1 & H2).
  destruct (backoff_signals _ _ _ Hfn _ _ _ _ H1) as (r & -> & Hs & Hr & Hl).
  destruct r as [e|]; destruct H2 as [-> ->]; rewrite app_nil_r; (split; [done|]); (split; [|done]).
  - split; [done|]. by intros H%Hs.
  - split; [|done]. intros _. destruct (Hr eq_refl) as [?|[? _]]; [done|lia].
Qed.

(** ** etcd *)
Section Probes.
Context {US : Unstructured} {KM : KubeMessages}.

(** The endpoint listed its alarms, and had none. *)
Definition noAlarm (cfg : etcdConfig) (ev : event) : Prop :=
  match ev with
  | Ev q x =>
      match q in kreq B return kerr + B -> Prop with
      | Read r =>
          match r in kread B return kerr + B -> Prop with
          | EtcdAlarmList cfg' => fun x => cfg' = cfg /\ x = inr []
          | _ => fun _ => False
          end
      | Write _ => fun _ => False
      end x
  end.

(** A call to the endpoint. *)
Definition toEtcd (cfg : etcdConfig) (B : Type) (q : kreq B) : Prop :=
  match q with
  | Read (EtcdNewClient c) | Read (EtcdGetKey c _) | Read (EtcdAlarmList c) => c = cfg
  | _ => False
  end.

Lemma checkEtcd_calls cfg : calls (toEtcd cfg) (checkEtcd cfg).
Proof. unfold checkEtcd. calls_steps; done. Qed.

Lemma checkEtcd_signals cfg : signals (noAlarm cfg) 3 (checkEtcd cfg).
Proof.
  intros tr o Hex. unfold checkEtcd in Hex. exec_cases Hex.
  all: split; [done|]; split; [|simpl; lia]; cbn [app]; rewrite ?Exists_cons, Exists_nil; simpl; naive_solver.
Qed.

Lemma total_of_exec {A} (p : prog A) : (forall tr o, exec p tr o -> exists a, o = ORet a) -> total p.
Proof.
  induction p as [a|e| |B q k IH]; intros H; simpl.
  - done.
  - by destruct (H [] (OFail e)) as [? [=]].
  - by destruct (H [] OPanic) as [? [=]].
  - intros x. apply IH. intros tr o Hex. apply (H (Ev q x :: tr)). simpl. eauto.
Qed.

(** The result of an endpoint says what its own calls said. *)
Lemma endpointHealth_spec auth ep tr o :
  exec (endpointHealth auth ep) tr o ->
  exists h, o = ORet h /\ eh_Ep h = ep /\
    (eh_Health h = true <-> Exists (noAlarm (etcdClientConfig auth ep)) tr) /\ length tr <= 9.
Proof.
  intros Hex. unfold endpointHealth in Hex. apply exec_bind in Hex as (t1 & o1 & t2 & -> & H1 & H2).
  apply exec_attempt in H1 as (o' & H1 & ->).
  destruct (DoWithBackoff_signals _ _ "checkEtcd" _ DefaultMaxRetry ltac:(unfold DefaultMaxRetry; lia)
              (checkEtcd_signals (etcdClientConfig auth ep)) _ _ H1) as (Hnp & Hsig & Hlen).
  destruct o' as [[]|e|]; [| |done]; destruct H2 as [-> ->]; rewrite app_nil_r;
    eexists; (split; [done|]); (split; [done|]); (split; [|exact Hlen]); simpl; rewrite <- Hsig; naive_solver.
Qed.

Definition collected (hs : list EtcdEndPointHealth) : gmap string EtcdEndPointHealth :=
  fold_left (fun health h => <[eh_Ep h := h]> health) hs ∅.

Lemma collected_elem hs ep h : collected hs !! ep = Some h -> h ∈ hs /\ eh_Ep h = ep.
Proof.
  unfold collected. induction hs as [|h0 hs IH] using rev_ind; [simpl; by intros []%lookup_empty_Some|].
  rewrite fold_left_app. simpl. intros [[<- <-]|[Hne Hl]]%lookup_insert_Some; [set_solver|].
  destruct (IH Hl). set_solver.
Qed.

Lemma collected_lookup hs h : NoDup (eh_Ep <$> hs) -> h ∈ hs -> collected hs !! eh_Ep h = Some h.
Proof.
  unfold collected. induction hs as [|h0 hs IH] using rev_ind; [set_solver|].
  rewrite fmap_app, fold_left_app, NoDup_app. simpl. intros (Hnd & Hdis & _) [Hin| ->%list_elem_of_singleton]%elem_of_app.
  - rewrite lookup_insert_ne; [auto|]. intros Heq. apply (Hdis (eh_Ep h)); [by apply list_elem_of_fmap_2|].
    rewrite <- Heq. set_solver.
  - by rewrite lookup_insert_eq.
Qed.

Lemma sumHealth_ready health eps :
  fst (sumHealth health eps) = true <-> exists ep, ep ∈ eps /\ eh_Health (healthOf health ep) = true.
Proof.
  induction eps as [|ep eps IH]; simpl.
  { split; [done|]. by intros (ep & []%elem_of_nil & _). }
  destruct (sumHealth health eps) as [ready msg]. simpl in IH.
  destruct (eh_Health (healthOf health ep)) eqn:E; simpl.
  - split; [|done]. intros _. exists ep. by rewrite elem_of_cons; auto.
  - rewrite IH. clear IH. split; intros (ep' & Hin & Hh).
    + exists ep'. split; [by apply elem_of_cons; right|done].
    + apply elem_of_cons in Hin as [->|Hin]; [congruence|]. by exists ep'.
Qed.

Lemma endpointHealth_calls auth ep : calls (toEtcd (etcdClientConfig auth ep)) (endpointHealth auth ep).
Proof.
  unfold endpointHealth, DoWithBackoff. calls_steps.
  generalize (@None err) as last. induction DefaultMaxRetry as [|n IH]; intros last; cbn [backoffLoop]; calls_steps.
  all: auto using checkEtcd_calls.
Qed.

(** An event without alarms is one of its own endpoint. *)
Lemma noAlarm_own cfg cfg' ev :
  noAlarm cfg ev -> match ev with Ev q _ => toEtcd cfg' _ q end -> cfg = cfg'.
Proof. destruct ev as [B q x]. destruct q as [B r|w]; [|done]. destruct r; simpl; naive_solver. Qed.

Lemma concat_bounded {A} (ls : list (list A)) n :
  Forall (fun l => length l <= n) ls -> length (concat ls) <= n * length ls.
Proof. induction 1 as [|l ls Hl _ IH]; simpl; [lia|]. rewrite length_app. lia. Qed.

(** The results of all endpoints, each with the calls of its goroutine. *)
Lemma endpoints_spec auth eps scheds tr o :
  exec (par (endpointHealth auth <$> eps) scheds) tr o ->
  exists hs trs, o = ORet hs /\ eh_Ep <$> hs = eps /\ tr ≡ₚ concat trs /\ length trs = length eps /\
    Forall (fun t => length t <= 9) trs /\
    (forall i t, trs !! i = Some t -> exists ep h, eps !! i = Some ep /\ hs !! i = Some h /\
       exec (endpointHealth auth ep) t (ORet h)).
Proof.
  intros Hex. destruct (par_spec (endpointHealth auth <$> eps) scheds) as [_ Hp].
  { apply Forall_fmap, Forall_true. intros ep. apply total_of_exec. intros t o' He.
    destruct (endpointHealth_spec _ _ _ _ He) as (h & -> & _). by exists h. }
  destruct (Hp _ _ Hex) as (hs & trs & -> & Hlh & Hlt & Hsh & Hi). rewrite length_fmap in Hlh, Hlt.
  assert (forall i t, trs !! i = Some t -> exists ep h, eps !! i = Some ep /\ hs !! i = Some h /\
            exec (endpointHealth auth ep) t (ORet h)) as Hall.
  { intros i t Ht. destruct (lookup_lt_is_Some_2 eps i) as [ep Hep].
    { rewrite <- Hlt. by eapply lookup_lt_Some. }
    destruct (Hi i (endpointHealth auth ep)) as (t' & h & Ht' & Hh & He); [by rewrite list_lookup_fmap, Hep|].
    exists ep, h. split; [done|]. split; [done|]. by simplify_eq. }
  exists hs, trs. split; [done|]. split; [|split; [by apply shuffle_perm|split; [done|split; [|done]]]].
  - apply list_eq_same_length with (n := length eps); [done|by rewrite length_fmap|].
    intros i h ep Hilt Hh Hep. rewrite list_lookup_fmap in Hh. apply fmap_Some in Hh as (h' & Hh' & ->).
    destruct (lookup_lt_is_Some_2 trs i) as [t Ht]; [lia|]. destruct (Hall i t Ht) as (ep' & h'' & He1 & He2 & He3).
    destruct (endpointHealth_spec _ _ _ _ He3) as (h3 & [= ->] & <- & _). congruence.
  - apply Forall_lookup. intros i t Ht. destruct (Hall i t Ht) as (ep & h & _ & _ & He).
    by destruct (endpointHealth_spec _ _ _ _ He) as (_ & _ & _ & _ & ?).
Qed.

Lemma ready_iff_answered auth eps hs hs' trs tr :
  NoDup eps -> hs' ≡ₚ hs -> eh_Ep <$> hs = eps -> tr ≡ₚ concat trs -> length trs = length eps ->
  (forall i t, trs !! i = Some t -> exists ep h, eps !! i = Some ep /\ hs !! i = Some h /\
     exec (endpointHealth auth ep) t (ORet h)) ->
  fst (sumHealth (collected hs') eps) = true <->
  exists ep, ep ∈ eps /\ Exists (noAlarm (etcdClientConfig auth ep)) tr.
Proof.
  intros Hnd Hperm Hep Htr Hlen Hall. rewrite sumHealth_ready. split.
  - intros (ep & Hin & Hh). exists ep. split; [done|]. unfold healthOf in Hh.
    destruct (collected hs' !! ep) as [h|] eqn:E; [simpl in Hh|done].
    apply collected_elem in E as [Hh' Heq]. rewrite Hperm in Hh'. apply list_elem_of_lookup in Hh' as [i Hi].
    destruct (lookup_lt_is_Some_2 trs i) as [t Ht].
    { apply lookup_lt_Some in Hi. rewrite Hlen, <- Hep, length_fmap. done. }
    destruct (Hall i t Ht) as (ep' & h' & _ & Hh' & He). simplify_eq.
    destruct (endpointHealth_spec _ _ _ _ He) as (h1 & [= <-] & -> & Hs & _). rewrite Htr. apply Hs in Hh.
    apply Exists_concat, Exists_exists. exists t. split; [by eapply list_elem_of_lookup_2|done].
  - intros (ep & Hin & Hs). rewrite Htr in Hs. apply Exists_concat, Exists_exists in Hs as (t & Ht & Hs).
    apply list_elem_of_lookup in Ht as [i Ht]. destruct (Hall i t Ht) as (ep' & h & Hepi & Hi & He).
    exists ep'. split; [by eapply list_elem_of_lookup_2|].
    destruct (endpointHealth_spec _ _ _ _ He) as (h1 & [= <-] & Heq & Hsig & _).
    unfold healthOf. rewrite <- Heq. rewrite collected_lookup; simpl.
    + apply Hsig. pose proof (calls_exec _ _ _ _ (endpointHealth_calls auth ep') He) as Hown.
      apply Exists_exists in Hs as (ev & Hev & Hs). apply Exists_exists. exists ev. split; [done|].
      rewrite Forall_forall in Hown. by rewrite <- (noAlarm_own _ _ _ Hs (Hown _ Hev)).
    + by rewrite Hperm, Hep.
    + rewrite Hperm. by eapply list_elem_of_lookup_2.
Qed.

(** etcd is reported ready exactly when it answered: a probe always ends
    in a condition of etcd, after at most nine calls per endpoint, and the
    condition is true exactly when some endpoint listed its alarms and had
    none. *)
Theorem etcd_ready_exact sc auth eps tr o :
  NoDup eps -> sc_order sc ≡ₚ seq 0 (length eps) -> exec (GetEtcdCondition sc auth eps) tr o ->
  exists c, o = ORet c /\ mc_Type c = EtcdReady /\ length tr <= 9 * length eps /\
    (mc_Status c = ConditionTrue <->
     exists ep, ep ∈ eps /\ Exists (noAlarm (etcdClientConfig auth ep)) tr).
Proof.
  intros Hnd Horder Hex. unfold GetEtcdCondition, GetEndpointsHealth in Hex.
  apply exec_bind in Hex as (t1 & o1 & t2 & -> & Hex & H2).
  apply exec_bind in Hex as (t3 & o3 & t4 & -> & Hex & H4).
  destruct (endpoints_spec _ _ _ _ _ Hex) as (hs & trs & -> & Hep & Hperm & Hlen & Hlens & Hall).
  destruct H4 as [-> ->]. fold (collected (inOrder (sc_order sc) hs)) in H2.
  assert (inOrder (sc_order sc) hs ≡ₚ hs) as Hin.
  { apply (inOrder_perm _ _ (length eps)); [by rewrite <- Hep, length_fmap|done]. }
  pose proof (ready_iff_answered auth eps hs _ trs t3 Hnd Hin Hep Hperm Hlen Hall) as Hready.
  destruct (sumHealth (collected (inOrder (sc_order sc) hs)) eps) as [ready msg]. simpl in Hready.
  destruct H2 as [-> ->]. rewrite !app_nil_r. eexists. split; [done|].
  assert (length t3 <= 9 * length eps) as Hl by (rewrite Hperm, <- Hlen; by apply concat_bounded).
  rewrite <- Hready. destruct ready; simpl; naive_solver.
Qed.
End Probes.

(** ** Programs that read and give a value

    [yields R p V]: in every execution with answers as in [R], [p] writes
    nothing, does not panic, and returns only values of [V]. *)
Definition yields {A} (R : forall B, kread B -> B -> Prop) (p : prog A) (V : A -> Prop) : Prop :=
  wp R p (fun ws o => ws = [] /\ noPanic o /\ forall v, o = ORet v -> V v).

Section Yields.
Context (R : forall B, kread B -> B -> Prop).

Lemma yields_ret {A} (a : A) (V : A -> Prop) : V a -> yields R (Ret a) V.
Proof. intros Ha. split; [done|]. split; [done|]. by intros ? [= <-]. Qed.
Lemma yields_fail {A} e (V : A -> Prop) : yields R (Fail e) V.
Proof. by split. Qed.
Lemma yields_read {B} (r : kread B) (V : B -> Prop) : (forall b, R B r b -> V b) -> yields R (read r) V.
Proof.
  intros Hr. apply wp_read; [by intros|]. intros b Hb. split; [done|]. split; [done|]. intros ? [= <-]. auto.
Qed.
Lemma yields_mono {A} (p : prog A) (V W : A -> Prop) : (forall a, V a -> W a) -> yields R p V -> yields R p W.
Proof. intros HV. apply wp_mono. naive_solver. Qed.
Lemma yields_bind {A B} (p : prog A) (f : A -> prog B) V W :
  yields R p V -> (forall a, V a -> yields R (f a) W) -> yields R (prog_bind f p) W.
Proof.
  intros Hp Hf. apply wp_bind. eapply wp_mono; [|exact Hp]. intros ws [a|e|] (-> & Hnp & Hv); [|by split|done].
  apply Hf. by apply Hv.
Qed.
Lemma yields_wrap {A} msg (p : prog A) V : yields R p V -> yields R (wrap msg p) V.
Proof. intros Hp. apply wp_wrap. eapply wp_mono; [|exact Hp]. by intros ws [a|e|] (-> & Hnp & Hv). Qed.
Lemma yields_attempt {A} (p : prog A) V :
  yields R p V -> yields R (attempt p) (fun x => match x with inr a => V a | inl _ => True end).
Proof.
  intros Hp. apply wp_attempt. eapply wp_mono; [|exact Hp]. intros ws [a|e|] (-> & Hnp & Hv); [| |done].
  - split; [done|]. split; [done|]. intros ? [= <-]. by apply Hv.
  - split; [done|]. split; [done|]. by intros ? [= <-].
Qed.
Lemma yields_exec {A} (p : prog A) V tr o :
  yields R p V -> exec p tr o -> Forall (event_ok R) tr -> writes tr = [] /\ noPanic o /\ forall v, o = ORet v -> V v.
Proof. intros Hp. by apply (wp_exec R p _ tr o Hp). Qed.
End Yields.

Ltac yields_step :=
  lazymatch goal with
  | |- yields _ (Ret _) _ => apply yields_ret
  | |- yields _ (Fail _) _ => apply yields_fail
  | |- yields _ (if ?b then _ else _) _ => destruct b eqn:?
  | |- yields _ (wrap _ _) _ => apply yields_wrap
  | |- yields _ (match ?x with _ => _ end) _ => destruct x eqn:?
  end.

(** ** Kafka *)
Section Kafka.
Context {KM : KubeMessages} {KT : KafkaTls}.
Context (secrets : string -> string -> gmap string string).

(** The Secrets of the cluster. *)
Definition secretsAnswer (B : Type) (r : kread B) : B -> Prop :=
  match r in kread B' return B' -> Prop with GetSecret ns name => fun d => d = secrets ns name | _ => fun _ => True end.

Definition secretValue (ns : string) (ref : SecretKeyReference) : string :=
  mget (secrets ns (ref_Name ref)) (ref_Key ref).

(** What the configuration asks for. *)
Definition credentialOf (conf : CheckKafkaConfig) (ref : option SecretKeyReference) (literal : string) : string :=
  match ref with Some r => secretValue (ck_Namespace conf) r | None => literal end.

Definition userAndPassword (m : saslMechanism) : string * string :=
  match m with PlainMechanism u p | ScramSHA256 u p | ScramSHA512 u p => (u, p) end.

Definition mechanismFits (conf : CheckKafkaConfig) (m : saslMechanism) : Prop :=
  let name := ToUpper (TrimSpace (ck_SASLMechanisms conf)) in
  let '(u, p) := userAndPassword m in
  match m with
  | PlainMechanism _ _ => name = "" \/ name = "PLAIN"
  | ScramSHA256 _ _ => name = "SCRAM-SHA-256" /\ u <> "" /\ p <> ""
  | ScramSHA512 _ _ => name = "SCRAM-SHA-512" /\ u <> "" /\ p <> ""
  end /\
  u = credentialOf conf (ck_SASLUsernameSecret conf) (ck_SASLUsername conf) /\
  p = credentialOf conf (ck_SASLPasswordSecret conf) (ck_SASLPassword conf).

Definition tlsFits (conf : CheckKafkaConfig) (t : tlsConfig) : Prop :=
  tls_InsecureSkipVerify t = false /\
  tls_RootCAs t = match sc_CACertSecret (ck_SSL conf) with
                  | Some r => Some (secretValue (ck_Namespace conf) r)
                  | None => if bool_decide (ck_CACert conf = "") then None else Some (ck_CACert conf)
                  end /\
  (is_Some (tls_Certificate t) <-> is_Some (sc_CertSecret (ck_SSL conf))).

Definition dialerFits (conf : CheckKafkaConfig) (d : kafkaDialer) : Prop :=
  kafkaProtocol conf ∈ [""; "PLAINTEXT"; "SSL"; "SASL_PLAINTEXT"; "SASL_SSL"] /\
  match dl_TLS d with Some t => useTLS conf = true /\ tlsFits conf t | None => useTLS conf = false end /\
  match dl_SASL d with Some m => useSASL conf = true /\ mechanismFits conf m | None => useSASL conf = false end.

Lemma yields_getFromSecret conf ref :
  ck_SecretReader conf = Some kafkaSecretReader ->
  yields secretsAnswer (getFromSecret conf ref (ck_Namespace conf))
    (fun v => v = secretValue (ck_Namespace conf) ref /\ v <> "").
Proof.
  intros Hr. unfold getFromSecret. rewrite Hr. cbv zeta. yields_step; [apply yields_fail|].
  apply orb_false_iff in Heqb as [_ Hns]. apply negb_false_iff, bool_decide_eq_true in Hns. rewrite Hns.
  eapply yields_bind with (V := fun v => v = secretValue (ck_Namespace conf) ref).
  - apply yields_wrap. unfold kafkaSecretReader.
    eapply yields_bind; [by apply yields_read; intros b Hb; exact Hb|]. intros data ->.
    yields_step; [apply yields_fail|by apply yields_ret].
  - intros v ->. yields_step; [apply yields_fail|]. apply yields_ret. split; [done|]. by apply bool_decide_eq_false in Heqb.
Qed.

Lemma yields_credential what conf ref literal :
  ck_SecretReader conf = Some kafkaSecretReader ->
  yields secretsAnswer (credential what conf ref literal) (fun v => v = credentialOf conf ref literal).
Proof.
  intros Hr. unfold credential, credentialOf. destruct ref as [r|]; [|by apply yields_ret].
  apply yields_wrap. eapply yields_mono; [|by apply yields_getFromSecret]. by intros v [-> _].
Qed.

Lemma yields_scram what mech user pass V :
  (user <> "" -> pass <> "" -> V (mech user pass)) ->
  yields secretsAnswer (scram what mech user pass) V.
Proof.
  intros HV. unfold scram. yields_step; [apply yields_fail|]. apply orb_false_iff in Heqb as [H1 H2].
  apply bool_decide_eq_false in H1, H2. yields_step; [apply yields_fail|]. apply yields_ret. auto.
Qed.

Lemma yields_mechanism conf :
  ck_SecretReader conf = Some kafkaSecretReader -> yields secretsAnswer (kafkaMechanism conf) (mechanismFits conf).
Proof.
  intros Hr. unfold kafkaMechanism. eapply yields_bind; [by apply yields_credential|]. intros user ->.
  eapply yields_bind; [by apply yields_credential|]. intros pass ->. cbv zeta.
  yields_step; [|yields_step; [|yields_step; [|apply yields_fail]]]; apply bool_decide_eq_true in Heqb || idtac.
  - apply yields_scram. intros Hu Hp. by repeat split.
  - apply bool_decide_eq_true in Heqb0. apply yields_scram. intros Hu Hp. by repeat split.
  - apply bool_decide_eq_true in Heqb1. apply yields_ret. by repeat split.
Qed.

Lemma yields_rootCAs conf :
  ck_SecretReader conf = Some kafkaSecretReader ->
  yields secretsAnswer (kafkaRootCAs conf)
    (fun ca => ca = match sc_CACertSecret (ck_SSL conf) with
                    | Some r => Some (secretValue (ck_Namespace conf) r)
                    | None => if bool_decide (ck_CACert conf = "") then None else Some (ck_CACert conf)
                    end).
Proof.
  intros Hr. unfold kafkaRootCAs. destruct (sc_CACertSecret (ck_SSL conf)) as [r|].
  - eapply yields_bind; [by apply yields_wrap, yields_getFromSecret|]. intros v [-> _].
    yields_step; [by apply yields_ret|apply yields_fail].
  - yields_step; [by apply yields_ret|]. yields_step; [by apply yields_ret|apply yields_fail].
Qed.

Lemma yields_normalize keyPEM pw : yields secretsAnswer (normalizePrivateKeyPEM keyPEM pw) (fun _ => True).
Proof. unfold normalizePrivateKeyPEM, rewrapped. cbv zeta. repeat yields_step; done. Qed.

Lemma yields_certificate conf :
  ck_SecretReader conf = Some kafkaSecretReader ->
  yields secretsAnswer (clientCertificate conf) (fun c => is_Some c <-> is_Some (sc_CertSecret (ck_SSL conf))).
Proof.
  intros Hr. unfold clientCertificate.
  destruct (sc_CertSecret (ck_SSL conf)) as [certRef|], (sc_KeySecret (ck_SSL conf)) as [keyRef|];
    [|apply yields_fail..|by apply yields_ret; split; intros []].
  eapply yields_bind; [by apply yields_wrap, yields_getFromSecret|]. intros cert _.
  eapply yields_bind; [by apply yields_wrap, yields_getFromSecret|]. intros key _.
  eapply yields_bind with (V := fun _ => True).
  { destruct (sc_KeyPasswordSecret (ck_SSL conf)) as [r|]; [|by apply yields_ret].
    apply yields_wrap. eapply yields_mono; [|by apply yields_getFromSecret]. done. }
  intros pw _. eapply yields_bind with (V := fun _ => True).
  { yields_step; [by apply yields_wrap, yields_normalize|].
    eapply yields_bind; [apply yields_attempt, yields_normalize|]. intros x _. by apply yields_ret. }
  intros key' _. yields_step; [apply yields_fail|]. apply yields_ret. by split.
Qed.

Lemma yields_dialer conf :
  ck_SecretReader conf = Some kafkaSecretReader -> yields secretsAnswer (GetKafkaDialer conf) (dialerFits conf).
Proof.
  intros Hr. unfold GetKafkaDialer.
  eapply yields_bind with
    (V := fun t => match t with Some t => useTLS conf = true /\ tlsFits conf t | None => useTLS conf = false end).
  { yields_step; [|by apply yields_ret]. eapply yields_bind; [by apply yields_rootCAs|]. intros ca Hca.
    eapply yields_bind; [by apply yields_certificate|]. intros c Hc. apply yields_ret. by repeat split; try apply Hc. }
  intros t Ht. eapply yields_bind with
    (V := fun m => match m with Some m => useSASL conf = true /\ mechanismFits conf m | None => useSASL conf = false end).
  { yields_step; [|by apply yields_ret]. eapply yields_bind; [by apply yields_mechanism|]. intros m Hm. by apply yields_ret. }
  intros m Hm. yields_step; [|apply yields_fail]. apply bool_decide_eq_true in Heqb. apply yields_ret. by repeat split.
Qed.

(** A broker answered. *)
Definition brokerAnswered (ev : event) : Prop :=
  match ev with
  | Ev q x =>
      match q in kreq B return kerr + B -> Prop with
      | Read r =>
          match r in kread B return kerr + B -> Prop with
          | KafkaApiVersions _ _ => fun x => x = inr tt
          | _ => fun _ => False
          end
      | Write _ => fun _ => False
      end x
  end.

(** The calls to brokers use a client that fits and go to a configured broker;
    all other calls read Secrets. *)
Definition kafkaCall (conf : CheckKafkaConfig) (B : Type) (q : kreq B) : Prop :=
  match q with
  | Read (KafkaDial d b) | Read (KafkaSetDeadline d b) | Read (KafkaApiVersions d b) =>
      dialerFits conf d /\ b ∈ ck_BrokerList conf
  | Read (GetSecret ns _) => ns = ck_Namespace conf
  | _ => False
  end.

Definition readsSecret (conf : CheckKafkaConfig) (B : Type) (q : kreq B) : Prop :=
  match q with Read (GetSecret ns _) => ns = ck_Namespace conf | _ => False end.

Lemma getFromSecret_calls conf ref :
  ck_SecretReader conf = Some kafkaSecretReader ->
  calls (readsSecret conf) (getFromSecret conf ref (ck_Namespace conf)).
Proof.
  intros Hr. unfold getFromSecret. rewrite Hr. cbv zeta.
  destruct (_ || _ || _ || _) eqn:E; [exact I|]. apply orb_false_iff in E as [_ E].
  apply negb_false_iff, bool_decide_eq_true in E. rewrite E. unfold kafkaSecretReader. by calls_steps.
Qed.

Lemma normalize_calls P key pw : calls P (normalizePrivateKeyPEM key pw).
Proof. unfold normalizePrivateKeyPEM, rewrapped. cbv zeta. by calls_steps. Qed.

Lemma dialer_calls conf :
  ck_SecretReader conf = Some kafkaSecretReader -> calls (readsSecret conf) (GetKafkaDialer conf).
Proof.
  intros Hr. unfold GetKafkaDialer, kafkaRootCAs, clientCertificate, kafkaMechanism, credential, scram. cbv zeta.
  repeat first [calls_step | by apply getFromSecret_calls | apply normalize_calls].
Qed.

Lemma checkBrokers_signals d brokers : forall errs,
  signals brokerAnswered (3 * length brokers) (checkBrokers d brokers errs).
Proof.
  induction brokers as [|b brokers IH]; intros errs tr o Hex; cbn [checkBrokers] in Hex.
  { destruct Hex as [-> ->]. rewrite Exists_nil. by repeat split. }
  apply exec_bind in Hex as (t1 & o1 & t2 & -> & H1 & H2). apply exec_attempt in H1 as (o' & H1 & ->).
  assert (signals brokerAnswered 3 (checkKafkaBroker d b)) as Hb.
  { intros t oo He. unfold checkKafkaBroker in He. exec_cases He.
    all: split; [done|]; split; [|simpl; lia]; cbn [app]; rewrite ?Exists_cons, Exists_nil; simpl; naive_solver. }
  destruct (Hb _ _ H1) as (Hnp & Hsig & Hlen). rewrite Exists_app, length_app. simpl length.
  destruct o' as [[]|e|]; [| |done].
  - destruct H2 as [-> ->]. split; [done|]. split; [|simpl; lia]. naive_solver.
  - destruct (IH _ _ _ H2) as (Hnp2 & Hsig2 & Hlen2). split; [done|]. split; [|lia].
    rewrite Hsig2. naive_solver.
Qed.

Lemma checkBrokers_calls conf d brokers : dialerFits conf d -> forall errs,
  brokers ⊆ ck_BrokerList conf -> calls (kafkaCall conf) (checkBrokers d brokers errs).
Proof.
  intros Hd. induction brokers as [|b brokers IH]; intros errs Hsub; cbn [checkBrokers]; [exact I|].
  apply calls_bind; [apply calls_attempt|].
  - unfold checkKafkaBroker. calls_steps; (split; [done|]); set_solver.
  - intros [e|u]; [|exact I]. apply IH. set_solver.
Qed.

Lemma backoff_calls P fn n : calls P fn -> forall last, calls P (backoffLoop n fn last).
Proof. intros Hfn. induction n as [|n IH]; intros last; cbn [backoffLoop]; calls_steps; auto. Qed.
Lemma DoWithBackoff_calls P name fn n : calls P fn -> calls P (DoWithBackoff name fn n).
Proof. intros Hfn. unfold DoWithBackoff. apply calls_bind; [by apply backoff_calls|]. by intros []. Qed.

(** C10. Kafka is reported ready exactly when a broker answered, and it is asked with
    the client the configuration wants, or not at all: in every call to a
    broker TLS and SASL are on exactly for the protocols that have them; TLS
    always verifies, with the certificate authority of the referenced Secret or
    else of the credentials' Secret, and presents a certificate exactly if one is
    referenced; a credential with a reference is the value of the Secret in the
    namespace of the resource, never the literal, also when it cannot be read;
    and SCRAM never goes out with empty credentials. *)
Theorem kafka_ready_exact conf tr o :
  ck_SecretReader conf = Some kafkaSecretReader ->
  exec (CheckKafka conf) tr o -> Forall (event_ok secretsAnswer) tr ->
  noPanic o /\ (o = ORet tt <-> Exists brokerAnswered tr) /\
  Forall (fun ev => match ev with Ev q _ => kafkaCall conf _ q end) tr.
Proof.
  intros Hr Hex Hok. unfold CheckKafka in Hex.
  destruct (ck_BrokerList conf) as [|b0 brokers] eqn:Hb.
  { destruct Hex as [-> ->]. rewrite Exists_nil. by repeat split. }
  apply exec_bind in Hex as (t1 & o1 & t2 & -> & H1 & H2). apply Forall_app in Hok as [Hok1 _].
  assert (~ Exists brokerAnswered t1 /\ Forall (fun ev => match ev with Ev q _ => kafkaCall conf _ q end) t1) as [Hno Hc1].
  { pose proof (calls_exec _ _ _ _ (calls_wrap _ "get kafka dialer failed" _ (dialer_calls conf Hr)) H1) as Hc.
    split; [rewrite Exists_exists; rewrite Forall_forall in Hc; intros ([B q x] & Hin & Ha); specialize (Hc _ Hin)|
            eapply Forall_impl; [exact Hc|]; intros [B q x] Hq].
    - destruct q as [B r|]; [|done]. by destruct r.
    - destruct q as [B r|]; [|done]. by destruct r. }
  apply exec_wrap in H1 as (o' & H1 & ->).
  destruct (yields_exec _ _ _ _ _ (yields_dialer conf Hr) H1 Hok1) as (_ & Hnp & Hd).
  rewrite Exists_app, Forall_app. destruct o' as [d|e|]; [| |done].
  - destruct (DoWithBackoff_signals _ _ "checkKafka" _ DefaultMaxRetry ltac:(unfold DefaultMaxRetry; lia)
                (checkBrokers_signals d (b0 :: brokers) []) _ _ H2) as (Hnp2 & Hsig & _).
    split; [done|]. split; [rewrite Hsig; naive_solver|]. split; [done|].
    eapply calls_exec; [|exact H2]. apply DoWithBackoff_calls, checkBrokers_calls; [by apply Hd|]. by rewrite Hb.
  - destruct H2 as [-> ->]. rewrite Exists_nil. split; [done|]. split; [|by split]. naive_solver.
Qed.
End Kafka.

(** ** Object storage *)
Section Storage.
Context {KM : KubeMessages} {KT : KafkaTls}.
Context (secrets : string -> string -> gmap string string).

Definition healthyState (state : string) : Prop := state = "ok" \/ state = "online".

(** The storage answered: the bucket is there, or a server is up. *)
Definition storageAnswered (ev : event) : Prop :=
  match ev with
  | Ev q x =>
      match q in kreq B return kerr + B -> Prop with
      | Read r =>
          match r in kread B return kerr + B -> Prop with
          | MinioBucketLocation _ _ => fun x => match x with inr _ => True | inl _ => False end
          | MadminServerInfo _ => fun x => match x with inr states => Exists healthyState states | inl _ => False end
          | _ => fun _ => False
          end
      | Write _ => fun _ => False
      end x
  end.

(** The credentials the resource asks for. *)
Definition storageKeys (info : StorageConditionInfo) (ak sk : string) : Prop :=
  if si_UseIAM info then ak = "" /\ sk = ""
  else storageSecretKeys (secrets (si_Namespace info) (sto_SecretRef (si_Storage info))) = (Some ak, Some sk).

Definition clientFits (info : StorageConditionInfo) (cli : storageClient) : Prop :=
  storageKeys info (sl_AK cli) (sl_SK cli) /\ sl_Secure cli = si_UseSSL info.

Definition storageCall (info : StorageConditionInfo) (B : Type) (q : kreq B) : Prop :=
  match q with
  | Read (GetSecret ns _) => ns = si_Namespace info
  | Read (MinioNew cli) | Read (MadminNew cli) | Read (MadminServerInfo cli) => clientFits info cli
  | Read (MinioBucketLocation cli bucket) => clientFits info cli /\ bucket = si_Bucket info
  | _ => False
  end.

Lemma existsb_states states :
  existsb (fun state => bool_decide (state = "ok" \/ state = "online")) states = true <-> Exists healthyState states.
Proof.
  rewrite existsb_exists, Exists_exists. unfold healthyState.
  split; intros (x & Hin & Hx); exists x; rewrite ?list_elem_of_In, ?bool_decide_eq_true in *; done.
Qed.

Lemma checkMinio_signals args :
  ma_Type args <> StorageTypeAzure -> signals storageAnswered 2 (checkMinioOnce args).
Proof.
  intros Hty tr o Hex. unfold checkMinioOnce, customTransport, isHealthyByServerInfo in Hex.
  exec_cases Hex; try (by apply bool_decide_eq_true in Heqb0).
  all: split; [done|]; split; [|simpl; lia]; cbn [app]; rewrite ?Exists_cons, ?Exists_nil; simpl;
    rewrite <- ?existsb_states; intuition congruence.
Qed.

Lemma credentials_spec info tr o :
  exec (storageCredentials info) tr o -> Forall (event_ok (secretsAnswer secrets)) tr ->
  Forall (fun ev => match ev with Ev q _ => storageCall info _ q end) tr /\ ~ Exists storageAnswered tr /\
  exists x, o = ORet x /\
    match x with
    | inl c => mc_Type c = StorageReady /\ mc_Status c = ConditionFalse
    | inr (ak, sk) => storageKeys info ak sk
    end.
Proof.
  intros Hex Hok. unfold storageCredentials, storageKeys in *. destruct (si_UseIAM info).
  { destruct Hex as [-> ->]. rewrite Exists_nil. repeat split; [constructor|tauto|by eexists]. }
  exec_cases Hex; cbn [app] in *; apply Forall_cons in Hok as [Hd _]; rewrite Exists_cons, Exists_nil.
  all: split; [by repeat constructor|]; split; [simpl; tauto|]; eexists; (split; [done|]); simpl.
  - by destruct (IsNotFound _).
  - simpl in Hd. subst. by destruct (storageSecretKeys _) as [[ak|] [sk|]].
Qed.

Lemma storageTls_spec info tr o :
  exec (storageTls info) tr o ->
  Forall (fun ev => match ev with Ev q _ => storageCall info _ q end) tr /\ ~ Exists storageAnswered tr /\
  exists x, o = ORet x /\ match x with inl c => mc_Type c = StorageReady /\ mc_Status c = ConditionFalse | inr _ => True end.
Proof.
  intros Hex. unfold storageTls in Hex. exec_cases Hex; cbn [app]; rewrite ?Exists_cons, ?Exists_nil.
  all: split; [by repeat constructor|]; split; [simpl; tauto|]; eexists; (split; [done|]); simpl; try done.
  all: repeat case_match; simplify_eq; by try destruct (IsNotFound _).
Qed.

Lemma CheckMinIO_calls info args :
  storageKeys info (ma_AK args) (ma_SK args) -> ma_UseSSL args = si_UseSSL info -> ma_Bucket args = si_Bucket info ->
  calls (storageCall info) (CheckMinIO args).
Proof.
  intros Hk Hs Hb. apply DoWithBackoff_calls. unfold checkMinioOnce, customTransport, isHealthyByServerInfo.
  calls_steps; simpl; auto; by repeat split.
Qed.

(** C25. Object storage other than Azure's is reported ready exactly when it
    answered, and it is only asked with the credentials of the resource: without
    IAM every call carries both keys of its Secret, which exist, and the probe of
    a bucket asks for the configured one.  The probe always ends in a condition
    of the storage. *)
Theorem storage_ready_exact info tr o :
  sto_Type (si_Storage info) <> StorageTypeAzure ->
  exec (GetMinioCondition info) tr o -> Forall (event_ok (secretsAnswer secrets)) tr ->
  exists c, o = ORet c /\ mc_Type c = StorageReady /\
    (mc_Status c = ConditionTrue <-> Exists storageAnswered tr) /\
    Forall (fun ev => match ev with Ev q _ => storageCall info _ q end) tr.
Proof.
  intros Hty Hex Hok. unfold GetMinioCondition in Hex.
  apply exec_bind in Hex as (t1 & o1 & t2 & -> & H1 & Hex). apply Forall_app in Hok as [Hok1 _].
  destruct (credentials_spec _ _ _ H1 Hok1) as (Hc1 & Hno1 & x & -> & Hx). setoid_rewrite Exists_app; setoid_rewrite Forall_app.
  destruct x as [c|[ak sk]].
  { destruct Hex as [-> ->], Hx as [? Hs]. exists c. rewrite Exists_nil. repeat split; try done; [|tauto]. by rewrite Hs. }
  cbv zeta in Hex. apply exec_bind in Hex as (t3 & o3 & t4 & -> & H3 & Hex).
  destruct (storageTls_spec _ _ _ H3) as (Hc3 & Hno3 & y & -> & Hy). setoid_rewrite Exists_app; setoid_rewrite Forall_app.
  destruct y as [c|[ca insecure]].
  { destruct Hex as [-> ->], Hy as [? Hs]. exists c. rewrite Exists_nil. repeat split; try done; [|tauto]. by rewrite Hs. }
  rewrite (bool_decide_eq_false_2 (sto_Type (si_Storage info) = StorageTypeAzure)) in Hex by done. simpl andb in Hex.
  cbv iota in Hex. apply exec_bind in Hex as (t5 & o5 & t6 & -> & H5 & Hex).
  apply exec_attempt in H5 as (o' & H5 & ->).
  match type of H5 with exec (CheckMinIO ?args) _ _ =>
    pose proof (calls_exec _ _ _ _ (CheckMinIO_calls info args Hx eq_refl eq_refl) H5) as Hc5 end.
  destruct (DoWithBackoff_signals _ _ "checkMinIO" _ DefaultMaxRetry ltac:(unfold DefaultMaxRetry; lia)
              (checkMinio_signals (mkMinIOArgs _ _ _ _ _ _ _ _ _ _ _) Hty) _ _ H5) as (Hnp & Hsig & _).
  destruct o' as [[]|e|]; [| |done]; destruct Hex as [-> ->]; rewrite app_nil_r; eexists;
    (split; [done|]); (split; [done|]); (split; [|done]); rewrite <- Hsig; simpl; intuition congruence.
Qed.
End Storage.

(** ** Every probe ends in a condition *)

(** [returns V p]: whatever the answers, [p] ends with a value of [V]. *)
Fixpoint returns {A} (V : A -> Prop) (p : prog A) : Prop :=
  match p with
  | Ret a => V a
  | Fail _ | Panic => False
  | Call _ k => forall x, returns V (k x)
  end.

Fixpoint panicFree {A} (p : prog A) : Prop :=
  match p with
  | Panic => False
  | Call _ k => forall x, panicFree (k x)
  | _ => True
  end.

Lemma returns_exec {A} (V : A -> Prop) (p : prog A) : forall tr o,
  returns V p -> exec p tr o -> exists a, o = ORet a /\ V a.
Proof.
  induction p as [a|e| |B q k IH]; simpl; intros tr o Hr Hex; [|done..|].
  - destruct Hex as [_ ->]. by exists a.
  - destruct Hex as (x & tr' & -> & Hex). by eapply IH.
Qed.
Lemma returns_of_exec {A} (V : A -> Prop) (p : prog A) :
  (forall tr o, exec p tr o -> exists a, o = ORet a /\ V a) -> returns V p.
Proof.
  induction p as [a|e| |B q k IH]; intros H; simpl.
  - by destruct (H [] (ORet a)) as (a' & [= <-] & ?).
  - by destruct (H [] (OFail e)) as (? & [=] & _).
  - by destruct (H [] OPanic) as (? & [=] & _).
  - intros x. apply IH. intros tr o Hex. apply (H (Ev q x :: tr)). simpl. eauto.
Qed.
Lemma returns_bind {A B} (V : A -> Prop) (W : B -> Prop) (p : prog A) (f : A -> prog B) :
  returns V p -> (forall a, V a -> returns W (f a)) -> returns W (prog_bind f p).
Proof. induction p as [a|e| |C q k IH]; simpl; auto; done. Qed.
Lemma returns_attempt {A} (p : prog A) : panicFree p -> returns (fun _ => True) (attempt p).
Proof. induction p as [a|e| |C q k IH]; simpl; auto. Qed.

Lemma free_bind {A B} (p : prog A) (f : A -> prog B) :
  panicFree p -> (forall a, panicFree (f a)) -> panicFree (prog_bind f p).
Proof. induction p as [a|e| |C q k IH]; simpl; auto. Qed.
Lemma free_wrap {A} msg (p : prog A) : panicFree p -> panicFree (wrap msg p).
Proof. induction p as [a|e| |C q k IH]; simpl; auto. Qed.
Lemma free_attempt {A} (p : prog A) : panicFree p -> panicFree (attempt p).
Proof. induction p as [a|e| |C q k IH]; simpl; auto. Qed.
Lemma free_read {B} (r : kread B) : panicFree (read r).
Proof. by intros []. Qed.

#[local] Arguments panicFree : simpl never.
#[local] Arguments returns : simpl never.

Ltac free_step :=
  lazymatch goal with
  | |- panicFree (mbind _ _) => apply free_bind; [|intros ?]
  | |- panicFree (wrap _ _) => apply free_wrap
  | |- panicFree (attempt _) => apply free_attempt
  | |- panicFree (read _) => apply free_read
  | |- panicFree (Ret _) => exact I
  | |- panicFree (Fail _) => exact I
  | |- panicFree (if ?b then _ else _) => destruct b
  | |- panicFree (match ?x with _ => _ end) => destruct x
  end; cbv beta zeta.

Lemma free_backoff name fn n : panicFree fn -> panicFree (DoWithBackoff name fn n).
Proof.
  intros Hfn. unfold DoWithBackoff. apply free_bind; [|by intros []].
  generalize (@None err) as last. induction n as [|n IH]; intros last; cbn [backoffLoop]; repeat free_step; auto.
Qed.

Section Typed.
Context {US : Unstructured} {KM : KubeMessages} {KT : KafkaTls} {DK : DecodeKafka} {DKC : DecodeKafkaConf}.

Definition ofType (t : string) (c : MilvusCondition) : Prop := mc_Type c = t.

Lemma dial_typed t addrs : returns (ofType t) (TCPDial_GetCondition t addrs).
Proof.
  induction addrs as [|a addrs IH]; cbn [TCPDial_GetCondition]; [done|].
  eapply returns_bind; [apply returns_attempt, free_read|]. by intros [e|u] _.
Qed.

Lemma pulsar_typed eps : returns (ofType MsgStreamReady) (Pulsar_GetCondition eps).
Proof.
  assert (forall eps msgs, returns (ofType MsgStreamReady) (dialAny eps msgs)) as Hany; [|by destruct eps; [|apply Hany]].
  clear eps. induction eps as [|ep eps IH]; intros msgs; cbn [dialAny]; [done|].
  eapply returns_bind; [apply returns_attempt, free_read|]. intros [e|u] _; [apply IH|done].
Qed.

Lemma etcd_typed sc auth eps : returns (ofType EtcdReady) (GetEtcdCondition sc auth eps).
Proof.
  apply returns_of_exec. intros tr o Hex. unfold GetEtcdCondition, GetEndpointsHealth in Hex.
  apply exec_bind in Hex as (t1 & o1 & t2 & -> & Hex & H2).
  apply exec_bind in Hex as (t3 & o3 & t4 & -> & Hex & H4).
  destruct (endpoints_spec _ _ _ _ _ Hex) as (hs & trs & -> & _). destruct H4 as [-> ->].
  destruct (sumHealth _ eps) as [[] msg]; destruct H2 as [-> ->]; by eexists.
Qed.

Lemma storage_typed info : returns (ofType StorageReady) (GetMinioCondition info).
Proof.
  unfold GetMinioCondition. eapply returns_bind with (V := fun x => match x with inl c => ofType StorageReady c | inr _ => True end).
  { apply returns_of_exec. intros tr o Hex. unfold storageCredentials in Hex. exec_cases Hex; eexists; (split; [done|]); [done|by destruct (IsNotFound _)|].
    by destruct (storageSecretKeys _) as [[ak|] [sk|]]. }
  intros [c|[ak sk]] Hx; [exact Hx|]. cbv zeta.
  eapply returns_bind with (V := fun x => match x with inl c => ofType StorageReady c | inr _ => True end).
  { apply returns_of_exec. intros tr o Hex. destruct (storageTls_spec (fun _ _ => ∅) _ _ _ Hex) as (_ & _ & x & -> & Hx').
    exists x. split; [done|]. destruct x; [apply Hx'|done]. }
  intros [c|[ca insecure]] Hy; [exact Hy|].
  eapply returns_bind; [apply returns_attempt, free_backoff|].
  - unfold checkMinioOnce, customTransport, isHealthyByServerInfo. cbv zeta. repeat free_step.
  - by intros [e|u] _.
Qed.

Lemma kafka_free conf : ck_SecretReader conf = Some kafkaSecretReader -> panicFree (CheckKafka conf).
Proof.
  intros Hr. assert (forall ref ns, panicFree (getFromSecret conf ref ns)) as Hget.
  { intros ref ns. unfold getFromSecret. rewrite Hr. unfold kafkaSecretReader. cbv zeta. repeat free_step. }
  unfold CheckKafka. free_step; [exact I|]. free_step.
  - unfold GetKafkaDialer, kafkaRootCAs, clientCertificate, kafkaMechanism, credential, scram, normalizePrivateKeyPEM, rewrapped.
    cbv zeta. repeat first [free_step | apply Hget].
  - apply free_backoff. generalize (@nil err). induction (s :: l) as [|b brokers IH]; intros errs; cbn [checkBrokers]; [exact I|].
    unfold checkKafkaBroker. repeat free_step. apply IH.
Qed.

(** Every call of a probe is a read. *)
Definition isRead (B : Type) (q : kreq B) : Prop := match q with Read _ => True | Write _ => False end.

Lemma reads_writes tr : Forall (fun ev => match ev with Ev q _ => isRead _ q end) tr -> writes tr = [].
Proof. induction 1 as [|[B q x] tr Hq _ IH]; [done|]. by destruct q. Qed.

Lemma checkBrokers_reads d brokers : forall errs, calls isRead (checkBrokers d brokers errs).
Proof.
  induction brokers as [|b brokers IH]; intros errs; cbn [checkBrokers]; unfold checkKafkaBroker; calls_steps; auto; done.
Qed.

Lemma kafka_reads conf : ck_SecretReader conf = Some kafkaSecretReader -> calls isRead (GetKafkaCondition conf).
Proof.
  intros Hr. assert (forall ref ns, calls isRead (getFromSecret conf ref ns)) as Hget.
  { intros ref ns. unfold getFromSecret. rewrite Hr. unfold kafkaSecretReader. cbv zeta. by calls_steps. }
  unfold GetKafkaCondition, CheckKafka. calls_steps.
  - unfold GetKafkaDialer, kafkaRootCAs, clientCertificate, kafkaMechanism, credential, scram. cbv zeta.
    repeat first [calls_step | apply Hget | apply normalize_calls].
  - apply DoWithBackoff_calls, checkBrokers_reads.
Qed.

Lemma calls_bind_returns {A B} P (V : A -> Prop) (p : prog A) (f : A -> prog B) :
  calls P p -> returns V p -> (forall a, V a -> calls P (f a)) -> calls P (prog_bind f p).
Proof.
  induction p as [a|e| |C q k IH]; intros Hc Hr Hf; [by apply Hf|exact I|exact I|].
  destruct Hc as [Hq Hk]. split; [done|]. intros x. by apply IH.
Qed.

Lemma dial_reads t addrs : calls isRead (TCPDial_GetCondition t addrs).
Proof. induction addrs; cbn [TCPDial_GetCondition]; by calls_steps. Qed.
Lemma dialAny_reads eps : forall msgs, calls isRead (dialAny eps msgs).
Proof. induction eps; intros msgs; cbn [dialAny]; calls_steps; auto; done. Qed.

(** The probe of the message stream is typed, and it reads. *)
Lemma plan_typed mc :
  returns (fun plan => returns (ofType MsgStreamReady) (runPlan plan) /\ calls isRead (runPlan plan))
    (GetMsgStreamCondition mc).
Proof.
  unfold GetMsgStreamCondition. cbv zeta. destruct (dep_MsgStreamType (spec_Dep (mi_Spec mc))); try by split.
  - split; [apply pulsar_typed|]. cbn. unfold Pulsar_GetCondition. destruct (merge_sort _ _); [exact I|apply dialAny_reads].
  - eapply returns_bind; [apply returns_attempt|].
    + unfold kafkaConfOf, GetKafkaConfFromCR, external_GetKafkaConfFromCR, getKafkaSecret. cbv zeta. repeat free_step.
    + intros [e|conf] _; [by split|]. split; [|by apply kafka_reads]. unfold runPlan, GetKafkaCondition.
      eapply returns_bind; [by apply returns_attempt, kafka_free|]. by intros [e|u] _.
  - destruct (negb _); [by split|]. split; [apply dial_typed|apply dial_reads].
Qed.

Lemma plan_reads mc : calls isRead (GetMsgStreamCondition mc).
Proof.
  unfold GetMsgStreamCondition. cbv zeta. destruct (dep_MsgStreamType (spec_Dep (mi_Spec mc))); try exact I.
  unfold kafkaConfOf, GetKafkaConfFromCR, external_GetKafkaConfFromCR, getKafkaSecret. cbv zeta. by calls_steps.
Qed.

Lemma getter_reads sc mc :
  calls isRead (runPlan (syncer_GetEtcdCondition sc mc)) /\ calls isRead (runPlan (syncer_GetMinioCondition mc)).
Proof.
  split.
  - unfold runPlan, syncer_GetEtcdCondition, wrapEtcdConditionGetter. cbv zeta. destruct (GetBoolValue _ _); [apply dial_reads|].
    unfold GetEtcdCondition, GetEndpointsHealth. repeat first [apply calls_par | calls_step].
    apply Forall_fmap, Forall_true. intros ep. unfold compose, endpointHealth. calls_steps.
    apply DoWithBackoff_calls. unfold checkEtcd. by calls_steps.
  - unfold runPlan, syncer_GetMinioCondition, GetMinioCondition, storageCredentials, storageTls, CheckMinIO. cbv zeta.
    repeat first [apply DoWithBackoff_calls | calls_step]; try done.
    unfold checkMinioOnce, customTransport, isHealthyByServerInfo. cbv zeta. by calls_steps.
Qed.

(** C26. The condition of a dependency is a condition of that dependency: whatever the
    cluster and the dependencies answer, the probe of each of the three condition
    types writes nothing, neither fails nor panics, and ends in a condition of
    just that type. *)
Theorem probe_typed sc t mc tr o :
  t ∈ dependencyConditionTypes -> exec (probeOf sc t mc) tr o ->
  writes tr = [] /\ exists c, o = ORet c /\ mc_Type c = t.
Proof.
  intros Ht Hex. split.
  { apply reads_writes. eapply calls_exec; [|exact Hex]. unfold probeOf. destruct (getter_reads sc mc) as [He Hs].
    destruct (bool_decide (t = EtcdReady)); [done|]. destruct (bool_decide (t = StorageReady)); [done|].
    eapply calls_bind_returns; [apply plan_reads|apply plan_typed|]. by intros plan [_ ?]. }
  refine (returns_exec (ofType t) _ _ _ _ Hex). unfold probeOf.
  unfold dependencyConditionTypes in Ht. rewrite !elem_of_cons in Ht.
  destruct Ht as [->|[->|[->|[]%elem_of_nil]]]; simpl.
  - unfold wrapEtcdConditionGetter. cbv zeta. destruct (GetBoolValue _ _); [apply dial_typed|apply etcd_typed].
  - apply storage_typed.
  - eapply returns_bind; [apply plan_typed|]. by intros plan [? _].
Qed.
End Typed.

(** ** Concrete probes *)
Definition exUnstructured : Unstructured := concreteUnstructured.
Definition exTexts : KubeMessages := {| kerr_Error := fun _ => "refused" |}.
Definition exTls : KafkaTls := {|
  AppendCertsFromPEM := fun s => negb (bool_decide (s = ""));
  pem_Decode := fun s => Some (mkPemBlock "PRIVATE KEY" ∅ s);
  pem_EncodeToMemory := fun _ s => s;
  privateKey := string;
  ParseEncryptedPKCS8 := fun s _ => inr s;
  MarshalPKCS8 := fun k => inr k;
  ParsePKCS8 := fun s => Some s;
  isKnownKey := fun _ => true;
  keyTypeName := fun _ => "key";
  ParsePKCS1 := fun _ => None;
  ParseEC := fun _ => None;
  X509KeyPair := fun _ _ => None;
  ScramError := fun _ _ => None
|}.
#[local] Existing Instances exUnstructured exTexts exTls.

(** One etcd endpoint and one broker are down; a bucket is there. *)
Definition exAnswers (B : Type) (r : kread B) : kerr + B :=
  match r in kread B' return kerr + B' with
  | EtcdNewClient _ => inr tt
  | EtcdGetKey _ _ => inl KPermissionDenied
  | EtcdAlarmList cfg => if bool_decide (ec_Endpoint cfg = "etcd-0:2379") then inr [] else inl (KOther "timeout")
  | KafkaDial _ b => if bool_decide (b = "kafka-1:9092") then inr tt else inl (KOther "timeout")
  | KafkaSetDeadline _ _ => inr tt
  | KafkaApiVersions _ _ => inr tt
  | MinioNew _ => inr tt
  | MinioBucketLocation _ _ => inr "us-east-1"
  | GetSecret _ name =>
      inr (if bool_decide (name = "kafka") then {["user" := "u"; "password" := "p"]}
           else {["accesskey" := "ak"; "secretkey" := "sk"]})
  | _ => inl KNotFound
  end.

Definition exNet : handler unit := mkHandler (S:=unit) (fun B r _ => exAnswers B r) (fun _ s => (inl KNotFound, s)).
Definition exTrace {A} (p : prog A) : list event := snd (fst (run exNet p tt)).
Definition exEnd {A} (p : prog A) : outcome A := snd (run exNet p tt).

Definition exSecrets (ns name : string) : gmap string string :=
  if bool_decide (name = "kafka") then {["user" := "u"; "password" := "p"]} else {["accesskey" := "ak"; "secretkey" := "sk"]}.

Lemma exTrace_ok {A} (p : prog A) : Forall (event_ok (secretsAnswer exSecrets)) (exTrace p).
Proof. apply run_event_ok. intros B r s b Hb. destruct r; simpl in *; by simplify_eq. Qed.

Definition exSc : schedule := mkSchedule [[false; true; false]] [1; 0].

Lemma etcd_ready_exact_witness :
  let p := GetEtcdCondition exSc (mkEtcdAuth true "root" "pw") ["etcd-0:2379"; "etcd-1:2379"] in
  exists c, exec p (exTrace p) (ORet c) /\ mc_Status c = ConditionTrue /\
    exists ep, ep ∈ ["etcd-0:2379"; "etcd-1:2379"] /\
      Exists (noAlarm (etcdClientConfig (mkEtcdAuth true "root" "pw") ep)) (exTrace p).
Proof.
  intros p. pose proof (run_exec exNet p tt) as Hex.
  destruct (etcd_ready_exact exSc (mkEtcdAuth true "root" "pw") ["etcd-0:2379"; "etcd-1:2379"] _ _
              ltac:(apply (bool_decide_unpack _); vm_compute; exact I) ltac:(apply perm_swap) Hex) as (c & Ho & _ & _ & Hiff).
  exists c. rewrite <- Ho. split; [exact Hex|].
  assert (mc_Status c = ConditionTrue) as Hs.
  { apply (f_equal (fun o => match o with ORet c => mc_Status c | _ => ConditionUnset end)) in Ho. rewrite <- Ho.
    vm_compute. reflexivity. }
  split; [exact Hs|]. by apply Hiff.
Defined.

Definition exKafkaConf : CheckKafkaConfig :=
  mkCheckKafka (Some kafkaSecretReader) "" "ns" ["kafka-0:9092"; "kafka-1:9092"] "sasl_plaintext" "SCRAM-SHA-512" "literal" ""
    (Some (mkRef "kafka" "user" "")) (Some (mkRef "kafka" "password" "ns")) (mkSSLConfig None None None None).

Lemma kafka_ready_exact_witness :
  let p := CheckKafka exKafkaConf in
  exec p (exTrace p) (ORet tt) /\ Exists brokerAnswered (exTrace p) /\
  Forall (fun ev => match ev with Ev q _ => kafkaCall exSecrets exKafkaConf _ q end) (exTrace p).
Proof.
  intros p. assert (exEnd p = ORet tt) as Ho by (vm_compute; reflexivity).
  assert (exec p (exTrace p) (ORet tt)) as Hex by (rewrite <- Ho; apply run_exec).
  destruct (kafka_ready_exact exSecrets exKafkaConf _ _ eq_refl Hex (exTrace_ok p)) as (_ & Hiff & Hc).
  split; [exact Hex|]. split; [by apply Hiff|exact Hc].
Defined.

Definition exStorage : StorageConditionInfo :=
  mkStorageInfo "ns" "bucket" (mkStorage "S3" "storage" "s3:443" None true None) true false "" "" false.

Lemma storage_ready_exact_witness :
  let p := GetMinioCondition exStorage in
  exists c, exec p (exTrace p) (ORet c) /\ mc_Status c = ConditionTrue /\ Exists storageAnswered (exTrace p) /\
    Forall (fun ev => match ev with Ev q _ => storageCall exSecrets exStorage _ q end) (exTrace p).
Proof.
  intros p. assert (exec p (exTrace p) (exEnd p)) as Hex by apply run_exec.
  destruct (storage_ready_exact exSecrets exStorage _ _ ltac:(discriminate) Hex (exTrace_ok p)) as (c & Ho & _ & Hiff & Hc).
  exists c. rewrite <- Ho. split; [exact Hex|].
  assert (mc_Status c = ConditionTrue) as Hs.
  { apply (f_equal (fun o => match o with ORet c => mc_Status c | _ => ConditionUnset end)) in Ho. rewrite <- Ho.
    vm_compute. reflexivity. }
  split; [exact Hs|]. split; [by apply Hiff|exact Hc].
Defined.

Definition exDecode : DecodeKafka := {| DecodeKafkaRefs := fun _ => (noRefs, true) |}.
Definition exDecodeConf : DecodeKafkaConf := {|
  DecodeCheckKafka := fun _ ns => inr (mkCheckKafka None "" ns [] "" "" "" "" None None (mkSSLConfig None None None None)) |}.
#[local] Existing Instances exDecode exDecodeConf.

(** An instance on Pulsar, none of whose brokers answers. *)
Lemma probe_typed_witness :
  let p := probeOf exSc MsgStreamReady (exMilvus 1) in
  exists c, exec p (exTrace p) (ORet c) /\ writes (exTrace p) = [] /\ mc_Type c = MsgStreamReady.
Proof.
  intros p. assert (exec p (exTrace p) (exEnd p)) as Hex by apply run_exec.
  destruct (probe_typed exSc MsgStreamReady (exMilvus 1) _ _
              ltac:(apply (bool_decide_unpack _); vm_compute; exact I) Hex) as (Hw & c & Ho & Hc).
  exists c. rewrite <- Ho. by repeat split.
Defined.

(** ** Sharing of conditions *)

Definition planEndpoints (plan : probePlan) : list string :=
  match plan with Known _ => [] | ProbeEndpoints _ eps => eps end.

(** Two instances on the same storage endpoint, with buckets of their own. *)
Definition exBucket (bucket : string) : Milvus :=
  let spec := exSpec 1 in
  mkMilvus (exMeta ∅ ∅)
    (mkSpec (spec_Mode spec) (spec_Com spec) (spec_Dep spec) (Some [("minio", JObj [("bucketName", JStr bucket)])])
       (spec_HookConf spec)) exStatus.
Definition exStorageUp : MilvusCondition := newCondition StorageReady ConditionTrue "StorageReady" "".
Definition exShared : list move :=
  let eps := planEndpoints (syncer_GetMinioCondition (exBucket "a")) in
  [Start eps; Start eps] ++ replicate 4 (EndpointCache.Run 0 None) ++
  [EndpointCache.Run 0 (Some exStorageUp); EndpointCache.Run 0 None] ++ replicate 3 (EndpointCache.Run 1 None).

(** The condition of one instance is reported for another: the cache knows a
    condition by its endpoints only, so while the storage of one instance is
    probed another one with the same storage endpoint takes its condition,
    although it asks for another bucket, which nobody has probed. *)
Theorem storage_condition_shared : exists (s : system (gmap string cacheItem)) c d,
  reachable s /\ sys_calls s = [c; d] /\
  GetMinioBucket (spec_Conf (mi_Spec (exBucket "a"))) <> GetMinioBucket (spec_Conf (mi_Spec (exBucket "b"))) /\
  gc_eps c = planEndpoints (syncer_GetMinioCondition (exBucket "a")) /\
  gc_eps d = planEndpoints (syncer_GetMinioCondition (exBucket "b")) /\
  sys_log s = [(callKey c, exStorageUp)] /\ gc_pc d = Returned exStorageUp.
Proof.
  exists (sysAfter exShared).
  eexists (mkGcCall _ _), (mkGcCall _ _).
  split; [apply sysAfter_reachable|]. split; [vm_compute; reflexivity|]. split; [by vm_compute|].
  by repeat split.
Qed.
