(* ===== verification/StatusSync.v ===== *)
(** * The periodic update of all statuses

    pkg/controllers/status_cluster.go and metrics.go: two loops list all Milvus
    resources again and again and update the status of those that are healthy
    and updated, and of the others, in batches of goroutines.  The intervals and
    the logging of an error ([LoopWithInterval]) are left out.

    The theorems: a resource that has a status and is not deleted is visited by
    exactly one of the loops; every visited resource gets its update, in a batch
    of bounded size, whatever happens to the others. *)
From S2P Require Import Prelude KubeTypes Libs ApiTypes Values Labels Effects Utils Components Group.
From S2P Require Import Webhook Status Defaults Examples.

Local Open Scope string_scope.
Local Open Scope list_scope.
Local Open Scope Z_scope.

Definition IsSetDefaultDone (mc : Milvus) : bool := negb (bool_decide (st_Status (mi_Status mc) = StatusUnset)).

(** [config.MaxConcurrentHealthCheck], a flag with this default. *)
Definition defaultMaxConcurrentHealthCheck : Z := 10.

Section StatusSync.
Context {SV : Semver} {US : Unstructured} {KL : KubeLib} {KM : KubeMessages} {PR : Process}.
Context (provider : gmap string (list (string * json))) (Version : string).

Definition UpdateStatusRoutine (mc : Milvus) : prog unit :=
  if negb (IsSetDefaultDone mc) then Ret tt
  else if st_ObservedGeneration (mi_Status mc) <? om_Generation (mi_Meta mc) then Ret tt
  else
    defaulted ← deref (Default provider Version mc);
    wrap ("UpdateStatus for milvus[" +:+ mi_Namespace mc +:+ "/" +:+ mi_Name mc +:+ "]")
      (_ ← UpdateStatusForNewGeneration IsDebug defaulted true; Ret tt).

(** The loop of a listing: the [k]-th batch is run along [batches k]; a failed
    batch does not end the loop, the last error is kept. *)
Fixpoint syncLoop (batches : nat -> schedule) (max : Z) (k : nat) (skip : Milvus -> bool) (items args : list Milvus)
    (ret : option err) : prog (option err) :=
  match items with
  | [] =>
      r ← attempt (RunDiffArgs (batches k) UpdateStatusRoutine args);
      Ret (match r with inl e => Some e | inr _ => ret end)
  | mc :: rest =>
      if skip mc then syncLoop batches max k skip rest args ret
      else
        let args := args ++ [mc] in
        if max <=? Z.of_nat (length args) then
          r ← attempt (RunDiffArgs (batches k) UpdateStatusRoutine args);
          syncLoop batches max (S k) skip rest [] (match r with inl e => Some e | inr _ => ret end)
        else syncLoop batches max k skip rest args ret
  end.

Definition syncAll (batches : nat -> schedule) (max : Z) (skip : Milvus -> bool) : prog unit :=
  items ← wrap "list milvus failed" (read (ListMilvuses ""));
  ret ← syncLoop batches max 0 skip items [] None;
  match ret with
  | Some e => Fail (EWrap "UpdateStatus failed" e)
  | None => Ret tt
  end.

Definition isDeleted (mc : Milvus) : bool := bool_decide (is_Some (om_DeletionTimestamp (mi_Meta mc))).
Definition isHealthyUpdated (mc : Milvus) : bool :=
  bool_decide (st_Status (mi_Status mc) = StatusHealthy)
  && IsMilvusConditionTrueByType (st_Conditions (mi_Status mc)) MilvusUpdated.

Definition skipUnhealthy (mc : Milvus) : bool :=
  bool_decide (st_Status (mi_Status mc) = StatusUnset) || isHealthyUpdated mc || isDeleted mc.
Definition skipHealthy (mc : Milvus) : bool := isDeleted mc || negb (isHealthyUpdated mc).

Definition syncUnealthyOrUpdating (batches : nat -> schedule) (max : Z) : prog unit :=
  syncAll batches max skipUnhealthy.
Definition syncHealthyUpdated (batches : nat -> schedule) (max : Z) : prog unit := syncAll batches max skipHealthy.
End StatusSync.

(** ** Metrics *)

(** The gauge of all resources by status. *)
Record statusCounts := mkCounts { healthyCount : Z; unhealthyCount : Z; deletingCount : Z; creatingCount : Z }.

Definition countStatus (c : statusCounts) (mc : Milvus) : statusCounts :=
  match st_Status (mi_Status mc) with
  | StatusHealthy => mkCounts (healthyCount c + 1) (unhealthyCount c) (deletingCount c) (creatingCount c)
  | StatusUnhealthy => mkCounts (healthyCount c) (unhealthyCount c + 1) (deletingCount c) (creatingCount c)
  | StatusDeleting => mkCounts (healthyCount c) (unhealthyCount c) (deletingCount c + 1) (creatingCount c)
  | _ => mkCounts (healthyCount c) (unhealthyCount c) (deletingCount c) (creatingCount c + 1)
  end.

Definition updateMetrics : prog statusCounts :=
  items ← wrap "list milvus failed" (read (ListMilvuses ""));
  Ret (fold_left countStatus items (mkCounts 0 0 0 0)).

Definition MilvusStatusToCode (status : MilvusHealthStatus) (isMaintaining : bool) : Z :=
  if isMaintaining then 5
  else match status with
       | StatusHealthy => 1
       | StatusUnhealthy => 2
       | StatusDeleting => 3
       | StatusStopped => 4
       | _ => 0
       end.

(** ** Properties *)
Section StatusSyncProofs.
Context {SV : Semver} {US : Unstructured} {KL : KubeLib} {KM : KubeMessages} {PR : Process}.
Context (provider : gmap string (list (string * json))) (Version : string).
Context (batches : nat -> schedule) (max : Z).

(** How many updates may run at once: a batch is run when it is full, and it is
    never run empty. *)
Definition batchSize : nat := Z.to_nat (Z.max 1 max).

(** The update of one resource: its calls and its outcome. *)
Record visit := mkVisit { v_mc : Milvus; v_trace : list event; v_end : outcome unit }.

Definition visited (v : visit) : Prop := exec (UpdateStatusRoutine provider Version (v_mc v)) (v_trace v) (v_end v).

(** A batch whose updates are interleaved in [tr]. *)
Definition batchRun (b : list visit) (tr : list event) : Prop :=
  (length b <= batchSize)%nat /\ Forall visited b /\ shuffle (v_trace <$> b) tr.

Definition allOk (bs : list (list visit)) : Prop := Forall (fun v => v_end v = ORet tt) (concat bs).

(** The first call of [tr] listed [items]. *)
Definition listed (items : list Milvus) (tr : list event) : Prop :=
  match tr with
  | Ev q x :: _ =>
      match q in kreq B return kerr + B -> Prop with
      | Read r =>
          match r in kread B return kerr + B -> Prop with
          | ListMilvuses _ => fun x => x = inr items
          | _ => fun _ => False
          end
      | Write _ => fun _ => False
      end x
  | [] => False
  end.

Hypothesis debugOff : IsDebug = false.
Hypothesis orders : forall k, sc_order (batches k) ≡ₚ seq 0 batchSize.

Lemma visits_of args : forall trs os, length trs = length args -> length os = length args ->
  exists b, v_mc <$> b = args /\ v_trace <$> b = trs /\ v_end <$> b = os.
Proof.
  induction args as [|mc args IH]; intros [|t trs] [|x os] Ht Ho; try done; [by exists []|].
  destruct (IH trs os) as (b & <- & <- & <-); [simpl in *; lia..|]. by exists (mkVisit mc t x :: b).
Qed.

Lemma batch_spec k args tr o :
  (length args <= batchSize)%nat ->
  exec (attempt (RunDiffArgs (batches k) (UpdateStatusRoutine provider Version) args)) tr o ->
  exists b r, o = ORet r /\ v_mc <$> b = args /\ batchRun b tr /\
    (r = inr tt <-> Forall (fun v => v_end v = ORet tt) b).
Proof.
  intros Hlen Hex. apply exec_attempt in Hex as (o' & Hex & ->). unfold RunDiffArgs in Hex.
  assert (length (UpdateStatusRoutine provider Version <$> args) <= batchSize)%nat as Hl by (by rewrite length_fmap).
  destruct (runAll_spec _ _ _ batchSize _ _ debugOff Hl (orders k) Hex)
    as (trs & os & Hlt & Hlo & Hsh & Hall & Hend & Hok & _). rewrite length_fmap in Hlt, Hlo.
  destruct (visits_of args trs os Hlt Hlo) as (b & Hb1 & Hb2 & Hb3).
  assert (batchRun b tr) as Hrun.
  { split; [by rewrite <- Hb1, length_fmap in Hlen|]. split; [|by rewrite Hb2].
    apply Forall_lookup. intros i v Hv. unfold visited.
    destruct (Hall i (UpdateStatusRoutine provider Version (v_mc v))) as (t & x & Ht & Hx & He).
    { by rewrite <- Hb1, !list_lookup_fmap, Hv. }
    rewrite <- Hb2, list_lookup_fmap, Hv in Ht. rewrite <- Hb3, list_lookup_fmap, Hv in Hx. by simplify_eq/=. }
  assert (o' = ORet tt <-> Forall (fun v => v_end v = ORet tt) b) as Hiff.
  { rewrite Hok, <- Hb3. setoid_rewrite list_elem_of_fmap. rewrite Forall_forall. naive_solver. }
  exists b. destruct Hend as [->|[e ->]]; eexists; (split; [done|]); (split; [done|]); (split; [done|]);
    rewrite <- Hiff; naive_solver.
Qed.

(** The loop, started with a batch that is not full. *)
Lemma syncLoop_spec skip items : forall k args ret tr o,
  (length args < batchSize)%nat ->
  exec (syncLoop provider Version batches max k skip items args ret) tr o ->
  exists bs trs r, o = ORet r /\ v_mc <$> concat bs = args ++ filter (fun mc => skip mc = false) items /\
    Forall2 batchRun bs trs /\ tr = concat trs /\ (r = None <-> ret = None /\ allOk bs).
Proof.
  induction items as [|mc items IH]; intros k args ret tr o Hlen Hex; cbn [syncLoop] in Hex.
  { apply exec_bind in Hex as (t1 & o1 & t2 & -> & H1 & H2).
    destruct (batch_spec _ _ _ _ (Nat.lt_le_incl _ _ Hlen) H1) as (b & r & -> & Hb & Hrun & Hr). destruct H2 as [-> ->].
    exists [b], [t1]. eexists. split; [done|]. simpl. rewrite !app_nil_r. split; [done|]. split; [constructor; [done|constructor]|].
    split; [done|]. unfold allOk. simpl. rewrite app_nil_r, <- Hr. destruct r as [e|[]]; naive_solver. }
  rewrite filter_cons. destruct (skip mc) eqn:Es.
  { rewrite decide_False by done. by apply IH in Hex. }
  rewrite decide_True by done. cbv zeta in Hex.
  destruct (max <=? Z.of_nat (length (args ++ [mc]))) eqn:Em.
  - apply exec_bind in Hex as (t1 & o1 & t2 & -> & H1 & H2).
    assert (length (args ++ [mc]) <= batchSize)%nat as Hl by (rewrite length_app; simpl; lia).
    destruct (batch_spec _ _ _ _ Hl H1) as (b & r & -> & Hb & Hrun & Hr).
    apply IH in H2; [|unfold batchSize; simpl; lia]. destruct H2 as (bs & trs & r' & -> & Hbs & Hruns & -> & Hr').
    exists (b :: bs), (t1 :: trs), r'. split; [done|]. simpl. rewrite fmap_app, Hb, Hbs, <- app_assoc. split; [done|].
    split; [by constructor|]. split; [done|]. rewrite Hr'. unfold allOk. simpl. rewrite Forall_app, <- Hr.
    destruct r as [e|[]]; naive_solver.
  - apply IH in Hex as (bs & trs & r & -> & Hbs & Hrest).
    + exists bs, trs, r. by rewrite Hbs, <- app_assoc.
    + apply Z.leb_gt in Em. unfold batchSize. rewrite length_app in *. simpl in *. lia.
Qed.

Lemma syncAll_spec skip items tr o :
  exec (syncAll provider Version batches max skip) tr o -> listed items tr ->
  exists bs trs, tail tr = concat trs /\ Forall2 batchRun bs trs /\
    v_mc <$> concat bs = filter (fun mc => skip mc = false) items /\ (o = ORet tt <-> allOk bs).
Proof.
  intros Hex Hhd. unfold syncAll in Hex. destruct Hex as (x & tr' & -> & Hex). simpl in Hhd. subst x. cbn in Hex |- *.
  apply exec_bind in Hex as (t1 & o1 & t2 & -> & H1 & H2).
  apply syncLoop_spec in H1 as (bs & trs & r & -> & Hbs & Hruns & -> & Hr); [|unfold batchSize; simpl; lia].
  exists bs, trs. destruct r as [e|]; destruct H2 as [-> ->]; rewrite app_nil_r; (split; [done|]); (split; [done|]);
    (split; [done|]); naive_solver.
Qed.

(** The loops share the resources out. *)
Lemma loops_partition items :
  filter (fun mc => skipUnhealthy mc = false) items ++ filter (fun mc => skipHealthy mc = false) items
  ≡ₚ filter (fun mc => IsSetDefaultDone mc = true /\ isDeleted mc = false) items.
Proof.
  induction items as [|mc items IH]; [done|]. rewrite !filter_cons.
  unfold skipUnhealthy, skipHealthy, IsSetDefaultDone in *.
  assert (isHealthyUpdated mc = true -> bool_decide (st_Status (mi_Status mc) = StatusUnset) = false) as Hh.
  { intros [Hs _]%andb_true_iff. apply bool_decide_eq_true in Hs. by rewrite Hs. }
  destruct (bool_decide (st_Status (mi_Status mc) = StatusUnset)), (isHealthyUpdated mc), (isDeleted mc); simpl;
    try (by specialize (Hh eq_refl)); repeat (rewrite decide_True by done || rewrite decide_False by naive_solver); try done.
  all: simpl; rewrite <- IH; try done. by rewrite Permutation_middle.
Qed.

(** C11. Every status is kept up to date: when both loops get the same listing, the
    resources that are updated are exactly those that have a status and are not
    deleted, each once; each update runs to its own end, whatever happens to the
    others, in a batch of bounded size; and a loop reports success exactly when
    all of its updates succeeded. *)
Theorem every_status_updated items tr o tr' o' :
  exec (syncUnealthyOrUpdating provider Version batches max) tr o ->
  exec (syncHealthyUpdated provider Version batches max) tr' o' ->
  listed items tr ->
  listed items tr' ->
  exists bs trs bs' trs',
    tail tr = concat trs /\ tail tr' = concat trs' /\ Forall2 batchRun bs trs /\ Forall2 batchRun bs' trs' /\
    (o = ORet tt <-> allOk bs) /\ (o' = ORet tt <-> allOk bs') /\
    v_mc <$> (concat bs ++ concat bs') ≡ₚ filter (fun mc => IsSetDefaultDone mc = true /\ isDeleted mc = false) items.
Proof.
  intros Hex Hex' Hhd Hhd'. destruct (syncAll_spec _ _ _ _ Hex Hhd) as (bs & trs & H1 & H2 & H3 & H4).
  destruct (syncAll_spec _ _ _ _ Hex' Hhd') as (bs' & trs' & H1' & H2' & H3' & H4').
  exists bs, trs, bs', trs'. repeat (split; [done|]). rewrite fmap_app, H3, H3'. apply loops_partition.
Qed.
End StatusSyncProofs.

(** The gauge counts every resource once. *)
Lemma counts_total items : forall c,
  let r := fold_left countStatus items c in
  (healthyCount r + unhealthyCount r + deletingCount r + creatingCount r
   = healthyCount c + unhealthyCount c + deletingCount c + creatingCount c + Z.of_nat (length items))%Z.
Proof.
  induction items as [|mc items IH]; intros c; cbn [fold_left length]; [simpl; lia|].
  specialize (IH (countStatus c mc)). simpl in IH |- *. rewrite IH. unfold countStatus. case_match; simpl; lia.
Qed.

(** ** Two resources, one of them healthy, and an API server that only lists *)
Definition exSync : Process := {| IsDebug := false; recovered := "panic" |}.
Definition exSyncTexts : KubeMessages := {| kerr_Error := fun _ => "not found" |}.
#[local] Existing Instances exSync exSyncTexts concreteSemver concreteUnstructured concreteKubeLib.

Definition exWithStatus (st : MilvusHealthStatus) (conditions : list MilvusCondition) : Milvus :=
  let s := exStatus in
  mkMilvus (exMeta ∅ ∅) (exSpec 1)
    (mkStatus st conditions (st_Endpoint s) (st_IngressStatus s) (st_ComponentsDeployStatus s)
       (st_DeploymentGroupsDeployStatus s) (st_RollingMode s) (st_ObservedGeneration s) (st_CurrentImage s)
       (st_CurrentVersion s)).
Definition exListed : list Milvus :=
  [exWithStatus StatusHealthy [newCondition MilvusUpdated ConditionTrue "" ""]; exWithStatus StatusPending []].

Definition exSyncAnswers (B : Type) (r : kread B) : kerr + B :=
  match r in kread B' return kerr + B' with ListMilvuses _ => inr exListed | _ => inl KNotFound end.
Definition exSyncServer : handler unit :=
  mkHandler (S:=unit) (fun B r _ => exSyncAnswers B r) (fun _ s => (inl KNotFound, s)).
Definition exBatches (k : nat) : schedule := mkSchedule [] (seq 0 10).
Definition exSyncTrace (p : prog unit) : list event := snd (fst (run exSyncServer p tt)).

Lemma every_status_updated_witness : exists bs bs',
  Forall (visited ∅ "1.0.0") (concat bs ++ concat bs') /\ v_mc <$> (concat bs ++ concat bs') ≡ₚ exListed.
Proof.
  set (p := syncUnealthyOrUpdating ∅ "1.0.0" exBatches 10). set (p' := syncHealthyUpdated ∅ "1.0.0" exBatches 10).
  destruct (every_status_updated (PR := exSync) ∅ "1.0.0" exBatches 10 eq_refl (fun _ => reflexivity _) exListed (exSyncTrace p)
              (snd (run exSyncServer p tt)) (exSyncTrace p') (snd (run exSyncServer p' tt)))
    as (bs & trs & bs' & trs' & _ & _ & Hb & Hb' & _ & _ & Hperm).
  - apply run_exec.
  - apply run_exec.
  - vm_compute. reflexivity.
  - vm_compute. reflexivity.
  - exists bs, bs'. split; [|rewrite Hperm; vm_compute; reflexivity].
    apply Forall_app. split; apply Forall_concat.
    + clear -Hb. induction Hb as [|b t bs ts (_ & H & _) _ IH]; by constructor.
    + clear -Hb'. induction Hb' as [|b t bs ts (_ & H & _) _ IH]; by constructor.
Defined.
