(* ===== verification/DependencyProofs.v ===== *)
(** * Properties of the dependency charts

    Growing the claims of etcd replaces its stateful set.  A run that stops at
    any call leaves the stateful set in the cluster or a copy of it saved, and a
    run that ends without error leaves it in the cluster, with the requested
    size.

    The API server is a store of stateful sets and saved objects here: a read
    reports what the store has, every call can fail, a failed write changes
    nothing. *)
From S2P Require Import Prelude KubeTypes Libs ApiTypes Values Labels Effects Utils Components K8sUtil.
From S2P Require Import PodTemplate KafkaSecrets Render StatefulSets Defaults Webhook Dependencies.
From S2P Require Import Examples RenderProofs StatefulSetProofs DeployUtil.

Local Open Scope string_scope.
Local Open Scope list_scope.
Local Open Scope Z_scope.

(** ** A cluster of stateful sets *)

Record cluster := mkCluster {
  cl_sets : gmap (string * string) StatefulSet;
  cl_saved : gmap (string * string) savedData
}.

Definition sts_key (s : StatefulSet) : string * string := (om_Namespace (sts_Meta s), om_Name (sts_Meta s)).

Definition reports {A B} (stored : option A) (view : B -> A) (x : kerr + B) : Prop :=
  match x with
  | inr b => stored = Some (view b)
  | inl KNotFound => stored = None
  | inl _ => True
  end.

Definition read_reports {B} (c : cluster) (r : kread B) : kerr + B -> Prop :=
  match r in kread B' return kerr + B' -> Prop with
  | GetStatefulSet ns name => reports (cl_sets c !! (ns, name)) id
  | GetRevision ns name => reports (cl_saved c !! (ns, name)) cr_Data
  | _ => fun _ => True
  end.

Definition answers {B} (c : cluster) (q : kreq B) : kerr + B -> Prop :=
  match q in kreq B' return kerr + B' -> Prop with
  | Read r => read_reports c r
  | Write _ => fun _ => True
  end.

Definition applied (c : cluster) (w : kwrite) : cluster :=
  match w with
  | CreateStatefulSet s => mkCluster (<[sts_key s := s]> (cl_sets c)) (cl_saved c)
  | OrphanDeleteStatefulSet ns name => mkCluster (delete (ns, name) (cl_sets c)) (cl_saved c)
  | CreateRevision r =>
      mkCluster (cl_sets c) (<[(om_Namespace (cr_Meta r), om_Name (cr_Meta r)) := cr_Data r]> (cl_saved c))
  | DeleteRevision ns name => mkCluster (cl_sets c) (delete (ns, name) (cl_saved c))
  | _ => c
  end.

Definition next {B} (c : cluster) (q : kreq B) (x : kerr + B) : cluster :=
  match q, x with Write w, inr _ => applied c w | _, _ => c end.

(** [runs p c path o]: [p], started in [c], passes through the clusters [path]
    and ends in [o]. *)
Fixpoint runs {A} (p : prog A) (c : cluster) (path : list cluster) (o : outcome A) : Prop :=
  match p with
  | Ret a => path = [c] /\ o = ORet a
  | Fail e => path = [c] /\ o = OFail e
  | Panic => path = [c] /\ o = OPanic
  | Call q k => exists x path', path = c :: path' /\ answers c q x /\ runs (k x) (next c q x) path' o
  end.

Section Guarded.
Context (I : cluster -> Prop).

(** Every cluster [p] passes through satisfies [I], and the last one [Q]. *)
Fixpoint guarded {A} (p : prog A) (c : cluster) (Q : cluster -> outcome A -> Prop) : Prop :=
  match p with
  | Ret a => I c /\ Q c (ORet a)
  | Fail e => I c /\ Q c (OFail e)
  | Panic => I c /\ Q c OPanic
  | Call q k => I c /\ forall x, answers c q x -> guarded (k x) (next c q x) Q
  end.

Lemma guarded_runs {A} (p : prog A) Q : forall c path o,
  guarded p c Q -> runs p c path o -> Forall I path /\ exists c', last path = Some c' /\ Q c' o.
Proof.
  induction p as [a|e| |B q k IH]; intros c path o; simpl.
  1-3: intros [HI HQ] [-> ->]; split; [by repeat constructor|eauto].
  intros [HI Hk] (x & path' & -> & Hx & Hr). destruct (IH x _ path' o (Hk x Hx) Hr) as (Hp & c' & Hl & HQ).
  split; [by constructor|]. exists c'. split; [|done]. by rewrite last_cons, Hl.
Qed.

Lemma guarded_mono {A} (p : prog A) : forall c (Q Q' : cluster -> outcome A -> Prop),
  (forall c o, I c -> Q c o -> Q' c o) -> guarded p c Q -> guarded p c Q'.
Proof.
  induction p as [a|e| |B q k IH]; simpl; intros c Q Q' HQ; [intuition auto..|].
  intros [HI Hk]. split; [done|]. eauto.
Qed.

Lemma guarded_bind {A B} (p : prog A) (f : A -> prog B) : forall c Q,
  guarded p c (fun c' o => match o with
                           | ORet a => guarded (f a) c' Q
                           | OFail e => Q c' (OFail e)
                           | OPanic => Q c' OPanic
                           end) ->
  guarded (prog_bind f p) c Q.
Proof.
  induction p as [a|e| |C q k IH]; simpl; intros c Q; [intuition auto..|].
  intros [HI Hk]. split; [done|]. eauto.
Qed.

Lemma guarded_attempt {A} (p : prog A) : forall c Q,
  guarded p c (fun c' o => match o with
                           | ORet a => Q c' (ORet (inr a))
                           | OFail e => Q c' (ORet (inl e))
                           | OPanic => Q c' OPanic
                           end) ->
  guarded (attempt p) c Q.
Proof.
  induction p as [a|e| |C q k IH]; simpl; intros c Q; [intuition auto..|].
  intros [HI Hk]. split; [done|]. eauto.
Qed.

Lemma guarded_wrap {A} msg (p : prog A) : forall c Q,
  guarded p c (fun c' o => match o with OFail e => Q c' (OFail (EWrap msg e)) | _ => Q c' o end) ->
  guarded (wrap msg p) c Q.
Proof.
  induction p as [a|e| |C q k IH]; simpl; intros c Q; [intuition auto..|].
  intros [HI Hk]. split; [done|]. eauto.
Qed.

Lemma guarded_ret {A} (a : A) c (Q : cluster -> outcome A -> Prop) : I c -> Q c (ORet a) -> guarded (Ret a) c Q.
Proof. done. Qed.
Lemma guarded_fail {A} e c (Q : cluster -> outcome A -> Prop) : I c -> Q c (OFail e) -> guarded (Fail e) c Q.
Proof. done. Qed.

Lemma guarded_deref {A} (a : option A) c (Q : cluster -> outcome A -> Prop) :
  I c -> Q c OPanic -> (forall b, a = Some b -> Q c (ORet b)) -> guarded (deref a) c Q.
Proof. destruct a; simpl; auto. Qed.

Lemma guarded_read {B} (r : kread B) c (Q : cluster -> outcome B -> Prop) :
  I c -> (forall e, read_reports c r (inl e) -> Q c (OFail (EKube e))) ->
  (forall b, read_reports c r (inr b) -> Q c (ORet b)) -> guarded (read r) c Q.
Proof. intros HI He Hb. split; [done|]. intros [e|b] Hx; split; auto. Qed.

Lemma guarded_write w c (Q : cluster -> outcome unit -> Prop) :
  I c -> (forall e, Q c (OFail (EKube e))) -> I (applied c w) -> Q (applied c w) (ORet tt) ->
  guarded (write w) c Q.
Proof. intros HI He HI' HQ. split; [done|]. intros [e|[]] _; split; auto. Qed.

Lemma guarded_errorf {KM : KubeMessages} {A} msg (p : prog A) c Q :
  guarded p c (fun c' o => match o with OFail e => Q c' (OFail (textError msg e)) | _ => Q c' o end) ->
  guarded (errorf msg p) c Q.
Proof.
  intros H. apply guarded_bind, guarded_attempt. eapply guarded_mono; [|exact H]. by intros c' [a|e|] HI.
Qed.
End Guarded.

#[global] Arguments guarded : simpl never.

(** One step of symbolic execution. *)
Ltac guarded_step :=
  lazymatch goal with
  | |- guarded _ (mbind _ _) _ _ => apply guarded_bind
  | |- guarded _ (prog_bind _ _) _ _ => apply guarded_bind
  | |- guarded _ (attempt _) _ _ => apply guarded_attempt
  | |- guarded _ (wrap _ _) _ _ => apply guarded_wrap
  | |- guarded _ (errorf _ _) _ _ => apply guarded_errorf
  | |- guarded _ (Ret _) _ _ => apply guarded_ret
  | |- guarded _ (Fail _) _ _ => apply guarded_fail
  | |- guarded _ (deref _) _ _ => apply guarded_deref
  | |- guarded _ (read _) _ _ => apply guarded_read
  | |- guarded _ (write _) _ _ => apply guarded_write
  end; cbv beta iota.

(** ** Replacing the stateful set of etcd *)

Section Resize.
Context {SV : Semver} {KL : KubeLib} {OW : OwnerLaws} {CL : ClaimLib} {KM : KubeMessages}.
Context (ParseQuantity : string -> option string) (polls : nat).
Context (QuantityCmp_refl : forall q, QuantityCmp q q = 0).
Context (ns release : string).

Definition saveKey : string * string := (ns, release +:+ "-old-sts").

(** The stateful set exists or is saved; both under their own names. *)
Definition kept (c : cluster) : Prop :=
  (forall s, cl_sets c !! (ns, release) = Some s -> sts_key s = (ns, release)) /\
  (forall d, cl_saved c !! saveKey = Some d -> exists s, d = SavedStatefulSet s /\ sts_key s = (ns, release)) /\
  (is_Some (cl_sets c !! (ns, release)) \/ is_Some (cl_saved c !! saveKey)).

Definition present (c : cluster) : Prop := kept c /\ is_Some (cl_sets c !! (ns, release)).

(** The stateful set of the cluster has the size [q]. *)
Definition hasSize (q : string) (c : cluster) : Prop :=
  exists s, cl_sets c !! (ns, release) = Some s /\
    (sts_ClaimTemplates s = [] \/ QuantityCmp (getCurrentStorageSize s) q = 0).

Lemma cleared_size s q :
  let s' := cleared s ((fun t => set_claimStorage t q) <$> sts_ClaimTemplates s) in
  sts_key s' = sts_key s /\ (sts_ClaimTemplates s' = [] \/ getCurrentStorageSize s' = q).
Proof.
  split; [done|]. unfold getCurrentStorageSize. simpl. destruct (sts_ClaimTemplates s) as [|t l]; [by left|right].
  unfold claimStorage. simpl. by simplify_map_eq.
Qed.

Lemma resizedTemplates_nil q l : resizedTemplates q l = [] -> l = [].
Proof. by destruct l. Qed.

(** Creating it again. *)
Lemma kept_create c s : kept c -> sts_key s = (ns, release) -> present (applied c (CreateStatefulSet s)).
Proof.
  intros (Hs & Hd & _) Hk. unfold present, kept. simpl. rewrite Hk.
  split; [|by simplify_map_eq]. split; [|split; [done|left; by simplify_map_eq]]. intros s'. simplify_map_eq. by intros [= <-].
Qed.

Lemma createNew_guarded c s q Q :
  kept c -> sts_key s = (ns, release) ->
  (forall e c', kept c' -> Q c' (OFail e)) ->
  (forall c' s', present c' -> cl_sets c' !! (ns, release) = Some s' ->
     (sts_ClaimTemplates s' = [] \/ getCurrentStorageSize s' = q) ->
     (sts_ClaimTemplates s' = [] <-> sts_ClaimTemplates s = []) -> Q c' (ORet tt)) ->
  guarded kept (createNewStatefulSet s q) c Q.
Proof.
  intros Hc Hk Hf HQ. destruct (cleared_size s q) as [Hk' Hsz]. unfold createNewStatefulSet.
  pose proof (kept_create c _ Hc (eq_trans Hk' Hk)) as Hp.
  repeat guarded_step; auto; [apply Hp|].
  eapply HQ; [exact Hp| |exact Hsz|].
  - simpl. change (sts_key _) with (sts_key s). rewrite Hk. by simplify_map_eq.
  - simpl. by destruct (sts_ClaimTemplates s).
Qed.

(** Waiting changes nothing. *)
Lemma wait_guarded {B} n msg (get : kread B) c (Q : cluster -> outcome unit -> Prop) :
  kept c -> (forall e, Q c (OFail e)) -> Q c (ORet tt) -> guarded kept (waitForDeletion n msg get) c Q.
Proof.
  intros Hc Hf Hr. induction n as [|n IH]; cbn [waitForDeletion]; [by apply guarded_fail|].
  guarded_step. guarded_step. guarded_step; [done| |done].
  intros e _. case_match; [by apply guarded_ret|by apply guarded_fail].
Qed.

Lemma resizeClaims_guarded q count c (Q : cluster -> outcome unit -> Prop) : forall from,
  kept c -> (forall e, Q c (OFail e)) -> Q c (ORet tt) ->
  guarded kept (resizeClaims ns release q from count) c Q.
Proof.
  induction count as [|count IH]; intros from Hc Hf Hr; cbn [resizeClaims]; [by apply guarded_ret|].
  repeat guarded_step; auto. intros b _. repeat guarded_step; auto.
Qed.

(** The stateful set that is found or restored is in the cluster. *)
Lemma current_guarded c Q :
  kept c ->
  (forall e c', kept c' -> Q c' (OFail e)) ->
  (forall c' s, present c' -> sts_key s = (ns, release) ->
     (exists s', cl_sets c' !! (ns, release) = Some s' /\
       (sts_ClaimTemplates s' = [] \/ getCurrentStorageSize s' = getCurrentStorageSize s)) -> Q c' (ORet (Some s))) ->
  guarded kept (currentStatefulSet ns release (release +:+ "-old-sts")) c Q.
Proof.
  intros Hc Hf HQ. unfold currentStatefulSet, GetSavedObject. do 3 guarded_step; [done| |].
  - intros e He. case_match eqn:Hnf; [|by apply guarded_fail; auto].
    repeat guarded_step; [done|..].
    + intros e' He'. case_match eqn:Hnf'; [|by apply guarded_fail; auto]. exfalso.
      unfold IsNotFound in Hnf, Hnf'. simpl in Hnf, Hnf'.
      apply bool_decide_eq_true in Hnf as [= ->], Hnf' as [= ->].
      destruct Hc as (_ & _ & [[? Hs]|[? Hs]]); simpl in *; unfold saveKey in *; congruence.
    + intros r Hr. destruct (proj1 (proj2 Hc) (cr_Data r) Hr) as (s & Hd & Hk).
      apply guarded_ret; [done|]. rewrite Hd. guarded_step. apply createNew_guarded; auto.
      intros c' s' Hp Hl Hsz _. apply guarded_ret; [apply Hp|]. apply HQ; eauto.
  - intros s Hs. simpl in Hs. unfold id in Hs. apply guarded_ret; [done|]. apply HQ; [split; eauto|by apply Hc|eauto].
Qed.

(** Saving before deleting. *)
Lemma present_saved c r s :
  present c -> (om_Namespace (cr_Meta r), om_Name (cr_Meta r)) = saveKey ->
  cr_Data r = SavedStatefulSet s -> sts_key s = (ns, release) ->
  present (applied c (CreateRevision r)) /\ is_Some (cl_saved (applied c (CreateRevision r)) !! saveKey).
Proof.
  intros [(Hs & Hd & _) Hp] Hr Hdata Hk. unfold present, kept. simpl. rewrite Hr, Hdata. simplify_map_eq.
  split; [|done]. split; [|done]. split; [done|]. split; [|by left]. intros d [= <-]. eauto.
Qed.

Lemma save_guarded mc s c Q :
  mi_Namespace mc = ns -> present c -> sts_key s = (ns, release) ->
  (forall e, Q c (OFail e)) ->
  (forall c', present c' -> is_Some (cl_saved c' !! saveKey) -> Q c' (ORet tt)) ->
  guarded kept (SaveObject mc (release +:+ "-old-sts") (SavedStatefulSet s)) c Q.
Proof.
  intros Hns Hp Hk Hf HQ. unfold SaveObject, CreateRevisionObject, CreateObject. rewrite Hns.
  destruct (SetControllerReference _ _) as [meta|] eqn:Hm; [|by apply guarded_fail; [apply Hp|]].
  apply SetControllerReference_owners in Hm.
  set (rev := mkRevision meta 1 (SavedStatefulSet s)).
  assert ((om_Namespace (cr_Meta rev), om_Name (cr_Meta rev)) = saveKey) as Hkey by (simpl; by rewrite Hm).
  repeat guarded_step; [apply Hp| |].
  - intros e _. case_match; [by apply guarded_fail; [apply Hp|]|].
    destruct (present_saved c rev s Hp Hkey eq_refl Hk) as [Hp' Hs'].
    guarded_step; [apply Hp|auto|apply Hp'|auto].
  - intros r Hr. apply guarded_ret; [apply Hp|]. apply HQ; [done|].
    injection Hkey as H1 H2. unfold saveKey. rewrite <- H1, <- H2. simpl in Hr. simpl. by rewrite Hr.
Qed.

(** Deleting it once it is saved. *)
Lemma kept_delete c :
  present c -> is_Some (cl_saved c !! saveKey) -> kept (applied c (OrphanDeleteStatefulSet ns release)).
Proof.
  intros [(Hs & Hd & _) _] Hsv. unfold kept. simpl. split; [|by auto]. intros s. by rewrite lookup_delete_eq.
Qed.

Lemma kept_forget c : present c -> present (applied c (DeleteRevision ns (release +:+ "-old-sts"))).
Proof.
  intros [(Hs & Hd & _) Hp]. unfold present, kept, saveKey. simpl. split; [|done]. split; [done|]. split; [|by left].
  intros d. by rewrite lookup_delete_eq.
Qed.

Lemma forget_guarded c (Q : cluster -> outcome unit -> Prop) :
  present c -> (forall e, Q c (OFail e)) -> (forall c', present c' -> Q c' (ORet tt)) ->
  guarded kept (forgetSaved ns (release +:+ "-old-sts")) c Q.
Proof.
  intros Hp Hf HQ. unfold forgetSaved. pose proof (kept_forget c Hp) as Hp'. repeat guarded_step; [apply Hp| |apply Hp'|apply Hp'|auto].
  intros e. case_match; [apply guarded_ret|apply guarded_fail]; auto; apply Hp.
Qed.

(** The whole replacement. *)
Lemma reconcilePVCs_guarded newSize mc c :
  mi_Namespace mc = ns -> kept c ->
  guarded kept (reconcilePVCs ParseQuantity polls ns release newSize mc) c
    (fun c' o => o = ORet tt -> exists q, ParseQuantity newSize = Some q /\ hasSize q c').
Proof.
  intros Hns Hc. unfold reconcilePVCs. destruct (ParseQuantity newSize) as [q|]; [|by apply guarded_fail].
  guarded_step. apply current_guarded; [done..|]. intros c1 s Hp1 Hk (s1 & Hl1 & Hsz1).
  case_match eqn:Hcmp.
  { apply Z.eqb_eq in Hcmp. apply guarded_ret; [apply Hp1|]. intros _. exists q. split; [done|]. exists s1.
    split; [done|]. destruct Hsz1 as [?|Hsz1]; [by left|right; by rewrite Hsz1]. }
  guarded_step. guarded_step; [apply Hp1|done|]. intros replicas Hr. clear Hcmp Hr.
  guarded_step. apply resizeClaims_guarded; [apply Hp1|done|].
  guarded_step. apply forget_guarded; [done..|]. intros c2 Hp2.
  do 2 guarded_step. apply wait_guarded; [apply Hp2|done|].
  do 2 guarded_step. apply save_guarded; [done..|]. intros c3 Hp3 Hsv.
  do 3 guarded_step; [apply Hp3|done|by apply kept_delete|].
  do 2 guarded_step. apply wait_guarded; [by apply kept_delete|done|].
  apply createNew_guarded; [by apply kept_delete|done..|].
  intros c4 s4 _ Hl4 Hsz4 _ _. exists q. split; [done|]. exists s4. split; [done|].
  destruct Hsz4 as [?|Hsz4]; [by left|right; by rewrite Hsz4].
Qed.

(** C13. Growing the claims of etcd is safe at every step: in every run, whatever
    calls fail and wherever it stops, the stateful set of etcd is in the cluster
    or a copy of it is saved, and a run that ends without error leaves it in the
    cluster with the requested size. *)
Theorem etcd_resize_safe newSize mc c path o :
  mi_Namespace mc = ns -> kept c ->
  runs (reconcilePVCs ParseQuantity polls ns release newSize mc) c path o ->
  Forall kept path /\
  (o = ORet tt -> exists q c', ParseQuantity newSize = Some q /\ last path = Some c' /\ hasSize q c').
Proof.
  intros Hns Hc Hr. destruct (guarded_runs kept _ _ c path o (reconcilePVCs_guarded newSize mc c Hns Hc) Hr)
    as (Hp & c' & Hl & HQ).
  split; [done|]. intros Ho. destruct (HQ Ho) as (q & Hq & Hs). eauto.
Qed.
End Resize.

(** ** A concrete cluster *)

Section Walk.
Context (others : forall B, kread B -> kerr + B).

Definition walk_read {B} (c : cluster) (r : kread B) : kerr + B :=
  match r in kread B' return kerr + B' with
  | GetStatefulSet ns name => match cl_sets c !! (ns, name) with Some s => inr s | None => inl KNotFound end
  | GetRevision ns name =>
      match cl_saved c !! (ns, name) with
      | Some d => inr (mkRevision (newMeta name ns) 1 d)
      | None => inl KNotFound
      end
  | r => others _ r
  end.

(** Runs a program in a cluster where every write succeeds. *)
Fixpoint walk {A} (p : prog A) (c : cluster) : list cluster * outcome A :=
  match p with
  | Ret a => ([c], ORet a)
  | Fail e => ([c], OFail e)
  | Panic => ([c], OPanic)
  | Call q k =>
      let x := match q in kreq B' return kerr + B' with Read r => walk_read c r | Write _ => inr tt end in
      let '(path, o) := walk (k x) (next c q x) in (c :: path, o)
  end.

Lemma walk_runs {A} (p : prog A) : forall c, runs p c (fst (walk p c)) (snd (walk p c)).
Proof.
  induction p as [a|e| |B q k IH]; intros c; simpl; [done..|].
  set (x := match q in kreq B' return kerr + B' with Read r => walk_read c r | Write _ => inr tt end).
  specialize (IH x (next c q x)). destruct (walk (k x) (next c q x)) as [path o].
  exists x, path. split; [done|]. split; [|done]. subst x. destruct q as [B r|w]; [|done].
  destruct r; simpl; try done; by case_match.
Qed.
End Walk.

#[local] Existing Instances concreteSemver concreteKubeLib concreteOwnerLaws exClaimLib.

Definition notFoundText : KubeMessages := {| kerr_Error e := if bool_decide (e = KNotFound) then "not found" else "error" |}.
#[local] Existing Instance notFoundText.

Definition exEtcd : StatefulSet :=
  KubeTypes.mkStatefulSet (newMeta "mi-etcd" "ns") (Some 3) None emptyTemplate "" "" 0 [exClaim "data" "10"] 1 3 3 3 3 "" "".

Definition exEtcdCluster : cluster := mkCluster {[("ns", "mi-etcd") := exEtcd]} ∅.

Definition exOthers (B : Type) (r : kread B) : kerr + B :=
  match r in kread B' return kerr + B' with
  | GetClaim ns name => inr (exClaim name "10")
  | _ => inl KNotFound
  end.

Definition exResize : prog unit := reconcilePVCs Some 1 "ns" "mi-etcd" "20" (exMilvus 1).

Lemma exEtcd_kept : kept "ns" "mi-etcd" exEtcdCluster.
Proof.
  split; [|split; [done|left; by eexists]]. intros s Hs. simpl in Hs. simplify_map_eq. done.
Qed.

Lemma etcd_resize_safe_witness : exists path c',
  runs exResize exEtcdCluster path (ORet tt) /\ Forall (kept "ns" "mi-etcd") path /\
  last path = Some c' /\ hasSize "ns" "mi-etcd" "20" c'.
Proof.
  assert (snd (walk exOthers exResize exEtcdCluster) = ORet tt) as Ho by (vm_compute; reflexivity).
  assert (runs exResize exEtcdCluster (fst (walk exOthers exResize exEtcdCluster)) (ORet tt)) as Hr.
  { rewrite <- Ho. apply walk_runs. }
  assert (forall q, QuantityCmp q q = 0) as Hrefl by (intros q; apply Z.sub_diag).
  destruct (etcd_resize_safe Some 1 Hrefl "ns" "mi-etcd" "20" (exMilvus 1) exEtcdCluster _ _ eq_refl exEtcd_kept Hr)
    as [Hp Hs].
  destruct (Hs eq_refl) as (q & c' & [= <-] & Hl & Hsz).
  exists (fst (walk exOthers exResize exEtcdCluster)), c'. by split_and!.
Defined.

(** ** Releases whose name contains etcd *)

Section Named.
Context {SV : Semver} {KL : KubeLib} {CL : ClaimLib} {KM : KubeMessages}.
Context (ParseQuantity : string -> option string) (polls : nat).

(** A release whose values have no persistence, as those of Pulsar. *)
Definition noPersistence (B : Type) (r : kread B) : B -> Prop :=
  match r in kread B' return B' -> Prop with
  | HelmGetValues _ _ => fun values => get_key values "persistence" = None
  | _ => fun _ => True
  end.

Lemma persistenceSize_none which values :
  get_key values "persistence" = None -> exists e, persistenceSize which values = inl e.
Proof. unfold persistenceSize. intros ->. by eexists. Qed.

Lemma setInitialize_quiet R isPulsar values b (P : kwrite -> Prop) :
  wp R (setInitialize isPulsar values b) (fun ws _ => Forall P ws).
Proof.
  unfold setInitialize. destruct isPulsar; [|by apply wp_ret]. apply wp_then; [apply wp_deref_writes|intros v].
  by apply wp_ret.
Qed.

(** Whether a release is etcd is read off its name: a release of an instance
    whose name contains "etcd" is treated as one, and if its values have no
    persistence (Pulsar's have none) it is installed but never updated. *)
Theorem etcd_named_never_updated request mc tr o :
  Contains (rq_ReleaseName request) "etcd" = true ->
  exec (helm_Reconcile ParseQuantity polls request mc) tr o -> Forall (event_ok noPersistence) tr ->
  Forall (fun w => forall ns release chart values, w <> HelmUpdate ns release chart values) (writes tr).
Proof.
  intros Hname Hex Hok. revert Hex Hok. apply (wp_exec noPersistence (helm_Reconcile ParseQuantity polls request mc)
    (fun ws _ => Forall (fun w => forall ns release chart values, w <> HelmUpdate ns release chart values) ws)).
  unfold helm_Reconcile. rewrite Hname.
  apply wp_then; [apply wp_quiet_read|intros exist]. destruct (negb exist).
  { apply wp_then; [apply setInitialize_quiet|intros values]. by apply wp_one_write. }
  apply wp_bind, wp_read; [by constructor|]. intros vals Hvals. apply wp_bind, wp_read; [by constructor|].
  intros status _. cbv beta zeta.
  assert (forall b : bool, get_key (if b then delete_key vals "initialize" else vals) "persistence" = None) as Hd.
  { intros []; [|done]. rewrite get_delete_key. by case_match. }
  destruct (persistenceSize_none "old" _ (Hd (bool_decide (rq_Chart request = pulsarChart)))) as [e ->].
  case_match; [by apply wp_ret|]. apply wp_then; [apply setInitialize_quiet|intros values].
  by apply wp_bind, wp_bind, wp_fail.
Qed.
End Named.

Definition exPulsarRequest : ChartRequest :=
  mkRequest "etcd-demo-pulsar" "ns" (GetChartPathByName "pulsarv3")
    (Some [("bookkeeper", JObj [("replicaCount", JNum 3)])]).

(** The release exists, with another number of bookkeepers. *)
Definition exHelm : handler unit :=
  mkHandler
    (fun B (r : kread B) _ =>
       match r in kread B' return kerr + B' with
       | HelmReleaseExist _ _ => inr true
       | HelmGetValues _ _ => inr [("bookkeeper", JObj [("replicaCount", JNum 2)])]
       | HelmGetStatus _ _ => inr "deployed"
       | _ => inl KNotFound
       end)
    (fun _ s => (inr tt, s)).

Lemma exHelm_exec {A} (p : prog A) : exec p (snd (fst (run exHelm p tt))) (snd (run exHelm p tt)).
Proof. apply run_exec. Qed.
Lemma exHelm_ok {A} (p : prog A) : Forall (event_ok noPersistence) (snd (fst (run exHelm p tt))).
Proof. apply run_event_ok. intros B r s b. by destruct r; intros [= <-]. Qed.

Lemma etcd_named_never_updated_witness : exists tr o,
  exec (helm_Reconcile Some 1 exPulsarRequest (exMilvus 1)) tr o /\
  Forall (fun w => forall ns release chart values, w <> HelmUpdate ns release chart values) (writes tr) /\
  exists e, o = OFail e.
Proof.
  set (p := helm_Reconcile Some 1 exPulsarRequest (exMilvus 1)).
  exists (snd (fst (run exHelm p tt))), (snd (run exHelm p tt)). split; [apply exHelm_exec|]. split.
  - eapply (etcd_named_never_updated Some 1 exPulsarRequest (exMilvus 1));
      [vm_compute; reflexivity|apply exHelm_exec|apply exHelm_ok].
  - eexists. vm_compute. reflexivity.
Defined.
