(* ===== verification/MilvusController.v ===== *)
(** * The Milvus controller

    pkg/controllers/milvus_controller.go, milvus.go and pvc.go: the reconcile of
    a Milvus resource.  A live resource is checked, defaulted and brought about:
    its dependencies and, once these are ready, its configuration, claims,
    workloads, autoscalers, services, ingress and monitors.  A deleted one keeps
    the operator's finalizer until its pods are gone and what it asks to be
    deleted with it is deleted.

    The resource the API server returns for an update (its new generation) is not
    read back.  Setting the metrics, the start of the status loops (which
    [StatusSync] models) and the reading of the operator's own image are left
    out. *)
From S2P Require Import Prelude KubeTypes Libs ApiTypes Values Labels Effects Utils Components K8sUtil Group.
From S2P Require Import DeployCtrl Webhook Status PodTemplate KafkaSecrets Render Hpa StatefulSets Deployments.
From S2P Require Import Network ConfigMaps Defaults Dependencies.

Local Open Scope string_scope.
Local Open Scope list_scope.
Local Open Scope Z_scope.

Definition MilvusFinalizerName : string := "milvus.milvus.io/finalizer".
Definition ForegroundDeletionFinalizer : string := "foregroundDeletion".
Definition PauseReconcileAnnotation : string := "milvus.io/pause-reconcile".
Definition HelmReleaseLabel : string := "release".

(** [ctrl.Result]: the seconds after which the resource is queued again, 0 for
    never. *)
Record Result := mkResult { RequeueAfter : Z }.
Definition unhealthySyncInterval : Z := 30.

(** ** Finalizers *)

Definition ContainsFinalizer (m : Milvus) (finalizer : string) : bool :=
  bool_decide (finalizer ∈ om_Finalizers (mi_Meta m)).

Definition set_mi_Finalizers (m : Milvus) (l : list string) : Milvus :=
  let o := mi_Meta m in
  mkMilvus (mkMeta (om_Name o) (om_Namespace o) (om_Labels o) (om_Annotations o) (om_Generation o) (om_UID o)
              (om_ResourceVersion o) (om_OwnerReferences o) (om_DeletionTimestamp o) l) (mi_Spec m) (mi_Status m).

Definition AddFinalizer (m : Milvus) (finalizer : string) : Milvus :=
  set_mi_Finalizers m (om_Finalizers (mi_Meta m) ++ [finalizer]).
Definition RemoveFinalizer (m : Milvus) (finalizer : string) : Milvus :=
  set_mi_Finalizers m (filter (fun f => f <> finalizer) (om_Finalizers (mi_Meta m))).

Section Controller.
Context {SV : Semver} {US : Unstructured} {IS : IntStr} {KL : KubeLib} {DC : Decode} {DK : DecodeKafka}
  {JM : JsonMarshal} {OI : OperatorImage} {CL : ClaimLib} {KM : KubeMessages} {PR : Process} {MO : MapOrder}
  {CF : ConfigLib} {DH : DecodeHPA}.

(** What runs outside the repository: the default values of the charts, the
    version of the operator, quantities, the specs of claims, the polls of a
    wait, the iteration of a map of sizes, and the schedules of the goroutines. *)
Record Environment := mkEnvironment {
  e_provider : gmap string (list (string * json));
  e_Version : string;
  e_ParseQuantity : string -> option string;
  e_DecodeClaimSpec : Values -> ClaimSpec;
  e_polls : nat;
  e_pick : list (string * string) -> option (string * string);
  e_all : schedule;
  e_milvus : schedule
}.
Context (E : Environment).

(** ** The claim of a built-in message queue *)

(** [resource.Quantity.IsZero] of the storage request. *)
Definition storageIsZero (c : Claim) : bool :=
  match claimStorage c with Some q => QuantityCmp q "0" =? 0 | None => true end.

(** 5Gi *)
Definition defaultPVCSize : string := "5368709120".

Definition GetSpec (p : PersistentVolumeClaim) : ClaimSpec := e_DecodeClaimSpec E (pvc_Spec p).

Definition syncPVC (milvusPVC : PersistentVolumeClaim) (pvc : Claim) : Claim :=
  let spec := GetSpec milvusPVC in
  let modes := match cls_AccessModes spec with [] => ["ReadWriteOnce"] | l => l end in
  let c := mkPersistentVolumeClaim
             (set_Annotations (set_Labels (clm_Meta pvc) (pvc_Labels milvusPVC)) (pvc_Annotations milvusPVC))
             (mkClaimSpec modes (cls_Resources spec) (cls_StorageClassName spec) (cls_VolumeName spec) (cls_Rest spec)) in
  if storageIsZero c then set_claimStorage c defaultPVCSize else c.

(** The claim to update: what the cluster sets is kept. *)
Definition updatedPVC (milvusPVC : PersistentVolumeClaim) (old : Claim) : Claim :=
  let c := syncPVC milvusPVC old in
  let s := clm_Spec c in
  let class := match cls_StorageClassName (GetSpec milvusPVC) with
               | None => cls_StorageClassName (clm_Spec old)
               | Some _ => cls_StorageClassName s
               end in
  mkPersistentVolumeClaim (clm_Meta c)
    (mkClaimSpec (cls_AccessModes s) (cls_Resources s) class (cls_VolumeName (clm_Spec old)) (cls_Rest s)).

Definition syncUpdatePVC (namespace name : string) (milvusPVC : PersistentVolumeClaim) : prog unit :=
  r ← attempt (read (GetClaim namespace name));
  match r with
  | inl e =>
      if IsNotFound e then
        write (CreateClaim (syncPVC milvusPVC (mkPersistentVolumeClaim (newMeta name namespace)
                                                 (mkClaimSpec [] (mkRes ∅ ∅) None "" JNull))))
      else Fail (EWrap "failed to get data pvc" e)
  | inr old =>
      let new := updatedPVC milvusPVC old in
      if DeepEqual old new then Ret tt else wrap "failed to update data pvc" (write (UpdateClaim new))
  end.

Definition ReconcilePVCs (mil : Milvus) : prog unit :=
  match GetPersistenceConfig (mi_Spec mil) with
  | None => Ret tt
  | Some persistence =>
      let claim := per_PersistentVolumeClaim persistence in
      if per_Enabled persistence && bool_decide (pvc_ExistingClaim claim = "")
      then syncUpdatePVC (mi_Namespace mil) (getPVCNameByInstName (mi_Name mil)) claim
      else Ret tt
  end.

(** ** Reconciling *)

Definition ReconcileMilvus (mc : Milvus) : prog unit :=
  upgradeStopping ←
    (if isUpgradeStopping mc then deref (isMilvusStoppingForReconcile mc) else Ret false);
  if negb (IsDependencyReady (st_Conditions (mi_Status mc))) && negb upgradeStopping then Ret tt
  else
    wrap "configmap" (ReconcileConfigMaps mc) ;;
    wrap "reconcile milvus"
      (Run (e_milvus E)
         [ReconcilePVCs; ReconcileDeployments (e_pick E); ReconcileHPAs; ReconcileServices; ReconcileIngress;
          ReconcilePodMonitor] mc).

Definition ReconcileAll (mc : Milvus) : prog unit :=
  wrap "reconcile milvus"
    (Run (e_all E)
       [ReconcileEtcd (e_ParseQuantity E) (e_polls E); ReconcileMsgStream (e_ParseQuantity E) (e_polls E);
        ReconcileMinio (e_ParseQuantity E) (e_polls E); ReconcileTei (e_ParseQuantity E) (e_polls E);
        ReconcileMilvus] mc).

Definition set_st_Current (s : MilvusStatus) (com : MilvusComponents) : MilvusStatus :=
  mkStatus (st_Status s) (st_Conditions s) (st_Endpoint s) (st_IngressStatus s) (st_ComponentsDeployStatus s)
    (st_DeploymentGroupsDeployStatus s) (st_RollingMode s) (st_ObservedGeneration s)
    (csp_Image (com_ComponentSpec com)) (csp_Version (com_ComponentSpec com)).

Definition SetDefaultStatus (mc : Milvus) : prog Milvus :=
  if bool_decide (st_Status (mi_Status mc) = StatusUnset) then
    let mc := set_RollingMode (with_st mc (set_HealthStatus StatusPending)) (com_RollingMode (mi_Com mc)) in
    let mc := with_st mc (fun s => set_st_Current s (mi_Com mc)) in
    wrap "set mc default status failed" (write (UpdateMilvusStatus mc)) ;; Ret mc
  else if bool_decide (st_CurrentImage (mi_Status mc) = "") then
    let mc := with_st mc (fun s => set_st_Current s (mi_Com mc)) in
    wrap "set mc current image and version failed" (write (UpdateMilvusStatus mc)) ;; Ret mc
  else Ret mc.

(** A generation that was reconciled before was verified then. *)
Definition VerifyCR (milvus : Milvus) : prog unit :=
  if om_Generation (mi_Meta milvus) <=? st_ObservedGeneration (mi_Status milvus) then Ret tt
  else
    let spec := com_ComponentSpec (mi_Com milvus) in
    match DecodeProbes (csp_Probes spec) with
    | None => Fail (ENew "verify custom probes")
    | Some _ =>
        if forallb (fun v => bool_decide (is_Some (DecodeVolume v))) (default [] (csp_Volumes spec)) then Ret tt
        else Fail (ENew "verify custom volume")
    end.

(** ** Values of releases of earlier operators *)

(** The values of the release replace those of the resource. *)
Definition syncRelease (external : bool) (m : Milvus) (kind : string) (ic : option InClusterConfig)
    (store : option InClusterConfig -> Milvus) : prog Milvus :=
  if external then Ret m
  else
    values ← helm_GetValues (mi_Namespace m) (mi_Name m +:+ kind);
    c ← deref ic;
    Ret (store (Some (set_ic_Values c (Some values)))).

Definition syncEtcd (m : Milvus) : prog Milvus :=
  let e := dep_Etcd (mi_Dep m) in
  syncRelease (etcd_External e) m "-etcd" (etcd_InCluster e)
    (fun ic => set_mi_Dep m (set_dep_Etcd (mi_Dep m) (mkEtcd (etcd_Endpoints e) (etcd_External e) ic))).

Definition syncStream (m : Milvus) : prog Milvus :=
  let dep := mi_Dep m in
  match dep_MsgStreamType dep with
  | MsgStreamTypePulsar =>
      let p := dep_Pulsar dep in
      syncRelease (pul_External p) m "-pulsar" (pul_InCluster p)
        (fun ic => set_mi_Dep m (set_dep_Pulsar dep (mkPulsar ic (pul_External p) (pul_Endpoint p) (pul_Endpoints p))))
  | MsgStreamTypeKafka =>
      let k := dep_Kafka dep in
      syncRelease (kaf_External k) m "-kafka" (kaf_InCluster k)
        (fun ic => set_mi_Dep m (set_dep_Kafka dep (mkKafka ic (kaf_External k) (kaf_BrokerList k) (kaf_SecretRef k))))
  | _ => Ret m
  end.

Definition syncStorage (m : Milvus) : prog Milvus :=
  let s := dep_Storage (mi_Dep m) in
  syncRelease (sto_External s) m "-minio" (sto_InCluster s)
    (fun ic => set_mi_Dep m (set_dep_Storage (mi_Dep m)
                 (mkStorage (sto_Type s) (sto_SecretRef s) (sto_Endpoint s) ic (sto_External s) (sto_SSL s)))).

Definition syncLegacyValues (m : Milvus) : prog Milvus :=
  m ← syncEtcd m;
  m ← syncStream m;
  m ← syncStorage m;
  Ret (SetLegacySynced m).

Definition ReconcileLegacyValues (milvus : Milvus) : prog Milvus :=
  if negb (LegacyNeedSyncValues milvus) then Ret milvus
  else
    milvus ← syncLegacyValues milvus;
    write (UpdateMilvus milvus) ;; Ret milvus.

(** ** Deletion *)

Definition deleteNamed (namespace : string) (claims : list Claim) : prog unit :=
  forEach (fun pvc => wrap ("delete pvc " +:+ namespace +:+ "/" +:+ om_Name (clm_Meta pvc) +:+ " failed")
                        (write (DeleteClaim (om_Namespace (clm_Meta pvc)) (om_Name (clm_Meta pvc))))) claims.

Definition batchDeletePVC (namespace labelKey labelValue : string) : prog unit :=
  pvcList ← read (ListClaims namespace {[labelKey := labelValue]});
  deleteNamed namespace pvcList.

(** A release in the cluster with the policy Delete, and whether its claims are
    deleted too.  The configuration is dereferenced. *)
Definition deletingRelease (inUse : bool) (release : string) (ic : option InClusterConfig)
    : prog (gmap string bool) :=
  if inUse then
    c ← deref ic;
    Ret (if bool_decide (ic_DeletionPolicy c = DeletionPolicyDelete) then {[release := ic_PVCDeletion c]} else ∅)
  else Ret ∅.

(** The claim of a built-in message queue, when it is to be deleted. *)
Definition deleteDataPVC (mc : Milvus) : prog unit :=
  match GetMilvusBuiltInMQ (mi_Dep mc) with
  | Some persist =>
      if per_Enabled persist && per_PVCDeletion persist then
        r ← attempt (write (DeleteClaim (mi_Namespace mc) (getPVCNameByInstName (mi_Name mc))));
        match r with
        | inl e => if IsNotFound e then Ret tt else Fail (EWrap "delete data pvc failed" e)
        | inr _ => Ret tt
        end
      else Ret tt
  | None => Ret tt
  end.

(** The releases of the message queue. *)
Definition deletingStream (mc : Milvus) : prog (gmap string bool) :=
  let dep := mi_Dep mc in
  match dep_MsgStreamType dep with
  | MsgStreamTypeKafka =>
      deletingRelease (negb (kaf_External (dep_Kafka dep))) (mi_Name mc +:+ "-kafka") (kaf_InCluster (dep_Kafka dep))
  | MsgStreamTypePulsar =>
      deletingRelease (negb (pul_External (dep_Pulsar dep))) (mi_Name mc +:+ "-pulsar") (pul_InCluster (dep_Pulsar dep))
  | _ => deleteDataPVC mc ;; Ret ∅
  end.

(** One release; the claims of etcd's chart have one label, those of Pulsar's and
    MinIO's the other. *)
Definition finalizeRelease (namespace release : string) (deletePVC : bool) : prog unit :=
  write (HelmUninstall namespace release) ;;
  if deletePVC then
    wrap ("delete pvc with label " +:+ AppLabelInstance +:+ "=" +:+ release +:+ " failed")
      (batchDeletePVC namespace AppLabelInstance release) ;;
    wrap ("delete pvc with label " +:+ HelmReleaseLabel +:+ "=" +:+ release +:+ " failed")
      (batchDeletePVC namespace HelmReleaseLabel release)
  else Ret tt.

(** Every release is tried; the errors are collected. *)
Fixpoint finalizeReleases (namespace : string) (releases : list (string * bool)) : prog (list err) :=
  match releases with
  | [] => Ret []
  | (release, deletePVC) :: rest =>
      r ← attempt (finalizeRelease namespace release deletePVC);
      errs ← finalizeReleases namespace rest;
      Ret (match r with inl e => e :: errs | inr _ => errs end)
  end.

(** [util.JoinErrors]. *)
Definition JoinErrors (errs : list err) : string := Join "; " (Error <$> errs).

Definition Finalize (mc : Milvus) : prog unit :=
  let dep := mi_Dep mc in
  etcd ← deletingRelease (negb (etcd_External (dep_Etcd dep))) (mi_Name mc +:+ "-etcd") (etcd_InCluster (dep_Etcd dep));
  stream ← deletingStream mc;
  minio ← deletingRelease (negb (sto_External (dep_Storage dep))) (mi_Name mc +:+ "-minio")
            (sto_InCluster (dep_Storage dep));
  tei ← deletingRelease (tei_Enabled (dep_Tei dep)) (mi_Name mc +:+ "-tei") (tei_InCluster (dep_Tei dep));
  errs ← finalizeReleases (mi_Namespace mc) (range (tei ∪ minio ∪ stream ∪ etcd));
  match errs with [] => Ret tt | _ => Fail (ENew (JoinErrors errs)) end.

(** The reconcile of a resource that is being deleted: its status says so, ... *)
Definition markDeleting (milvus : Milvus) : prog Milvus :=
  if bool_decide (st_Status (mi_Status milvus) = StatusDeleting) then Ret milvus
  else
    let milvus := with_st milvus (set_HealthStatus StatusDeleting) in
    write (UpdateMilvusStatus milvus) ;; Ret milvus.

(** ... and it is finalized when its pods are gone. *)
Definition finalizeWhenStopped (milvus : Milvus) : prog Result :=
  stopped ← CheckMilvusStopped milvus;
  if negb stopped then
    (if ContainsFinalizer milvus ForegroundDeletionFinalizer then Ret tt
     else write (DeleteMilvusForeground milvus)) ;;
    Ret (mkResult unhealthySyncInterval)
  else if ContainsFinalizer milvus MilvusFinalizerName then
    Finalize milvus ;;
    write (UpdateMilvus (RemoveFinalizer milvus MilvusFinalizerName)) ;;
    Ret (mkResult 0)
  else Ret (mkResult unhealthySyncInterval).

Definition reconcileDeleted (milvus : Milvus) : prog Result :=
  milvus ← markDeleting milvus; finalizeWhenStopped milvus.

(** The reconcile of a live resource: it gets the finalizer, ... *)
Definition ensureFinalizer (milvus : Milvus) : prog Milvus :=
  if ContainsFinalizer milvus MilvusFinalizerName then Ret milvus
  else
    let milvus := AddFinalizer milvus MilvusFinalizerName in
    write (UpdateMilvus milvus) ;; Ret milvus.

(** ... and, defaulted from [old] to [milvus], it is brought about. *)
Definition reconcileDefaulted (old milvus : Milvus) : prog Result :=
  (if DeepEqual (mi_Spec old) (mi_Spec milvus) then Ret tt else write (UpdateMilvus milvus)) ;;
  milvus ← ReconcileLegacyValues milvus;
  milvus ← SetDefaultStatus milvus;
  milvus ← wrap "sync kafka sasl checksum" (SyncKafkaSaslCheckSum milvus);
  r ← attempt (ReconcileAll milvus);
  match r with
  | inl e => if errors_Is e ErrRequeue then Ret (mkResult (unhealthySyncInterval / 2)) else Fail e
  | inr _ => _ ← UpdateStatusForNewGeneration IsDebug milvus false; Ret (mkResult 0)
  end.

Definition reconcileLive (milvus : Milvus) : prog Result :=
  milvus ← ensureFinalizer milvus;
  wrap "verify cr" (VerifyCR milvus) ;;
  defaulted ← deref (Default (e_provider E) (e_Version E) milvus);
  if bool_decide (mget (mi_Annotations defaulted) PauseReconcileAnnotation = TrueStr) then Ret (mkResult 0)
  else reconcileDefaulted milvus defaulted.

(** Outside debug mode a panic is logged and the reconcile reports success. *)
Fixpoint recovering (p : prog Result) : prog Result :=
  match p with
  | Ret a => Ret a
  | Fail e => Fail e
  | Panic => if IsDebug then Panic else Ret (mkResult 0)
  | Call q k => Call q (fun x => recovering (k x))
  end.

Definition milvus_Reconcile (namespace name : string) : prog Result :=
  recovering
    (r ← attempt (read (GetMilvus namespace name));
     match r with
     | inl e => if IsNotFound e then Ret (mkResult 0) else Fail (EWrap "error get milvus" e)
     | inr milvus =>
         match om_DeletionTimestamp (mi_Meta milvus) with
         | Some _ => reconcileDeleted milvus
         | None => reconcileLive milvus
         end
     end).

(** ** Watching secrets *)

Definition milvusReferencesSecret (milvus : Milvus) (secretName : string) : bool :=
  if negb (bool_decide (dep_MsgStreamType (mi_Dep milvus) = MsgStreamTypeKafka)) then false
  else if bool_decide (kaf_SecretRef (dep_Kafka (mi_Dep milvus)) = secretName) then true
  else
    match parseKafkaSecretRefs milvus with
    | (_, Some _) => false
    | (refs, None) =>
        existsb (fun ref => match ref with
                            | Some r => bool_decide (ref_Name r = secretName)
                            | None => false
                            end) (all refs)
    end.

(** The requests a secret enqueues. *)
Definition mapSecretToMilvusRequests (namespace secretName : string) : prog (list (string * string)) :=
  r ← attempt (read (ListMilvuses namespace));
  match r : err + list Milvus with
  | inl _ => Ret []
  | inr items =>
      let referring : list Milvus := filter (fun m => milvusReferencesSecret m secretName = true) items in
      Ret ((fun m => (mi_Namespace m, mi_Name m)) <$> referring)
  end.
End Controller.
