(* ===== verification/ControllerProofs.v ===== *)
(** * Properties of the Milvus controller

    A deleted resource is finalized only after its pods are gone and the calls that
    delete what it asks to be deleted succeeded, and nothing else is deleted; a
    paused resource is left alone; the workloads are not touched before the
    dependencies are ready; and every secret the checksum of the credentials reads
    is watched. *)
From S2P Require Import Prelude KubeTypes Libs ApiTypes Values Labels Effects Utils Components K8sUtil Group.
From S2P Require Import DeployCtrl Webhook Status PodTemplate KafkaSecrets Render Hpa StatefulSets Deployments.
From S2P Require Import Network ConfigMaps Defaults Dependencies MilvusController Calls.
From S2P Require Import Examples RenderProofs StatefulSetProofs StatusProofs DeploymentProofs ConfigProofs.

Local Open Scope string_scope.
Local Open Scope list_scope.
Local Open Scope Z_scope.

Ltac calls_steps ::= repeat (lazymatch goal with |- calls _ (errorf _ _) => unfold errorf | _ => calls_step end).

(** ** Deleting a resource *)

Section Deletion.
Context {SV : Semver} {US : Unstructured} {IS : IntStr} {KL : KubeLib} {DC : Decode} {DK : DecodeKafka}
  {JM : JsonMarshal} {OI : OperatorImage} {CL : ClaimLib} {KM : KubeMessages} {PR : Process} {MO : MapOrder}
  {ML : MapOrderLaws} {CF : ConfigLib} {DH : DecodeHPA}.
Context (E : Environment).

(** The dependencies that run in the cluster for this resource. *)
Definition inUse (mc : Milvus) (kind : DependencyKind) : bool :=
  let dep := mi_Dep mc in
  match kind with
  | DependencyKindEtcd => negb (etcd_External (dep_Etcd dep))
  | DependencyKindStorage => negb (sto_External (dep_Storage dep))
  | DependencyKindPulsar =>
      bool_decide (dep_MsgStreamType dep = MsgStreamTypePulsar) && negb (pul_External (dep_Pulsar dep))
  | DependencyKindKafka =>
      bool_decide (dep_MsgStreamType dep = MsgStreamTypeKafka) && negb (kaf_External (dep_Kafka dep))
  | DependencyKindTei => tei_Enabled (dep_Tei dep)
  end.

Definition releaseOf (mc : Milvus) (kind : DependencyKind) : string :=
  mi_Name mc +:+ match kind with
                 | DependencyKindEtcd => "-etcd"
                 | DependencyKindStorage => "-minio"
                 | DependencyKindPulsar => "-pulsar"
                 | DependencyKindKafka => "-kafka"
                 | DependencyKindTei => "-tei"
                 end.

(** [deletes mc release pvc]: the resource asks for the release to be deleted
    with it, and with [pvc] for the claims of the release too. *)
Definition deletes (mc : Milvus) (release : string) (pvc : bool) : Prop :=
  exists kind ic, inUse mc kind = true /\ inClusterOf (mi_Dep mc) kind = Some ic /\
    ic_DeletionPolicy ic = DeletionPolicyDelete /\ release = releaseOf mc kind /\ pvc = ic_PVCDeletion ic.

(** The claim of a built-in message queue is deleted too. *)
Definition deletesData (mc : Milvus) : Prop :=
  exists persist, GetMilvusBuiltInMQ (mi_Dep mc) = Some persist /\
    per_Enabled persist = true /\ per_PVCDeletion persist = true.

(** Claims are listed by their labels. *)
Definition labelledClaims (B : Type) (r : kread B) : B -> Prop :=
  match r in kread B' return B' -> Prop with
  | ListClaims ns labels => fun l => forall c, c ∈ l -> om_Namespace (clm_Meta c) = ns /\ labels ⊆ om_Labels (clm_Meta c)
  | _ => fun _ => True
  end.

Definition belongsToRelease (release : string) (c : Claim) : Prop :=
  om_Labels (clm_Meta c) !! AppLabelInstance = Some release \/ om_Labels (clm_Meta c) !! HelmReleaseLabel = Some release.

(** The claims that are listed are in the cluster, with these labels. *)
Definition listedClaims (claims : list Claim) (B : Type) (r : kread B) : B -> Prop :=
  match r in kread B' return B' -> Prop with
  | ListClaims ns labels =>
      fun l => forall c, c ∈ l -> c ∈ claims /\ om_Namespace (clm_Meta c) = ns /\ labels ⊆ om_Labels (clm_Meta c)
  | _ => fun _ => True
  end.

(** The writes a deletion may make, of the claims in the cluster. *)
Definition mayDelete (claims : list Claim) (mc : Milvus) (w : kwrite) : Prop :=
  match w with
  | HelmUninstall ns release => ns = mi_Namespace mc /\ exists pvc, deletes mc release pvc
  | DeleteClaim ns name =>
      ns = mi_Namespace mc /\
      ((name = getPVCNameByInstName (mi_Name mc) /\ deletesData mc) \/
       match storedClaim claims (ns, name) with
       | Some c => exists release, deletes mc release true /\ belongsToRelease release c
       | None => False
       end)
  | _ => False
  end.

Lemma deleteNamed_wp R namespace claims (P : kwrite -> Prop) :
  (forall c, c ∈ claims -> P (DeleteClaim (om_Namespace (clm_Meta c)) (om_Name (clm_Meta c)))) ->
  wp R (deleteNamed namespace claims) (fun ws _ => Forall P ws).
Proof.
  unfold deleteNamed. induction claims as [|c claims IH]; intros HP; cbn [forEach]; [apply wp_ret_writes|].
  apply wp_then; [apply wp_wrap_writes, wp_one_write, HP; by left|]. intros _. apply IH. intros c' Hc'. apply HP. by right.
Qed.

Section Writes.
Context (claims : list Claim) (Hnd : NoDup (claimKey <$> claims)).

Lemma batchDelete_wp mc release key :
  deletes mc release true -> key = AppLabelInstance \/ key = HelmReleaseLabel ->
  wp (listedClaims claims) (batchDeletePVC (mi_Namespace mc) key release) (fun ws _ => Forall (mayDelete claims mc) ws).
Proof.
  intros Hd Hkey. unfold batchDeletePVC. apply wp_bind, wp_read; [by constructor|]. intros l Hl.
  apply deleteNamed_wp. intros c Hc. destruct (Hl c Hc) as (Hin & Hns & Hlab). simpl. split; [done|]. right.
  fold (claimKey c). rewrite storedClaim_elem by done. exists release. split; [done|].
  rewrite map_singleton_subseteq_l in Hlab. unfold belongsToRelease. destruct Hkey as [->| ->]; auto.
Qed.

Lemma finalizeRelease_wp mc release pvc :
  deletes mc release pvc ->
  wp (listedClaims claims) (finalizeRelease (mi_Namespace mc) release pvc) (fun ws _ => Forall (mayDelete claims mc) ws).
Proof.
  intros Hd. unfold finalizeRelease. apply wp_then; [apply wp_one_write; split; eauto|]. intros _.
  destruct pvc; [|apply wp_ret_writes].
  apply wp_then; [apply wp_wrap_writes, batchDelete_wp; auto|]. intros _. apply wp_wrap_writes, batchDelete_wp; auto.
Qed.

Lemma finalizeReleases_wp mc l :
  (forall release pvc, (release, pvc) ∈ l -> deletes mc release pvc) ->
  wp (listedClaims claims) (finalizeReleases (mi_Namespace mc) l) (fun ws _ => Forall (mayDelete claims mc) ws).
Proof.
  induction l as [|[release pvc] l IH]; intros Hl; cbn [finalizeReleases]; [apply wp_ret_writes|].
  apply wp_then; [apply wp_attempt_writes, finalizeRelease_wp, Hl; by left|]. intros r.
  apply wp_then; [apply IH; intros; apply Hl; by right|]. intros errs. apply wp_ret_writes.
Qed.
End Writes.

Definition releases (b : bool) (release : string) (ic : option InClusterConfig) : gmap string bool :=
  match ic with
  | Some c => if b && bool_decide (ic_DeletionPolicy c = DeletionPolicyDelete) then {[release := ic_PVCDeletion c]} else ∅
  | None => ∅
  end.

Lemma releases_lookup b release ic r p :
  releases b release ic !! r = Some p <->
  r = release /\ exists c, b = true /\ ic = Some c /\ ic_DeletionPolicy c = DeletionPolicyDelete /\ p = ic_PVCDeletion c.
Proof.
  unfold releases. destruct ic as [c|]; [|rewrite lookup_empty; naive_solver].
  destruct b; simpl; [|rewrite lookup_empty; naive_solver].
  case_bool_decide; [|rewrite lookup_empty; naive_solver]. rewrite lookup_singleton_Some. naive_solver.
Qed.

Lemma releases_other b release ic r : r <> release -> releases b release ic !! r = None.
Proof. intros Hne. apply eq_None_not_Some. intros [p [? _]%releases_lookup]. done. Qed.

Definition kindReleases (mc : Milvus) (kind : DependencyKind) : gmap string bool :=
  releases (inUse mc kind) (releaseOf mc kind) (inClusterOf (mi_Dep mc) kind).

(** The releases of the map that [Finalize] builds. *)
Definition streamReleases (mc : Milvus) : gmap string bool :=
  match dep_MsgStreamType (mi_Dep mc) with
  | MsgStreamTypeKafka => kindReleases mc DependencyKindKafka
  | MsgStreamTypePulsar => kindReleases mc DependencyKindPulsar
  | _ => ∅
  end.
Definition deletingReleases (mc : Milvus) : gmap string bool :=
  kindReleases mc DependencyKindTei ∪ kindReleases mc DependencyKindStorage ∪ streamReleases mc
    ∪ kindReleases mc DependencyKindEtcd.

Lemma releaseOf_inj mc k k' : releaseOf mc k = releaseOf mc k' -> k = k'.
Proof. unfold releaseOf. intros H. apply String.app_inj in H. by destruct k, k'. Qed.

Lemma kind_lookup mc kind r p :
  kindReleases mc kind !! r = Some p <->
  r = releaseOf mc kind /\ exists c, inUse mc kind = true /\ inClusterOf (mi_Dep mc) kind = Some c /\
    ic_DeletionPolicy c = DeletionPolicyDelete /\ p = ic_PVCDeletion c.
Proof. apply releases_lookup. Qed.

Lemma stream_lookup mc r p :
  streamReleases mc !! r = Some p <->
  kindReleases mc DependencyKindKafka !! r = Some p \/ kindReleases mc DependencyKindPulsar !! r = Some p.
Proof.
  rewrite !kind_lookup. unfold streamReleases.
  destruct (dep_MsgStreamType (mi_Dep mc)) eqn:Ht; rewrite ?kind_lookup, ?lookup_empty; simpl; rewrite Ht; naive_solver.
Qed.

Lemma deletingReleases_spec mc r p : deletingReleases mc !! r = Some p <-> deletes mc r p.
Proof.
  assert (forall k k', k <> k' -> is_Some (kindReleases mc k !! r) -> kindReleases mc k' !! r = None) as Hdisj.
  { intros k k' Hne [q [Hr _]%kind_lookup]. apply releases_other. rewrite Hr. intros ?%releaseOf_inj. done. }
  assert (forall k, k <> DependencyKindKafka -> k <> DependencyKindPulsar ->
            is_Some (kindReleases mc k !! r) -> streamReleases mc !! r = None) as Hstream.
  { intros k Hk Hp Hs. apply eq_None_not_Some. intros [q [Hq|Hq]%stream_lookup];
      rewrite (Hdisj k) in Hq; done || by auto. }
  unfold deletingReleases, deletes. split.
  - rewrite !lookup_union_Some_raw. intros [[[H|[_ H]]|[_ H%stream_lookup]]|[_ H]]; [..|destruct H as [H|H]|];
      apply kind_lookup in H as (-> & c & ? & ? & ? & ->); eauto 10.
  - intros (kind & ic & Hu & Hic & Hpol & Hr & Hp).
    assert (kindReleases mc kind !! r = Some p) as Hk by (apply kind_lookup; eauto 10).
    assert (forall k', kind <> k' -> kindReleases mc k' !! r = None) as Hd by (intros k' ?; apply (Hdisj kind); eauto).
    assert (kind <> DependencyKindKafka -> kind <> DependencyKindPulsar -> streamReleases mc !! r = None) as Hs
      by (intros; apply (Hstream kind); eauto).
    assert (kind = DependencyKindKafka \/ kind = DependencyKindPulsar -> streamReleases mc !! r = Some p) as Hs'
      by (intros [-> | ->]; apply stream_lookup; auto).
    rewrite !lookup_union.
    destruct kind; rewrite ?Hk, ?Hd, ?Hs, ?Hs' by auto; try done; by repeat case_match.
Qed.

Lemma deletingRelease_wp R b release ic (Q : list kwrite -> outcome (gmap string bool) -> Prop) :
  Q [] OPanic -> Q [] (ORet (releases b release ic)) -> wp R (deletingRelease b release ic) Q.
Proof.
  intros Hp Hr. unfold deletingRelease, releases in *. destruct b; [|by destruct ic].
  apply wp_bind, wp_deref; [done|]. intros c ->. apply wp_ret. simpl in *. by case_bool_decide.
Qed.

Lemma deleteDataPVC_wp R claims mc : wp R (deleteDataPVC mc) (fun ws _ => Forall (mayDelete claims mc) ws).
Proof.
  unfold deleteDataPVC. destruct (GetMilvusBuiltInMQ (mi_Dep mc)) as [persist|] eqn:Hmq; [|apply wp_ret_writes].
  case_match eqn:Hp; [|apply wp_ret_writes]. apply andb_true_iff in Hp as [He Hd].
  writes_steps; split; try done; left; (split; [done|]); by exists persist.
Qed.

(** The releases that are collected. *)
Lemma deletingStream_wp R claims mc :
  wp R (deletingStream mc) (fun ws o => Forall (mayDelete claims mc) ws /\ returns (fun m => m = streamReleases mc) ws o).
Proof.
  apply wp_conj.
  - unfold deletingStream, deletingRelease. case_match; writes_steps; try apply deleteDataPVC_wp.
  - unfold deletingStream, streamReleases, kindReleases, inUse, inClusterOf, releaseOf.
    destruct (dep_MsgStreamType (mi_Dep mc)); try (apply deletingRelease_wp; [done|by intros m [= <-]]);
      apply wp_returns_bind; intros _; apply wp_ret; by intros m [= <-].
Qed.

Lemma Finalize_range mc release pvc : (release, pvc) ∈ range (deletingReleases mc) <-> deletes mc release pvc.
Proof. rewrite range_perm, elem_of_map_to_list. apply deletingReleases_spec. Qed.

(** [Finalize] tries the releases that are to be deleted, after the claim of a
    built-in queue. *)
Definition finalizeAll (mc : Milvus) : prog unit :=
  errs ← finalizeReleases (mi_Namespace mc) (range (deletingReleases mc));
  match errs with [] => Ret tt | _ => Fail (ENew (JoinErrors errs)) end.

Lemma Finalize_wp claims mc : NoDup (claimKey <$> claims) ->
  wp (listedClaims claims) (Finalize mc) (fun ws _ => Forall (mayDelete claims mc) ws).
Proof.
  intros Hnd. unfold Finalize. apply wp_bind, deletingRelease_wp; [constructor|].
  apply wp_bind. eapply wp_mono; [|apply (deletingStream_wp _ claims)].
  intros ws [m|e|] [Hws Hm]; [|done..]. rewrite (Hm m eq_refl). clear m Hm.
  apply wp_bind, deletingRelease_wp; [by rewrite !app_nil_r|].
  apply wp_bind, deletingRelease_wp; [by rewrite !app_nil_r|].
  change (_ ∪ _ ∪ _ ∪ _) with (deletingReleases mc). fold (finalizeAll mc).
  apply (wp_mono _ _ (fun ws' _ => Forall (mayDelete claims mc) ws')).
  { intros ws' o Hws'. rewrite !app_nil_l. by apply Forall_app. }
  unfold finalizeAll. apply wp_then; [apply finalizeReleases_wp; [done|]; intros; by apply Finalize_range|].
  intros errs. destruct errs; [apply wp_ret_writes|apply wp_fail_writes].
Qed.

(** ** What precedes the removal of the finalizer *)

(** The release was uninstalled, and with [pvc] the claims found by either label
    were deleted. *)
Definition removed (ns release : string) (pvc : bool) (tr : list event) : Prop :=
  Ev (Write (HelmUninstall ns release)) (inr tt) ∈ tr /\
  (pvc = true -> forall key, key ∈ [AppLabelInstance; HelmReleaseLabel] ->
     exists l, Ev (Read (ListClaims ns {[key := release]})) (inr l) ∈ tr /\
       forall c, c ∈ l -> Ev (Write (DeleteClaim (om_Namespace (clm_Meta c)) (om_Name (clm_Meta c)))) (inr tt) ∈ tr).

Lemma removed_sub ns release pvc tr tr' : tr ⊆ tr' -> removed ns release pvc tr -> removed ns release pvc tr'.
Proof.
  intros Hsub [Hu Hc]. split; [by apply Hsub|]. intros Hp key Hk. destruct (Hc Hp key Hk) as (l & Hl & Hd).
  exists l. split; [by apply Hsub|]. intros c Hin. by apply Hsub, Hd.
Qed.

Lemma deleteNamed_removed ns claims : forall tr,
  exec (deleteNamed ns claims) tr (ORet tt) ->
  forall c, c ∈ claims -> Ev (Write (DeleteClaim (om_Namespace (clm_Meta c)) (om_Name (clm_Meta c)))) (inr tt) ∈ tr.
Proof.
  unfold deleteNamed. induction claims as [|x claims IH]; intros tr Hex c Hc; [by apply not_elem_of_nil in Hc|].
  cbn [forEach] in Hex. apply exec_bind in Hex as (tr1 & o1 & tr2 & -> & H1 & H2).
  apply exec_wrap in H1 as (o & (y & -> & ->)%exec_write & ->).
  destruct y as [e|[]]; [by destruct H2|]. apply elem_of_app.
  apply elem_of_cons in Hc as [-> |Hc]; [left; by apply list_elem_of_singleton|right; by apply (IH tr2)].
Qed.

Lemma batchDelete_removed ns key release tr :
  exec (batchDeletePVC ns key release) tr (ORet tt) ->
  exists l, Ev (Read (ListClaims ns {[key := release]})) (inr l) ∈ tr /\
    forall c, c ∈ l -> Ev (Write (DeleteClaim (om_Namespace (clm_Meta c)) (om_Name (clm_Meta c)))) (inr tt) ∈ tr.
Proof.
  intros (tr1 & o1 & tr2 & -> & (x & -> & ->)%exec_read & H2)%exec_bind. destruct x as [e|l]; [by destruct H2|].
  exists l. split; [by left|]. intros c Hc. right. by apply (deleteNamed_removed ns l).
Qed.

Lemma finalizeRelease_removed ns release pvc tr :
  exec (finalizeRelease ns release pvc) tr (ORet tt) -> removed ns release pvc tr.
Proof.
  intros (tr1 & o1 & tr2 & -> & (x & -> & ->)%exec_write & H2)%exec_bind. destruct x as [e|[]]; [by destruct H2|].
  split; [by left|]. intros ->. apply exec_bind in H2 as (tr3 & o3 & tr4 & -> & H3 & H4).
  apply exec_wrap in H3 as (o & H3 & ->). destruct o as [[]|e|]; [|by destruct H4..].
  apply exec_wrap in H4 as (o & H4 & Ho). destruct o as [[]|e|]; try discriminate Ho.
  intros key [-> |[-> |[]%not_elem_of_nil]%elem_of_cons]%elem_of_cons.
  - destruct (batchDelete_removed _ _ _ _ H3) as (l & Hl & Hd). exists l. split; [set_solver|]. intros c Hc.
    specialize (Hd c Hc). set_solver.
  - destruct (batchDelete_removed _ _ _ _ H4) as (l & Hl & Hd). exists l. split; [set_solver|]. intros c Hc.
    specialize (Hd c Hc). set_solver.
Qed.

Lemma finalizeReleases_removed ns l : forall tr,
  exec (finalizeReleases ns l) tr (ORet []) -> forall release pvc, (release, pvc) ∈ l -> removed ns release pvc tr.
Proof.
  induction l as [|[r0 p0] l IH]; intros tr Hex release pvc Hin; [by apply not_elem_of_nil in Hin|].
  cbn [finalizeReleases] in Hex. apply exec_bind in Hex as (tr1 & o1 & tr2 & -> & H1 & H2).
  apply exec_attempt in H1 as (o & H1 & ->).
  assert (forall r : err + unit, exec (errs ← finalizeReleases ns l; Ret (match r with inl e => e :: errs | inr _ => errs end)) tr2
            (ORet []) -> r = inr tt /\ exec (finalizeReleases ns l) tr2 (ORet [])) as Hrest.
  { intros r (tr3 & o3 & tr4 & -> & H3 & H4)%exec_bind. destruct o3 as [errs|e|]; [|by destruct H4..].
    destruct H4 as [-> [= He]]. rewrite app_nil_r. destruct r as [e|[]]; [done|]. by subst errs. }
  destruct o as [[]|e|]; [..|by destruct H2].
  - destruct (Hrest (inr tt) H2) as [_ H3]. apply elem_of_cons in Hin as [[= -> ->]|Hin].
    + eapply removed_sub; [|by apply finalizeRelease_removed]. set_solver.
    + eapply removed_sub; [|by apply (IH tr2)]. set_solver.
  - by destruct (Hrest (inl e) H2).
Qed.

Lemma exec_deletingRelease b release ic tr m :
  exec (deletingRelease b release ic) tr (ORet m) -> tr = [] /\ m = releases b release ic.
Proof.
  unfold deletingRelease, releases. destruct b; [|intros [-> [= <-]]; by destruct ic].
  destruct ic as [c|]; [|by intros [_ [=]]]. intros [-> Hm]. split; [done|]. by injection Hm.
Qed.

Lemma Finalize_removed mc tr :
  exec (Finalize mc) tr (ORet tt) -> forall release pvc, deletes mc release pvc -> removed (mi_Namespace mc) release pvc tr.
Proof.
  unfold Finalize. intros (t1 & [m1|e|] & t2 & -> & H1 & H)%exec_bind; [|by destruct H..].
  apply exec_deletingRelease in H1 as [-> ->]. apply exec_bind in H as (t3 & [m2|e|] & t4 & -> & H2 & H); [|by destruct H..].
  assert (m2 = streamReleases mc) as ->.
  { destruct (wp_exec_any _ _ _ _ (deletingStream_wp anyAnswer [] mc) H2) as [_ Hr]. by apply Hr. }
  apply exec_bind in H as (t5 & [m3|e|] & t6 & -> & H3 & H); [|by destruct H..]. apply exec_deletingRelease in H3 as [-> ->].
  apply exec_bind in H as (t7 & [m4|e|] & t8 & -> & H4 & H); [|by destruct H..]. apply exec_deletingRelease in H4 as [-> ->].
  change (_ ∪ _ ∪ _ ∪ _) with (deletingReleases mc) in H.
  apply exec_bind in H as (t9 & [errs|e|] & t10 & -> & H5 & H); [|by destruct H..].
  destruct errs as [|e errs]; [|by destruct H as [_ [=]]]. intros release pvc Hd.
  eapply removed_sub; [|by apply (finalizeReleases_removed _ _ _ H5), Finalize_range]. set_solver.
Qed.

Lemma wp_recovering R (p : prog Result) : forall Q : list kwrite -> outcome Result -> Prop,
  wp R p (fun ws o => match o with
                      | OPanic => Q ws (if IsDebug then OPanic else ORet (mkResult 0))
                      | _ => Q ws o
                      end) ->
  wp R (recovering p) Q.
Proof.
  induction p as [a|e| |B q k IH]; intros Q H; cbn [recovering]; [done..| |].
  - by destruct IsDebug.
  - destruct H as [He Hb]. split; intros; apply IH; auto.
Qed.

(** The resource in the cluster is [m]. *)
Definition reads (m : Milvus) (B : Type) (r : kread B) : B -> Prop :=
  match r in kread B' return B' -> Prop with
  | GetMilvus _ _ => fun b => b = m
  | r => labelledClaims _ r
  end.

Lemma wp_weaken (R R' : forall B, kread B -> B -> Prop) {A} (p : prog A) : forall Q,
  (forall B r b, R' B r b -> R B r b) -> wp R p Q -> wp R' p Q.
Proof.
  intros Q HR. revert Q. induction p as [a|e| |B q k IH]; intros Q H; [done..|]. destruct H as [He Hb].
  split; intros; [by apply IH|]. apply IH, Hb. destruct q; [by apply HR|done].
Qed.

Lemma reads_labelled m B r b : reads m B r b -> labelledClaims B r b.
Proof. by destruct r. Qed.

(** The writes of a reconcile before it finalizes. *)
Definition waitingWrite (w : kwrite) : Prop :=
  match w with UpdateMilvusStatus _ | DeleteMilvusForeground _ | ExecKill _ _ _ => True | _ => False end.

Lemma killPods_wp R pods : forall ret, wp R (killPods pods ret) (fun ws _ => Forall waitingWrite ws).
Proof.
  induction pods as [|pod pods IH]; intros ret; cbn [killPods]; [destruct ret; writes_steps|].
  case_match; [|apply IH]. writes_steps; [done|apply IH].
Qed.

Lemma stopped_wp R mc : wp R (CheckMilvusStopped mc) (fun ws _ => Forall waitingWrite ws).
Proof.
  unfold CheckMilvusStopped, listMilvusPods, ExecKillIfTerminating. writes_steps. apply killPods_wp.
Qed.

(** What the calls of a reconcile of the deleted resource [m] satisfy. *)
Definition deletionOk (claims : list Claim) (m : Milvus) (tr : list event) : Prop :=
  Forall (fun w => waitingWrite w \/ mayDelete claims m w \/ exists m', w = UpdateMilvus m') (writes tr) /\
  forall tr1 m' x tr2, tr = tr1 ++ Ev (Write (UpdateMilvus m')) x :: tr2 ->
    (mi_Meta m' = mi_Meta (RemoveFinalizer m MilvusFinalizerName) /\ mi_Spec m' = mi_Spec m) /\
    forall release pvc, deletes m release pvc -> removed (mi_Namespace m) release pvc tr1.

Definition deletionWrite (claims : list Claim) (m : Milvus) (w : kwrite) : Prop :=
  waitingWrite w \/ mayDelete claims m w \/ exists m', w = UpdateMilvus m'.

Lemma finalized_wp claims m : NoDup (claimKey <$> claims) ->
  wp (listedClaims claims) (finalizeWhenStopped m) (fun ws _ => Forall (deletionWrite claims m) ws).
Proof.
  intros Hnd. unfold finalizeWhenStopped.
  apply wp_then; [eapply wp_mono; [|apply stopped_wp]; intros ws o Hws; eapply Forall_impl; [exact Hws|]; by left|].
  intros stopped. destruct (negb stopped); [writes_steps; by left|]. case_match; [|apply wp_ret_writes].
  apply wp_then; [eapply wp_mono; [|by apply (Finalize_wp claims)]; intros ws o Hws; eapply Forall_impl; [exact Hws|]; by right; left|].
  intros _. apply wp_then; [apply wp_one_write; right; right; eauto|]. intros _. apply wp_ret_writes.
Qed.

(** Requests that do not update the resource. *)
Definition noUpdate (B : Type) (q : kreq B) : Prop := match q with Write (UpdateMilvus _) => False | _ => True end.

Lemma calls_of_writes {A} (p : prog A) (P : kwrite -> Prop) :
  wp anyAnswer p (fun ws _ => Forall P ws) -> (forall m, ~ P (UpdateMilvus m)) -> forall tr o,
  exec p tr o -> Forall (fun ev => match ev with Ev q _ => noUpdate _ q end) tr.
Proof.
  intros Hwp HP tr o Hex. pose proof (wp_exec_any _ _ _ _ Hwp Hex) as Hws. clear Hwp Hex.
  induction tr as [|[B q x] tr IH]; [constructor|]. unfold writes in Hws. rewrite fmap_cons in Hws. simpl in Hws.
  apply Forall_app in Hws as [Hw Hws]. constructor; [|by apply IH].
  destruct q as [B r|w]; [done|]. apply Forall_cons in Hw as [Hw _]. destruct w; try done. destruct (HP m Hw).
Qed.

(** Where an update is found after calls that are none. *)
Lemma update_after ta tb tr1 m x tr2 :
  Forall (fun ev => match ev with Ev q _ => noUpdate _ q end) ta ->
  ta ++ tb = tr1 ++ Ev (Write (UpdateMilvus m)) x :: tr2 ->
  exists t, tr1 = ta ++ t /\ tb = t ++ Ev (Write (UpdateMilvus m)) x :: tr2.
Proof.
  revert tr1. induction ta as [|ev ta IH]; intros tr1 Hall Heq; [by exists tr1|].
  apply Forall_cons in Hall as [Hev Hall]. destruct tr1 as [|ev' tr1]; simpl in Heq; injection Heq as Hh Ht.
  - by rewrite Hh in Hev.
  - destruct (IH tr1 Hall Ht) as (t & -> & ->). exists t. by rewrite Hh.
Qed.

Lemma Finalize_calls mc : calls noUpdate (Finalize mc).
Proof.
  assert (forall ns l, calls noUpdate (finalizeReleases ns l)) as Hr.
  { intros ns l. induction l as [|[release pvc] l IH]; cbn [finalizeReleases]; [done|].
    unfold finalizeRelease, batchDeletePVC, deleteNamed. calls_steps; try done.
    all: match goal with |- calls _ (forEach _ ?l) => induction l; cbn [forEach]; calls_steps; done end. }
  unfold Finalize, deletingRelease, deletingStream, deleteDataPVC, deletingRelease. cbv zeta. calls_steps; try done; apply Hr.
Qed.

(** The update of the resource comes last, when all is removed. *)
Lemma finalized_update m tr o tr1 m' x tr2 :
  exec (finalizeWhenStopped m) tr o -> tr = tr1 ++ Ev (Write (UpdateMilvus m')) x :: tr2 ->
  m' = RemoveFinalizer m MilvusFinalizerName /\
  forall release pvc, deletes m release pvc -> removed (mi_Namespace m) release pvc tr1.
Proof.
  intros (ta & oa & tb & -> & Ha & Hb)%exec_bind Heq.
  assert (Forall (fun ev => match ev with Ev q _ => noUpdate _ q end) ta) as Hna
    by (eapply (calls_of_writes _ waitingWrite); [apply stopped_wp|by intros ? ?|exact Ha]).
  destruct (update_after _ _ _ _ _ _ Hna Heq) as (t & -> & Htb). clear Heq.
  destruct oa as [stopped|e|]; [|destruct Hb as [-> _]; by destruct t..].
  destruct (negb stopped).
  { apply (calls_exec noUpdate) in Hb; [|calls_steps; done]. rewrite Htb in Hb. apply Forall_app in Hb as [_ Hb].
    by apply Forall_cons in Hb as [? _]. }
  case_match; [|destruct Hb as [-> _]; by destruct t].
  apply exec_bind in Hb as (tf & oz & tu & -> & Hf & Hu).
  pose proof (calls_exec noUpdate _ _ _ (Finalize_calls m) Hf) as Hnf.
  destruct (update_after _ _ _ _ _ _ Hnf Htb) as (t' & -> & Htu).
  destruct oz as [[]|e|]; [|destruct Hu as [-> _]; by destruct t'..].
  apply exec_bind in Hu as (tw & ow & tn & -> & (y & -> & ->)%exec_write & Hn).
  assert (tn = []) as -> by (destruct y; by destruct Hn). destruct t' as [|ev t']; simpl in Htu; [|by destruct t'].
  apply (f_equal writes) in Htu. unfold writes in Htu. simpl in Htu. injection Htu as Htu _.
  split; [done|]. intros release pvc Hd.
  eapply removed_sub; [|by eapply Finalize_removed]. set_solver.
Qed.

(** The status is marked first. *)
Lemma mark_wp R m (Q : list kwrite -> Prop) :
  (forall ws ws', Forall waitingWrite ws -> Q ws' -> Q (ws ++ ws')) -> Q [] ->
  (forall m1, mi_Meta m1 = mi_Meta m -> mi_Spec m1 = mi_Spec m -> wp R (finalizeWhenStopped m1) (fun ws _ => Q ws)) ->
  wp R (reconcileDeleted m) (fun ws _ => Q ws).
Proof.
  intros Happ Hnil Hf. unfold reconcileDeleted, markDeleting. apply wp_bind.
  case_bool_decide; [by apply wp_ret, Hf|]. apply wp_bind, wp_write.
  - intros e. rewrite <- (app_nil_r [_]). apply Happ; [by apply Forall_singleton|done].
  - apply wp_ret. eapply wp_mono; [|by apply Hf]. intros ws o Hws. apply (Happ [_]); [by apply Forall_singleton|exact Hws].
Qed.

Lemma deletes_frame m m1 : mi_Meta m1 = mi_Meta m -> mi_Spec m1 = mi_Spec m ->
  forall claims w, (deletionWrite claims m1 w <-> deletionWrite claims m w).
Proof. destruct m, m1. simpl. by intros -> ->. Qed.

Lemma deleted_wp (R : forall B, kread B -> B -> Prop) m ns name (Q : list kwrite -> Prop) :
  (forall m', R _ (GetMilvus ns name) m' -> m' = m) -> is_Some (om_DeletionTimestamp (mi_Meta m)) -> Q [] ->
  wp R (reconcileDeleted m) (fun ws _ => Q ws) -> wp R (milvus_Reconcile E ns name) (fun ws _ => Q ws).
Proof.
  intros HR [t Ht] Hnil Hwp. unfold milvus_Reconcile. apply wp_recovering, wp_bind, wp_attempt, wp_read.
  - intros e. case_match; [by apply wp_ret|by apply wp_fail].
  - intros m' ->%HR. rewrite Ht. eapply wp_mono; [|exact Hwp]. by intros ws [a|e|].
Qed.

(** The resource in the cluster is [m] and the claims are [claims]. *)
Definition clusterReads (m : Milvus) (claims : list Claim) (B : Type) (r : kread B) : B -> Prop :=
  match r in kread B' return B' -> Prop with
  | GetMilvus _ _ => fun b => b = m
  | r => listedClaims claims _ r
  end.

Lemma exec_recovering (p : prog Result) : forall tr o, exec (recovering p) tr o -> exists o', exec p tr o'.
Proof.
  induction p as [a|e| |B q k IH]; intros tr o Hex; simpl in Hex.
  1-2: by exists o. { exists OPanic. destruct IsDebug; by destruct Hex as [-> _]. }
  destruct Hex as (x & tr' & -> & Hex). destruct (IH x tr' o Hex) as [o' H]. exists o', x, tr'. done.
Qed.

(** The part of an execution that finalizes, after calls that do not update. *)
Lemma exec_deleted ns name m claims tr o :
  is_Some (om_DeletionTimestamp (mi_Meta m)) ->
  exec (milvus_Reconcile E ns name) tr o -> Forall (event_ok (clusterReads m claims)) tr ->
  Forall (fun ev => match ev with Ev q _ => noUpdate _ q end) tr \/
  exists m1 ta tb o', tr = ta ++ tb /\ Forall (fun ev => match ev with Ev q _ => noUpdate _ q end) ta /\
    mi_Meta m1 = mi_Meta m /\ mi_Spec m1 = mi_Spec m /\ exec (finalizeWhenStopped m1) tb o'.
Proof.
  intros [t Ht] [o1 Hex]%exec_recovering Hok. apply exec_bind in Hex as (tr1 & o2 & tr2 & -> & H1 & H2).
  apply exec_attempt in H1 as (o3 & (y & -> & ->)%exec_read & ->). apply Forall_cons in Hok as [Hy _].
  destruct y as [e|m0]; simpl in H2, Hy.
  { left. constructor; [done|]. destruct e; destruct H2 as [-> _]; constructor. }
  subst m0. rewrite Ht in H2. apply exec_bind in H2 as (ta & oa & tb & -> & Ha & Hb). unfold markDeleting in Ha.
  assert (Forall (fun ev => match ev with Ev q _ => noUpdate _ q end) ta) as Hna
    by (eapply (calls_exec noUpdate); [|exact Ha]; cbv zeta; calls_steps; done).
  destruct oa as [m1|e|]; [|destruct Hb as [-> _]; left; rewrite app_nil_r; by constructor..].
  right. exists m1, (Ev (Read (GetMilvus ns name)) (inr m) :: ta), tb, o1. split; [done|]. split; [by constructor|].
  enough (mi_Meta m1 = mi_Meta m /\ mi_Spec m1 = mi_Spec m) by tauto.
  revert Ha. case_bool_decide; [by intros [_ [= ->]]|].
  intros (t1 & o4 & t2 & _ & _ & H4)%exec_bind. destruct o4 as [[]|e|]; destruct H4 as [_ [= ->]]. done.
Qed.

(** C8. Deleting an instance deletes what it asks for and nothing else: in every
    reconcile of a deleted resource the releases that are uninstalled are those
    of in-cluster dependencies with the policy Delete, and the claims that are
    deleted are, of the claims in the cluster, those labelled by such a release
    with claim deletion, or the data claim of a built-in queue that asks for it.
    The resource is updated only to remove the operator's finalizer, and only
    after calls that succeeded: every such release was uninstalled, and with
    claim deletion its claims were listed by both labels and each deleted. *)
Theorem deletion_follows_policy ns name m claims tr o :
  is_Some (om_DeletionTimestamp (mi_Meta m)) -> NoDup (claimKey <$> claims) ->
  exec (milvus_Reconcile E ns name) tr o -> Forall (event_ok (clusterReads m claims)) tr -> deletionOk claims m tr.
Proof.
  intros Hd Hnd Hex Hok. split.
  - revert Hex Hok.
    apply (wp_exec (clusterReads m claims) (milvus_Reconcile E ns name) (fun ws _ => Forall (deletionWrite claims m) ws)).
    apply (deleted_wp (clusterReads m claims) m); [done..|].
    apply mark_wp; [intros ws ws' Hws Hws'; apply Forall_app; split; [|done]; eapply Forall_impl; [exact Hws|]; by left|done|].
    intros m1 Hmeta Hspec. apply (wp_weaken (listedClaims claims)); [by intros B []|].
    eapply wp_mono; [|by apply finalized_wp]. intros ws _o Hws. eapply Forall_impl; [exact Hws|].
    intros w. by apply deletes_frame.
  - intros tr1 m' x tr2 ->.
    destruct (exec_deleted _ _ _ _ _ _ Hd Hex Hok) as [Hno|(m1 & ta & tb & o' & Heq & Hna & Hmeta & Hspec & Hf)].
    + apply Forall_app in Hno as [_ Hno]. by apply Forall_cons in Hno as [? _].
    + destruct (update_after _ _ _ _ _ _ Hna (eq_sym Heq)) as (t & -> & ->).
      destruct (finalized_update _ _ _ _ _ _ _ Hf eq_refl) as [-> Hrem]. split; [destruct m, m1; simpl in *; by subst|]. intros release pvc Hdel.
      eapply removed_sub; [|replace (mi_Namespace m) with (mi_Namespace m1) by (unfold mi_Namespace; by rewrite Hmeta);
        apply Hrem; revert Hdel; destruct m, m1; simpl in *; by subst]. set_solver.
Qed.

(** The resource in the cluster is [m] and some of its pods are there. *)
Definition readsPods (m : Milvus) (B : Type) (r : kread B) : B -> Prop :=
  match r in kread B' return B' -> Prop with
  | GetMilvus _ _ => fun b => b = m
  | ListPods ns labels => fun pods => (ns, labels) = (mi_Namespace m, NewAppLabels (mi_Name m)) -> pods <> []
  | _ => fun _ => True
  end.

Lemma waits_wp m m1 :
  mi_Namespace m1 = mi_Namespace m -> mi_Name m1 = mi_Name m ->
  wp (readsPods m) (finalizeWhenStopped m1) (fun ws _ => Forall waitingWrite ws).
Proof.
  intros Hns Hname. unfold finalizeWhenStopped, CheckMilvusStopped, listMilvusPods. rewrite Hns, Hname.
  apply wp_bind, wp_bind, wp_read; [by constructor|]. intros pods Hpods. destruct pods as [|pod pods]; [by destruct Hpods|].
  apply wp_bind. eapply wp_mono; [|apply killPods_wp]. intros ws [[]|e|] Hws; [|done..].
  apply wp_ret. rewrite app_nil_l, app_nil_r. simpl.
  eapply (wp_mono _ _ (fun ws' _ => Forall waitingWrite ws')); [intros ws' o Hws'; by apply Forall_app|].
  by writes_steps.
Qed.

(** C17. Nothing of a deleted instance is finalized while it has pods: such a
    reconcile uninstalls no release, deletes no claim and keeps the finalizer; it
    only marks the status, asks for the dependents to be deleted first and kills
    pods that are terminating. *)
Theorem deletion_waits ns name m tr o :
  is_Some (om_DeletionTimestamp (mi_Meta m)) ->
  exec (milvus_Reconcile E ns name) tr o -> Forall (event_ok (readsPods m)) tr -> Forall waitingWrite (writes tr).
Proof.
  intros Hd Hex Hok. revert Hex Hok.
  apply (wp_exec (readsPods m) (milvus_Reconcile E ns name) (fun ws _ => Forall waitingWrite ws)).
  apply (deleted_wp (readsPods m) m); [done..|constructor|].
  apply mark_wp; [intros; by apply Forall_app|constructor|]. intros m1 Hmeta _.
  apply waits_wp; unfold mi_Namespace, mi_Name; by rewrite Hmeta.
Qed.
End Deletion.

(** ** What defaulting keeps *)

Section Kept.
Context {SV : Semver} {US : Unstructured} (provider : gmap string (list (string * json))).

(** The annotations that defaulting writes. *)
Definition defaultedAnnotations : list string :=
  [DependencyValuesLegacySyncedAnnotation; PodServiceLabelAddedAnnotation; OldAnnotationCurrentQueryNodeGroupID;
   DependencyValuesMergedAnnotation; GetComponentCurrentGroupIDLabel "querynode"].

Section Key.
Context (k : string) (Hk : k ∉ defaultedAnnotations).

Definition sameAt (r r' : Milvus) : Prop :=
  mi_Annotations r' !! k = mi_Annotations r !! k /\ mi_Status r' = mi_Status r /\
  mi_Name r' = mi_Name r /\ (mi_Namespace r <> "" -> mi_Namespace r' = mi_Namespace r).

Lemma sameAt_trans r r' r'' : sameAt r r' -> sameAt r' r'' -> sameAt r r''.
Proof.
  intros (Ha & Hs & Hn & Hns) (Ha' & Hs' & Hn' & Hns'). split_and!; [congruence..|].
  intros H. rewrite Hns'; rewrite Hns; auto.
Qed.

Lemma sameAt_insert r k' v : k' ∈ defaultedAnnotations -> sameAt r (set_mi_Annotations r (<[k' := v]> (mi_Annotations r))).
Proof.
  intros Hk'. split; [|done]. simpl. apply lookup_insert_ne. intros ->. done.
Qed.

Lemma sameAt_spec r s : sameAt r (set_mi_Spec r s).
Proof. done. Qed.

Lemma merged_same r : sameAt r (setDefaultValueMerged r).
Proof. apply sameAt_insert. by repeat constructor. Qed.

Lemma values_same r d ic : sameAt r (fst (defaultValuesByDependency provider r d ic)).
Proof.
  unfold defaultValuesByDependency.
  assert (sameAt r (if isLegacy r then setDefaultValueMerged r else r)) as H by (destruct (isLegacy r); [apply merged_same|done]).
  cbv zeta. destruct (defaultValuesMerged _); exact H.
Qed.

(** The values are merged, then only the spec changes. *)
Ltac merge_then :=
  cbv zeta;
  match goal with
  | |- context [defaultValuesByDependency provider ?r ?d ?ic] =>
      let H := fresh in pose proof (values_same r d ic) as H;
      destruct (defaultValuesByDependency provider r d ic); exact H
  end.

Lemma DefaultDependencies_same r : sameAt r (DefaultDependencies provider r).
Proof.
  unfold DefaultDependencies.
  assert (forall r, sameAt r (defaultEtcd provider r)) as H1.
  { intros r0. unfold defaultEtcd. case_match; [done|]. merge_then. }
  assert (forall r, sameAt r (defaultMsgStream provider r)) as H2.
  { intros r0. unfold defaultMsgStream, setDefaultMsgStreamConfigs, defaultKafka, defaultPulsar.
    case_match; try done; (case_match; [done|]); merge_then. }
  assert (forall r, sameAt r (defaultStorage provider r)) as H3.
  { intros r0. unfold defaultStorage. cbv zeta. case_match; [done|]. merge_then. }
  assert (forall r, sameAt r (defaultTei r)) as H4 by (intros r0; unfold defaultTei; by case_match).
  eapply sameAt_trans; [apply H1|]. eapply sameAt_trans; [apply H2|]. eapply sameAt_trans; [apply H3|].
  eapply sameAt_trans; [apply H4|]. apply merged_same.
Qed.

Lemma DefaultMeta_same Version r : sameAt r (DefaultMeta Version r).
Proof.
  unfold DefaultMeta. cbv zeta. set (r0 := mkMilvus _ _ _). 
  assert (sameAt r r0) as H0.
  { split_and!; [done..|]. intros H. unfold r0, mi_Namespace, setDefaultStr. simpl. by rewrite bool_decide_eq_false_2. }
  clearbody r0. set (r1 := if bool_decide (mget (mi_Labels r0) OperatorVersionLabel = "") then _ else _).
  assert (sameAt r0 r1) as H1.
  { unfold r1. case_match; [|done]. case_match; [|done]. split; [|done]. simpl. apply lookup_insert_ne.
    intros <-. apply Hk. by repeat constructor. }
  clearbody r1. set (r2 := if IsFirstTimeStarting r1 then _ else _).
  assert (sameAt r1 r2) as H2 by (unfold r2; case_match; [apply sameAt_insert; by repeat constructor|done]).
  clearbody r2. eapply sameAt_trans; [exact H0|]. eapply sameAt_trans; [exact H1|]. eapply sameAt_trans; [exact H2|].
  case_match; [done|]. eapply sameAt_trans; [|apply sameAt_insert; by repeat constructor].
  apply sameAt_insert. by repeat constructor.
Qed.

Lemma Default_same Version r r' : Default provider Version r = Some r' -> sameAt r r'.
Proof.
  unfold Default. cbv zeta. set (r0 := set_mi_Spec _ _). set (components := DefaultComponents _). clearbody components.
  assert (sameAt r r0) as H0 by (subst r0; apply (DefaultMeta_same Version)). clearbody r0.
  destruct components as [spec|]; [|done]. intros H. set (r1 := DefaultDependencies provider (set_mi_Spec r0 spec)).
  assert (sameAt r0 r1) as H1 by (eapply sameAt_trans; [apply sameAt_spec|apply DefaultDependencies_same]).
  change (Some (set_mi_Spec r1 (DefaultConf (mi_Spec r1))) = Some r') in H. apply (inj Some) in H as <-. clearbody r1.
  eapply sameAt_trans; [exact H0|]. eapply sameAt_trans; [exact H1|]. apply sameAt_spec.
Qed.
End Key.
End Kept.

(** ** Reconciling a live resource *)

Section Live.
Context {SV : Semver} {US : Unstructured} {IS : IntStr} {KL : KubeLib} {DC : Decode} {DK : DecodeKafka}
  {JM : JsonMarshal} {OI : OperatorImage} {CL : ClaimLib} {KM : KubeMessages} {PR : Process} {MO : MapOrder}
  {CF : ConfigLib} {DH : DecodeHPA}.
Context (E : Environment).

Lemma live_wp (R : forall B, kread B -> B -> Prop) m ns name (Q : list kwrite -> Prop) :
  (forall m', R _ (GetMilvus ns name) m' -> m' = m) -> om_DeletionTimestamp (mi_Meta m) = None -> Q [] ->
  wp R (reconcileLive E m) (fun ws _ => Q ws) -> wp R (milvus_Reconcile E ns name) (fun ws _ => Q ws).
Proof.
  intros HR Ht Hnil Hwp. unfold milvus_Reconcile. apply wp_recovering, wp_bind, wp_attempt, wp_read.
  - intros e. case_match; [by apply wp_ret|by apply wp_fail].
  - intros m' ->%HR. rewrite Ht. eapply wp_mono; [|exact Hwp]. by intros ws [a|e|].
Qed.

(** A paused resource is left alone: once it has the finalizer, a reconcile of
    a live resource with the pause annotation writes nothing. *)
Theorem paused_writes_nothing ns name m tr o :
  om_DeletionTimestamp (mi_Meta m) = None -> ContainsFinalizer m MilvusFinalizerName = true ->
  mi_Annotations m !! PauseReconcileAnnotation = Some TrueStr ->
  exec (milvus_Reconcile E ns name) tr o -> Forall (event_ok (reads m)) tr -> writes tr = [].
Proof.
  intros Ht Hfin Hpause Hex Hok. revert Hex Hok.
  apply (wp_exec (reads m) (milvus_Reconcile E ns name) (fun ws _ => ws = [])).
  apply (live_wp (reads m) m ns name (fun ws => ws = [])); [done..|]. unfold reconcileLive, ensureFinalizer. rewrite Hfin.
  apply wp_bind, wp_ret, wp_bind, wp_wrap. unfold VerifyCR.
  assert (forall R p, (p = Ret tt \/ exists e, p = Fail e) -> wp R p (fun ws _ => ws = [])) as Hq.
  { intros R p [->|[e ->]]; [by apply wp_ret|by apply wp_fail]. }
  eapply wp_mono; [|apply Hq; repeat case_match; eauto].
  intros ws [[]|e|] ->; [|done..]. apply wp_bind, wp_deref; [done|]. intros d Hd.
  destruct (Default_same (e_provider E) PauseReconcileAnnotation ltac:(vm_compute; set_solver) (e_Version E) m d Hd) as [Hp _].
  rewrite bool_decide_eq_true_2 by (unfold mget; by rewrite Hp, Hpause). by apply wp_ret.
Qed.

(** ** Workloads wait for the dependencies *)

(** The releases of the dependencies of an instance. *)
Definition ofRelease (m : Milvus) (ns release : string) : Prop :=
  ns = mi_Namespace m /\ exists kind, release = releaseOf m kind.

(** The writes a reconcile may make that leave the objects of Milvus itself alone:
    to the resource and its status, of the releases of its dependencies, of the
    stateful set and the claims of such a release while they are resized, of the
    copies that are saved meanwhile; and the killing of pods that are terminating. *)
Definition leavesWorkloads (m : Milvus) (w : kwrite) : Prop :=
  match w with
  | UpdateMilvus _ | UpdateMilvusStatus _ | ExecKill _ _ _ | CreateRevision _ | DeleteRevision _ _ => True
  | HelmInstall ns release _ _ | HelmUpdate ns release _ _ => ofRelease m ns release
  | CreateStatefulSet s => ofRelease m (om_Namespace (sts_Meta s)) (om_Name (sts_Meta s))
  | OrphanDeleteStatefulSet ns name => ofRelease m ns name
  | UpdateClaim c =>
      exists release i, ofRelease m (om_Namespace (clm_Meta c)) release /\
        om_Name (clm_Meta c) = "data-" +:+ release +:+ "-" +:+ Itoa i
  | _ => False
  end.

(** The resource in the cluster is [m], an object has the name under which it was
    asked for, and a stateful set was saved under its own name. *)
Definition namedReads (m : Milvus) (B : Type) (r : kread B) : B -> Prop :=
  match r in kread B' return B' -> Prop with
  | GetMilvus _ _ => fun b => b = m
  | GetStatefulSet ns name => fun s => om_Namespace (sts_Meta s) = ns /\ om_Name (sts_Meta s) = name
  | GetClaim ns name => fun c => claimKey c = (ns, name)
  | GetRevision ns name => fun r =>
      forall s, cr_Data r = SavedStatefulSet s -> om_Namespace (sts_Meta s) = ns /\ om_Name (sts_Meta s) +:+ "-old-sts" = name
  | _ => fun _ => True
  end.

(** [errorf] keeps what is known of the result. *)
Lemma wp_errorf {A} R msg (p : prog A) (P : kwrite -> Prop) (V : A -> Prop) :
  wp R p (fun ws o => Forall P ws /\ returns V ws o) -> wp R (errorf msg p) (fun ws o => Forall P ws /\ returns V ws o).
Proof.
  intros Hp. unfold errorf. apply wp_bind, wp_attempt. eapply wp_mono; [|exact Hp].
  intros ws [a|e|] [Hws Hv]; [apply wp_ret|apply wp_fail|]; rewrite ?app_nil_r; (split; [done|]); try done.
Qed.

Lemma wp_errorf_writes {A} R msg (p : prog A) (P : kwrite -> Prop) :
  wp R p (fun ws _ => Forall P ws) -> wp R (errorf msg p) (fun ws _ => Forall P ws).
Proof.
  intros Hp. eapply wp_mono; [|apply (wp_errorf R msg p P (fun _ => True)); eapply wp_mono; [|exact Hp]]; [by intros ws o [? _]|].
  done.
Qed.

(** The value of a first part is handed on. *)
Lemma wp_value {A B} R (p : prog A) (f : A -> prog B) (P : kwrite -> Prop) (V : A -> Prop) :
  wp R p (fun ws o => Forall P ws /\ returns V ws o) -> (forall a, V a -> wp R (f a) (fun ws _ => Forall P ws)) ->
  wp R (prog_bind f p) (fun ws _ => Forall P ws).
Proof.
  intros Hp Hf. apply wp_bind. eapply wp_mono; [|exact Hp]. intros ws [a|e|] [Hws Hv]; [|done..].
  eapply wp_mono; [|apply Hf; by apply Hv]. intros ws' o Hws'. by apply Forall_app.
Qed.

Lemma wp_read_value {B} (R : forall B, kread B -> B -> Prop) (r : kread B) (P : kwrite -> Prop) :
  wp R (read r) (fun ws o => Forall P ws /\ returns (R _ r) ws o).
Proof. apply wp_read; [by split|]. intros b Hb. split; [constructor|]. by intros ? [= <-]. Qed.

Section Dependencies.
Context (m : Milvus).

Lemma wait_leaves {B} n msg (get : kread B) P : wp (namedReads m) (waitForDeletion n msg get) (fun ws _ => Forall P ws).
Proof. induction n as [|n IH]; cbn [waitForDeletion]; writes_steps; exact IH. Qed.

Lemma create_leaves sts q : ofRelease m (om_Namespace (sts_Meta sts)) (om_Name (sts_Meta sts)) ->
  wp (namedReads m) (createNewStatefulSet sts q) (fun ws _ => Forall (leavesWorkloads m) ws).
Proof. intros H. apply wp_errorf_writes, wp_one_write. exact H. Qed.

Lemma resize_leaves ns release q count : ofRelease m ns release -> forall from,
  wp (namedReads m) (resizeClaims ns release q from count) (fun ws _ => Forall (leavesWorkloads m) ws).
Proof.
  intros Hr. induction count as [|count IH]; intros from; cbn [resizeClaims]; [apply wp_ret_writes|].
  eapply wp_value; [apply wp_errorf, wp_read_value|]. intros pvc Hpvc.
  apply wp_then; [|intros _; apply IH]. apply wp_errorf_writes, wp_one_write.
  injection Hpvc as Hns Hname. exists release, (Z.of_nat from). simpl. by rewrite Hns, Hname.
Qed.

Lemma current_leaves ns release : ofRelease m ns release ->
  wp (namedReads m) (currentStatefulSet ns release (release +:+ "-old-sts"))
    (fun ws o => Forall (leavesWorkloads m) ws /\
       returns (fun cur => forall s, cur = Some s -> om_Namespace (sts_Meta s) = ns /\ om_Name (sts_Meta s) = release) ws o).
Proof.
  intros Hr. unfold currentStatefulSet. apply wp_bind, wp_attempt, wp_read.
  2: { intros s Hs. apply wp_ret. split; [constructor|]. by intros ? [= <-] ? [= <-]. }
  intros e. case_match; [|by apply wp_fail]. apply wp_bind, wp_attempt. unfold GetSavedObject.
  apply wp_bind, wp_wrap, wp_read.
  - intros e'. case_match; [apply wp_ret|apply wp_fail]; (split; [constructor|]); try done. by intros ? [= <-].
  - intros r Hr'. apply wp_ret. simpl in Hr'. destruct (cr_Data r) as [l|d|s]; try (by apply wp_fail).
    destruct (Hr' s eq_refl) as [Hns Hname]. apply app_cancel_r in Hname.
    apply wp_bind. eapply wp_mono; [|apply create_leaves; by rewrite Hns, Hname].
    intros ws [[]|e'|] Hws; [apply wp_ret; rewrite ?app_nil_r|..]; (split; [done|]); try done. by intros ? [= <-] ? [= <-].
Qed.

Lemma forget_leaves ns name : wp (namedReads m) (forgetSaved ns name) (fun ws _ => Forall (leavesWorkloads m) ws).
Proof. unfold forgetSaved. writes_steps. exact I. Qed.

Lemma save_leaves mc name data : wp (namedReads m) (SaveObject mc name data) (fun ws _ => Forall (leavesWorkloads m) ws).
Proof. unfold SaveObject, CreateRevisionObject, CreateObject. cbv zeta. writes_steps; exact I. Qed.

Lemma pvcs_leaves ns release size mc : ofRelease m ns release ->
  wp (namedReads m) (reconcilePVCs (e_ParseQuantity E) (e_polls E) ns release size mc) (fun ws _ => Forall (leavesWorkloads m) ws).
Proof.
  intros Hr. unfold reconcilePVCs. cbv zeta. case_match; [|apply wp_fail_writes].
  eapply wp_value; [by apply current_leaves|]. intros [cur|] Hcur; [|apply wp_ret_writes].
  destruct (Hcur cur eq_refl) as [Hns Hname]. case_match; [apply wp_ret_writes|].
  apply wp_then; [apply wp_deref_writes|intros replicas].
  apply wp_then; [by apply resize_leaves|intros _]. apply wp_then; [apply forget_leaves|intros _].
  apply wp_then; [apply wp_errorf_writes, wait_leaves|intros _].
  apply wp_then; [apply wp_errorf_writes, save_leaves|intros _].
  apply wp_then; [by apply wp_errorf_writes, wp_one_write|intros _].
  apply wp_then; [apply wp_errorf_writes, wait_leaves|intros _]. apply create_leaves. simpl. by rewrite Hns, Hname.
Qed.

Lemma helm_leaves request mc : ofRelease m (rq_Namespace request) (rq_ReleaseName request) ->
  wp (namedReads m) (helm_Reconcile (e_ParseQuantity E) (e_polls E) request mc) (fun ws _ => Forall (leavesWorkloads m) ws).
Proof.
  intros Hr. unfold helm_Reconcile, setInitialize, sumProg. cbv zeta.
  writes_steps; try exact Hr; by apply pvcs_leaves.
Qed.

(** A resource under the same name. *)
Definition sameName (mc : Milvus) : Prop := mi_Name mc = mi_Name m /\ mi_Namespace mc = mi_Namespace m.

Definition chartName (kind : DependencyKind) : string :=
  match kind with
  | DependencyKindEtcd => "etcd" | DependencyKindStorage => "minio" | DependencyKindPulsar => "pulsar"
  | DependencyKindKafka => "kafka" | DependencyKindTei => "tei"
  end.

Lemma request_release mc kind chart request :
  sameName mc -> chart = chartName kind ->
  GetChartRequest mc kind chart = Some request -> ofRelease m (rq_Namespace request) (rq_ReleaseName request).
Proof.
  intros [Hn Hns] ->. unfold GetChartRequest. destruct (inClusterOf _ _) as [ic|]; [|done]. intros [= <-].
  split; [exact Hns|]. exists kind. unfold releaseOf. cbn [rq_ReleaseName]. rewrite Hn. by destruct kind; try case_match.
Qed.

Lemma release_leaves mc kind chart :
  sameName mc -> chart = chartName kind ->
  wp (namedReads m) (request ← deref (GetChartRequest mc kind chart); helm_Reconcile (e_ParseQuantity E) (e_polls E) request mc)
    (fun ws _ => Forall (leavesWorkloads m) ws).
Proof.
  intros Hmc Hc. apply wp_bind, wp_deref; [constructor|]. intros request Hq.
  apply helm_leaves. by eapply request_release.
Qed.

Lemma version_leaves mc : sameName mc ->
  wp (namedReads m) (ensureEtcdChartVersion mc) (fun ws o => Forall (leavesWorkloads m) ws /\ returns sameName ws o).
Proof.
  intros Hmc. apply wp_conj; unfold ensureEtcdChartVersion.
  - writes_steps; exact I.
  - case_match; [|by apply wp_fail]. case_match; [apply wp_ret; by intros ? [= <-]|]. cbv zeta.
    apply wp_returns_bind. intros ?. apply wp_returns_bind. intros ?. apply wp_returns_bind. intros _.
    apply wp_ret. by intros ? [= <-].
Qed.

Lemma etcd_leaves mc : sameName mc ->
  wp (namedReads m) (ReconcileEtcd (e_ParseQuantity E) (e_polls E) mc) (fun ws _ => Forall (leavesWorkloads m) ws).
Proof.
  intros Hmc. unfold ReconcileEtcd. case_match; [apply wp_ret_writes|].
  eapply wp_value; [by apply version_leaves|]. intros mc' Hmc'. by apply release_leaves.
Qed.

Lemma stream_leaves mc : sameName mc ->
  wp (namedReads m) (ReconcileMsgStream (e_ParseQuantity E) (e_polls E) mc) (fun ws _ => Forall (leavesWorkloads m) ws).
Proof.
  intros Hmc. unfold ReconcileMsgStream, ReconcileKafka, ReconcilePulsar.
  repeat case_match; try apply wp_ret_writes; by apply release_leaves.
Qed.

Lemma minio_leaves mc : sameName mc ->
  wp (namedReads m) (ReconcileMinio (e_ParseQuantity E) (e_polls E) mc) (fun ws _ => Forall (leavesWorkloads m) ws).
Proof.
  intros Hmc. unfold ReconcileMinio. case_match; [apply wp_ret_writes|].
  apply wp_bind, wp_deref; [constructor|]. intros request Hq.
  pose proof (request_release mc DependencyKindStorage "minio" request Hmc eq_refl Hq) as Hr.
  apply wp_then; [apply wp_quiet_read|intros found].
  apply wp_value with (V := fun q => ofRelease m (rq_Namespace q) (rq_ReleaseName q)); [|by intros q; apply helm_leaves].
  apply wp_conj; [writes_steps|]. destruct found; [|apply wp_ret; by intros ? [= <-]].
  apply wp_returns_bind. intros version. case_match; [|apply wp_ret; by intros ? [= <-]].
  apply wp_returns_bind. intros ic. apply wp_ret. by intros ? [= <-].
Qed.

Lemma tei_leaves mc : sameName mc ->
  wp (namedReads m) (ReconcileTei (e_ParseQuantity E) (e_polls E) mc) (fun ws _ => Forall (leavesWorkloads m) ws).
Proof. intros Hmc. unfold ReconcileTei. case_match; [apply wp_ret_writes|]. by apply release_leaves. Qed.

(** The dependencies are not ready, and no upgrade is stopping the instance. *)
Definition waiting (mc : Milvus) : Prop :=
  IsDependencyReady (st_Conditions (mi_Status mc)) = false /\ isUpgradeStopping mc = false.

Lemma all_leaves mc : waiting mc -> sameName mc ->
  wp (namedReads m) (ReconcileAll E mc) (fun ws _ => Forall (leavesWorkloads m) ws).
Proof.
  intros [Hdep Hup] Hmc. unfold ReconcileAll. apply wp_wrap_writes, callsIn_wp, callsIn_Run.
  repeat (apply Forall_cons; split); [..|constructor]; apply wp_callsIn;
    [by apply etcd_leaves|by apply stream_leaves|by apply minio_leaves|by apply tei_leaves|].
  unfold ReconcileMilvus. rewrite Hup. apply wp_bind, wp_ret. rewrite Hdep. apply wp_ret_writes.
Qed.
End Dependencies.

Section Waits.
Context (m : Milvus).

(** The resource at a later point of the reconcile. *)
Definition waitingFor (mc : Milvus) : Prop := waiting mc /\ sameName m mc.

(** What a step before [ReconcileAll] does. *)
Definition quietStep (ws : list kwrite) (o : outcome Milvus) : Prop :=
  Forall (leavesWorkloads m) ws /\ forall mc, o = ORet mc -> waitingFor mc.

Lemma quiet_then {A} R (p : prog Milvus) (f : Milvus -> prog A) :
  wp R p quietStep -> (forall mc, waitingFor mc -> wp R (f mc) (fun ws _ => Forall (leavesWorkloads m) ws)) ->
  wp R (prog_bind f p) (fun ws _ => Forall (leavesWorkloads m) ws).
Proof.
  intros Hp Hf. apply wp_bind. eapply wp_mono; [|exact Hp]. intros ws [mc|e|] [Hws Hm]; [|done..].
  eapply wp_mono; [|apply Hf; eauto]. intros ws' o Hws'. by apply Forall_app.
Qed.

(** A program that makes harmless writes and returns such a resource. *)
Lemma quiet_of R (p : prog Milvus) :
  wp R p (fun ws _ => Forall (leavesWorkloads m) ws) -> wp R p (returns waitingFor) -> wp R p quietStep.
Proof. intros Hc Hr. by apply wp_conj. Qed.

Lemma waiting_kept mc mc' :
  mi_Annotations mc' !! upgradeStoppingAnnotation = mi_Annotations mc !! upgradeStoppingAnnotation ->
  st_Conditions (mi_Status mc') = st_Conditions (mi_Status mc) -> sameName mc mc' -> waitingFor mc -> waitingFor mc'.
Proof.
  unfold waitingFor, waiting, isUpgradeStopping, mget. intros -> -> [Hn Hns] [Hw [Hn' Hns']].
  split; [done|]. split; congruence.
Qed.

Lemma legacy_sync_returns R external mc kind ic store (V : Milvus -> Prop) :
  V mc -> (forall ic', V (store ic')) -> wp R (syncRelease external mc kind ic store) (returns V).
Proof.
  intros Hm Hs. unfold syncRelease. destruct external; [apply wp_ret; by intros ? [= <-]|].
  apply wp_returns_bind. intros values. apply wp_returns_bind. intros c. apply wp_ret. by intros ? [= <-].
Qed.

Lemma returns_then {A B} R (p : prog A) (f : A -> prog B) (V : A -> Prop) (W : B -> Prop) :
  wp R p (returns V) -> (forall a, V a -> wp R (f a) (returns W)) -> wp R (prog_bind f p) (returns W).
Proof.
  intros Hp Hf. apply wp_bind. eapply wp_mono; [|exact Hp]. intros ws [a|e|] Ha; [|done..].
  eapply wp_mono; [|apply Hf, Ha; done]. done.
Qed.

Lemma legacy_quiet R mc : waitingFor mc -> wp R (ReconcileLegacyValues mc) quietStep.
Proof.
  intros Hm. apply quiet_of.
  - unfold ReconcileLegacyValues, syncLegacyValues, syncEtcd, syncStream, syncStorage, syncRelease, helm_GetValues.
    cbv zeta. writes_steps; done.
  - unfold ReconcileLegacyValues. case_match; [apply wp_ret; by intros ? [= <-]|].
    apply (returns_then _ _ _ waitingFor).
    + unfold syncLegacyValues, syncEtcd, syncStream, syncStorage.
      apply (returns_then _ _ _ waitingFor); [by apply legacy_sync_returns|intros m1 H1].
      apply (returns_then _ _ _ waitingFor).
      { cbv zeta. case_match; try (by apply legacy_sync_returns); apply wp_ret; by intros ? [= <-]. }
      intros m2 H2. apply (returns_then _ _ _ waitingFor); [by apply legacy_sync_returns|intros m3 H3].
      apply wp_ret. intros ? [= <-]. apply (waiting_kept m3); [|done..]. by apply lookup_insert_ne.
    + intros m1 H1. apply wp_returns_bind. intros _. apply wp_ret. by intros ? [= <-].
Qed.

Lemma status_quiet R mc : waitingFor mc -> wp R (SetDefaultStatus mc) quietStep.
Proof.
  intros Hm. unfold SetDefaultStatus. apply quiet_of; [cbv zeta; writes_steps; done|].
  repeat case_match; cbv zeta; try (apply wp_returns_bind; intros _); apply wp_ret; by intros ? [= <-].
Qed.

Lemma entries_quiet R refs : wp R (checksumEntries refs) (fun ws _ => Forall (leavesWorkloads m) ws).
Proof. induction refs as [|[r|] refs IH]; cbn [checksumEntries]; unfold kafkaSecretReader; writes_steps; done. Qed.

Lemma checksum_quiet R mc : waitingFor mc -> wp R (SyncKafkaSaslCheckSum mc) quietStep.
Proof.
  intros Hm. unfold SyncKafkaSaslCheckSum, kafkaSecretRefsChecksum, getKafkaSecret. apply quiet_of.
  - cbv zeta. writes_steps; try done. apply entries_quiet.
  - cbv zeta. apply wp_returns_bind. intros s1. apply wp_returns_bind. intros s2.
    case_match; [apply wp_ret; by intros ? [= <-]|].
    apply wp_returns_bind. intros _. apply wp_ret. intros ? [= <-]. apply (waiting_kept mc); [|done..].
    simpl. by case_match; [apply lookup_delete_ne|apply lookup_insert_ne].
Qed.

Context {DL : DeepEqualLaws}.

Lemma update_quiet R mc : wp R (UpdateStatusForNewGeneration IsDebug mc false) (fun ws _ => Forall (leavesWorkloads m) ws).
Proof.
  apply (wp_weaken anyAnswer); [done|]. eapply wp_mono; [|apply update_post].
  intros ws o (ks & Hks & H).
  assert (Forall (leavesWorkloads m) ks) as Hk
    by (eapply Forall_impl; [exact Hks|]; by intros w (? & ? & ? & ->)).
  destruct H as [[-> _]|(mc' & -> & _)]; [done|]. apply Forall_app. split; [done|]. by apply Forall_singleton.
Qed.

(** C9. The workloads wait for the dependencies: while the conditions of the
    resource do not say that its dependencies are ready (and no upgrade is
    stopping it), every write of a reconcile is to the resource, its status or a
    saved copy, kills a terminating pod, or is of a release of a dependency:
    installed or updated, or its own stateful set and data claims replaced to
    resize them.  No deployment, autoscaler, service, ingress, configuration or
    monitor is written, and no stateful set or claim of Milvus; in any
    interleaving of the goroutines and whatever calls fail. *)
Theorem workloads_wait ns name tr o :
  om_DeletionTimestamp (mi_Meta m) = None -> mi_Namespace m <> "" -> waiting m ->
  exec (milvus_Reconcile E ns name) tr o -> Forall (event_ok (namedReads m)) tr ->
  Forall (leavesWorkloads m) (writes tr).
Proof.
  intros Ht Hns Hm Hex Hok. revert Hex Hok.
  apply (wp_exec (namedReads m) (milvus_Reconcile E ns name) (fun ws _ => Forall (leavesWorkloads m) ws)).
  apply (live_wp (namedReads m) m ns name (Forall _)); [done..|constructor|]. unfold reconcileLive.
  apply quiet_then.
  { unfold ensureFinalizer. apply quiet_of; [cbv zeta; writes_steps; done|].
    case_match; cbv zeta; try (apply wp_returns_bind; intros _); apply wp_ret; by intros ? [= <-]. }
  intros m1 H1. apply wp_then; [by unfold VerifyCR; writes_steps|]. intros _.
  apply wp_bind, wp_deref; [constructor|]. intros d Hd. case_match; [apply wp_ret_writes|].
  assert (waitingFor d) as Hw.
  { destruct (Default_same (e_provider E) upgradeStoppingAnnotation ltac:(vm_compute; set_solver) (e_Version E) m1 d Hd)
      as (Ha & Hst & Hn & Hn'). apply (waiting_kept m1); [exact Ha|by rewrite Hst| |done].
    split; [done|]. apply Hn'. by destruct H1 as (_ & _ & ->). }
  unfold reconcileDefaulted. apply wp_then; [by writes_steps|]. intros _.
  apply quiet_then; [by apply legacy_quiet|intros m2 H2]. apply quiet_then; [by apply status_quiet|intros m3 H3].
  apply quiet_then; [apply wp_wrap; eapply wp_mono; [|by apply checksum_quiet]; by intros ws [a|e|] [? ?]|intros m4 [H4 H5]].
  apply wp_then; [apply wp_attempt_writes; by apply all_leaves|]. intros r.
  case_match; [writes_steps|]. apply wp_then; [apply update_quiet|intros _; apply wp_ret_writes].
Qed.
End Waits.
End Live.

(** ** Secrets *)

Section Secrets.
Context {DK : DecodeKafka} {JM : JsonMarshal} {CF : ConfigLib}.

(** A change of the secret enqueues the resource. *)
Definition watched (mc : Milvus) (B : Type) (q : kreq B) : Prop :=
  match q with
  | Read (GetSecret ns name) => ns = mi_Namespace mc /\ milvusReferencesSecret mc name = true
  | _ => True
  end.

Lemma checkRefs_namespace ns l : forall l',
  checkRefs ns l = (l', None) -> length l' = length l /\ forall r, Some r ∈ l' -> ref_Namespace r = ns.
Proof.
  induction l as [|[r|] l IH]; simpl; intros l'.
  - intros [= <-]. split; [reflexivity|]. intros r Hr. by apply elem_of_nil in Hr.
  - case_match; [done|]. set (r' := if bool_decide (ref_Namespace r = "") then _ else r). clearbody r'.
    destruct (bool_decide (ref_Namespace r' = ns)) eqn:Hns; [apply bool_decide_eq_true in Hns; simpl|done]. destruct (checkRefs ns l) as [l1 e]. intros [= <- ->].
    destruct (IH l1 eq_refl) as [Hlen Hall]. split; [simpl; by rewrite Hlen|].
    intros r0 [[= ->]|Hr]%elem_of_cons; auto.
  - destruct (checkRefs ns l) as [l1 e]. intros [= <- ->]. destruct (IH l1 eq_refl) as [Hlen Hall].
    split; [simpl; by rewrite Hlen|]. intros r0 [?|Hr]%elem_of_cons; [done|auto].
Qed.

Lemma all_ofList l : length l = 6%nat -> all (ofList l) = l.
Proof. intros H. do 6 (destruct l as [|? l]; [done|]). by destruct l. Qed.

Lemma parsed_namespace mc refs r :
  parseKafkaSecretRefs mc = (refs, None) -> Some r ∈ all refs -> ref_Namespace r = mi_Namespace mc.
Proof.
  unfold parseKafkaSecretRefs. case_match; [|intros [= <-]; simpl; set_solver].
  destruct (DecodeKafkaRefs _) as [refs0 []]; [|done]. cbn [negb].
  destruct (checkRefs (mi_Namespace mc) (all refs0)) as [l [e|]] eqn:Hl; [intros Hd; discriminate Hd|].
  apply checkRefs_namespace in Hl as [Hlen Hall]. repeat case_match; intros [= <-] Hr.
  rewrite all_ofList in Hr by done. auto.
Qed.

Lemma entries_watched mc refs :
  (forall r, Some r ∈ refs -> ref_Namespace r = mi_Namespace mc /\ milvusReferencesSecret mc (ref_Name r) = true) ->
  calls (watched mc) (checksumEntries refs).
Proof.
  induction refs as [|[r|] refs IH]; intros Hall; cbn [checksumEntries]; [exact I| |apply IH; intros; apply Hall; by right].
  unfold kafkaSecretReader. calls_steps; try exact I; [apply Hall; by left|]. apply IH. intros r' Hr'. apply Hall. by right.
Qed.

(** Every secret that the checksum of the Kafka credentials depends on is
    watched: whatever the API server answers, the secrets that are read for it
    are in the namespace of the resource and a change of any of them enqueues
    the resource. *)
Theorem checksum_secrets_watched mc tr o :
  exec (SyncKafkaSaslCheckSum mc) tr o -> Forall (fun ev => match ev with Ev q _ => watched mc _ q end) tr.
Proof.
  apply (calls_exec (watched mc)). unfold SyncKafkaSaslCheckSum, isKafka. cbv zeta.
  destruct (bool_decide _) eqn:Hk; cbn [andb]; [|calls_steps; exact I]. apply bool_decide_eq_true in Hk.
  assert (forall s, kaf_SecretRef (dep_Kafka (mi_Dep mc)) = s -> milvusReferencesSecret mc s = true) as Hs.
  { intros s Hs. unfold milvusReferencesSecret. rewrite !bool_decide_eq_true_2 by done. done. }
  apply calls_bind; [|intros s1; apply calls_bind; [|intros s2; calls_steps; exact I]].
  - case_match; [|done]. unfold getKafkaSecret. cbv zeta. calls_steps; try exact I. split; [done|]. by apply Hs.
  - unfold kafkaSecretRefsChecksum. destruct (parseKafkaSecretRefs mc) as [refs [e|]] eqn:Hp; [calls_steps|].
    apply calls_bind; [|intros s2; calls_steps]. apply calls_bind; [|intros es; calls_steps]. apply entries_watched.
    intros r Hr. split; [by eapply parsed_namespace|]. unfold milvusReferencesSecret. rewrite Hp.
    rewrite (bool_decide_eq_true_2 (_ = MsgStreamTypeKafka)) by done. cbn [negb]. case_match; [done|].
    apply existsb_exists. exists (Some r). split; [by apply list_elem_of_In|]. by apply bool_decide_eq_true.
Qed.
End Secrets.

(** ** Defects *)

Section Defects.
Context {SV : Semver} {US : Unstructured} {IS : IntStr} {KL : KubeLib} {DL : DeepEqualLaws} {DC : Decode}
  {DK : DecodeKafka} {JM : JsonMarshal} {OI : OperatorImage} {CL : ClaimLib} {KM : KubeMessages} {PR : Process}
  {MO : MapOrder} {CF : ConfigLib} {DH : DecodeHPA}.
Context (E : Environment).


(** The claim in the cluster is [old]. *)
Definition readsClaim (old : Claim) (B : Type) (r : kread B) : B -> Prop :=
  match r in kread B' return B' -> Prop with GetClaim _ _ => fun c => c = old | _ => fun _ => True end.

(** The data claim never settles: if the claim in the cluster has an
    annotation that the resource does not ask for (binding a volume adds some),
    every reconcile that succeeds writes the claim again, without it. *)
Theorem bound_claim_rewritten ns name pvc old k v tr o :
  om_Annotations (clm_Meta old) !! k = Some v -> pvc_Annotations pvc !! k = None ->
  exec (syncUpdatePVC E ns name pvc) tr o -> Forall (event_ok (readsClaim old)) tr -> o = ORet tt ->
  exists c, (writes tr = [UpdateClaim c] \/ writes tr = [CreateClaim c]) /\ om_Annotations (clm_Meta c) !! k = None.
Proof.
  intros Hold Hnew Hex Hok. revert Hex Hok.
  apply (wp_exec (readsClaim old) (syncUpdatePVC E ns name pvc) (fun ws o => o = ORet tt ->
    exists c, (ws = [UpdateClaim c] \/ ws = [CreateClaim c]) /\ om_Annotations (clm_Meta c) !! k = None)).
  assert (forall c, om_Annotations (clm_Meta (syncPVC E pvc c)) !! k = None) as Hsync.
  { intros c. unfold syncPVC. cbv zeta. by case_match. }
  unfold syncUpdatePVC. apply wp_bind, wp_attempt, wp_read.
  - intros e. case_match; [|by apply wp_fail]. apply wp_write; [done|]. intros _. eauto.
  - intros c Hc. simpl in Hc. subst c. cbv zeta. rewrite DeepEqual_spec. case_bool_decide as Heq.
    + exfalso. apply (f_equal (fun c => om_Annotations (clm_Meta c) !! k)) in Heq. rewrite Hold in Heq.
      unfold updatedPVC in Heq. cbn [clm_Meta] in Heq. rewrite Hsync in Heq. done.
    + apply wp_wrap, wp_write; [done|]. intros _. eexists. split; [by left|]. unfold updatedPVC. cbn [clm_Meta]. apply Hsync.
Qed.
End Defects.

(** ** Concrete instances *)

#[local] Existing Instances concreteSemver concreteUnstructured concreteIntStr concreteKubeLib concreteDeepEqualLaws.
#[local] Existing Instances exDecode exDecodeKafka exMarshal exOperatorImage exClaimLib exProcess.
#[local] Existing Instances concreteMapOrder concreteMapOrderLaws exConfig exDecodeHPA.

Definition exTexts : KubeMessages := {| kerr_Error e := if bool_decide (e = KNotFound) then "not found" else "error" |}.
#[local] Existing Instance exTexts.

Definition inTurn (n : nat) : schedule := mkSchedule [] (seq 0 n).

Definition exEnvironment : Environment :=
  mkEnvironment ∅ "1.0.0" Some (fun _ => mkClaimSpec [] (mkRes ∅ ∅) None "" JNull) 1 (fun l => head l) (inTurn 5) (inTurn 6).

(** A claim of the release of etcd, with the labels of both kinds of chart, and one
    of another release. *)
Definition exLabelled (name release : string) : Claim :=
  mkPersistentVolumeClaim
    (mkMeta name "ns" {[AppLabelInstance := release; HelmReleaseLabel := release]} ∅ 1 "" "" [] None [])
    (mkClaimSpec [] (mkRes ∅ ∅) None "" JNull).
Definition exInCluster : list Claim := [exLabelled "data-0" "mi-etcd"; exLabelled "data-1" "other"].

(** The resource [m], its pods, and these claims. *)
Definition exCluster (m : Milvus) (pods : list Pod) (claim : Claim) : handler unit :=
  mkHandler
    (fun B (r : kread B) _ =>
       match r in kread B' return kerr + B' with
       | GetMilvus _ _ => inr m
       | ListPods _ _ => inr pods
       | ListClaims ns labels =>
           inr (filter (fun c => om_Namespace (clm_Meta c) = ns /\ labels ⊆ om_Labels (clm_Meta c)) exInCluster)
       | GetClaim _ _ => inr claim
       | GetSecret _ _ => inr {[KafkaSaslUsernameKey := "user"; KafkaSaslPasswordKey := "password"]}
       | _ => inl KNotFound
       end)
    (fun _ s => (inr tt, s)).

Lemma exCluster_exec {A} m pods claim (p : prog A) :
  exec p (snd (fst (run (exCluster m pods claim) p tt))) (snd (run (exCluster m pods claim) p tt)).
Proof. apply run_exec. Qed.

Lemma exCluster_reads {A} m pods claim (p : prog A) :
  Forall (event_ok (reads m)) (snd (fst (run (exCluster m pods claim) p tt))).
Proof.
  apply run_event_ok. intros B r s b. destruct r; cbn [h_read exCluster]; intros H; try discriminate H; injection H as <-; try done.
  by intros c [[? ?] _]%list_elem_of_filter.
Qed.

Lemma exCluster_claims {A} m pods claim (p : prog A) :
  Forall (event_ok (clusterReads m exInCluster)) (snd (fst (run (exCluster m pods claim) p tt))).
Proof.
  apply run_event_ok. intros B r s b. destruct r; cbn [h_read exCluster]; intros H; try discriminate H; injection H as <-; try done.
  by intros c [[? ?] ?]%list_elem_of_filter.
Qed.

Lemma exCluster_pods {A} m pod claim (p : prog A) :
  Forall (event_ok (readsPods m)) (snd (fst (run (exCluster m [pod] claim) p tt))).
Proof. apply run_event_ok. intros B r s b. destruct r; simpl; try discriminate; by intros [= <-]. Qed.

Lemma exCluster_claim {A} m pods claim (p : prog A) :
  Forall (event_ok (readsClaim claim)) (snd (fst (run (exCluster m pods claim) p tt))).
Proof. apply run_event_ok. intros B r s b. destruct r; simpl; try discriminate; by intros [= <-]. Qed.

(** An instance with etcd in the cluster, to be deleted with its claims. *)
Definition exOwnEtcd (ic : option InClusterConfig) (deleted : option Z) (annotations : gmap string string) : Milvus :=
  let m := exMilvus 1 in
  let m := set_mi_Dep m (set_dep_Etcd (mi_Dep m) (mkEtcd None false ic)) in
  mkMilvus (mkMeta "mi" "ns" ∅ annotations 1 "uid-mi" "1" [] deleted [MilvusFinalizerName]) (mi_Spec m) (mi_Status m).

Definition exDeleted : Milvus := exOwnEtcd (Some (mkInCluster None "" DeletionPolicyDelete true)) (Some 1) ∅.
Definition exUndefaulted : Milvus := exOwnEtcd None (Some 1) ∅.
Definition exPaused : Milvus :=
  exOwnEtcd (Some (mkInCluster None "" DeletionPolicyDelete true)) None {[PauseReconcileAnnotation := TrueStr]}.

Definition isUpdateMilvus (w : kwrite) : bool := match w with UpdateMilvus _ => true | _ => false end.

(** The release is uninstalled and its claim is deleted, the other claim is not. *)
Lemma deletion_follows_policy_witness : exists tr o,
  exec (milvus_Reconcile exEnvironment "ns" "mi") tr o /\ deletionOk exInCluster exDeleted tr /\
  isUpdateMilvus <$> last (writes tr) = Some true /\
  filter (fun w => isUpdateMilvus w = false) (writes tr) =
    [UpdateMilvusStatus (with_st exDeleted (set_HealthStatus StatusDeleting)); HelmUninstall "ns" "mi-etcd";
     DeleteClaim "ns" "data-0"; DeleteClaim "ns" "data-0"].
Proof.
  set (h := exCluster exDeleted [] (exClaim "mi-data" "10")). set (p := milvus_Reconcile exEnvironment "ns" "mi").
  exists (snd (fst (run h p tt))), (snd (run h p tt)). split; [apply exCluster_exec|]. split.
  - eapply (deletion_follows_policy exEnvironment "ns" "mi" exDeleted exInCluster);
      [by eexists|apply (bool_decide_unpack _); vm_compute; exact I|apply exCluster_exec|apply exCluster_claims].
  - split; vm_compute; reflexivity.
Defined.

Definition exServing : Pod := mkPod (newMeta "mi-querynode-0" "ns") PodRunning "" [] [].

Lemma deletion_waits_witness : exists tr o,
  exec (milvus_Reconcile exEnvironment "ns" "mi") tr o /\ Forall waitingWrite (writes tr) /\ length (writes tr) = 2%nat.
Proof.
  set (h := exCluster exDeleted [exServing] (exClaim "mi-data" "10")). set (p := milvus_Reconcile exEnvironment "ns" "mi").
  exists (snd (fst (run h p tt))), (snd (run h p tt)). split; [apply exCluster_exec|]. split.
  - eapply (deletion_waits exEnvironment "ns" "mi" exDeleted); [by eexists|apply exCluster_exec|apply exCluster_pods].
  - vm_compute. reflexivity.
Defined.


Lemma paused_writes_nothing_witness : exists tr o,
  exec (milvus_Reconcile exEnvironment "ns" "mi") tr o /\ writes tr = [].
Proof.
  set (h := exCluster exPaused [] (exClaim "mi-data" "10")). set (p := milvus_Reconcile exEnvironment "ns" "mi").
  exists (snd (fst (run h p tt))), (snd (run h p tt)). split; [apply exCluster_exec|].
  eapply (paused_writes_nothing exEnvironment "ns" "mi" exPaused);
    [done|vm_compute; reflexivity|vm_compute; reflexivity|apply exCluster_exec|apply exCluster_reads].
Defined.

(** The claims of etcd are to grow from 10 to 20; its stateful set is there until
    it is deleted. *)
Definition exPersistence (size : string) : list (string * json) := [("persistence", JObj [("size", JStr size)])].
Definition exWaiting : Milvus :=
  set_mi_Labels (exOwnEtcd (Some (mkInCluster (Some (exPersistence "20")) "" DeletionPolicyDelete true)) None
                   {[DependencyValuesMergedAnnotation := TrueStr]})
    {[OperatorVersionLabel := "1.0.0"]}.
Definition exNamed (ns name : string) : Claim :=
  mkPersistentVolumeClaim (newMeta name ns) (mkClaimSpec [] (mkRes ∅ {["storage" := "10"]}) None "" JNull).
Definition exEtcdSet (ns name : string) : StatefulSet :=
  KubeTypes.mkStatefulSet (newMeta name ns) (Some 1) None DeployUtil.emptyTemplate "" "" 0 [exNamed ns "data"] 1 1 1 1 1 "" "".

Definition exResizing (m : Milvus) : handler bool :=
  mkHandler
    (fun B (r : kread B) (deleted : bool) =>
       match r in kread B' return kerr + B' with
       | GetMilvus _ _ => inr m
       | HelmReleaseExist _ release => inr (Contains release "etcd")
       | HelmGetValues _ _ => inr (exPersistence "10")
       | HelmGetStatus _ _ => inr "deployed"
       | HelmGetChartVersion _ _ => inr "8.12.0"
       | GetStatefulSet ns name => if deleted then inl KNotFound else inr (exEtcdSet ns name)
       | GetClaim ns name => inr (exNamed ns name)
       | _ => inl KNotFound
       end)
    (fun w s => (inr tt, match w with OrphanDeleteStatefulSet _ _ => true | _ => s end)).

Definition resizing (w : kwrite) : option string :=
  match w with
  | UpdateClaim c => Some (om_Name (clm_Meta c))
  | OrphanDeleteStatefulSet _ name => Some name
  | CreateStatefulSet s => Some (om_Name (sts_Meta s))
  | _ => None
  end.

(** etcd is resized meanwhile. *)
Lemma workloads_wait_witness : exists tr o,
  exec (milvus_Reconcile exEnvironment "ns" "mi") tr o /\ Forall (leavesWorkloads exWaiting) (writes tr) /\
  omap resizing (writes tr) = ["data-mi-etcd-0"; "mi-etcd"; "mi-etcd"].
Proof.
  set (h := exResizing exWaiting). set (p := milvus_Reconcile exEnvironment "ns" "mi").
  exists (snd (fst (run h p false))), (snd (run h p false)). split; [apply run_exec|]. split.
  - eapply (workloads_wait exEnvironment exWaiting "ns" "mi");
      [done..|split; vm_compute; reflexivity|apply run_exec|]. apply run_event_ok.
    intros B r s b. destruct r; cbn [h_read h exResizing]; intros H; try (destruct s); try discriminate H; injection H as <-; done.
  - vm_compute. reflexivity.
Defined.

Lemma checksum_secrets_watched_witness : exists tr o,
  exec (SyncKafkaSaslCheckSum exSaslMilvus) tr o /\
  Forall (fun ev => match ev with Ev q _ => watched exSaslMilvus _ q end) tr.
Proof.
  set (h := exCluster exSaslMilvus [] (exClaim "mi-data" "10")). set (p := SyncKafkaSaslCheckSum exSaslMilvus).
  exists (snd (fst (run h p tt))), (snd (run h p tt)). split; [apply exCluster_exec|].
  eapply (checksum_secrets_watched exSaslMilvus). apply exCluster_exec.
Defined.

(** A claim that was bound to a volume. *)
Definition exBound : Claim :=
  mkPersistentVolumeClaim
    (mkMeta "mi-data" "ns" ∅ {["pv.kubernetes.io/bind-completed" := "yes"]} 1 "" "1" [] None [])
    (mkClaimSpec ["ReadWriteOnce"] (mkRes ∅ {["storage" := "5368709120"]}) None "pv-1" JNull).

Lemma bound_claim_rewritten_witness : exists tr c,
  exec (syncUpdatePVC exEnvironment "ns" "mi-data" (mkPVC "" ∅ ∅ None)) tr (ORet tt) /\
  (writes tr = [UpdateClaim c] \/ writes tr = [CreateClaim c]) /\
  om_Annotations (clm_Meta c) !! "pv.kubernetes.io/bind-completed" = None.
Proof.
  set (h := exCluster exDeleted [] exBound). set (p := syncUpdatePVC exEnvironment "ns" "mi-data" (mkPVC "" ∅ ∅ None)).
  assert (snd (run h p tt) = ORet tt) as Ho by (vm_compute; reflexivity).
  assert (exec p (snd (fst (run h p tt))) (ORet tt)) as Hex by (rewrite <- Ho; apply exCluster_exec).
  destruct (bound_claim_rewritten exEnvironment "ns" "mi-data" (mkPVC "" ∅ ∅ None) exBound
              "pv.kubernetes.io/bind-completed" "yes" _ _ eq_refl (lookup_empty _) Hex (exCluster_claim _ _ _ _) eq_refl) as (c & Hc).
  eexists _, c. split; [exact Hex|exact Hc].
Defined.
