(* ===== verification/Acts.v ===== *)
(** * Acts: programs over calls of their own

    Some parts call neither the API server nor a dependency through the
    reconcilers' client ([Effects.prog]) but a library of their own: Helm's
    actions, a dynamic client, a cloud provider's SDK, the operating system.
    [act E X A] is a program whose calls are [E], whose calls fail with errors
    [X], and which ends in a result, an error or a panic.  What answers the calls
    is no part of the repository: it is the handler that a program is run with. *)
From S2P Require Import Prelude.

Inductive act (E : Type -> Type) (X A : Type) : Type :=
  | Done (a : A)
  | Raise (x : X)
  | Crash
  | Do {B : Type} (q : E B) (k : X + B -> act E X A).
Arguments Done {E X A} a.
Arguments Raise {E X A} x.
Arguments Crash {E X A}.
Arguments Do {E X A B} q k.

Fixpoint act_bind {E X A B} (f : A -> act E X B) (p : act E X A) : act E X B :=
  match p with
  | Done a => f a
  | Raise x => Raise x
  | Crash => Crash
  | Do q k => Do q (fun r => act_bind f (k r))
  end.

#[export] Instance act_mret E X : MRet (act E X) := fun A => Done.
#[export] Instance act_mbind E X : MBind (act E X) := fun A B f p => act_bind f p.

(** [v, err := call()]: the error as a value, and the call whose error is
    returned at once. *)
Definition ask {E X B} (q : E B) : act E X (X + B) := Do q (fun r => Done r).
Definition must {E X B} (q : E B) : act E X B :=
  Do q (fun r => match r with inl x => Raise x | inr b => Done b end).

Definition orRaise {E X A} (r : X + A) : act E X A := match r with inl x => Raise x | inr a => Done a end.

(** A nil dereference. *)
Definition derefA {E X A} (o : option A) : act E X A := match o with Some a => Done a | None => Crash end.

(** [errors.Wrap(err, msg)] of the error of a program. *)
Fixpoint onError {E X A} (f : X -> X) (p : act E X A) : act E X A :=
  match p with
  | Done a => Done a
  | Raise x => Raise (f x)
  | Crash => Crash
  | Do q k => Do q (fun r => onError f (k r))
  end.

(** ** Runs *)

Inductive ending (X A : Type) := Returned (a : A) | Raised (x : X) | Crashed.
Arguments Returned {X A} a.
Arguments Raised {X A} x.
Arguments Crashed {X A}.

(** What answers the calls, over a state of its own. *)
Definition answers_of (E : Type -> Type) (X S : Type) : Type := forall B, E B -> S -> (X + B) * S.

Fixpoint act_run {E X A S} (h : answers_of E X S) (p : act E X A) (s : S) : ending X A * S :=
  match p with
  | Done a => (Returned a, s)
  | Raise x => (Raised x, s)
  | Crash => (Crashed, s)
  | Do q k => let '(r, s') := h _ q s in act_run h (k r) s'
  end.

(** The calls of a run in order, each with whether it succeeded. *)
Inductive made (E : Type -> Type) :=
  | Made {B : Type} (q : E B) (ok : bool).
Arguments Made {E B} q ok.

Fixpoint act_calls {E X A S} (h : answers_of E X S) (p : act E X A) (s : S) : list (made E) :=
  match p with
  | Do q k =>
      let '(r, s') := h _ q s in
      Made q (match r with inl _ => false | inr _ => true end) :: act_calls h (k r) s'
  | _ => []
  end.

Lemma act_run_bind {E X A B S} (h : answers_of E X S) (p : act E X A) (f : A -> act E X B) : forall s,
  act_run h (p ≫= f) s =
    match act_run h p s with
    | (Returned a, s') => act_run h (f a) s'
    | (Raised x, s') => (Raised x, s')
    | (Crashed, s') => (Crashed, s')
    end.
Proof.
  induction p as [a|x| |B0 q k IH]; intros s; [done..|].
  change (act_run h (Do q (fun r => k r ≫= f)) s = match act_run h (Do q k) s with
    | (Returned a, s') => act_run h (f a) s' | (Raised x, s') => (Raised x, s') | (Crashed, s') => (Crashed, s') end).
  simpl. destruct (h B0 q s) as [r s']. apply IH.
Qed.

Lemma act_run_must {E X B S} (h : answers_of E X S) (q : E B) s :
  act_run h (must q) s = match h _ q s with (inl x, s') => (Raised x, s') | (inr b, s') => (Returned b, s') end.
Proof. simpl. by destruct (h B q s) as [[x|b] s']. Qed.

Lemma act_run_ask {E X B S} (h : answers_of E X S) (q : E B) s :
  act_run h (ask q) s = let '(r, s') := h _ q s in (Returned r, s').
Proof. done. Qed.

Lemma act_run_onError {E X A S} (h : answers_of E X S) f (p : act E X A) : forall s,
  act_run h (onError f p) s = match act_run h p s with (Raised x, s') => (Raised (f x), s') | r => r end.
Proof. induction p as [a|x| |B q k IH]; intros s; [done..|]. simpl. destruct (h B q s) as [r s']. apply IH. Qed.

Lemma act_calls_onError {E X A S} (h : answers_of E X S) f (p : act E X A) : forall s,
  act_calls h (onError f p) s = act_calls h p s.
Proof. induction p as [a|x| |B q k IH]; intros s; [done..|]. simpl. destruct (h B q s) as [r s']. by rewrite IH. Qed.

Lemma act_calls_bind {E X A B S} (h : answers_of E X S) (p : act E X A) (f : A -> act E X B) : forall s,
  act_calls h (p ≫= f) s =
    act_calls h p s ++ match act_run h p s with (Returned a, s') => act_calls h (f a) s' | _ => [] end.
Proof.
  induction p as [a|x| |B0 q k IH]; intros s; [done..|].
  change (act_calls h (Do q (fun r => k r ≫= f)) s = act_calls h (Do q k) s ++
    match act_run h (Do q k) s with (Returned a, s') => act_calls h (f a) s' | _ => [] end).
  simpl. destruct (h B0 q s) as [r s']. simpl. by rewrite IH.
Qed.

(** ** What holds whatever the answers are *)

(** [ends p V]: no run of [p] panics, and one that returns does so with a value
    of [V]. *)
Fixpoint ends {E X A} (p : act E X A) (V : A -> Prop) : Prop :=
  match p with
  | Done a => V a
  | Raise _ => True
  | Crash => False
  | Do q k => forall r, ends (k r) V
  end.

Lemma ends_run {E X A S} (h : answers_of E X S) (p : act E X A) V : forall s,
  ends p V -> match fst (act_run h p s) with Returned a => V a | Raised _ => True | Crashed => False end.
Proof.
  induction p as [a|x| |B q k IH]; intros s Hp; simpl in *; [done..|].
  destruct (h B q s) as [r s']. by apply IH.
Qed.
