(* ===== verification/Runs.v ===== *)
(** * Big-step runs

    [does h p s s' ws o]: the run of [p] against the handler [h] from the state
    [s] makes the writes [ws] and ends in the state [s'] with the outcome [o].
    A handler answers deterministically, so a program does exactly one thing;
    the lemmas compute it step by step. *)
From S2P Require Import Prelude KubeTypes ApiTypes Effects.

Section Does.
Context {S : Type} (h : handler S).

Definition does {A} (p : prog A) (s s' : S) (ws : list kwrite) (o : outcome A) : Prop :=
  exists tr, run h p s = (s', tr, o) /\ writes tr = ws.

Lemma does_fun {A} (p : prog A) s s1 s2 ws1 ws2 o1 o2 :
  does p s s1 ws1 o1 -> does p s s2 ws2 o2 -> s1 = s2 /\ ws1 = ws2 /\ o1 = o2.
Proof. intros (tr & Hr & <-) (tr' & Hr' & <-). rewrite Hr in Hr'. by injection Hr' as -> -> ->. Qed.

Lemma does_run {A} (p : prog A) s : exists s' ws o, does p s s' ws o.
Proof. destruct (run h p s) as [[s' tr] o] eqn:Hr. by exists s', (writes tr), o, tr. Qed.

Lemma does_ret {A} (a : A) s : does (Ret a) s s [] (ORet a).
Proof. by exists []. Qed.

Lemma does_fail {A} e s : does (Fail (A:=A) e) s s [] (OFail e).
Proof. by exists []. Qed.

Lemma does_deref {A} (a : A) o s : o = Some a -> does (deref o) s s [] (ORet a).
Proof. intros ->. apply does_ret. Qed.

Lemma does_read {B} (r : kread B) s b : h_read h r s = inr b -> does (read r) s s [] (ORet b).
Proof. intros Hr. exists [Ev (Read r) (inr b)]. simpl. by rewrite Hr. Qed.

Lemma does_write w s s' : h_write h w s = (inr tt, s') -> does (write w) s s' [w] (ORet tt).
Proof. intros Hw. exists [Ev (Write w) (inr tt)]. simpl. by rewrite Hw. Qed.

Lemma run_bind {A B} (p : prog A) (f : A -> prog B) : forall s,
  run h (p ≫= f) s =
    let '(s1, tr, o) := run h p s in
    match o with
    | ORet a => let '(s2, tr', o') := run h (f a) s1 in (s2, tr ++ tr', o')
    | OFail e => (s1, tr, OFail e)
    | OPanic => (s1, tr, OPanic)
    end.
Proof.
  induction p as [a|e| |C q k IH]; intros s; [|done..|].
  - change (Ret a ≫= f) with (f a). cbn [run]. by destruct (run h (f a) s) as [[s2 tr] o].
  - change (Call q k ≫= f) with (Call q (fun x => k x ≫= f)). cbn [run].
    destruct (answer h q s) as [x s1]. rewrite IH. destruct (run h (k x) s1) as [[s2 tr] o].
    destruct o as [a|e|]; [|done..]. by destruct (run h (f a) s2) as [[s3 tr'] o'].
Qed.

Lemma does_bind {A B} (p : prog A) (f : A -> prog B) s s1 s2 ws1 ws2 a o :
  does p s s1 ws1 (ORet a) -> does (f a) s1 s2 ws2 o -> does (p ≫= f) s s2 (ws1 ++ ws2) o.
Proof.
  intros (tr1 & Hr1 & <-) (tr2 & Hr2 & <-). exists (tr1 ++ tr2). by rewrite run_bind, Hr1, Hr2, writes_app.
Qed.

(** A part that makes no write. *)
Lemma does_bind_quiet {A B} (p : prog A) (f : A -> prog B) s s1 s2 ws a o :
  does p s s1 [] (ORet a) -> does (f a) s1 s2 ws o -> does (p ≫= f) s s2 ws o.
Proof. intros Hp Hf. exact (does_bind p f s s1 s2 [] ws a o Hp Hf). Qed.

Lemma does_bind_fail {A B} (p : prog A) (f : A -> prog B) s s1 ws e :
  does p s s1 ws (OFail e) -> does (p ≫= f) s s1 ws (OFail e).
Proof. intros (tr & Hr & <-). exists tr. by rewrite run_bind, Hr. Qed.

Lemma run_wrap {A} msg (p : prog A) : forall s,
  run h (wrap msg p) s =
    let '(s1, tr, o) := run h p s in (s1, tr, match o with OFail e => OFail (EWrap msg e) | o => o end).
Proof.
  induction p as [a|e| |C q k IH]; intros s; [done..|]. cbn [wrap run]. destruct (answer h q s) as [x s1].
  rewrite IH. by destruct (run h (k x) s1) as [[s2 tr] o].
Qed.

Lemma does_wrap {A} msg (p : prog A) s s' ws a : does p s s' ws (ORet a) -> does (wrap msg p) s s' ws (ORet a).
Proof. intros (tr & Hr & <-). exists tr. by rewrite run_wrap, Hr. Qed.

Lemma does_wrap_fail {A} msg (p : prog A) s s' ws e :
  does p s s' ws (OFail e) -> does (wrap msg p) s s' ws (OFail (EWrap msg e)).
Proof. intros (tr & Hr & <-). exists tr. by rewrite run_wrap, Hr. Qed.

Lemma run_attempt {A} (p : prog A) : forall s,
  run h (attempt p) s =
    let '(s1, tr, o) := run h p s in
    (s1, tr, match o with ORet a => ORet (inr a) | OFail e => ORet (inl e) | OPanic => OPanic end).
Proof.
  induction p as [a|e| |C q k IH]; intros s; [done..|]. cbn [attempt run]. destruct (answer h q s) as [x s1].
  rewrite IH. by destruct (run h (k x) s1) as [[s2 tr] o].
Qed.

Lemma does_attempt {A} (p : prog A) s s' ws a : does p s s' ws (ORet a) -> does (attempt p) s s' ws (ORet (inr a)).
Proof. intros (tr & Hr & <-). exists tr. by rewrite run_attempt, Hr. Qed.
End Does.
