(* ===== verification/Loops.v ===== *)
(** * The periodic loops

    utils.go, [LoopWithInterval], and status_cluster.go, [RunIfNot]: the first
    reconcile starts three loops, one over the resources that are not healthy, one
    over the healthy ones and one for the metrics.  A loop runs until the context
    is done; between two rounds it waits for its ticker.  What it waits for is
    the environment's choice, a list of what the select of every round received;
    a run up to the end of the list is a run so far. *)
From S2P Require Import Prelude KubeTypes Libs ApiTypes Effects Group Status StatusSync MilvusController Runs.

Local Open Scope list_scope.
Local Open Scope Z_scope.

Inductive received := CtxDone | Ticked.

(** An error of a round is logged, and the loop goes on. *)
Fixpoint LoopWithInterval (loopFunc : prog unit) (events : list received) : prog unit :=
  _ ← attempt loopFunc;
  match events with
  | Ticked :: events' => LoopWithInterval loopFunc events'
  | CtxDone :: _ | [] => Ret tt
  end.

(** The goroutines that [RunIfNot] starts, with the seconds of their interval. *)
Inductive loopName := UnhealthyLoop | HealthyLoop | MetricsLoop.

Definition startedLoops : list (loopName * Z) :=
  [(UnhealthyLoop, unhealthySyncInterval); (HealthyLoop, unhealthySyncInterval * 2); (MetricsLoop, unhealthySyncInterval)].

(** [sync.Once]: whether it has run, and the goroutines so far. *)
Definition RunIfNot (st : bool * list (loopName * Z)) : bool * list (loopName * Z) :=
  let '(done, loops) := st in if done then st else (true, loops ++ startedLoops).

Section Functions.
Context {SV : Semver} {US : Unstructured} {KL : KubeLib} {KM : KubeMessages} {PR : Process}.
Context (provider : gmap string (list (string * json))) (Version : string).

(** What each of them runs. *)
Definition loopFunc (batches : nat -> schedule) (max : Z) (l : loopName) : prog unit :=
  match l with
  | UnhealthyLoop => syncUnealthyOrUpdating provider Version batches max
  | HealthyLoop => syncHealthyUpdated provider Version batches max
  | MetricsLoop => _ ← updateMetrics; Ret tt
  end.
End Functions.

(** However many reconciles there are, the loops are started once. *)
Lemma RunIfNot_once n : Nat.iter (S n) RunIfNot (false, []) = (true, startedLoops).
Proof. induction n as [|n IH]; [done|]. change (RunIfNot (Nat.iter (S n) RunIfNot (false, [])) = (true, startedLoops)). by rewrite IH. Qed.

(** The rounds of a loop: one, and one for every tick before the context is
    done. *)
Fixpoint rounds (events : list received) : nat :=
  match events with
  | Ticked :: events' => S (rounds events')
  | CtxDone :: _ | [] => 1
  end.

Section Runs.
Context {S : Type} (h : handler S).

(** The state after [n] rounds, if none panicked. *)
Fixpoint after (f : prog unit) (n : nat) (s : S) : option S :=
  match n with
  | O => Some s
  | Datatypes.S n' =>
      let '(s1, _, o) := run h f s in match o with OPanic => None | _ => after f n' s1 end
  end.

(** A loop makes all of its rounds, whatever they return, and itself returns no
    error; only a panic ends it early. *)
Lemma loop_rounds (f : prog unit) : forall events s,
  match after f (rounds events) s with
  | Some s' => exists tr, run h (LoopWithInterval f events) s = (s', tr, ORet tt)
  | None => exists s' tr, run h (LoopWithInterval f events) s = (s', tr, OPanic)
  end.
Proof.
  induction events as [|[] events IH]; intros s; cbn [rounds after LoopWithInterval]; rewrite run_bind, run_attempt;
    destruct (run h f s) as [[s1 tr] [[]|e|]]; try by eauto.
  - specialize (IH s1). destruct (after f (rounds events) s1) as [s'|]; [destruct IH as [tr' ->]|destruct IH as (s' & tr' & ->)];
      eauto.
  - specialize (IH s1). destruct (after f (rounds events) s1) as [s'|]; [destruct IH as [tr' ->]|destruct IH as (s' & tr' & ->)];
      eauto.
Qed.
End Runs.
