(* ===== verification/HelmClient.v ===== *)
(** * The Helm client

    pkg/helm/helm.go and pkg/helm/interface.go: the operations on a release that
    the reconcilers of the dependencies use, as [LocalClient] builds them from
    the actions of the Helm library, and what the reconciler of a release does on
    top of them.

    Helm's actions are no code of the repository: they are requests ([hreq]),
    and what is relied on of them are the laws of [HelmLaws], Helm's documented
    behaviour.  A chart is loaded from the file system; what is loaded is the
    parameter [Chart]. *)
From S2P Require Import Prelude KubeTypes Libs ApiTypes Values Effects Acts Dependencies.

Local Open Scope string_scope.
Local Open Scope list_scope.

(** ** Releases and actions *)

(** [release.Release]: [Info] and [Chart] with its [Metadata] are pointers. *)
Record Release := mkRelease {
  rel_Info : option string;
  rel_Chart : option (option string);
  rel_Config : option object
}.

Inductive herr := ErrReleaseNotFound | HErr (msg : string) | HWrap (msg : string) (e : herr).

#[export] Instance herr_eq_dec : EqDecision herr.
Proof. solve_decision. Defined.

(** [errors.Is(err, driver.ErrReleaseNotFound)]. *)
Fixpoint isReleaseNotFound (e : herr) : bool :=
  match e with ErrReleaseNotFound => true | HErr _ => false | HWrap _ e' => isReleaseNotFound e' end.

Section Client.
Context {Chart : Type}.

(** The actions with the options that the client sets on them. *)
Inductive hreq : Type -> Type :=
  | StatusRun (release : string) : hreq Release
  | GetValuesRun (release : string) : hreq (option object)
  | HistoryRun (max : Z) (release : string) : hreq unit
  | ReleasesHistory (release : string) : hreq unit
  | LoadChart (path : string) : hreq Chart
  | UpgradeRun (namespace : string) (resetValues : bool) (release : string) (chart : Chart) (values : option object) :
      hreq unit
  | InstallRun (release namespace : string) (skipCRDs : bool) (chart : Chart) (values : option object) : hreq unit
  | UninstallRun (disableHooks : bool) (release : string) : hreq unit.

Notation helm := (act hreq herr).

(** ** [LocalClient] *)

Definition local_GetStatus (releaseName : string) : helm string :=
  rel ← must (StatusRun releaseName);
  derefA (rel_Info rel).

Definition local_GetValues (releaseName : string) : helm object :=
  vals ← must (GetValuesRun releaseName);
  match vals with None => mret [] | Some v => mret v end.

Definition local_ReleaseExist (releaseName : string) : helm bool :=
  r ← ask (HistoryRun 1 releaseName);
  match r with
  | inl e => if bool_decide (e = ErrReleaseNotFound) then mret false else Raise e
  | inr _ => mret true
  end.

Definition noValues (values : option object) : bool := match values with None | Some [] => true | _ => false end.

Definition local_Update (request : ChartRequest) : helm unit :=
  chartRequested ← must (LoadChart (rq_Chart request));
  must (UpgradeRun (rq_Namespace request) (noValues (rq_Values request)) (rq_ReleaseName request) chartRequested
          (rq_Values request)).

(** [client.Devel] is never set, so [client.Version] stays empty. *)
Definition local_Install (request : ChartRequest) : helm unit :=
  chartRequested ← must (LoadChart (rq_Chart request));
  must (InstallRun (rq_ReleaseName request) (rq_Namespace request) true chartRequested (rq_Values request)).

(** [exist] is [ReleaseExist] of the default client. *)
Definition local_Upgrade (exist : string -> helm bool) (request : ChartRequest) : helm unit :=
  e ← exist (rq_ReleaseName request);
  if negb e then local_Install request else local_Update request.

(** Only the error of a missing release is looked at. *)
Definition local_Uninstall (releaseName : string) : helm unit :=
  r ← ask (ReleasesHistory releaseName);
  if match r with inl e => isReleaseNotFound e | inr _ => false end then mret tt
  else must (UninstallRun true releaseName).

Definition local_GetChartVersion (releaseName : string) : helm string :=
  rel ← must (StatusRun releaseName);
  match rel_Chart rel with
  | Some (Some version) => mret version
  | _ => Raise (HErr "chart metadata not found in release")
  end.

(** ** The interface and its default *)

Record Client := mkClient {
  GetStatus : string -> helm string;
  GetValues : string -> helm object;
  ReleaseExist : string -> helm bool;
  GetChartVersion : string -> helm string;
  Upgrade : ChartRequest -> helm unit;
  Update : ChartRequest -> helm unit;
  Install : ChartRequest -> helm unit;
  Uninstall : string -> helm unit
}.

Definition LocalClient (exist : string -> helm bool) : Client :=
  mkClient local_GetStatus local_GetValues local_ReleaseExist local_GetChartVersion (local_Upgrade exist) local_Update
    local_Install local_Uninstall.

Definition defaultClient : Client := LocalClient local_ReleaseExist.

End Client.
Arguments hreq : clear implicits.
Arguments Client : clear implicits.

(** ** Sameness of values *)

Definition keys (o : object) : list string := fst <$> o.

Lemma sameJson_fields l l' :
  sameJson (JObj l) (JObj l') = true <->
  length l = length l' /\ Forall (fun kv => exists v', get_key l' (fst kv) = Some v' /\ sameJson (snd kv) v' = true) l.
Proof.
  simpl. rewrite andb_true_iff, Nat.eqb_eq. apply and_iff_compat_l.
  induction l as [|[k v] rest IH]; [by split|]. rewrite Forall_cons, andb_true_iff, IH. simpl.
  destruct (get_key l' k) as [v'|]; split; intros [Hv Hr]; split; try done.
  - by exists v'.
  - by destruct Hv as (v0 & [= <-] & Hv).
  - by destruct Hv as (v0 & [=] & _).
Qed.

Lemma get_key_keys o k v : get_key o k = Some v -> k ∈ keys o.
Proof. apply get_key_elem. Qed.

Lemma key_get o k : k ∈ keys o -> is_Some (get_key o k).
Proof.
  induction o as [|[k' v'] o IH]; simpl; [by intros ?%elem_of_nil|]. intros [->|Hk]%elem_of_cons.
  - by rewrite decide_True.
  - case_decide; [by eexists|by apply IH].
Qed.

(** Values with each key once that are the same have the same keys. *)
Lemma sameJson_keys l l' : NoDup (keys l) -> sameJson (JObj l) (JObj l') = true -> keys l ≡ₚ keys l'.
Proof.
  intros Hnd [Hlen Hall]%sameJson_fields. apply submseteq_length_Permutation.
  - apply NoDup_submseteq; [done|]. intros k (kv & -> & Hkv)%list_elem_of_fmap.
    rewrite Forall_forall in Hall. destruct (Hall kv Hkv) as (v' & Hg & _). by apply get_key_keys in Hg.
  - unfold keys. rewrite !length_fmap. lia.
Qed.

Lemma keys_delete o k : keys (delete_key o k) = filter (fun k' => k' <> k) (keys o).
Proof.
  unfold delete_key, keys. induction o as [|[k' v'] o IH]; [done|]. rewrite fmap_cons, !filter_cons. simpl.
  by destruct (decide (k' <> k)); [rewrite fmap_cons, IH|].
Qed.

Lemma keys_set_new o k v : k ∉ keys o -> set_key o k v = o ++ [(k, v)].
Proof.
  induction o as [|[k' v'] o IH]; simpl; [done|]. intros Hk. rewrite decide_False; [|set_solver].
  by rewrite IH; [|set_solver].
Qed.

Lemma filter_absent (l : list string) k : k ∉ l -> filter (fun k' => k' <> k) l = l.
Proof. induction l; intros Hk; [done|]. rewrite filter_cons_True by set_solver. f_equal. apply IHl. set_solver. Qed.

(** Values with one more key, which is then deleted, are the values again. *)
Lemma same_without l o k v :
  NoDup (keys l) -> k ∉ keys o -> sameJson (JObj l) (JObj (set_key o k v)) = true ->
  sameJson (JObj (delete_key l k)) (JObj o) = true.
Proof.
  intros Hnd Hk Hs. pose proof (sameJson_keys _ _ Hnd Hs) as Hp. rewrite keys_set_new in * by done.
  apply sameJson_fields in Hs as [_ Hall]. apply sameJson_fields. split.
  - rewrite <- (length_fmap fst (delete_key l k)), <- (length_fmap fst o). fold (keys (delete_key l k)) (keys o).
    rewrite keys_delete. rewrite Hp. unfold keys at 1. rewrite fmap_app, filter_app. fold (keys o).
    rewrite filter_absent by done. simpl. rewrite filter_cons_False by (intros []; done). by rewrite app_nil_r.
  - apply Forall_forall. intros [k0 v0] [Hne Hin]%list_elem_of_filter. simpl in *.
    rewrite Forall_forall in Hall. destruct (Hall (k0, v0) Hin) as (v' & Hg & Hv). exists v'. split; [|done].
    rewrite <- (keys_set_new o k v Hk), get_set_key, decide_False in Hg by done. done.
Qed.

(** A value whose objects have each key once, as Go's maps do. *)
Fixpoint wfJson (j : json) : bool :=
  match j with
  | JObj l =>
      bool_decide (NoDup (fst <$> l)) &&
      (fix go (l : object) : bool := match l with [] => true | (_, v) :: rest => wfJson v && go rest end) l
  | JArr l => (fix go (l : list json) : bool := match l with [] => true | v :: rest => wfJson v && go rest end) l
  | _ => true
  end.

Lemma wfJson_object l :
  wfJson (JObj l) = true <-> NoDup (keys l) /\ Forall (fun kv => wfJson (snd kv) = true) l.
Proof.
  simpl. rewrite andb_true_iff, bool_decide_eq_true. apply and_iff_compat_l.
  induction l as [|[k v] rest IH]; [by split|]. by rewrite Forall_cons, andb_true_iff, IH.
Qed.

Lemma get_key_unique l k v : NoDup (keys l) -> (k, v) ∈ l -> get_key l k = Some v.
Proof.
  induction l as [|[k' v'] l IH]; intros Hnd Hin; [by apply elem_of_nil in Hin|].
  unfold keys in Hnd. rewrite fmap_cons in Hnd. apply NoDup_cons in Hnd as [Hk Hnd]. simpl.
  apply elem_of_cons in Hin as [[= <- <-]|Hin]; [by rewrite decide_True|].
  rewrite decide_False; [by apply IH|]. intros ->. apply Hk. apply list_elem_of_fmap. by exists (k, v).
Qed.

(** A value is the same as itself. *)
Lemma sameJson_refl : forall j, wfJson j = true -> sameJson j j = true.
Proof.
  fix IH 1. intros [|b|z|s|l|l] Hwf; [apply (bool_decide_eq_true_2 _ eq_refl)..| |].
  - simpl in *. induction l as [|v rest IHl]; [done|]. apply andb_true_iff in Hwf as [Hv Hr].
    apply andb_true_iff. split; [by apply IH|by apply IHl].
  - assert (Forall (fun kv => sameJson (snd kv) (snd kv) = true) l) as Hself.
    { clear -IH Hwf. simpl in Hwf. apply andb_true_iff in Hwf as [_ Hwf].
      induction l as [|[k v] rest IHl]; [constructor|]. apply andb_true_iff in Hwf as [Hv Hr].
      constructor; [by apply IH|by apply IHl]. }
    clear IH. apply wfJson_object in Hwf as [Hnd _]. apply sameJson_fields. split; [done|].
    rewrite Forall_forall in *. intros [k v] Hin. exists v. split; [by apply get_key_unique|by apply (Hself (k, v))].
Qed.

Lemma wfJson_set o k v : wfJson (JObj o) = true -> wfJson v = true -> k ∉ keys o -> wfJson (JObj (set_key o k v)) = true.
Proof.
  intros [Hnd Hall]%wfJson_object Hv Hk. rewrite keys_set_new by done. apply wfJson_object. unfold keys in *.
  rewrite fmap_app. split; [|by apply Forall_app; split; [|constructor]].
  apply NoDup_app. split_and!; [done| |apply NoDup_singleton]. intros x Hx ->%list_elem_of_singleton. done.
Qed.
