(* ===== verification/HelmProofs.v ===== *)
(** * Releases settle

    The reconciler of a release ([Dependencies.helm_Reconcile]) runs on the
    client of [HelmClient], which runs on Helm.  [cluster_with_helm] is that
    composition: a Helm call of the reconciler is a run of the client's
    operation, every other call goes to the rest of the cluster.  What is relied
    on of Helm is [HelmLaws]. *)
From S2P Require Import Prelude KubeTypes Libs ApiTypes Values Effects Utils Calls K8sUtil StatefulSets Acts Runs Dependencies HelmClient Examples.
From S2P Require Import StatefulSetProofs DependencyProofs.

Local Open Scope string_scope.
Local Open Scope list_scope.

(** ** Runs against a handler *)

Section After.
Context {S : Type} (h : handler S).

(** What holds of the state, the calls and the outcome that [p] ends with. *)
Definition after {A} (p : prog A) (s : S) (Q : S -> list event -> outcome A -> Prop) : Prop :=
  let '(s', tr, o) := run h p s in Q s' tr o.

Lemma after_mono {A} (p : prog A) s (Q Q' : S -> list event -> outcome A -> Prop) :
  (forall s' tr o, Q s' tr o -> Q' s' tr o) -> after p s Q -> after p s Q'.
Proof. unfold after. destruct (run h p s) as [[s' tr] o]. auto. Qed.

Lemma after_intro {A} (p : prog A) s (Q : S -> list event -> outcome A -> Prop) :
  (forall s' tr o, Q s' tr o) -> after p s Q.
Proof. unfold after. destruct (run h p s) as [[s' tr] o]. auto. Qed.

Lemma after_bind {A B} (p : prog A) (f : A -> prog B) : forall s Q,
  after p s (fun s' tr o =>
    match o with
    | ORet a => after (f a) s' (fun s'' tr' o' => Q s'' (tr ++ tr') o')
    | OFail e => Q s' tr (OFail e)
    | OPanic => Q s' tr OPanic
    end) -> after (p ≫= f) s Q.
Proof.
  intros s Q. unfold after. rewrite run_bind. destruct (run h p s) as [[s1 tr] [a|e|]]; [|done..].
  by destruct (run h (f a) s1) as [[s2 tr'] o].
Qed.

Lemma after_read {B} (r : kread B) s (Q : S -> list event -> outcome B -> Prop) :
  match h_read h r s with
  | inl e => Q s [Ev (Read r) (inl e)] (OFail (EKube e))
  | inr b => Q s [Ev (Read r) (inr b)] (ORet b)
  end -> after (read r) s Q.
Proof. unfold after. simpl. by destruct (h_read h r s). Qed.

Lemma after_write w s (Q : S -> list event -> outcome unit -> Prop) :
  (let '(x, s') := h_write h w s in
   match x with
   | inl e => Q s' [Ev (Write w) (inl e)] (OFail (EKube e))
   | inr b => Q s' [Ev (Write w) (inr b)] (ORet b)
   end) -> after (write w) s Q.
Proof. unfold after. simpl. by destruct (h_write h w s) as [[e|[]] s']. Qed.

Lemma after_ret {A} (a : A) s (Q : S -> list event -> outcome A -> Prop) : Q s [] (ORet a) -> after (Ret a) s Q.
Proof. done. Qed.

Lemma after_fail {A} e s (Q : S -> list event -> outcome A -> Prop) : Q s [] (OFail e) -> after (Fail e) s Q.
Proof. done. Qed.
End After.

(** ** What is relied on of Helm *)

Definition readsOnly {Chart B} (q : hreq Chart B) : bool :=
  match q with UpgradeRun _ _ _ _ _ | InstallRun _ _ _ _ _ | UninstallRun _ _ => false | _ => true end.

Definition config (r : Release) : object := default [] (rel_Config r).

(** [helmDo ns] are the actions under the configuration of a namespace;
    [stored s ns name] is the last revision of a release.  A release is stored as
    JSON, so that empty values are read back as nil, and values are the same, not
    in the same order.  An upgrade without values keeps those of the previous
    revision unless it is told to reset them. *)
Class HelmLaws {Chart S : Type} (helmDo : string -> answers_of (hreq Chart) herr S)
    (stored : S -> string -> string -> option Release) := {
  law_reads : forall ns B (q : hreq Chart B) s, readsOnly q = true -> snd (helmDo ns B q s) = s;
  law_status : forall ns r s rel, fst (helmDo ns _ (StatusRun r) s) = inr rel -> stored s ns r = Some rel;
  law_values : forall ns r s v,
    fst (helmDo ns _ (GetValuesRun r) s) = inr v -> exists rel, stored s ns r = Some rel /\ rel_Config rel = v;
  law_history : forall ns n r s,
    match fst (helmDo ns _ (HistoryRun n r) s) with
    | inr _ => is_Some (stored s ns r)
    | inl e => e = ErrReleaseNotFound -> stored s ns r = None
    end;
  law_wellformed : forall ns r s rel,
    stored s ns r = Some rel -> is_Some (rel_Info rel) /\ wfJson (JObj (config rel)) = true;
  law_install : forall ns r skip chart values s s',
    wfJson (JObj (default [] values)) = true ->
    helmDo ns _ (InstallRun r ns skip chart values) s = (inr tt, s') ->
    exists rel, stored s' ns r = Some rel /\ rel_Info rel = Some "deployed" /\
      sameJson (JObj (config rel)) (JObj (default [] values)) = true;
  law_upgrade : forall ns reset r chart values s s',
    wfJson (JObj (default [] values)) = true ->
    helmDo ns _ (UpgradeRun ns reset r chart values) s = (inr tt, s') ->
    exists old rel, stored s ns r = Some old /\ stored s' ns r = Some rel /\ rel_Info rel = Some "deployed" /\
      sameJson (JObj (config rel))
        (JObj (if noValues values && negb reset then config old else default [] values)) = true
}.

(** ** The reconciler on the client on Helm *)

Section Settle.
Context {Chart S T : Type} (helmDo : string -> answers_of (hreq Chart) herr S)
  (stored : S -> string -> string -> option Release) {HL : HelmLaws helmDo stored} (rest : handler T).
Context {SV : Semver} {KL : KubeLib} {CL : ClaimLib} {KM : KubeMessages}.
Context (ParseQuantity : string -> option string) (polls : nat).

Fixpoint herrText (e : herr) : string :=
  match e with
  | ErrReleaseNotFound => "release: not found"
  | HErr msg => msg
  | HWrap msg e' => msg +:+ ": " +:+ herrText e'
  end.

(** The client panics on a release without [Info] only, which Helm stores none
    of. *)
Definition answered {A} (e : ending herr A) : kerr + A :=
  match e with Returned a => inr a | Raised x => inl (KOther (herrText x)) | Crashed => inl (KOther "panic") end.

Definition client : Client Chart := defaultClient.

Definition helmRead {A} (ns : string) (p : act (hreq Chart) herr A) (s : S) : kerr + A :=
  answered (fst (act_run (helmDo ns) p s)).

Definition helmWrite (ns : string) (p : act (hreq Chart) herr unit) (st : S * T) : (kerr + unit) * (S * T) :=
  let '(e, s') := act_run (helmDo ns) p (fst st) in (answered e, (s', snd st)).

Definition cluster_with_helm : handler (S * T) :=
  mkHandler
    (fun B (r : kread B) st =>
       match r in kread B' return kerr + B' with
       | HelmReleaseExist ns release => helmRead ns (ReleaseExist client release) (fst st)
       | HelmGetValues ns release => helmRead ns (GetValues client release) (fst st)
       | HelmGetStatus ns release => helmRead ns (GetStatus client release) (fst st)
       | HelmGetChartVersion ns release => helmRead ns (GetChartVersion client release) (fst st)
       | r => h_read rest r (snd st)
       end)
    (fun w st =>
       match w with
       | HelmInstall ns release chart values =>
           helmWrite ns (Install client (mkRequest release ns chart (Some values))) st
       | HelmUpdate ns release chart values =>
           helmWrite ns (Update client (mkRequest release ns chart (Some values))) st
       | HelmUninstall ns release => helmWrite ns (Uninstall client release) st
       | w => let '(x, t') := h_write rest w (snd st) in (x, (fst st, t'))
       end).

Lemma read_exist ns release st :
  h_read cluster_with_helm (HelmReleaseExist ns release) st = helmRead ns (ReleaseExist client release) (fst st).
Proof. reflexivity. Qed.
Lemma read_values ns release st :
  h_read cluster_with_helm (HelmGetValues ns release) st = helmRead ns (GetValues client release) (fst st).
Proof. reflexivity. Qed.
Lemma read_status ns release st :
  h_read cluster_with_helm (HelmGetStatus ns release) st = helmRead ns (GetStatus client release) (fst st).
Proof. reflexivity. Qed.
Lemma write_install ns release chart v st :
  h_write cluster_with_helm (HelmInstall ns release chart v) st =
    helmWrite ns (Install client (mkRequest release ns chart (Some v))) st.
Proof. reflexivity. Qed.
Lemma write_update ns release chart v st :
  h_write cluster_with_helm (HelmUpdate ns release chart v) st =
    helmWrite ns (Update client (mkRequest release ns chart (Some v))) st.
Proof. reflexivity. Qed.

(** *** The client's operations on a lawful Helm *)

Lemma exist_spec ns release s :
  match helmRead ns (ReleaseExist client release) s with
  | inr b => b = bool_decide (is_Some (stored s ns release))
  | inl _ => True
  end.
Proof.
  unfold helmRead. change (ReleaseExist client release) with (local_ReleaseExist (Chart:=Chart) release). unfold local_ReleaseExist. rewrite act_run_bind, act_run_ask.
  pose proof (law_history ns 1 release s) as Hl. destruct (helmDo ns _ (HistoryRun 1 release) s) as [[e|[]] s1]; simpl in *.
  - case_bool_decide as He; [|done]. simpl. rewrite (Hl He). by rewrite bool_decide_eq_false_2 by (by intros [? [=]]).
  - by rewrite bool_decide_eq_true_2.
Qed.

Lemma values_spec ns release s v :
  helmRead ns (GetValues client release) s = inr v -> exists rel, stored s ns release = Some rel /\ config rel = v.
Proof.
  unfold helmRead. change (GetValues client release) with (local_GetValues (Chart:=Chart) release). unfold local_GetValues. rewrite act_run_bind, act_run_must.
  pose proof (law_values ns release s) as Hl. destruct (helmDo ns _ (GetValuesRun release) s) as [[e|o] s1]; [done|].
  destruct (Hl o eq_refl) as (rel & Hs & Hc). intros Hv. exists rel. split; [done|]. unfold config. rewrite Hc.
  by destruct o; injection Hv.
Qed.

Lemma status_spec ns release s x :
  helmRead ns (GetStatus client release) s = inr x ->
  exists rel, stored s ns release = Some rel /\ rel_Info rel = Some x.
Proof.
  unfold helmRead. change (GetStatus client release) with (local_GetStatus (Chart:=Chart) release). unfold local_GetStatus. rewrite act_run_bind, act_run_must.
  pose proof (law_status ns release s) as Hl. destruct (helmDo ns _ (StatusRun release) s) as [[e|rel] s1]; [done|].
  intros Hx. exists rel. split; [by apply Hl|]. destruct (rel_Info rel); simpl in Hx; [by injection Hx as ->|done].
Qed.

Lemma update_spec ns release chart v st st' :
  wfJson (JObj v) = true ->
  helmWrite ns (Update client (mkRequest release ns chart (Some v))) st = (inr tt, st') ->
  exists rel, stored (fst st') ns release = Some rel /\ rel_Info rel = Some "deployed" /\
    sameJson (JObj (config rel)) (JObj v) = true.
Proof.
  intros Hwf. unfold helmWrite. change (Update client) with (local_Update (Chart:=Chart)). unfold local_Update. rewrite act_run_bind, act_run_must. simpl rq_Chart.
  destruct (helmDo ns _ (LoadChart chart) (fst st)) as [[e|c] s1] eqn:El; [done|]. rewrite act_run_must.
  cbn [rq_Namespace rq_Values rq_ReleaseName].
  destruct (helmDo ns unit (UpgradeRun ns (noValues (Some v)) release c (Some v)) s1) as [[e|[]] s2] eqn:Eu; [done|].
  intros [= <-].
  apply law_upgrade in Eu; [|done]. destruct Eu as (old & rel & _ & Hs & Hi & Hc). exists rel. split_and!; [done..|].
  by rewrite andb_negb_r in Hc.
Qed.

Lemma install_spec ns release chart v st st' :
  wfJson (JObj v) = true ->
  helmWrite ns (Install client (mkRequest release ns chart (Some v))) st = (inr tt, st') ->
  exists rel, stored (fst st') ns release = Some rel /\ rel_Info rel = Some "deployed" /\
    sameJson (JObj (config rel)) (JObj v) = true.
Proof.
  intros Hwf. unfold helmWrite. change (Install client) with (local_Install (Chart:=Chart)). unfold local_Install. rewrite act_run_bind, act_run_must. simpl rq_Chart.
  destruct (helmDo ns _ (LoadChart chart) (fst st)) as [[e|c] s1] eqn:El; [done|]. rewrite act_run_must.
  cbn [rq_Namespace rq_Values rq_ReleaseName].
  destruct (helmDo ns unit (InstallRun release ns true c (Some v)) s1) as [[e|[]] s2] eqn:Eu; [done|].
  intros [= <-].
  by apply law_install in Eu; [|done].
Qed.

(** *** The reconciler *)

Notation reconcile := (helm_Reconcile ParseQuantity polls).
Notation after := (after cluster_with_helm).

Definition isPulsar (request : ChartRequest) : bool := bool_decide (rq_Chart request = pulsarChart).

(** The values of a release as the reconciler compares them. *)
Definition compared (request : ChartRequest) (rel : Release) : object :=
  if isPulsar request then delete_key (config rel) "initialize" else config rel.

Definition settled (request : ChartRequest) (s : S) : Prop :=
  exists rel x, stored s (rq_Namespace request) (rq_ReleaseName request) = Some rel /\ rel_Info rel = Some x /\
    NeedUpdate x = false /\ deepEqualValues (compared request rel) (rq_Values request) = true.

(** Nothing is written, and only a failed call ends in an error. *)
Definition quiet (st st' : S * T) (tr : list event) (o : outcome unit) : Prop :=
  st' = st /\ writes tr = [] /\ (o = ORet tt \/ Exists (fun ev => event_failed ev = true) tr).

Lemma quiet_failed st tr o :
  writes tr = [] -> existsb event_failed tr = true -> quiet st st tr o.
Proof.
  intros Hw Hf. split_and!; [done..|right]. apply existsb_exists in Hf as (ev & Hin & Hev).
  apply Exists_exists. exists ev. split; [by apply list_elem_of_In|done].
Qed.

Lemma settled_quiet request mc st : settled request (fst st) -> after (reconcile request mc) st (quiet st).
Proof.
  intros (rel & x & Hs & Hi & Hn & Hd). unfold helm_Reconcile. cbv zeta. fold (isPulsar request).
  apply after_bind, after_read. rewrite read_exist.
  pose proof (exist_spec (rq_Namespace request) (rq_ReleaseName request) (fst st)) as He.
  destruct (helmRead _ (ReleaseExist client _) (fst st)) as [e|b]; [by apply quiet_failed|].
  rewrite Hs in He. rewrite bool_decide_eq_true_2 in He by done. subst b. simpl negb. cbv iota.
  apply after_bind, after_read. rewrite read_values.
  destruct (helmRead _ (GetValues client _) (fst st)) as [e|v] eqn:Ev; [by apply quiet_failed|].
  apply values_spec in Ev as (rel' & Hs' & Hv). rewrite Hs in Hs'. injection Hs' as <-.
  apply after_bind, after_read. rewrite read_status.
  destruct (helmRead _ (GetStatus client _) (fst st)) as [e|y] eqn:Ey; [by apply quiet_failed|].
  apply status_spec in Ey as (rel' & Hs' & Hy). rewrite Hs in Hs'. injection Hs' as <-.
  rewrite Hi in Hy. injection Hy as <-. subst v. fold (compared request rel). rewrite Hd, Hn. simpl.
  apply after_ret. split_and!; [done..|by left].
Qed.

(** Values that were written are what the next reconcile compares. *)
Lemma written_settled request v b s :
  rq_Values request = Some v -> (isPulsar request = true -> "initialize" ∉ keys v) ->
  (exists rel, stored s (rq_Namespace request) (rq_ReleaseName request) = Some rel /\
     rel_Info rel = Some "deployed" /\
     sameJson (JObj (config rel))
       (JObj (if isPulsar request then set_key v "initialize" (JBool b) else v)) = true) ->
  settled request s.
Proof.
  intros Hv Hp (rel & Hs & Hi & Hc). exists rel, "deployed". split_and!; [done..|].
  unfold compared, deepEqualValues. rewrite Hv. destruct (isPulsar request); [|done].
  revert Hc. apply same_without; [by apply wfJson_object, (law_wellformed _ _ _ _ Hs)|by apply Hp].
Qed.

(** [request.Values["initialize"] = b] on values that are no nil map. *)
Lemma setInitialize_run {B} isPulsar v b (k : option object -> prog B) :
  (setInitialize isPulsar (Some v) b ≫= k) = k (Some (if isPulsar then set_key v "initialize" (JBool b) else v)).
Proof. by destruct isPulsar. Qed.

(** The values of a chart request: a map, in which Pulsar's own key is free. *)
Definition plainValues (request : ChartRequest) : Prop :=
  exists v, rq_Values request = Some v /\ wfJson (JObj v) = true /\ (isPulsar request = true -> "initialize" ∉ keys v).

Lemma initialized_wf request v b :
  wfJson (JObj v) = true -> (isPulsar request = true -> "initialize" ∉ keys v) ->
  wfJson (JObj (if isPulsar request then set_key v "initialize" (JBool b) else v)) = true.
Proof. intros Hwf Hp. destruct (isPulsar request); [|done]. apply wfJson_set; auto. Qed.

Lemma reconcile_settles request mc st :
  plainValues request -> after (reconcile request mc) st (fun st' _ o => o = ORet tt -> settled request (fst st')).
Proof.
  intros (v & Hv & Hwf & Hp). unfold helm_Reconcile. cbv zeta. fold (isPulsar request).
  apply after_bind, after_read. rewrite read_exist.
  destruct (helmRead _ (ReleaseExist client _) (fst st)) as [e|b]; [done|]. destruct (negb b).
  { rewrite Hv, setInitialize_run. apply after_write. rewrite write_install.
    destruct (helmWrite _ _ st) as [[e|[]] st'] eqn:Ew; [done|]. intros _. apply install_spec in Ew; [|by apply initialized_wf].
    by apply written_settled with v true. }
  apply after_bind, after_read. rewrite read_values.
  destruct (helmRead _ (GetValues client _) (fst st)) as [e|vals] eqn:Evals; [done|].
  apply after_bind, after_read. rewrite read_status.
  destruct (helmRead _ (GetStatus client _) (fst st)) as [e|x] eqn:Ex; [done|].
  apply values_spec in Evals as (rel & Hs & <-). apply status_spec in Ex as (rel' & Hs' & Hx).
  rewrite Hs in Hs'. injection Hs' as <-. fold (compared request rel).
  destruct (deepEqualValues _ _ && negb (NeedUpdate x)) eqn:Ed.
  { apply after_ret. intros _. apply andb_true_iff in Ed as [Hd Hn%negb_true_iff]. by exists rel, x. }
  rewrite Hv, setInitialize_run. apply after_bind.
  apply after_intro. intros st' tr [[]|e|]; [|done..].
  apply after_write. rewrite write_update. destruct (helmWrite _ _ st') as [[e|[]] st''] eqn:Ew; [done|]. intros _.
  apply update_spec in Ew; [|by apply initialized_wf]. by apply written_settled with v false.
Qed.

(** C16. The reconciler of a release, on the client, on Helm, settles, for a request
    whose values are a map and not nil and, for Pulsar's chart, do not set the key
    [initialize] themselves: after a reconcile that returns no error a further one
    for the same request makes no change to the cluster, and returns no error unless
    a call fails.  This needs values that were emptied to be emptied in the release,
    too. *)
Theorem release_settles request mc st st' tr st'' tr' o :
  plainValues request ->
  run cluster_with_helm (reconcile request mc) st = (st', tr, ORet tt) ->
  run cluster_with_helm (reconcile request mc) st' = (st'', tr', o) ->
  st'' = st' /\ writes tr' = [] /\ (o = ORet tt \/ Exists (fun ev => event_failed ev = true) tr').
Proof.
  intros Hp Hrun Hrun'. pose proof (reconcile_settles request mc st Hp) as Hs. unfold HelmProofs.after in Hs.
  rewrite Hrun in Hs. pose proof (settled_quiet request mc st' (Hs eq_refl)) as Hq. unfold HelmProofs.after in Hq.
  by rewrite Hrun' in Hq.
Qed.

(** The key that the reconciler sets for Pulsar's chart is deleted from the
    values of the release before they are compared with those of the resource,
    but not from the latter: if they have the key, every reconcile updates the
    release. *)
Theorem pulsar_initialize_repeats request v mc st st' tr :
  isPulsar request = true -> rq_Values request = Some v -> "initialize" ∈ keys v ->
  run cluster_with_helm (reconcile request mc) st = (st', tr, ORet tt) ->
  exists w, w ∈ writes tr /\
    match w with HelmInstall _ _ _ _ | HelmUpdate _ _ _ _ => True | _ => False end.
Proof.
  intros Hi Hv Hin Hrun.
  enough (after (reconcile request mc) st (fun _ tr o => o = ORet tt -> exists w, w ∈ writes tr /\
    match w with HelmInstall _ _ _ _ | HelmUpdate _ _ _ _ => True | _ => False end)) as Ha.
  { unfold HelmProofs.after in Ha. rewrite Hrun in Ha. auto. }
  unfold helm_Reconcile. cbv zeta. fold (isPulsar request). rewrite Hi.
  apply after_bind, after_read. rewrite read_exist.
  destruct (helmRead _ (ReleaseExist client _) (fst st)) as [e|b]; [done|]. destruct (negb b).
  { rewrite Hv, setInitialize_run. apply after_write.
    destruct (h_write _ _ st) as [[e|[]] s1]; [done|]. intros _. eexists. split; [by apply list_elem_of_singleton|done]. }
  apply after_bind, after_read. rewrite read_values.
  destruct (helmRead _ (GetValues client _) (fst st)) as [e|vals] eqn:Evals; [done|].
  apply after_bind, after_read. rewrite read_status.
  destruct (helmRead _ (GetStatus client _) (fst st)) as [e|x]; [done|].
  apply values_spec in Evals as (rel & Hs & <-). rewrite Hv. cbn [deepEqualValues].
  assert (sameJson (JObj (delete_key (config rel) "initialize")) (JObj v) = false) as ->.
  { apply not_true_is_false. intros Hsame. apply sameJson_keys in Hsame.
    - rewrite keys_delete in Hsame. rewrite <- Hsame in Hin. by apply list_elem_of_filter in Hin as [[] _].
    - rewrite keys_delete. apply NoDup_filter. by apply wfJson_object, (law_wellformed _ _ _ _ Hs). }
  simpl andb. cbv iota. rewrite setInitialize_run. apply after_bind.
  apply after_intro. intros s1 tr1 [[]|e|]; [|done..]. apply after_write.
  destruct (h_write _ _ s1) as [[e|[]] s2]; [done|]. intros _. eexists. rewrite !writes_app.
  split; [apply elem_of_app; right; apply elem_of_app; right; apply elem_of_app; right; apply elem_of_app; right;
    by apply list_elem_of_singleton|done].
Qed.
End Settle.

(** ** A Helm

    Releases by namespace and name, of which those with well-formed values
    count. *)
Definition wellformed (rel : Release) : bool :=
  match rel_Info rel with Some _ => wfJson (JObj (config rel)) | None => false end.

Definition exStored (s : gmap (string * string) Release) (ns name : string) : option Release :=
  rel ← s !! (ns, name); if wellformed rel then Some rel else None.

Definition omitempty (v : object) : option object := match v with [] => None | _ => Some v end.

Definition exPut (ns name : string) (values : object) (s : gmap (string * string) Release) :
    (herr + unit) * gmap (string * string) Release :=
  if wfJson (JObj values)
  then (inr tt, <[(ns, name) := mkRelease (Some "deployed") (Some (Some "8.12.0")) (omitempty values)]> s)
  else (inl (HErr "values"), s).

Definition found {A B} (o : option A) (f : A -> B) : herr + B :=
  match o with Some a => inr (f a) | None => inl ErrReleaseNotFound end.

Definition exHelmDo (ns : string) : answers_of (hreq string) herr (gmap (string * string) Release) :=
  fun B q s =>
    match q in hreq _ B' return (herr + B') * gmap (string * string) Release with
    | StatusRun name => (found (exStored s ns name) id, s)
    | GetValuesRun name => (found (exStored s ns name) rel_Config, s)
    | HistoryRun _ name | ReleasesHistory name => (found (exStored s ns name) (fun _ => tt), s)
    | LoadChart path => (inr path, s)
    | UpgradeRun _ reset name _ values =>
        match exStored s ns name with
        | None => (inl ErrReleaseNotFound, s)
        | Some old =>
            exPut ns name (if noValues values && negb reset then config old else default [] values) s
        end
    | InstallRun name _ _ _ values => exPut ns name (default [] values) s
    | UninstallRun _ name =>
        match exStored s ns name with
        | None => (inl ErrReleaseNotFound, s)
        | Some _ => (inr tt, delete (ns, name) s)
        end
    end.

Lemma config_omitempty i c v : config (mkRelease i c (omitempty v)) = v.
Proof. by destruct v. Qed.

Lemma exPut_stored ns name v s s' :
  exPut ns name v s = (inr tt, s') ->
  exists rel, exStored s' ns name = Some rel /\ rel_Info rel = Some "deployed" /\
    sameJson (JObj (config rel)) (JObj v) = true.
Proof.
  unfold exPut. destruct (wfJson (JObj v)) eqn:Hwf; intros [= <-]. eexists.
  unfold exStored. rewrite lookup_insert_eq. cbn [mbind option_bind]. unfold wellformed. cbn [rel_Info].
  rewrite config_omitempty, Hwf. split_and!; [done..|]. rewrite config_omitempty. by apply sameJson_refl.
Qed.

#[export] Instance exHelmLaws : HelmLaws exHelmDo exStored.
Proof.
  split.
  - intros ns B q s Hq. by destruct q.
  - intros ns r s rel. simpl. by destruct (exStored s ns r); intros [= <-].
  - intros ns r s v. simpl. destruct (exStored s ns r) as [rel|]; intros [= <-]. by exists rel.
  - intros ns n r s. simpl. destruct (exStored s ns r); simpl; [by eexists|done].
  - intros ns r s rel. unfold exStored. destruct (s !! (ns, r)) as [rel0|]; [|done]. cbn [mbind option_bind].
    destruct (wellformed rel0) eqn:Hw; intros [= <-]. unfold wellformed in Hw. by destruct (rel_Info rel0).
  - intros ns r skip chart values s s' Hwf Hi. by apply exPut_stored in Hi.
  - intros ns reset r chart values s s' Hwf. simpl. destruct (exStored s ns r) as [old|] eqn:Ho; [|done].
    intros (rel & Hs & Hi & Hc)%exPut_stored. by exists old, rel.
Qed.

(** A release of MinIO whose values are emptied. *)
Definition exMinioHelm : gmap (string * string) Release :=
  {[("ns", "mi-minio") := mkRelease (Some "deployed") (Some (Some "8.0.17")) (Some [("mode", JStr "standalone")])]}.

Definition exEmptied : ChartRequest := mkRequest "mi-minio" "ns" (GetChartPathByName "minio") (Some []).

Definition exCluster : handler (gmap (string * string) Release * unit) :=
  cluster_with_helm exHelmDo (mkHandler (fun B (r : kread B) _ => inl KNotFound) (fun _ s => (inr tt, s))).

#[local] Existing Instances concreteSemver concreteKubeLib exClaimLib notFoundText.

Lemma exMinio_plain : plainValues exEmptied.
Proof. by exists []. Qed.

Definition exSettling (st : gmap (string * string) Release * unit) :=
  run exCluster (helm_Reconcile Some 1 exEmptied (exMilvus 1)) st.

Definition exSettled := exSettling (exMinioHelm, tt).

(** The first reconcile updates the release. *)
Example exSettled_updates : length (writes (snd (fst exSettled))) = 1%nat.
Proof. vm_compute. reflexivity. Qed.

Lemma release_settles_witness :
  snd exSettled = ORet tt /\
  fst (fst (exSettling (fst (fst exSettled)))) = fst (fst exSettled) /\
  writes (snd (fst (exSettling (fst (fst exSettled))))) = [].
Proof.
  assert (snd exSettled = ORet tt) as Ho by (vm_compute; reflexivity). split; [exact Ho|].
  assert (forall st, exSettling st = (fst (fst (exSettling st)), snd (fst (exSettling st)), snd (exSettling st))) as Hr
    by (intros st; by destruct (exSettling st) as [[? ?] ?]).
  pose proof (Hr (exMinioHelm, tt)) as H1. fold exSettled in H1. rewrite Ho in H1.
  destruct (release_settles exHelmDo exStored (mkHandler (fun B (r : kread B) _ => inl KNotFound) (fun _ s => (inr tt, s)))
    Some 1 exEmptied (exMilvus 1) (exMinioHelm, tt) _ _ _ _ _ exMinio_plain H1 (Hr (fst (fst exSettled)))) as (Hst & Hw & _).
  split; [exact Hst|exact Hw].
Defined.

Definition exPulsarHelm : gmap (string * string) Release :=
  {[("ns", "mi-pulsar") :=
      mkRelease (Some "deployed") (Some (Some "2.7.8")) (Some [("initialize", JBool false)])]}.

Definition exPulsarRun :=
  run exCluster
    (helm_Reconcile Some 1 (mkRequest "mi-pulsar" "ns" pulsarChart (Some [("initialize", JBool false)])) (exMilvus 1))
    (exPulsarHelm, tt).

Lemma pulsar_initialize_repeats_witness :
  exists w, w ∈ writes (snd (fst exPulsarRun)) /\
    match w with HelmInstall _ _ _ _ | HelmUpdate _ _ _ _ => True | _ => False end.
Proof.
  assert (exPulsarRun = (fst (fst exPulsarRun), snd (fst exPulsarRun), ORet tt)) as Hr
    by (assert (snd exPulsarRun = ORet tt) as <- by (vm_compute; reflexivity); by destruct exPulsarRun as [[? ?] ?]).
  eapply (pulsar_initialize_repeats exHelmDo exStored
    (mkHandler (fun B (r : kread B) _ => inl KNotFound) (fun _ s => (inr tt, s))) Some 1
    (mkRequest "mi-pulsar" "ns" pulsarChart (Some [("initialize", JBool false)])) [("initialize", JBool false)]
    (exMilvus 1) (exPulsarHelm, tt)); [reflexivity|reflexivity|left|exact Hr].
Defined.
