(* ===== verification/Json.v ===== *)
(** * JSON text

    encoding/json as the code uses it: [Marshal] of a tree and [Unmarshal] into
    one, on bytes.  Marshal escapes what Go escapes (control characters, quotes,
    the characters of HTML, line separators, bytes that are not UTF-8) and sorts
    the keys of objects; Unmarshal takes white space, all escapes, surrogate
    pairs and repeated keys, and gives up on more than 10000 levels.

    On top of it [Values] (apis/milvus.io/v1beta1/values_types.go) and
    [DeepCopyValues] (pkg/util/util.go): a copy is what Unmarshal reads from what
    Marshal wrote.

    The numbers of a tree are integers, an [int] and a [float64] of the same value
    being one number; text with a fraction or an exponent is therefore refused
    here ([NotInteger]). *)
From S2P Require Import Prelude KubeTypes ApiTypes Values Dependencies HelmClient.

Local Open Scope Z_scope.

Notation bytes := (list ascii).

Definition text (s : string) : bytes := String.list_ascii_of_string s.
Definition str (b : bytes) : string := String.string_of_list_ascii b.

(** The code of a byte. *)
Definition code (a : ascii) : Z := Z.of_N (N_of_ascii a).
Definition chr (z : Z) : ascii := ascii_of_N (Z.to_N z).

Definition within (lo hi z : Z) : bool := (lo <=? z) && (z <=? hi).

(** ** UTF-8 *)

Definition cont (a : ascii) : bool := within 128 191 (code a).

(** [utf8.DecodeRune]: the rune and its size; [None] is a byte that is not part of
    a rune. *)
Definition decodeRune (s : bytes) : option (Z * nat) :=
  match s with
  | [] => None
  | a :: s1 =>
      let x := code a in
      if x <? 128 then Some (x, 1%nat)
      else if within 194 223 x then
        match s1 with
        | b :: _ => if cont b then Some ((x - 192) * 64 + (code b - 128), 2%nat) else None
        | _ => None
        end
      else if within 224 239 x then
        match s1 with
        | b :: c :: _ =>
            if within (if x =? 224 then 160 else 128) (if x =? 237 then 159 else 191) (code b) && cont c
            then Some ((x - 224) * 4096 + (code b - 128) * 64 + (code c - 128), 3%nat) else None
        | _ => None
        end
      else if within 240 244 x then
        match s1 with
        | b :: c :: d :: _ =>
            if within (if x =? 240 then 144 else 128) (if x =? 244 then 143 else 191) (code b) && cont c && cont d
            then Some ((x - 240) * 262144 + (code b - 128) * 4096 + (code c - 128) * 64 + (code d - 128), 4%nat)
            else None
        | _ => None
        end
      else None
  end.

Definition RuneError : Z := 65533.

(** [utf8.AppendRune]; a surrogate or a number that is too large gives the
    replacement character. *)
Definition encodeRune (r : Z) : bytes :=
  let r := if (r <? 0) || (1114111 <? r) || within 55296 57343 r then RuneError else r in
  if r <? 128 then [chr r]
  else if r <? 2048 then [chr (192 + r / 64); chr (128 + r mod 64)]
  else if r <? 65536 then [chr (224 + r / 4096); chr (128 + r / 64 mod 64); chr (128 + r mod 64)]
  else [chr (240 + r / 262144); chr (128 + r / 4096 mod 64); chr (128 + r / 64 mod 64); chr (128 + r mod 64)].

(** ** Strings *)

Definition quote : ascii := chr 34.
Definition backslash : ascii := chr 92.

Definition hexDigit (z : Z) : ascii := chr (if z <? 10 then 48 + z else 87 + z).

Definition escape4 (z : Z) : bytes :=
  [backslash; "u"%char; hexDigit (z / 4096); hexDigit (z / 256 mod 16); hexDigit (z / 16 mod 16); hexDigit (z mod 16)].

(** The escapes of one letter. *)
Definition letters : list (Z * Z) := [(34, 34); (92, 92); (8, 98); (12, 102); (10, 110); (13, 114); (9, 116)].

Definition letterFor (x : Z) : option Z := snd <$> (snd <$> list_find (fun p => fst p = x) letters).

(** A byte below 128: [htmlSafeSet] says which are copied. *)
Definition safeByte (x : Z) : bool :=
  (32 <=? x) && negb (bool_decide (x ∈ [34; 92; 60; 62; 38])).

Definition escapeByte (a : ascii) : bytes :=
  let x := code a in
  if safeByte x then [a]
  else match letterFor x with
       | Some l => [backslash; chr l]
       | None => escape4 x
       end.

(** [appendString] with HTML escapes, between the quotes. *)
Fixpoint escaped (s : bytes) : bytes :=
  match s with
  | [] => []
  | a :: s1 =>
      if code a <? 128 then escapeByte a ++ escaped s1
      else match decodeRune s, s1 with
           | Some (_, 2%nat), b :: s2 => a :: b :: escaped s2
           | Some (r, 3%nat), b :: c :: s3 =>
               (if (r =? 8232) || (r =? 8233) then escape4 r else [a; b; c]) ++ escaped s3
           | Some (_, 4%nat), b :: c :: d :: s4 => a :: b :: c :: d :: escaped s4
           | _, _ => escape4 RuneError ++ escaped s1
           end
  end.

Definition quoted (s : string) : bytes := quote :: escaped (text s) ++ [quote].

Definition hexValue (a : ascii) : option Z :=
  let x := code a in
  if within 48 57 x then Some (x - 48)
  else if within 97 102 x then Some (x - 87)
  else if within 65 70 x then Some (x - 55)
  else None.

Definition hex4 (a b c d : ascii) : option Z :=
  x ← hexValue a; y ← hexValue b; z ← hexValue c; w ← hexValue d; Some (x * 4096 + y * 256 + z * 16 + w).

(** The byte an escape of one letter stands for; a slash may be escaped, too. *)
Definition byteFor (l : Z) : option Z :=
  if l =? 47 then Some 47 else fst <$> (snd <$> list_find (fun p => snd p = l) letters).

(** [utf16.DecodeRune] of two halves. *)
Definition surrogates (r1 r2 : Z) : option Z :=
  if within 55296 56319 r1 && within 56320 57343 r2
  then Some ((r1 - 55296) * 1024 + (r2 - 56320) + 65536) else None.

(** The rune of two escapes, of which the first is the half [r] of a pair. *)
Definition secondHalf (r : Z) (s : bytes) : option Z :=
  match s with
  | b1 :: b2 :: b3 :: b4 :: b5 :: b6 :: _ =>
      if bool_decide (b1 = backslash) && bool_decide (b2 = "u"%char)
      then h ← hex4 b3 b4 b5 b6; surrogates r h else None
  | _ => None
  end.

Definition push (p : bytes) (r : option (bytes * bytes)) : option (bytes * bytes) :=
  match r with Some (s, rest) => Some (p ++ s, rest) | None => None end.

(** [unquote]: the string up to its closing quote, and what follows. *)
Fixpoint unquoted (s : bytes) : option (bytes * bytes) :=
  match s with
  | [] => None
  | a :: s1 =>
      if bool_decide (a = quote) then Some ([], s1)
      else if bool_decide (a = backslash) then
        match s1 with
        | [] => None
        | e :: s2 =>
            if bool_decide (e = "u"%char) then
              match s2 with
              | a1 :: a2 :: a3 :: a4 :: s6 =>
                  match hex4 a1 a2 a3 a4 with
                  | None => None
                  | Some r =>
                      match secondHalf r s6, s6 with
                      | Some r2, _ :: _ :: _ :: _ :: _ :: _ :: s12 => push (encodeRune r2) (unquoted s12)
                      | _, _ => push (encodeRune r) (unquoted s6)
                      end
                  end
              | _ => None
              end
            else match byteFor (code e) with
                 | Some x => push [chr x] (unquoted s2)
                 | None => None
                 end
        end
      else if code a <? 32 then None
      else if code a <? 128 then push [a] (unquoted s1)
      else match decodeRune s, s1 with
           | Some (_, 2%nat), b :: s2 => push [a; b] (unquoted s2)
           | Some (_, 3%nat), b :: c :: s3 => push [a; b; c] (unquoted s3)
           | Some (_, 4%nat), b :: c :: d :: s4 => push [a; b; c; d] (unquoted s4)
           | _, _ => push (encodeRune RuneError) (unquoted s1)
           end
  end.

(** ** Numbers *)

(** An integer as a [float64]: 53 bits, ties to even. *)
Definition float64_of (z : Z) : Z :=
  let m := Z.abs z in
  let e := Z.log2 m - 52 in
  if e <=? 0 then z
  else
    let q := m / 2 ^ e in
    let r := m mod 2 ^ e in
    let half := 2 ^ (e - 1) in
    Z.sgn z * (if (half <? r) || ((r =? half) && Z.odd q) then q + 1 else q) * 2 ^ e.

Inductive decodeError := SyntaxError | MaxDepth | OutOfRange | NotInteger | WrongType.

#[export] Instance decode_bind : MBind (sum decodeError) :=
  fun A B f r => match r with inl e => inl e | inr a => f a end.

Definition isDigit (a : ascii) : bool := within 48 57 (code a).

(** The digits at the start of a text, and the rest. *)
Fixpoint spanDigits (s : bytes) : bytes * bytes :=
  match s with
  | [] => ([], [])
  | a :: s1 => if isDigit a then let '(ds, r) := spanDigits s1 in (a :: ds, r) else ([], s)
  end.

(** A number of JSON, after its sign: no leading zeros. *)
Definition decodeDigits (sign : Z) (s : bytes) : decodeError + (json * bytes) :=
  let '(ds, rest) := spanDigits s in
  match ds with
  | [] => inl SyntaxError
  | a :: ds' =>
      if bool_decide (a = "0"%char) && negb (bool_decide (ds' = [])) then inl SyntaxError
      else match rest with
           | b :: _ => if bool_decide (code b ∈ [46; 69; 101]) then inl NotInteger else inr tt
           | [] => inr tt
           end ≫= fun _ =>
           let z := sign * float64_of (default 0 (digits_value 0 (str ds))) in
           if 2 ^ 1024 <=? Z.abs z then inl OutOfRange else inr (JNum z, rest)
  end.

Definition decodeNumber (s : bytes) : decodeError + (json * bytes) :=
  match s with
  | a :: s1 => if bool_decide (a = "-"%char) then decodeDigits (-1) s1 else decodeDigits 1 s
  | [] => inl SyntaxError
  end.

(** ** Marshal *)

(** The keys of every object in the order of their bytes. *)
Fixpoint sortJson (j : json) : json :=
  match j with
  | JArr l => JArr (sortJson <$> l)
  | JObj l => JObj (SliceStable fst ((fun kv => (fst kv, sortJson (snd kv))) <$> l))
  | _ => j
  end.

Fixpoint commas (l : list bytes) : bytes :=
  match l with
  | [] => []
  | [x] => x
  | x :: l' => x ++ ","%char :: commas l'
  end.

Fixpoint emit (j : json) : bytes :=
  match j with
  | JNull => text "null"
  | JBool true => text "true"
  | JBool false => text "false"
  | JNum z => text (Itoa z)
  | JStr s => quoted s
  | JArr l => "["%char :: commas (emit <$> l) ++ ["]"%char]
  | JObj l => "{"%char :: commas ((fun kv => quoted (fst kv) ++ ":"%char :: emit (snd kv)) <$> l) ++ ["}"%char]
  end.

Definition json_Marshal (j : json) : bytes := emit (sortJson j).

(** ** Unmarshal *)

Definition isSpace (a : ascii) : bool := bool_decide (code a ∈ [32; 9; 13; 10]).

Fixpoint skipSpace (s : bytes) : bytes :=
  match s with
  | a :: s1 => if isSpace a then skipSpace s1 else s
  | [] => []
  end.

Definition decoder (A : Type) : Type := bytes -> decodeError + (A * bytes).

(** One byte, after white space. *)
Definition expect (a : ascii) (s : bytes) : decodeError + bytes :=
  match skipSpace s with
  | b :: s1 => if bool_decide (b = a) then inr s1 else inl SyntaxError
  | [] => inl SyntaxError
  end.

(** What is separated by commas, up to the closing byte; there is at least one
    item, and each takes some text. *)
Fixpoint items {A} (item : decoder A) (close : ascii) (n : nat) (s : bytes) : decodeError + (list A * bytes) :=
  match n with
  | O => inl SyntaxError
  | S n' =>
      '(x, s1) ← item s;
      match skipSpace s1 with
      | b :: s2 =>
          if bool_decide (b = close) then inr ([x], s2)
          else if bool_decide (b = ","%char) then '(l, s3) ← items item close n' s2; inr (x :: l, s3)
          else inl SyntaxError
      | [] => inl SyntaxError
      end
  end.

Definition sequence {A} (item : decoder A) (close : ascii) (s : bytes) : decodeError + (list A * bytes) :=
  match skipSpace s with
  | b :: s1 => if bool_decide (b = close) then inr ([], s1) else items item close (S (length s)) s
  | [] => inl SyntaxError
  end.

Definition decodeString (s : bytes) : decodeError + (string * bytes) :=
  s1 ← expect quote s;
  match unquoted s1 with Some (b, rest) => inr (str b, rest) | None => inl SyntaxError end.

Definition member (value : decoder json) (s : bytes) : decodeError + (string * json * bytes) :=
  '(k, s1) ← decodeString s;
  s2 ← expect ":"%char s1;
  '(v, s3) ← value s2;
  inr (k, v, s3).

(** [m[key] = value] in the order of the text: the last one of a key counts. *)
Definition asMap (l : list (string * json)) : object := foldl (fun o kv => set_key o (fst kv) (snd kv)) [] l.

Definition literals : list (string * json) := [("null", JNull); ("true", JBool true); ("false", JBool false)]%string.

Fixpoint stripPrefix (p s : bytes) : option bytes :=
  match p, s with
  | [], _ => Some s
  | a :: p', b :: s' => if bool_decide (a = b) then stripPrefix p' s' else None
  | _ :: _, [] => None
  end.

Fixpoint decodeLiteral (l : list (string * json)) (s : bytes) : option (json * bytes) :=
  match l with
  | [] => None
  | (w, j) :: l' =>
      match stripPrefix (text w) s with
      | Some rest => Some (j, rest)
      | None => decodeLiteral l' s
      end
  end.

Fixpoint decodeValue (depth : nat) (s : bytes) : decodeError + (json * bytes) :=
  match skipSpace s with
  | [] => inl SyntaxError
  | a :: s1 =>
      if bool_decide (a = "["%char) then
        match depth with
        | O => inl MaxDepth
        | S d => '(l, rest) ← sequence (decodeValue d) "]"%char s1; inr (JArr l, rest)
        end
      else if bool_decide (a = "{"%char) then
        match depth with
        | O => inl MaxDepth
        | S d => '(l, rest) ← sequence (member (decodeValue d)) "}"%char s1; inr (JObj (asMap l), rest)
        end
      else if bool_decide (a = quote) then
        '(k, rest) ← decodeString (a :: s1); inr (JStr k, rest)
      else match decodeLiteral literals (a :: s1) with
           | Some r => inr r
           | None => decodeNumber (a :: s1)
           end
  end.

Definition maxNestingDepth : nat := Z.to_nat 10000.

Definition json_Unmarshal (s : bytes) : decodeError + json :=
  '(j, rest) ← decodeValue maxNestingDepth s;
  match skipSpace rest with [] => inr j | _ => inl SyntaxError end.

(** ** Values *)

(** [map[string]interface{}]: a nil map is written as null, and null leaves it
    nil. *)
Definition ofValues (v : Values) : json := match v with None => JNull | Some o => JObj o end.

Definition toValues (j : json) : decodeError + Values :=
  match j with JNull => inr None | JObj o => inr (Some o) | _ => inl WrongType end.

Definition MarshalJSON (v : Values) : bytes := json_Marshal (ofValues v).

Definition UnmarshalJSON (data : bytes) : decodeError + Values := json_Unmarshal data ≫= toValues.

(** [None] is a panic. *)
Definition Values_DeepCopyInto (v : Values) : option Values :=
  match UnmarshalJSON (MarshalJSON v) with inr c => Some c | inl _ => None end.

Definition DeepCopyValues (input : Values) : option Values :=
  match UnmarshalJSON (json_Marshal (ofValues input)) with inr out => Some out | inl _ => None end.

(** Into and from an object of another type, whose own codec is given. *)
Definition AsObject {A} (unmarshal : bytes -> string + A) (ty : string) (v : Values) : string + A :=
  match unmarshal (MarshalJSON v) with
  | inl e => inl ("failed to unmarshal values as obj[" +:+ ty +:+ "]: " +:+ e)%string
  | inr a => inr a
  end.

Definition MustAsObj {A} (unmarshal : bytes -> string + A) (ty : string) (v : Values) : option A :=
  match AsObject unmarshal ty v with inr a => Some a | inl _ => None end.

(** Unmarshal into a map that is there keeps its other entries. *)
Definition FromObject {A} (marshal : A -> string + bytes) (obj : A) (v : Values) : string + Values :=
  match marshal obj with
  | inl e => inl ("failed to marshal values: " +:+ e)%string
  | inr marshaled =>
      match UnmarshalJSON marshaled with
      | inr (Some o) => inr (Some (foldl (fun m kv => set_key m (fst kv) (snd kv)) (default [] v) o))
      | inr None => inr None
      | inl _ => inl "failed to unmarshal values"%string
      end
  end.
