(* ===== verification/JsonProofs.v ===== *)
(** * Theorems about JSON text

    Unmarshal reads back what Marshal writes, for every tree of distinct keys,
    UTF-8 strings and numbers that a [float64] holds exactly; so a deep copy of
    values never panics and is deeply equal to the original.  The decoder does not
    run out of the fuel of its loops. *)
From S2P Require Import Prelude KubeTypes ApiTypes Values Dependencies HelmClient Json.

Local Open Scope Z_scope.

(** ** Bytes *)

Lemma code_range a : 0 <= code a < 256.
Proof. destruct a as [[] [] [] [] [] [] [] []]; vm_compute; split; congruence. Qed.

Lemma chr_code a : chr (code a) = a.
Proof. by destruct a as [[] [] [] [] [] [] [] []]. Qed.

Lemma code_inj a b : code a = code b -> a = b.
Proof. intros H. by rewrite <- (chr_code a), H, chr_code. Qed.

Lemma str_text s : str (text s) = s.
Proof. apply String.string_of_list_ascii_of_string. Qed.

Lemma str_inj a b : str a = str b -> a = b.
Proof. intros H%(f_equal text). unfold text, str in H. by rewrite !String.list_ascii_of_string_of_list_ascii in H. Qed.

(** ** Strings *)

(** All of a text is UTF-8 ([utf8.Valid]). *)
Fixpoint validUtf8 (s : bytes) : bool :=
  match s with
  | [] => true
  | a :: s1 =>
      if code a <? 128 then validUtf8 s1
      else match decodeRune s, s1 with
           | Some (_, 2%nat), b :: s2 => validUtf8 s2
           | Some (_, 3%nat), b :: c :: s3 => validUtf8 s3
           | Some (_, 4%nat), b :: c :: d :: s4 => validUtf8 s4
           | _, _ => false
           end
  end.

Lemma unquoted_escape e s :
  unquoted (backslash :: e :: s) =
    if bool_decide (e = "u"%char) then
      match s with
      | a1 :: a2 :: a3 :: a4 :: s6 =>
          match hex4 a1 a2 a3 a4 with
          | None => None
          | Some r =>
              match secondHalf r s6, s6 with
              | Some r2, _ :: _ :: _ :: _ :: _ :: _ :: s12 => push (encodeRune r2) (unquoted s12)
              | _, _ => push (encodeRune r) (unquoted s6)
              end
          end
      | _ => None
      end
    else match byteFor (code e) with Some x => push [chr x] (unquoted s) | None => None end.
Proof. reflexivity. Qed.

(** An escaped code point that is not half of a pair. *)
Lemma unquoted_u4 a1 a2 a3 a4 r t : hex4 a1 a2 a3 a4 = Some r -> within 55296 57343 r = false ->
  unquoted (backslash :: "u"%char :: a1 :: a2 :: a3 :: a4 :: t) = push (encodeRune r) (unquoted t).
Proof.
  intros Hh Hr. assert (secondHalf r t = None) as Hs.
  { unfold secondHalf. destruct t as [|b1 [|b2 [|b3 [|b4 [|b5 [|b6 t]]]]]]; try done.
    destruct (_ && _); [|done]. destruct (hex4 b3 b4 b5 b6) as [h|]; [|done].
    simpl. unfold surrogates, within in *. case_if_bool; [|done]. lia. }
  rewrite unquoted_escape, bool_decide_eq_true_2, Hh, Hs by done. done.
Qed.

(** The three forms of an escape. *)
Definition escapeOk (a : ascii) : bool :=
  match escapeByte a with
  | [b] => bool_decide (b = a) && negb (bool_decide (a = quote)) && negb (bool_decide (a = backslash)) && negb (code a <? 32)
  | [x; l] =>
      bool_decide (x = backslash) && negb (bool_decide (l = "u"%char)) && bool_decide (byteFor (code l) = Some (code a))
  | [x; u; a1; a2; a3; a4] =>
      bool_decide (x = backslash) && bool_decide (u = "u"%char) && bool_decide (hex4 a1 a2 a3 a4 = Some (code a))
  | _ => false
  end.

Lemma escapeOk_all a : code a <? 128 = true -> escapeOk a = true.
Proof. destruct a as [[] [] [] [] [] [] [] []]; vm_compute; congruence. Qed.

Lemma encodeRune_ascii x : 0 <= x < 128 -> encodeRune x = [chr x].
Proof.
  intros Hx. unfold encodeRune, within.
  rewrite (proj2 (Z.ltb_ge x 0)), (proj2 (Z.ltb_ge 1114111 x)), (proj2 (Z.leb_gt 55296 x)) by lia.
  cbn [orb andb]. by rewrite (proj2 (Z.ltb_lt x 128)) by lia.
Qed.

(** A byte below 128 is read back from its escape. *)
Lemma unquoted_escapeByte a t : code a <? 128 = true -> unquoted (escapeByte a ++ t) = push [a] (unquoted t).
Proof.
  intros Ha. pose proof (escapeOk_all a Ha) as Hok. unfold escapeOk in Hok.
  destruct (escapeByte a) as [|x [|l [|a1 [|a2 [|a3 [|a4 []]]]]]]; try done; rewrite !andb_true_iff in Hok.
  - destruct Hok as [[[->%bool_decide_eq_true Hq] Hb] H32]. apply negb_true_iff in Hq, Hb, H32.
    cbn [app unquoted]. by rewrite Hq, Hb, H32, Ha.
  - destruct Hok as [[->%bool_decide_eq_true Hu%negb_true_iff] Hl%bool_decide_eq_true]. cbn [app].
    by rewrite unquoted_escape, Hu, Hl, chr_code.
  - destruct Hok as [[->%bool_decide_eq_true ->%bool_decide_eq_true] Hh%bool_decide_eq_true]. cbn [app].
    pose proof (code_range a). apply Z.ltb_lt in Ha. rewrite (unquoted_u4 _ _ _ _ _ _ Hh) by (unfold within; lia).
    by rewrite encodeRune_ascii, chr_code by lia.
Qed.

(** The size of a rune depends on its own bytes only. *)
Lemma decodeRune_2 a b s t r : decodeRune (a :: b :: s) = Some (r, 2%nat) -> decodeRune (a :: b :: t) = Some (r, 2%nat).
Proof. unfold decodeRune. intros H. repeat case_match; simplify_eq; done. Qed.

Lemma decodeRune_3 a b c s t r :
  decodeRune (a :: b :: c :: s) = Some (r, 3%nat) -> decodeRune (a :: b :: c :: t) = Some (r, 3%nat).
Proof. unfold decodeRune. intros H. repeat case_match; simplify_eq; done. Qed.

Lemma decodeRune_4 a b c d s t r :
  decodeRune (a :: b :: c :: d :: s) = Some (r, 4%nat) -> decodeRune (a :: b :: c :: d :: t) = Some (r, 4%nat).
Proof. unfold decodeRune. intros H. repeat case_match; simplify_eq; done. Qed.

(** The two separators that are escaped. *)
Lemma encodeRune_3 a b c s r : decodeRune (a :: b :: c :: s) = Some (r, 3%nat) ->
  (r =? 8232) || (r =? 8233) = true -> encodeRune r = [a; b; c].
Proof.
  unfold decodeRune. intros H Hr. pose proof (code_range a). pose proof (code_range b). pose proof (code_range c).
  destruct (code a <? 128); [done|]. destruct (within 194 223 _); [by destruct (cont b)|].
  destruct (within 224 239 (code a)) eqn:E; [|by repeat case_match].
  destruct (_ && _) eqn:Eb; [|done]. injection H as <-. apply andb_true_iff in Eb as [Eb Ec].
  unfold cont, within in *.
  assert (128 <= code b <= 191) as Hb.
  { destruct (code a =? 224), (code a =? 237); lia. }
  assert (128 <= code c <= 191) as Hc by lia.
  assert (code a = 226 /\ code b = 128 /\ (code c = 168 \/ code c = 169)) as (Ha & Hb' & Hc') by lia.
  rewrite <- (chr_code a), <- (chr_code b), <- (chr_code c), Ha, Hb'. by destruct Hc' as [-> | ->].
Qed.

Lemma unquoted_rune a s : code a <? 128 = false ->
  unquoted (a :: s) =
    match decodeRune (a :: s), s with
    | Some (_, 2%nat), b :: s2 => push [a; b] (unquoted s2)
    | Some (_, 3%nat), b :: c :: s3 => push [a; b; c] (unquoted s3)
    | Some (_, 4%nat), b :: c :: d :: s4 => push [a; b; c; d] (unquoted s4)
    | _, _ => push (encodeRune RuneError) (unquoted s)
    end.
Proof.
  intros Ha. apply Z.ltb_ge in Ha as Hge.
  assert (bool_decide (a = quote) = false) as Hq by (apply bool_decide_eq_false_2; by intros ->).
  assert (bool_decide (a = backslash) = false) as Hb by (apply bool_decide_eq_false_2; by intros ->).
  cbn [unquoted]. by rewrite Hq, Hb, (proj2 (Z.ltb_ge (code a) 32)), Ha by lia.
Qed.

Lemma push_Some p s rest : push p (Some (s, rest)) = Some (p ++ s, rest).
Proof. done. Qed.

Lemma escaped_rune a s : code a <? 128 = false ->
  escaped (a :: s) =
    match decodeRune (a :: s), s with
    | Some (_, 2%nat), b :: s2 => a :: b :: escaped s2
    | Some (r, 3%nat), b :: c :: s3 => (if (r =? 8232) || (r =? 8233) then escape4 r else [a; b; c]) ++ escaped s3
    | Some (_, 4%nat), b :: c :: d :: s4 => a :: b :: c :: d :: escaped s4
    | _, _ => escape4 RuneError ++ escaped s
    end.
Proof. intros Ha. cbn [escaped]. by rewrite Ha. Qed.

(** A string is read back from its escapes. *)
Lemma unquoted_escaped : forall s rest, validUtf8 s = true -> unquoted (escaped s ++ quote :: rest) = Some (s, rest).
Proof.
  fix IH 1. intros [|a s] rest Hv; [done|]. destruct (code a <? 128) eqn:Ha.
  - cbn [escaped validUtf8] in *. rewrite Ha in *. rewrite <- app_assoc, unquoted_escapeByte by done. by rewrite IH.
  - rewrite escaped_rune by done. cbn [validUtf8] in Hv. rewrite Ha in Hv.
    destruct (decodeRune (a :: s)) as [[r [|[|[|[|[|n]]]]]]|] eqn:Ed; try done.
    + destruct s as [|b s]; [done|]. cbn [app]. rewrite unquoted_rune, (decodeRune_2 _ _ _ _ _ Ed) by done. by rewrite IH.
    + destruct s as [|b [|c s]]; [done..|]. destruct (_ || _) eqn:Er.
      * rewrite <- app_assoc. unfold escape4. cbn [app].
        assert (r = 8232 \/ r = 8233) as Hr by lia.
        rewrite (unquoted_u4 _ _ _ _ r) by (destruct Hr as [-> | ->]; reflexivity).
        by rewrite (encodeRune_3 _ _ _ _ _ Ed Er), IH.
      * cbn [app]. rewrite unquoted_rune, (decodeRune_3 _ _ _ _ _ _ Ed) by done. by rewrite IH.
    + destruct s as [|b [|c [|d s]]]; [done..|]. cbn [app].
      rewrite unquoted_rune, (decodeRune_4 _ _ _ _ _ _ _ Ed) by done. by rewrite IH.
Qed.

(** ** Numbers *)

(** A number ends where no byte of a number follows. *)
Definition numberEnds (rest : bytes) : Prop :=
  match rest with [] => True | b :: _ => isDigit b = false /\ bool_decide (code b ∈ [46; 69; 101]) = false end.

Lemma spanDigits_app ds rest : Forall (fun a => isDigit a = true) ds -> numberEnds rest ->
  spanDigits (ds ++ rest) = (ds, rest).
Proof.
  intros Hds Hr. induction Hds as [|a ds Ha Hds IH]; simpl.
  - destruct rest as [|b rest]; [done|]. simpl. by rewrite (proj1 Hr).
  - by rewrite Ha, IH.
Qed.

Lemma digit_char d : (d < 10)%N -> isDigit (pretty_N_char d) = true /\ (d <> 0%N -> pretty_N_char d <> "0"%char).
Proof.
  intros Hd.
  assert (d = 0 \/ d = 1 \/ d = 2 \/ d = 3 \/ d = 4 \/ d = 5 \/ d = 6 \/ d = 7 \/ d = 8 \/ d = 9)%N as Hc by lia.
  by destruct_or! Hc; subst.
Qed.

(** The decimal digits of a positive number do not start with a zero. *)
Lemma pretty_digits (x : N) : forall s, (0 < x)%N -> exists a ds,
  text (pretty_N_go x s) = a :: ds ++ text s /\ Forall (fun a => isDigit a = true) (a :: ds) /\ a <> "0"%char.
Proof.
  induction (N.lt_wf_0 x) as [x _ IH]. intros s Hx. rewrite pretty_N_go_step by done.
  destruct (digit_char (x mod 10)%N ltac:(apply N.mod_lt; lia)) as [Hd Hz].
  destruct (decide (x / 10 = 0)%N) as [H0|H0].
  - rewrite H0, pretty_N_go_0. exists (pretty_N_char (x mod 10)), []. split_and!; [done|by constructor|].
    apply Hz. pose proof (N.div_mod' x 10). lia.
  - destruct (IH (x / 10)%N ltac:(apply N.div_lt; lia) (String (pretty_N_char (x mod 10)) s) ltac:(by apply N.neq_0_lt_0))
      as (a & ds & -> & Hds & Ha).
    exists a, (ds ++ [pretty_N_char (x mod 10)]). split_and!; [by rewrite <- app_assoc| |done].
    inversion Hds; subst. constructor; [done|]. apply Forall_app. by split; [|constructor].
Qed.

Lemma float64_exact z : Z.abs z <= 2 ^ 53 -> float64_of z = z.
Proof.
  intros Hz. unfold float64_of. destruct (decide (Z.abs z = 2 ^ 53)) as [He|Hne].
  { assert (z = 2 ^ 53 \/ z = - 2 ^ 53) as [-> | ->] by lia; reflexivity. }
  rewrite (proj2 (Z.leb_le _ 0)); [done|].
  destruct (decide (z = 0)) as [->|H0]; [done|].
  enough (Z.log2 (Z.abs z) < 53) by lia. apply Z.log2_lt_pow2; lia.
Qed.

(** Digits without a leading zero are read as their value. *)
Lemma decodeDigits_text sign z a ds rest :
  sign = 1 \/ sign = -1 -> digits_value 0 (str (a :: ds)) = Some z -> 0 <= z <= 2 ^ 53 ->
  Forall (fun a => isDigit a = true) (a :: ds) -> a <> "0"%char \/ ds = [] -> numberEnds rest ->
  decodeDigits sign (a :: ds ++ rest) = inr (JNum (sign * z), rest).
Proof.
  intros Hs Hv Hz Hd Ha Hr. unfold decodeDigits. change (a :: ds ++ rest) with ((a :: ds) ++ rest).
  rewrite (spanDigits_app _ _ Hd Hr). rewrite Hv. change (default 0 (Some z)) with z.
  assert (bool_decide (a = "0"%char) && negb (bool_decide (ds = [])) = false) as ->.
  { destruct Ha as [Ha| ->]; [by rewrite bool_decide_eq_false_2|]. by rewrite andb_false_r. }
  rewrite float64_exact by lia.
  assert (Z.abs (sign * z) <= 2 ^ 53) as Hb by (destruct Hs as [-> | ->]; lia).
  assert ((2 ^ 1024 <=? Z.abs (sign * z)) = false) as Hlt.
  { apply Z.leb_gt. eapply Z.le_lt_trans; [exact Hb|]. apply Z.pow_lt_mono_r; lia. }
  destruct rest as [|b rest]; [|rewrite (proj2 Hr)]; cbn [mbind decode_bind]; by rewrite Hlt.
Qed.

Lemma decodeNumber_text z rest : Z.abs z <= 2 ^ 53 -> numberEnds rest ->
  decodeNumber (text (Itoa z) ++ rest) = inr (JNum z, rest).
Proof.
  intros Hz Hr. assert (forall p, (Z.pos p <= 2 ^ 53) -> exists a ds, text (pretty_N_go (N.pos p) "") = a :: ds /\
    Forall (fun a => isDigit a = true) (a :: ds) /\ a <> "0"%char /\ digits_value 0 (str (a :: ds)) = Some (Z.pos p)) as Hp.
  { intros p _. destruct (pretty_digits (N.pos p) "" ltac:(lia)) as (a & ds & Ht & Hd & Ha). simpl text in Ht at 2.
    rewrite app_nil_r in Ht. exists a, ds. split_and!; [done..|]. rewrite <- Ht, str_text.
    by rewrite digits_value_pretty. }
  destruct z as [|p|p].
  - exact (decodeDigits_text 1 0 "0"%char [] rest (or_introl eq_refl) eq_refl ltac:(lia) ltac:(by repeat constructor)
             (or_intror eq_refl) Hr).
  - change (Itoa (Z.pos p)) with (pretty_N_go (N.pos p) ""). destruct (Hp p Hz) as (a & ds & -> & Hd & Ha & Hv).
    cbn [app decodeNumber]. rewrite bool_decide_eq_false_2.
    2: { intros ->. by inversion Hd. }
    apply (decodeDigits_text 1 (Z.pos p)); auto; lia.
  - change (text (Itoa (Z.neg p))) with ("-"%char :: text (pretty_N_go (N.pos p) "")).
    destruct (Hp p Hz) as (a & ds & -> & Hd & Ha & Hv). cbn [app decodeNumber]. rewrite bool_decide_eq_true_2 by done.
    apply (decodeDigits_text (-1) (Z.pos p)); auto; lia.
Qed.

(** ** Trees *)

(** A tree of at most [d] levels whose objects have each key once, whose strings
    are UTF-8 and whose numbers a [float64] holds exactly. *)
Fixpoint writable (d : nat) (j : json) : bool :=
  match j with
  | JNum z => Z.abs z <=? 2 ^ 53
  | JStr s => validUtf8 (text s)
  | JArr l => match d with O => false | S d' => forallb (writable d') l end
  | JObj l =>
      match d with
      | O => false
      | S d' => bool_decide (NoDup (keys l)) && forallb (fun kv => validUtf8 (text (fst kv)) && writable d' (snd kv)) l
      end
  | _ => true
  end.

Lemma skipSpace_id a s : isSpace a = false -> skipSpace (a :: s) = a :: s.
Proof. intros H. cbn [skipSpace]. by rewrite H. Qed.

Lemma decodeString_quoted k rest : validUtf8 (text k) = true -> decodeString (quoted k ++ rest) = inr (k, rest).
Proof.
  intros Hv. unfold decodeString, quoted, expect. cbn [app].
  rewrite skipSpace_id, bool_decide_eq_true_2 by done. cbn [mbind decode_bind].
  rewrite <- app_assoc. cbn [app]. by rewrite unquoted_escaped, str_text.
Qed.

Section Items.
Context {A : Type} (item : decoder A) (close : ascii) (enc : A -> bytes).
Hypothesis close_space : isSpace close = false.
Hypothesis close_comma : close <> ","%char.
Hypothesis close_ends : forall r, numberEnds (close :: r).

(** What is written for an item is read back. *)
Definition reads (x : A) : Prop := forall r, numberEnds r -> item (enc x ++ r) = inr (x, r).

Lemma items_commas (l : list A) : forall n rest, l <> [] -> (length l <= n)%nat -> Forall reads l ->
  items item close n (commas (enc <$> l) ++ close :: rest) = inr (l, rest).
Proof.
  induction l as [|x l IH]; intros n rest Hne Hn Hl; [done|]. apply Forall_cons in Hl as [Hx Hl].
  destruct n as [|n]; simpl in Hn; [lia|]. cbn [items]. destruct l as [|y l].
  - cbn [fmap list_fmap commas]. rewrite Hx by done. cbn [mbind decode_bind].
    by rewrite skipSpace_id, bool_decide_eq_true_2.
  - change (commas (enc <$> x :: y :: l)) with (enc x ++ ","%char :: commas (enc <$> y :: l)).
    rewrite <- app_assoc. cbn [app]. rewrite Hx by done. cbn [mbind decode_bind].
    rewrite skipSpace_id, (bool_decide_eq_false_2 (","%char = close)), bool_decide_eq_true_2 by done.
    rewrite IH by (done || lia). done.
Qed.

(** Text does not start with white space or the closing byte. *)
Definition startsItem (b : bytes) : Prop := exists a s, b = a :: s /\ isSpace a = false /\ a <> close.

Lemma commas_length (l : list bytes) : Forall startsItem l -> (length l <= length (commas l))%nat.
Proof.
  intros Hl. induction Hl as [|x l (a & s & -> & _) Hl IH]; [done|]. destruct l as [|y l]; [simpl; lia|].
  change (commas ((a :: s) :: y :: l)) with ((a :: s) ++ ","%char :: commas (y :: l)).
  rewrite length_app. cbn [length] in *. lia.
Qed.

Lemma sequence_commas (l : list A) rest : Forall reads l -> Forall (fun x => startsItem (enc x)) l ->
  sequence item close (commas (enc <$> l) ++ close :: rest) = inr (l, rest).
Proof.
  intros Hr Hs. destruct l as [|x l].
  { unfold sequence. cbn [fmap list_fmap commas app]. by rewrite skipSpace_id, bool_decide_eq_true_2. }
  pose proof Hs as Hs'. apply Forall_cons in Hs' as [(a & s & Ha & Hsp & Hne) _].
  assert (exists t, commas (enc <$> x :: l) ++ close :: rest = a :: t) as [t Ht].
  { destruct l; cbn [fmap list_fmap commas]; rewrite Ha; cbn [app]; by eexists. }
  unfold sequence. rewrite Ht, skipSpace_id, bool_decide_eq_false_2, <- Ht by done.
  apply items_commas; [done| |done]. rewrite length_app. pose proof (commas_length (enc <$> x :: l)) as Hlen.
  rewrite Forall_fmap, length_fmap in Hlen. specialize (Hlen Hs). lia.
Qed.
End Items.

(** The first byte of a value. *)
Lemma emit_starts d j : writable d j = true -> exists a s, emit j = a :: s /\ isSpace a = false /\ a <> "]"%char.
Proof.
  intros Hw. destruct j as [|[]|z|s|l|l]; try (by do 2 eexists).
  destruct z as [|p|p]; [by do 2 eexists| |by do 2 eexists].
  cbn [emit]. change (Itoa (Z.pos p)) with (pretty_N_go (N.pos p) "").
  destruct (pretty_digits (N.pos p) "" ltac:(lia)) as (a & ds & -> & Hd & _). do 2 eexists. split; [done|].
  apply Forall_cons in Hd as [Hd _]. split.
  - unfold isSpace, isDigit, within in *. apply bool_decide_eq_false_2. intros Hin.
    rewrite !elem_of_cons in Hin. destruct Hin as [H|[H|[H|[H|H%elem_of_nil]]]]; [lia..|done].
  - by intros ->.
Qed.

(** A value that is neither an array nor an object. *)
Lemma decodeValue_leaf d a s :
  isSpace a = false -> a <> "["%char -> a <> "{"%char ->
  decodeValue d (a :: s) =
    if bool_decide (a = quote) then '(k, rest) ← decodeString (a :: s); inr (JStr k, rest)
    else match decodeLiteral literals (a :: s) with Some r => inr r | None => decodeNumber (a :: s) end.
Proof.
  intros Hs Ha Hb. destruct d; cbn [decodeValue];
    by rewrite skipSpace_id, (bool_decide_eq_false_2 (a = "["%char)), (bool_decide_eq_false_2 (a = "{"%char)).
Qed.

Lemma decodeValue_number d z rest : Z.abs z <= 2 ^ 53 -> numberEnds rest ->
  decodeValue d (text (Itoa z) ++ rest) = inr (JNum z, rest).
Proof.
  intros Hz Hr. rewrite <- (decodeNumber_text z rest Hz Hr).
  assert (exists a s, text (Itoa z) = a :: s /\ (isDigit a = true \/ a = "-"%char)) as (a & s & Ht & Ha).
  { destruct z as [|p|p]; [by do 2 eexists; split; [|left]| |by do 2 eexists; split; [|right]].
    change (Itoa (Z.pos p)) with (pretty_N_go (N.pos p) "").
    destruct (pretty_digits (N.pos p) "" ltac:(lia)) as (a & ds & -> & Hd & _). apply Forall_cons in Hd as [Hd _].
    do 2 eexists. split; [done|by left]. }
  rewrite Ht. cbn [app].
  assert (forall b, isDigit b = false -> b <> "-"%char -> a <> b) as Hne by (intros b Hb1 Hb2 ->; destruct Ha; congruence).
  rewrite decodeValue_leaf by (first [by apply Hne|destruct Ha as [Ha| ->]; [|done];
    unfold isSpace, isDigit, within in *; apply bool_decide_eq_false_2; intros Hin;
    rewrite !elem_of_cons in Hin; destruct Hin as [H|[H|[H|[H|H%elem_of_nil]]]]; [lia..|done]]).
  rewrite bool_decide_eq_false_2 by (by apply Hne).
  unfold literals. cbn [decodeLiteral text String.list_ascii_of_string stripPrefix].
  by rewrite !bool_decide_eq_false_2 by (apply not_eq_sym; by apply Hne).
Qed.

Lemma asMap_id l : NoDup (keys l) -> asMap l = l.
Proof.
  intros Hnd. unfold asMap. change l with ([] ++ l) in Hnd at 1. change l with ([] ++ l) at 2.
  revert Hnd. generalize (@nil (string * json)). induction l as [|[k v] l IH]; intros acc Hnd; simpl; [by rewrite app_nil_r|].
  unfold keys in *. rewrite fmap_app, fmap_cons in Hnd. apply NoDup_app in Hnd as (Ha & Hno & Hl).
  assert (k ∉ keys acc) as Hk by (intros Hin; apply (Hno k Hin); by left).
  rewrite keys_set_new by done. rewrite IH; [by rewrite <- app_assoc|].
  rewrite <- app_assoc, fmap_app. simpl. apply NoDup_app. by split_and!.
Qed.

(** Values are read back from their text. *)
Lemma decodeValue_emit d : forall j rest, writable d j = true -> numberEnds rest ->
  decodeValue d (emit j ++ rest) = inr (j, rest).
Proof.
  induction d as [|d IH]; intros j rest Hw Hr; destruct j as [|[]|z|s|l|l]; try reflexivity; try discriminate Hw.
  1, 3: by apply decodeValue_number; [apply Z.leb_le|].
  1, 2: cbn [emit]; change (quoted s ++ rest) with (quote :: (escaped (text s) ++ [quote]) ++ rest);
    rewrite decodeValue_leaf, bool_decide_eq_true_2 by done;
    change (quote :: (escaped (text s) ++ [quote]) ++ rest) with (quoted s ++ rest);
    by rewrite decodeString_quoted.
  - cbn [emit decodeValue app]. rewrite skipSpace_id, bool_decide_eq_true_2 by done. rewrite <- app_assoc.
    cbn [app writable] in *. rewrite forallb_forall in Hw.
    rewrite (sequence_commas (decodeValue d) "]"%char emit) by
      (first [done|apply Forall_forall; intros x Hx%list_elem_of_In%Hw; first [by eapply emit_starts|intros r; by apply IH]]).
    done.
  - cbn [emit decodeValue app]. rewrite skipSpace_id, (bool_decide_eq_false_2 ("{"%char = "["%char)), bool_decide_eq_true_2 by done.
    rewrite <- app_assoc. cbn [app writable] in *. apply andb_true_iff in Hw as [Hnd%bool_decide_eq_true Hw].
    rewrite forallb_forall in Hw.
    rewrite (sequence_commas (member (decodeValue d)) "}"%char (fun kv => quoted (fst kv) ++ ":"%char :: emit (snd kv))).
    + cbn [mbind decode_bind]. by rewrite asMap_id.
    + done.
    + done.
    + done.
    + apply Forall_forall. intros [k v] [Hk Hv]%list_elem_of_In%Hw%andb_true_iff. intros r Hend. unfold member. cbn [fst snd] in *.
      rewrite <- app_assoc, decodeString_quoted by done. cbn [mbind decode_bind app]. unfold expect.
      rewrite skipSpace_id, bool_decide_eq_true_2 by done. cbn [mbind decode_bind]. by rewrite IH.
    + apply Forall_forall. intros [k v] _. by do 2 eexists.
Qed.

(** ** The order of keys *)

Lemma ltb_total a b : a <> b -> String.ltb a b = false -> String.ltb b a = true.
Proof.
  unfold String.ltb. intros Hne H. rewrite (String.compare_antisym b a).
  destruct (String.compare a b) eqn:E; [|done..]. destruct Hne. by apply String.compare_eq_iff.
Qed.

Lemma ltb_asym a b : String.ltb a b = true -> String.ltb b a = false.
Proof. unfold String.ltb. rewrite (String.compare_antisym b a). by destruct (String.compare a b). Qed.

Lemma ltb_cons x y a b : String.ltb (String x a) (String y b) =
  (N_of_ascii x <? N_of_ascii y)%N || (bool_decide (x = y) && String.ltb a b).
Proof.
  unfold String.ltb. simpl. unfold Ascii.compare. destruct (N.compare_spec (N_of_ascii x) (N_of_ascii y)) as [E|E|E].
  - rewrite E, N.ltb_irrefl. apply (f_equal ascii_of_N) in E. rewrite !ascii_N_embedding in E. subst.
    by rewrite bool_decide_eq_true_2.
  - by rewrite (proj2 (N.ltb_lt _ _) E).
  - rewrite (proj2 (N.ltb_ge _ _)), bool_decide_eq_false_2; [done|intros ->; lia|lia].
Qed.

Lemma ltb_trans : forall a b c, String.ltb a b = true -> String.ltb b c = true -> String.ltb a c = true.
Proof.
  induction a as [|x a IH]; intros [|y b] [|z c] H1 H2; try done.
  rewrite ltb_cons in *. apply orb_true_iff in H1, H2. apply orb_true_iff.
  rewrite andb_true_iff, bool_decide_eq_true, N.ltb_lt in *.
  destruct H1 as [H1|[-> H1]], H2 as [H2|[-> H2]]; [left; lia|by left|by left|right; split; [done|by eapply IH]].
Qed.

Section Sorting.
Context {A : Type} (key : A -> string).

Lemma insert_swap x y l : key x <> key y ->
  insert_stable key x (insert_stable key y l) = insert_stable key y (insert_stable key x l).
Proof.
  intros Hne. assert (forall x y l, String.ltb (key x) (key y) = true ->
    insert_stable key x (insert_stable key y l) = insert_stable key y (insert_stable key x l)) as Hlt.
  { clear. intros x y l Hlt. induction l as [|z l IH]; cbn [insert_stable].
    - by rewrite (ltb_asym _ _ Hlt), Hlt.
    - destruct (String.ltb (key z) (key x)) eqn:Ex.
      + rewrite (ltb_trans _ _ _ Ex Hlt). cbn [insert_stable]. by rewrite Ex, (ltb_trans _ _ _ Ex Hlt), IH.
      + destruct (String.ltb (key z) (key y)) eqn:Ey; cbn [insert_stable]; rewrite ?Ex, ?Ey, ?Hlt, ?(ltb_asym _ _ Hlt); done. }
  destruct (String.ltb (key x) (key y)) eqn:E; [by apply Hlt|]. symmetry. apply Hlt. by apply ltb_total.
Qed.

(** Sorting forgets the order, when the keys differ. *)
Lemma SliceStable_order l l' : l ≡ₚ l' -> NoDup (key <$> l) -> SliceStable key l = SliceStable key l'.
Proof.
  intros Hp. induction Hp as [|x l l' Hp IH|x y l|l l' l'' Hp1 IH1 Hp2 IH2]; intros Hnd; [done| | |].
  - cbn [SliceStable foldr]. rewrite fmap_cons in Hnd. apply NoDup_cons in Hnd as [_ Hnd].
    unfold SliceStable in *. by rewrite IH.
  - cbn [SliceStable foldr]. apply insert_swap. rewrite !fmap_cons in Hnd. apply NoDup_cons in Hnd as [Hn _].
    intros He. apply Hn. rewrite He. by left.
  - rewrite IH1 by done. apply IH2. by rewrite <- Hp1.
Qed.
End Sorting.

(** ** Sorted trees *)

Definition sortFields (l : object) : object := (fun kv => (fst kv, sortJson (snd kv))) <$> l.

Lemma keys_sortFields l : keys (sortFields l) = keys l.
Proof. unfold keys, sortFields. rewrite <- list_fmap_compose. done. Qed.

Lemma sortFields_elem l k w : (k, w) ∈ sortFields l <-> exists v, w = sortJson v /\ (k, v) ∈ l.
Proof.
  unfold sortFields. rewrite list_elem_of_fmap. split.
  - intros ([k' v] & [= -> ->] & Hin). by exists v.
  - intros (v & -> & Hin). by exists (k, v).
Qed.

Lemma writable_array d l : writable (S d) (JArr l) = true <-> Forall (fun j => writable d j = true) l.
Proof. cbn [writable]. rewrite forallb_forall, Forall_forall. by setoid_rewrite list_elem_of_In. Qed.

Lemma writable_object d l : writable (S d) (JObj l) = true <->
  NoDup (keys l) /\ Forall (fun kv => validUtf8 (text (fst kv)) = true /\ writable d (snd kv) = true) l.
Proof.
  cbn [writable]. rewrite andb_true_iff, bool_decide_eq_true, forallb_forall, Forall_forall.
  setoid_rewrite list_elem_of_In. by setoid_rewrite andb_true_iff.
Qed.

Lemma writable_sort d : forall j, writable d j = true -> writable d (sortJson j) = true.
Proof.
  induction d as [|d IH]; intros [|b|z|s|l|l] Hw; try done.
  - cbn [sortJson]. apply writable_array in Hw. apply writable_array, Forall_fmap. eapply Forall_impl; [exact Hw|].
    intros j. apply IH.
  - cbn [sortJson]. apply writable_object in Hw as [Hnd Hw]. apply writable_object. fold (sortFields l). split.
    + unfold keys. rewrite SliceStable_perm. fold (keys (sortFields l)). by rewrite keys_sortFields.
    + rewrite SliceStable_perm. unfold sortFields. apply Forall_fmap. eapply Forall_impl; [exact Hw|].
      intros [k v] [Hk Hv]. split; [done|by apply IH].
Qed.

Lemma sameJson_arrays l l' : sameJson (JArr l) (JArr l') = true <-> Forall2 (fun x y => sameJson x y = true) l l'.
Proof.
  cbn [sameJson]. revert l'. induction l as [|x l IH]; intros [|y l'].
  - by split; [constructor|].
  - split; [done|]. intros H. inversion H.
  - split; [done|]. intros H. inversion H.
  - rewrite Forall2_cons, andb_true_iff. by rewrite IH.
Qed.

Lemma sorted_arrays (P : json -> Prop) l l' :
  (forall a b, P a -> P b -> sortJson a = sortJson b <-> sameJson a b = true) -> Forall P l -> Forall P l' ->
  sortJson <$> l = sortJson <$> l' <-> Forall2 (fun a b => sameJson a b = true) l l'.
Proof.
  intros Heq Hl. revert l'. induction Hl as [|a l Ha Hl IH]; intros [|b l'] Hl'.
  - by split; [constructor|].
  - by split; [|inversion 1].
  - by split; [|inversion 1].
  - apply Forall_cons in Hl' as [Hb Hl']. rewrite Forall2_cons, <- IH, <- Heq, !fmap_cons by done.
    split; [by intros [= -> ->]|by intros [-> ->]].
Qed.

Lemma get_key_in o k v : get_key o k = Some v -> (k, v) ∈ o.
Proof.
  induction o as [|[k' v'] o IH]; simpl; [done|]. case_decide as He; [subst; intros [= ->]; by left|]. intros H. right.
  by apply IH.
Qed.

Lemma sorted_objects (P : json -> Prop) l l' :
  (forall a b, P a -> P b -> sortJson a = sortJson b <-> sameJson a b = true) ->
  (forall k v, (k, v) ∈ l -> P v) -> (forall k v, (k, v) ∈ l' -> P v) -> NoDup (keys l) -> NoDup (keys l') ->
  sortJson (JObj l) = sortJson (JObj l') <-> sameJson (JObj l) (JObj l') = true.
Proof.
  intros Heq Hl Hl' Hnd Hnd'. cbn [sortJson]. fold (sortFields l) (sortFields l').
  rewrite sameJson_fields, Forall_forall. split.
  - intros [= H]. assert (sortFields l ≡ₚ sortFields l') as Hp by (by rewrite <- (SliceStable_perm fst), H, SliceStable_perm).
    split. { apply Permutation_length in Hp. unfold sortFields in Hp. by rewrite !length_fmap in Hp. }
    intros [k v] Hin. assert ((k, sortJson v) ∈ sortFields l') as (v' & Hv & Hin')%sortFields_elem
      by (rewrite <- Hp; apply sortFields_elem; by exists v).
    exists v'. split; [by apply get_key_unique|]. apply Heq; eauto.
  - intros [Hlen Hall]. f_equal. apply SliceStable_order.
    2: { fold (keys (sortFields l)). by rewrite keys_sortFields. }
    assert (forall o, NoDup (keys o) -> NoDup (sortFields o)) as Hno.
    { intros o Ho. apply (NoDup_fmap_1 fst). fold (keys (sortFields o)). by rewrite keys_sortFields. }
    assert (sortFields l ⊆+ sortFields l') as Hsub.
    { apply NoDup_submseteq; [by apply Hno|]. intros [k w] (v & -> & Hin)%sortFields_elem.
      destruct (Hall _ Hin) as (v' & Hk & Hs). apply get_key_in in Hk. apply sortFields_elem. exists v'.
      split; [|done]. apply Heq; eauto. }
    apply submseteq_length_Permutation; [done|]. unfold sortFields. rewrite !length_fmap. lia.
Qed.

(** Trees are deeply equal exactly when they are the same with their keys
    sorted. *)
Lemma sorted_same d : forall a b, writable d a = true -> writable d b = true ->
  sortJson a = sortJson b <-> sameJson a b = true.
Proof.
  induction d as [|d IH]; intros [|x|x|x|l|l] [|y|y|y|l'|l'] Ha Hb; try done;
    try (by cbn [sortJson sameJson]; rewrite bool_decide_eq_true).
  - rewrite sameJson_arrays. apply writable_array in Ha, Hb. rewrite <- (sorted_arrays _ l l' IH Ha Hb).
    cbn [sortJson]. split; [by intros [= ->]|by intros ->].
  - apply writable_object in Ha as [Hnd Ha], Hb as [Hnd' Hb]. rewrite Forall_forall in Ha, Hb.
    apply (sorted_objects (fun j => writable d j = true)); [done| | |done..]; intros k v Hin;
      [by apply (Ha _ Hin)|by apply (Hb _ Hin)].
Qed.

Lemma sort_idem d : forall j, writable d j = true -> sortJson (sortJson j) = sortJson j.
Proof.
  induction d as [|d IH]; intros [|b|z|s|l|l] Hw; try done.
  - cbn [sortJson]. f_equal. apply writable_array in Hw. rewrite <- list_fmap_compose. apply list_fmap_ext.
    intros i j Hj. rewrite Forall_forall in Hw. apply IH, Hw. by eapply list_elem_of_lookup_2.
  - cbn [sortJson]. f_equal. apply writable_object in Hw as [Hnd Hw]. fold (sortFields l).
    assert (sortFields (sortFields l) = sortFields l) as Hss.
    { unfold sortFields. rewrite <- list_fmap_compose. apply list_fmap_ext. intros i [k v] Hj. simpl. f_equal.
      rewrite Forall_forall in Hw. apply IH, (Hw (k, v)). by eapply list_elem_of_lookup_2. }
    fold (sortFields (SliceStable fst (sortFields l))). apply SliceStable_order.
    + rewrite <- Hss at 2. unfold sortFields at 1. rewrite SliceStable_perm. done.
    + fold (keys (sortFields (SliceStable fst (sortFields l)))). rewrite keys_sortFields. unfold keys.
      rewrite SliceStable_perm. fold (keys (sortFields l)). by rewrite keys_sortFields.
Qed.

(** Unmarshal reads what Marshal writes, with the keys in their order. *)
Lemma unmarshal_marshal j : writable maxNestingDepth j = true -> json_Unmarshal (json_Marshal j) = inr (sortJson j).
Proof.
  intros Hw. unfold json_Unmarshal, json_Marshal. rewrite <- (app_nil_r (emit _)).
  rewrite decodeValue_emit by (done || by apply writable_sort). done.
Qed.

Lemma toValues_sort v : exists c, toValues (sortJson (ofValues v)) = inr c /\ ofValues c = sortJson (ofValues v).
Proof. destruct v as [o|]; by eexists. Qed.

(** C24. Copies of values.  For values of at most 10000 levels whose strings are UTF-8
    and whose numbers are integers that a [float64] holds exactly, the deep copies
    of the API types and of the defaults do not panic, give values that are deeply
    equal to the original, and these have the same text. *)
Theorem values_copied v : writable maxNestingDepth (ofValues v) = true ->
  exists c, Values_DeepCopyInto v = Some c /\ DeepCopyValues v = Some c /\
    sameJson (ofValues c) (ofValues v) = true /\ MarshalJSON c = MarshalJSON v.
Proof.
  intros Hw. destruct (toValues_sort v) as (c & Hc & Hcs). exists c.
  assert (UnmarshalJSON (MarshalJSON v) = inr c) as Hu.
  { unfold UnmarshalJSON, MarshalJSON. by rewrite unmarshal_marshal. }
  unfold Values_DeepCopyInto, DeepCopyValues. fold (MarshalJSON v). rewrite Hu. split_and!; [done..| |].
  - rewrite Hcs. apply (sorted_same maxNestingDepth); [by apply writable_sort|done|by eapply sort_idem].
  - unfold MarshalJSON, json_Marshal. rewrite Hcs. by rewrite (sort_idem maxNestingDepth).
Qed.

(** Marshal writes the same text for two trees exactly when they are deeply
    equal. *)
Lemma marshal_same a b : writable maxNestingDepth a = true -> writable maxNestingDepth b = true ->
  json_Marshal a = json_Marshal b <-> sameJson a b = true.
Proof.
  intros Ha Hb. rewrite <- (sorted_same maxNestingDepth) by done. split.
  - intros H. apply (f_equal json_Unmarshal) in H. rewrite !unmarshal_marshal in H by done. by injection H.
  - unfold json_Marshal. by intros ->.
Qed.

(** The text of values is canonical: two values have the same one exactly when they
    are deeply equal, whatever the order of their maps. *)
Theorem marshal_canonical v w :
  writable maxNestingDepth (ofValues v) = true -> writable maxNestingDepth (ofValues w) = true ->
  MarshalJSON v = MarshalJSON w <-> sameJson (ofValues v) (ofValues w) = true.
Proof.
  intros Hv Hw. by apply marshal_same.
Qed.

(** ** Fuel *)

(** Every decoder leaves less text than it was given. *)
Definition shrinks {A} (p : decoder A) : Prop := forall s x r, p s = inr (x, r) -> (length r < length s)%nat.

Lemma skipSpace_length s : (length (skipSpace s) <= length s)%nat.
Proof. induction s as [|a s IH]; simpl; [done|]. destruct (isSpace a); simpl; lia. Qed.

Lemma expect_length a s r : expect a s = inr r -> (length r < length s)%nat.
Proof.
  unfold expect. pose proof (skipSpace_length s). destruct (skipSpace s) as [|b t]; [done|]. simpl in *.
  case_bool_decide; [|done]. intros [= <-]. lia.
Qed.

Lemma push_rest p o s rest : push p o = Some (s, rest) -> exists s', o = Some (s', rest).
Proof. destruct o as [[s' r]|]; simpl; [|done]. intros [= _ <-]. by eexists. Qed.

Lemma unquoted_length s b rest : unquoted s = Some (b, rest) -> (length rest < length s)%nat.
Proof.
  remember (length s) as n eqn:Hn. revert s b rest Hn. induction (lt_wf n) as [n _ IH]. intros [|a s] b rest -> H; [done|].
  assert (forall t p b', (length t < length (a :: s))%nat -> push p (unquoted t) = Some (b', rest) ->
    (length rest < length (a :: s))%nat) as Hp.
  { intros t p b' Ht [s' Hs]%push_rest. pose proof (IH _ Ht t s' rest eq_refl Hs). lia. }
  cbn [unquoted] in H.
  repeat case_match; try done; simplify_eq; try (cbn [length]; lia); (eapply Hp; [|exact H]; cbn [length]; lia).
Qed.

Lemma decodeString_shrinks : shrinks decodeString.
Proof.
  intros s x r. unfold decodeString. destruct (expect quote s) as [e|s1] eqn:E; [done|]. cbn [mbind decode_bind].
  apply expect_length in E. destruct (unquoted s1) as [[b t]|] eqn:Eu; [|done]. intros [= _ <-].
  apply unquoted_length in Eu. lia.
Qed.

Lemma member_shrinks value : shrinks value -> shrinks (member value).
Proof.
  intros Hv s x r. unfold member. destruct (decodeString s) as [e|[k s1]] eqn:E1; [done|]. cbn [mbind decode_bind].
  destruct (expect _ s1) as [e|s2] eqn:E2; [done|]. cbn [mbind decode_bind].
  destruct (value s2) as [e|[v s3]] eqn:E3; [done|]. cbn [mbind decode_bind]. intros [= _ <-].
  apply decodeString_shrinks in E1. apply expect_length in E2. apply Hv in E3. lia.
Qed.

(** The loop over items has enough fuel: more changes nothing. *)
Lemma items_fuel {A} (item : decoder A) close : shrinks item -> forall n m s,
  (length s < n)%nat -> (length s < m)%nat -> items item close n s = items item close m s.
Proof.
  intros Hi n. induction n as [|n IH]; intros [|m] s Hn Hm; try lia. cbn [items].
  destruct (item s) as [e|[x s1]] eqn:E; [done|]. cbn [mbind decode_bind]. apply Hi in E.
  pose proof (skipSpace_length s1). destruct (skipSpace s1) as [|b s2]; [done|]. simpl in *.
  do 2 (case_bool_decide; [try done|]); [|done]. by rewrite (IH m) by lia.
Qed.

Lemma items_shrinks {A} (item : decoder A) close n : shrinks item -> shrinks (items item close n).
Proof.
  intros Hi. induction n as [|n IH]; intros s l r; [done|]. cbn [items].
  destruct (item s) as [e|[x s1]] eqn:E; [done|]. cbn [mbind decode_bind]. apply Hi in E.
  pose proof (skipSpace_length s1). destruct (skipSpace s1) as [|b s2]; [done|]. simpl in *.
  case_bool_decide; [intros [= _ <-]; lia|]. case_bool_decide; [|done].
  destruct (items item close n s2) as [e|[l' s3]] eqn:E3; [done|]. intros [= _ <-]. apply IH in E3. lia.
Qed.

Lemma sequence_shrinks {A} (item : decoder A) close : shrinks item -> shrinks (sequence item close).
Proof.
  intros Hi s l r. unfold sequence. pose proof (skipSpace_length s) as Hs.
  destruct (skipSpace s) as [|b s1]; [done|]. cbn [length] in Hs.
  case_bool_decide; [intros [= _ <-]; lia|]. by apply items_shrinks.
Qed.

Lemma spanDigits_length s ds r : spanDigits s = (ds, r) -> length s = (length ds + length r)%nat.
Proof.
  revert ds r. induction s as [|a s IH]; intros ds r; cbn [spanDigits]; [by intros [= <- <-]|].
  destruct (isDigit a); [|by intros [= <- <-]]. destruct (spanDigits s) as [ds' r'] eqn:E. intros [= <- <-].
  cbn [length]. by rewrite (IH _ _ eq_refl).
Qed.

Lemma decodeDigits_shrinks sign : shrinks (decodeDigits sign).
Proof.
  intros s x r. unfold decodeDigits. destruct (spanDigits s) as [ds rest] eqn:E. apply spanDigits_length in E.
  destruct ds as [|a ds]; [done|]. cbn [length] in E. destruct (_ && _); [done|].
  match goal with |- (?p ≫= _) = _ -> _ => destruct p end; [done|]. cbn [mbind decode_bind].
  destruct (_ <=? _); [done|]. intros [= _ <-]. lia.
Qed.

Lemma stripPrefix_length p s r : stripPrefix p s = Some r -> length s = (length p + length r)%nat.
Proof.
  revert s. induction p as [|a p IH]; intros [|b s]; cbn [stripPrefix]; [by intros [= <-]|by intros [= <-]|done|].
  case_bool_decide; [|done]. intros Hr%IH. cbn [length]. lia.
Qed.

Lemma decodeLiteral_length s x r : decodeLiteral literals s = Some (x, r) -> (length r < length s)%nat.
Proof.
  unfold literals. cbn [decodeLiteral].
  repeat (destruct (stripPrefix _ s) as [t|] eqn:E; [intros [= _ <-]; apply stripPrefix_length in E; simpl in E; lia|clear E]).
  done.
Qed.

Lemma decodeValue_shrinks d : shrinks (decodeValue d).
Proof.
  induction d as [|d IH]; intros s x r; cbn [decodeValue]; pose proof (skipSpace_length s) as Hs;
    destruct (skipSpace s) as [|a s1]; try done; cbn [length] in Hs.
  all: repeat (case_bool_decide; [try done|]).
  all: try (destruct (decodeString (a :: s1)) as [e|[k t]] eqn:E; [done|]; intros [= _ <-];
            apply decodeString_shrinks in E; cbn [length] in E; lia).
  all: try (destruct (decodeLiteral literals (a :: s1)) as [[j t]|] eqn:E;
            [intros [= _ <-]; apply decodeLiteral_length in E; cbn [length] in E; lia|];
            unfold decodeNumber; case_bool_decide; intros Hd%decodeDigits_shrinks; cbn [length] in Hd; lia).
  all: destruct (sequence _ _ s1) as [e|[l t]] eqn:E; [done|]; intros [= _ <-];
    (eapply sequence_shrinks in E; [lia|]); first [done|by apply member_shrinks].
Qed.

(** The decoder of arrays and objects does not run out of fuel. *)
Lemma sequence_fuel {A} (item : decoder A) close n s : shrinks item -> (length s < n)%nat ->
  items item close (S (length s)) s = items item close n s.
Proof. intros Hi Hn. apply items_fuel; [done|lia..]. Qed.

(** ** Witnesses *)

Local Open Scope string_scope.
Local Open Scope list_scope.
Local Open Scope Z_scope.

Definition exValues : Values := Some [
  ("replicas", JNum (-12)); ("image", JObj [("tag", JStr "v2.5<b>"); ("name", JStr "milvus")]);
  ("args", JArr [JStr "a\b"; JNull; JBool true; JArr []; JObj []])].

(** The same values, as another map may list them. *)
Definition exReordered : Values := Some [
  ("image", JObj [("name", JStr "milvus"); ("tag", JStr "v2.5<b>")]);
  ("args", JArr [JStr "a\b"; JNull; JBool true; JArr []; JObj []]); ("replicas", JNum (-12))].

(** Escapes, white space, repeated keys and surrogate pairs are read. *)
Example exRead : json_Unmarshal (text " [1 ,-0, true ]") = inr (JArr [JNum 1; JNum 0; JBool true]).
Proof. vm_compute. reflexivity. Qed.

Example exPair : unquoted (text "\ud83d\ude00\ud83d" ++ [quote]) = Some (encodeRune 128512 ++ encodeRune RuneError, []).
Proof. vm_compute. reflexivity. Qed.

Example exLeadingZero : json_Unmarshal (text "[01]") = inl SyntaxError.
Proof. vm_compute. reflexivity. Qed.

Lemma values_copied_witness : exists c, Values_DeepCopyInto exValues = Some c /\ sameJson (ofValues c) (ofValues exValues) = true.
Proof.
  assert (writable maxNestingDepth (ofValues exValues) = true) as Hw by (vm_compute; reflexivity).
  destruct (values_copied exValues Hw) as (c & Hc & _ & Hs & _). exists c. split; [exact Hc|exact Hs].
Defined.

Lemma marshal_canonical_witness : MarshalJSON exValues = MarshalJSON exReordered.
Proof.
  apply (marshal_canonical exValues exReordered); vm_compute; reflexivity.
Defined.

(** A string that is not UTF-8 does not survive a copy. *)
Example copy_not_utf8 :
  Values_DeepCopyInto (Some [("k", JStr (str [chr 255]))]) = Some (Some [("k", JStr (str (encodeRune RuneError)))]).
Proof. vm_compute. reflexivity. Qed.

(** Numbers beyond 2^53 are rounded. *)
Example copy_rounds :
  Values_DeepCopyInto (Some [("k", JNum 9007199254740993)]) = Some (Some [("k", JNum 9007199254740992)]).
Proof. vm_compute. reflexivity. Qed.
