(* ===== verification/Checksum.v ===== *)
(** * The configuration checksum

    components.go, [getConfCheckSum], on encoding/json ([Json]) and SHA-256: the
    annotation that makes pods restart when their configuration changes.  What is
    hashed is exactly the configuration, up to the order of its maps, and the
    settings of the dependencies that reach the configuration of a pod. *)
From S2P Require Import Prelude KubeTypes ApiTypes Labels Sha256 Utils Values Examples Dependencies HelmClient Render Json JsonProofs.

Local Open Scope string_scope.
Local Open Scope list_scope.
Local Open Scope Z_scope.

(** encoding/json for maps. *)
#[export] Instance goMarshal : JsonMarshal := {| Marshal j := Some (str (json_Marshal j)) |}.

Lemma goMarshal_eq j j' : Marshal j = Marshal j' <-> json_Marshal j = json_Marshal j'.
Proof. split; [|by cbn [Marshal goMarshal]; intros ->]. intros H. cbn [Marshal goMarshal] in H. by apply str_inj, (inj Some). Qed.

(** The older checksum, which no code uses any more. *)
Definition GetMilvusConfCheckSum (spec : MilvusSpec) : string :=
  match Marshal (JObj [("conf", valuesJson (spec_Conf spec));
                       ("etcd-endpoints", stringsJson (etcd_Endpoints (dep_Etcd (spec_Dep spec))));
                       ("storage-endpoint", JStr (sto_Endpoint (dep_Storage (spec_Dep spec))))]) with
  | None => ""
  | Some b => CheckSum (string_bytes b)
  end.

(** ** Deep equality *)

Lemma same_writable_refl d j : writable d j = true -> sameJson j j = true.
Proof. intros Hw. by apply (sorted_same d). Qed.

(** Deeply equal objects have the same keys, with deeply equal values. *)
Definition sameAt (v v' : option json) : Prop :=
  match v, v' with Some a, Some b => sameJson a b = true | None, None => True | _, _ => False end.

Lemma same_at l l' k : NoDup (keys l) -> sameJson (JObj l) (JObj l') = true -> sameAt (get_key l k) (get_key l' k).
Proof.
  intros Hnd Hs. pose proof (sameJson_keys _ _ Hnd Hs) as Hp. apply sameJson_fields in Hs as [_ Hall].
  rewrite Forall_forall in Hall. destruct (get_key l k) as [v|] eqn:E.
  - destruct (Hall _ (get_key_in _ _ _ E)) as (v' & Hk & Hv). cbn [fst snd] in *. by rewrite Hk.
  - destruct (get_key l' k) as [v'|] eqn:E'; [|done]. apply get_key_keys in E'. rewrite <- Hp in E'.
    apply list_elem_of_fmap in E' as ([k' v] & -> & Hin). cbn [fst] in E. by rewrite (get_key_unique _ _ _ Hnd Hin) in E.
Qed.

(** Objects that differ in one value. *)
Lemma same_head k v v' l : NoDup (keys ((k, v) :: l)) -> sameJson v v' = true ->
  Forall (fun kv => sameJson (snd kv) (snd kv) = true) l -> sameJson (JObj ((k, v) :: l)) (JObj ((k, v') :: l)) = true.
Proof.
  intros Hnd Hv Hl. apply sameJson_fields. split; [done|]. apply Forall_cons. split.
  - exists v'. simpl. by rewrite decide_True.
  - rewrite Forall_forall in *. intros [k' w] Hin. exists w. split; [|by apply (Hl (k', w))].
    apply get_key_unique; [exact Hnd|]. by right.
Qed.

Lemma slice_inj {A} (f : A -> json) (a b : goSlice A) :
  (forall x y, sameJson (f x) (f y) = true -> x = y) -> sameJson (sliceJson f a) (sliceJson f b) = true -> a = b.
Proof.
  intros Hf. destruct a as [a|], b as [b|]; try done. intros H%sameJson_arrays. f_equal. revert b H.
  induction a as [|u a IH]; intros [|w b] H; inversion H as [|? ? ? ? H1 H2]; [done|]; subst. f_equal; auto.
Qed.

Lemma string_inj x y : sameJson (JStr x) (JStr y) = true -> x = y.
Proof. simpl. intros H%bool_decide_eq_true. by injection H. Qed.

Lemma stringsJson_inj a b : sameJson (stringsJson a) (stringsJson b) = true -> a = b.
Proof. apply slice_inj, string_inj. Qed.

Lemma poolsJson_inj a b : sameJson (poolsJson a) (poolsJson b) = true -> a = b.
Proof.
  apply slice_inj. intros [n seeds] [n' seeds'] H. apply sameJson_fields in H as [_ H]. rewrite !Forall_cons in H.
  destruct H as ((v1 & Hk1 & Hv1) & (v2 & Hk2 & Hv2) & _). simpl in Hk1, Hk2. injection Hk1 as <-. injection Hk2 as <-.
  apply stringsJson_inj in Hv2. apply string_inj in Hv1. simpl in *. by subst.
Qed.

(** ** What is hashed *)

(** What of a spec and its annotations the checksum depends on. *)
Record sameConf (s s' : MilvusSpec) (a a' : gmap string string) : Prop := {
  sc_conf : sameJson (valuesJson (spec_Conf s)) (valuesJson (spec_Conf s')) = true;
  sc_etcd : etcd_Endpoints (dep_Etcd (spec_Dep s)) = etcd_Endpoints (dep_Etcd (spec_Dep s'));
  sc_pulsar : pul_Endpoint (dep_Pulsar (spec_Dep s)) = pul_Endpoint (dep_Pulsar (spec_Dep s'));
  sc_pulsars : pul_Endpoints (dep_Pulsar (spec_Dep s)) = pul_Endpoints (dep_Pulsar (spec_Dep s'));
  sc_kafka : kaf_BrokerList (dep_Kafka (spec_Dep s)) = kaf_BrokerList (dep_Kafka (spec_Dep s'));
  sc_storage : sto_Endpoint (dep_Storage (spec_Dep s)) = sto_Endpoint (dep_Storage (spec_Dep s'));
  sc_external : wp_External (dep_WoodPecker (spec_Dep s)) = wp_External (dep_WoodPecker (spec_Dep s'));
  sc_pools : wp_External (dep_WoodPecker (spec_Dep s)) = true ->
    wp_QuorumBufferPools (dep_WoodPecker (spec_Dep s)) = wp_QuorumBufferPools (dep_WoodPecker (spec_Dep s'));
  sc_secret : kaf_SecretRef (dep_Kafka (spec_Dep s)) = kaf_SecretRef (dep_Kafka (spec_Dep s'));
  sc_sasl : mget a KafkaSaslCheckSumAnnotation = mget a' KafkaSaslCheckSumAnnotation
}.

(** The entry of a key, when it has one. *)
Lemma checksum_entry s a k :
  get_key (checksumConf s a) k =
    let dep := spec_Dep s in
    if decide (k = "conf") then Some (valuesJson (spec_Conf s))
    else if decide (k = "etcd-endpoints") then Some (stringsJson (etcd_Endpoints (dep_Etcd dep)))
    else if decide (k = "pulsar-endpoint") then Some (JStr (pul_Endpoint (dep_Pulsar dep)))
    else if decide (k = "pulsar-endpoints") then
      match pul_Endpoints (dep_Pulsar dep) with [] => None | eps => Some (stringsJson (Some eps)) end
    else if decide (k = "kafka-brokerList") then Some (stringsJson (kaf_BrokerList (dep_Kafka dep)))
    else if decide (k = "storage-endpoint") then Some (JStr (sto_Endpoint (dep_Storage dep)))
    else if decide (k = "woodpecker-external") then if wp_External (dep_WoodPecker dep) then Some (JBool true) else None
    else if decide (k = "woodpecker-quorumBufferPools") then
      if wp_External (dep_WoodPecker dep) then Some (poolsJson (wp_QuorumBufferPools (dep_WoodPecker dep))) else None
    else if decide (k = "kafka-secretRef") then
      if bool_decide (kaf_SecretRef (dep_Kafka dep) = "") then None else Some (JStr (kaf_SecretRef (dep_Kafka dep)))
    else if decide (k = "kafka-sasl-checksum") then
      let sum := mget a KafkaSaslCheckSumAnnotation in if bool_decide (sum = "") then None else Some (JStr sum)
    else None.
Proof.
  unfold checksumConf. cbv zeta.
  repeat (case_decide; [subst; destruct (pul_Endpoints _), (wp_External _), (bool_decide _), (bool_decide _); reflexivity|]).
  destruct (pul_Endpoints _), (wp_External _), (bool_decide _), (bool_decide _); cbn [app get_key];
    repeat (rewrite decide_False by done); done.
Qed.

Ltac entry_of H k :=
  let E := fresh "E" in
  pose proof (H k) as E; rewrite !checksum_entry in E; cbv zeta in E;
  repeat first [rewrite (decide_False (P := _ = _)) in E by done|rewrite (decide_True (P := _ = _)) in E by done].

(** Deeply equal inputs are the same configuration. *)
Lemma same_input_conf s s' a a' : (forall k, sameAt (get_key (checksumConf s a) k) (get_key (checksumConf s' a') k)) ->
  sameConf s s' a a'.
Proof.
  intros H. split.
  - by entry_of H "conf".
  - entry_of H "etcd-endpoints". by apply stringsJson_inj.
  - entry_of H "pulsar-endpoint". by apply string_inj.
  - entry_of H "pulsar-endpoints". revert E.
    destruct (pul_Endpoints _), (pul_Endpoints _); try done. intros E. apply stringsJson_inj in E. by injection E as -> ->.
  - entry_of H "kafka-brokerList". by apply stringsJson_inj.
  - entry_of H "storage-endpoint". by apply string_inj.
  - entry_of H "woodpecker-external". by destruct (wp_External _), (wp_External _).
  - entry_of H "woodpecker-quorumBufferPools". revert E. intros E Hw. rewrite Hw in E.
    destruct (wp_External _); [|done]. by apply poolsJson_inj.
  - entry_of H "kafka-secretRef". revert E. cbv zeta. do 2 case_bool_decide; intros E; first [congruence|by destruct E|by apply string_inj].
  - entry_of H "kafka-sasl-checksum". revert E. cbv zeta. do 2 case_bool_decide; intros E; first [congruence|by destruct E|by apply string_inj].
Qed.

(** The same configuration gives deeply equal inputs. *)
Lemma conf_same_input d s s' a a' : writable d (JObj (checksumConf s a)) = true -> sameConf s s' a a' ->
  sameJson (JObj (checksumConf s a)) (JObj (checksumConf s' a')) = true.
Proof.
  intros Hw [Hc He Hp Hps Hk Hs Hx Hpo Hse Hsa].
  set (rest := tail (checksumConf s a)).
  assert (checksumConf s a = ("conf", valuesJson (spec_Conf s)) :: rest) as H1 by done.
  assert (checksumConf s' a' = ("conf", valuesJson (spec_Conf s')) :: rest) as H2.
  { unfold rest, checksumConf. cbv zeta. rewrite He, Hp, Hps, Hk, Hs, Hse, Hsa, <- Hx.
    destruct (wp_External _); [by rewrite (Hpo eq_refl)|done]. }
  rewrite H1, H2. destruct d as [|d]; [done|]. rewrite H1 in Hw. apply writable_object in Hw as [Hnd Hw].
  apply same_head; [done..|]. apply Forall_cons in Hw as [_ Hw]. eapply Forall_impl; [exact Hw|].
  intros kv [_ Hkv]. by eapply same_writable_refl.
Qed.

(** C34. The checksum of the configuration.  Two resources whose configurations are
    well-formed have the same text to hash exactly when their configurations are
    deeply equal, in any order of the maps, and the endpoints, the pools, the name
    of the Kafka secret and the checksum of its contents are the same, where a nil
    list of endpoints, brokers or pools is not an empty one; then their checksums
    are the same. *)
Theorem checksum_exact m m' :
  writable maxNestingDepth (JObj (checksumConf (mi_Spec m) (mi_Annotations m))) = true ->
  writable maxNestingDepth (JObj (checksumConf (mi_Spec m') (mi_Annotations m'))) = true ->
  (Marshal (JObj (checksumConf (mi_Spec m) (mi_Annotations m)))
     = Marshal (JObj (checksumConf (mi_Spec m') (mi_Annotations m')))
   <-> sameConf (mi_Spec m) (mi_Spec m') (mi_Annotations m) (mi_Annotations m')) /\
  (sameConf (mi_Spec m) (mi_Spec m') (mi_Annotations m) (mi_Annotations m') ->
   GetConfCheckSumWithRefs m = GetConfCheckSumWithRefs m').
Proof.
  intros Hw Hw'. rewrite goMarshal_eq, marshal_same by done.
  assert (sameJson (JObj (checksumConf (mi_Spec m) (mi_Annotations m))) (JObj (checksumConf (mi_Spec m') (mi_Annotations m'))) = true
    <-> sameConf (mi_Spec m) (mi_Spec m') (mi_Annotations m) (mi_Annotations m')) as Hiff.
  { split; [|by apply conf_same_input with maxNestingDepth]. intros Hs. apply same_input_conf. intros k.
    apply same_at; [|done]. change maxNestingDepth with (S (Z.to_nat 9999)) in Hw. by apply writable_object in Hw as [Hnd _]. }
  split; [exact Hiff|]. intros Hs%Hiff%marshal_same%goMarshal_eq; [|done..].
  unfold GetConfCheckSumWithRefs, getConfCheckSum. by rewrite Hs.
Qed.

Definition exConfigured (conf : Values) : Milvus :=
  set_mi_Spec (exMilvus 1) (mkSpec (spec_Mode (exSpec 1)) (exCom 1) exDep conf None).

Definition exBrokers (brokers : goSlice string) : Milvus :=
  set_mi_Spec (exMilvus 1)
    (mkSpec (spec_Mode (exSpec 1)) (exCom 1)
       (mkDep (dep_Etcd exDep) (dep_MsgStreamType exDep) (dep_Pulsar exDep) (mkKafka None false brokers "")
          (dep_WoodPecker exDep) (dep_RocksMQ exDep) (dep_NatsMQ exDep) (dep_Storage exDep) (dep_Tei exDep) None)
       exValues None).

(** The order of a map does not restart pods; a list that becomes empty instead of
    nil changes the text. *)
Lemma checksum_exact_witness :
  GetConfCheckSumWithRefs (exConfigured exValues) = GetConfCheckSumWithRefs (exConfigured exReordered) /\
  Marshal (JObj (checksumConf (mi_Spec (exBrokers None)) ∅)) <> Marshal (JObj (checksumConf (mi_Spec (exBrokers (Some []))) ∅)).
Proof.
  split.
  - apply (checksum_exact (exConfigured exValues) (exConfigured exReordered)); [vm_compute; reflexivity..|].
    split; vm_compute; reflexivity.
  - intros H%(checksum_exact (exBrokers None) (exBrokers (Some []))); [|vm_compute; reflexivity..].
    by apply sc_kafka in H.
Defined.
