(* ===== verification/KafkaDecode.v ===== *)
(** * The Kafka section of the configuration

    The user's Kafka section is decoded twice: pkg/controllers/kafka_secrets.go
    reads the references to Secrets that pods get, pkg/external/kafka.go the
    configuration of the probe.  Both are json.Unmarshal of the text of the section
    into a struct, with the method [SSLConfig.UnmarshalJSON]; here they are
    definitions, instances of [DecodeKafka] and [DecodeKafkaConf].

    encoding/json decodes the members of an object in the order of the text, which
    Marshal sorts by key.  A key names the field with exactly this name, else one
    that differs in case only, so two members may write to one field.  A value of a
    wrong type leaves its field, is remembered as the error if it is the first
    one, and decoding goes on; an error of an [UnmarshalJSON] method ends it.  The text of
    errors of a wrong type is a parameter. *)
From S2P Require Import Prelude KubeTypes ApiTypes Values Examples Effects PodTemplate KafkaSecrets ConfigMaps.
From S2P Require Import Dependencies Probes HelmClient Json JsonProofs.

Local Open Scope string_scope.
Local Open Scope list_scope.
Local Open Scope Z_scope.

(** ** Structs *)

(** [foldName]: upper case; the long s and the sign of Kelvin are the only other
    runes that fold to letters of ASCII. *)
Fixpoint foldBytes (s : bytes) : bytes :=
  match s with
  | a :: ((b :: r) as s1) =>
      if (code a =? 197) && (code b =? 191) then "S"%char :: foldBytes r
      else if (code a =? 226) && (code b =? 132) then
        match r with
        | c :: r' => if code c =? 170 then "K"%char :: foldBytes r' else a :: foldBytes s1
        | [] => a :: foldBytes s1
        end
      else (if within 97 122 (code a) then chr (code a - 32) else a) :: foldBytes s1
  | [a] => [if within 97 122 (code a) then chr (code a - 32) else a]
  | [] => []
  end.

Definition foldName (s : string) : bytes := foldBytes (text s).

(** The field that a key names. *)
Definition fieldFor (names : list string) (key : string) : option string :=
  if bool_decide (key ∈ names) then Some key
  else snd <$> list_find (fun n => foldName n = foldName key) names.

Inductive jsonError := UnmarshalTypeError (value : json) (field : string) | InvalidEnabled (value : json).

(** What decoding a member leads to. *)
Inductive memberResult := Decoded | SavedError (e : jsonError) | Stopped (e : jsonError).

Definition saved (e : option jsonError) : memberResult := match e with None => Decoded | Some e => SavedError e end.

(** The members of an object into a struct. *)
Fixpoint decodeMembers {A} (names : list string) (member : string -> json -> A -> A * memberResult)
    (l : list (string * json)) (a : A) (err : option jsonError) : A * option jsonError :=
  match l with
  | [] => (a, err)
  | (k, v) :: l' =>
      match fieldFor names k with
      | None => decodeMembers names member l' a err
      | Some f =>
          match member f v a with
          | (a', Decoded) => decodeMembers names member l' a' err
          | (a', SavedError e) => decodeMembers names member l' a' (Some (default e err))
          | (a', Stopped e) => (a', Some e)
          end
      end
  end.

(** A value into a struct: null changes nothing. *)
Definition decodeStruct {A} (field : string) (names : list string) (member : string -> json -> A -> A * memberResult)
    (v : json) (a : A) : A * option jsonError :=
  match v with
  | JNull => (a, None)
  | JObj l => decodeMembers names member l a None
  | _ => (a, Some (UnmarshalTypeError v field))
  end.

Definition decodeText (field : string) (v : json) (old : string) : string * memberResult :=
  match v with
  | JNull => (old, Decoded)
  | JStr s => (s, Decoded)
  | _ => (old, SavedError (UnmarshalTypeError v field))
  end.

(** ** References *)

Definition refNames : list string := ["name"; "key"; "namespace"].

Definition refMember (f : string) (v : json) (r : SecretKeyReference) : SecretKeyReference * memberResult :=
  if bool_decide (f = "name") then
    let '(s, o) := decodeText f v (ref_Name r) in (mkRef s (ref_Key r) (ref_Namespace r), o)
  else if bool_decide (f = "key") then
    let '(s, o) := decodeText f v (ref_Key r) in (mkRef (ref_Name r) s (ref_Namespace r), o)
  else
    let '(s, o) := decodeText f v (ref_Namespace r) in (mkRef (ref_Name r) (ref_Key r) s, o).

(** A pointer: null makes it nil, any other value makes it point to a struct. *)
Definition decodePointer (field : string) (v : json) (old : option SecretKeyReference) :
    option SecretKeyReference * memberResult :=
  match v with
  | JNull => (None, Decoded)
  | _ => let '(r, e) := decodeStruct field refNames refMember v (default (mkRef "" "" "") old) in (Some r, saved e)
  end.

(** ** SSLConfig *)

Definition noSSL : SSLConfig := mkSSLConfig None None None None.

Definition sslNames : list string := ["enabled"; "caCertSecret"; "certSecret"; "keySecret"; "keyPasswordSecret"].

(** The references, and the value of the key that the outer struct takes from the
    embedded one. *)
Definition sslMember (f : string) (v : json) (w : SSLConfig * option json) : (SSLConfig * option json) * memberResult :=
  let '(c, enabled) := w in
  if bool_decide (f = "enabled") then ((c, Some v), Decoded)
  else if bool_decide (f = "caCertSecret") then
    let '(r, o) := decodePointer f v (sc_CACertSecret c) in
    ((mkSSLConfig r (sc_CertSecret c) (sc_KeySecret c) (sc_KeyPasswordSecret c), enabled), o)
  else if bool_decide (f = "certSecret") then
    let '(r, o) := decodePointer f v (sc_CertSecret c) in
    ((mkSSLConfig (sc_CACertSecret c) r (sc_KeySecret c) (sc_KeyPasswordSecret c), enabled), o)
  else if bool_decide (f = "keySecret") then
    let '(r, o) := decodePointer f v (sc_KeySecret c) in
    ((mkSSLConfig (sc_CACertSecret c) (sc_CertSecret c) r (sc_KeyPasswordSecret c), enabled), o)
  else
    let '(r, o) := decodePointer f v (sc_KeyPasswordSecret c) in
    ((mkSSLConfig (sc_CACertSecret c) (sc_CertSecret c) (sc_KeySecret c) r, enabled), o).

(** strconv.ParseBool *)
Definition ParseBool (s : string) : option bool :=
  if bool_decide (s ∈ ["1"; "t"; "T"; "TRUE"; "true"; "True"]) then Some true
  else if bool_decide (s ∈ ["0"; "f"; "F"; "FALSE"; "false"; "False"]) then Some false
  else None.

(** The value of the key [enabled]; [None] is an error. *)
Definition decodeEnabled (v : option json) : option bool :=
  match v with
  | None | Some JNull => Some false
  | Some (JBool b) => Some b
  | Some (JStr s) => ParseBool s
  | Some _ => None
  end.

(** The field [Enabled] and the references; an error leaves the receiver. *)
Definition SSLConfig_UnmarshalJSON (data : json) : jsonError + (bool * SSLConfig) :=
  let '((decoded, enabled), err) := decodeStruct "ssl" sslNames sslMember data (noSSL, None) in
  match err with
  | Some e => inl e
  | None =>
      match decodeEnabled enabled with
      | Some b => inr (b, decoded)
      | None => inl (InvalidEnabled (default JNull enabled))
      end
  end.

Definition decodeSSL (v : json) (old : SSLConfig) : SSLConfig * memberResult :=
  match SSLConfig_UnmarshalJSON v with
  | inl e => (old, Stopped e)
  | inr (_, c) => (c, Decoded)
  end.

(** ** KafkaSecretRefs *)

Definition sslOf (r : KafkaSecretRefs) : SSLConfig :=
  mkSSLConfig (kr_CACertSecret r) (kr_CertSecret r) (kr_KeySecret r) (kr_KeyPasswordSecret r).

Definition withSSL (username password : option SecretKeyReference) (c : SSLConfig) : KafkaSecretRefs :=
  mkKafkaRefs username password (sc_CACertSecret c) (sc_CertSecret c) (sc_KeySecret c) (sc_KeyPasswordSecret c).

Definition kafkaRefNames : list string := ["saslUsernameSecret"; "saslPasswordSecret"; "ssl"].

Definition kafkaRefMember (f : string) (v : json) (r : KafkaSecretRefs) : KafkaSecretRefs * memberResult :=
  if bool_decide (f = "saslUsernameSecret") then
    let '(x, o) := decodePointer f v (kr_SASLUsernameSecret r) in (withSSL x (kr_SASLPasswordSecret r) (sslOf r), o)
  else if bool_decide (f = "saslPasswordSecret") then
    let '(x, o) := decodePointer f v (kr_SASLPasswordSecret r) in (withSSL (kr_SASLUsernameSecret r) x (sslOf r), o)
  else
    let '(c, o) := decodeSSL v (sslOf r) in (withSSL (kr_SASLUsernameSecret r) (kr_SASLPasswordSecret r) c, o).

(** Text that is not JSON or too deep is refused before anything is decoded. *)
Definition decodeKafkaRefs (raw : json) : KafkaSecretRefs * bool :=
  match json_Unmarshal (json_Marshal raw) with
  | inl _ => (noRefs, false)
  | inr j =>
      let '(r, e) := decodeStruct "" kafkaRefNames kafkaRefMember j noRefs in
      (r, match e with None => true | Some _ => false end)
  end.

#[export] Instance goDecodeKafka : DecodeKafka := {| DecodeKafkaRefs := decodeKafkaRefs |}.

(** ** CheckKafkaConfig *)

Definition kafkaConfNames : list string :=
  ["securityProtocol"; "saslMechanisms"; "saslUsername"; "saslPassword"; "saslUsernameSecret"; "saslPasswordSecret"; "ssl"].

Definition kafkaConfMember (f : string) (v : json) (c : CheckKafkaConfig) : CheckKafkaConfig * memberResult :=
  let '(mkCheckKafka reader ca ns brokers protocol mechanisms username password usernameSecret passwordSecret ssl) := c in
  let conf := mkCheckKafka reader ca ns brokers in
  if bool_decide (f = "securityProtocol") then
    let '(x, o) := decodeText f v protocol in
    (conf x mechanisms username password usernameSecret passwordSecret ssl, o)
  else if bool_decide (f = "saslMechanisms") then
    let '(x, o) := decodeText f v mechanisms in
    (conf protocol x username password usernameSecret passwordSecret ssl, o)
  else if bool_decide (f = "saslUsername") then
    let '(x, o) := decodeText f v username in
    (conf protocol mechanisms x password usernameSecret passwordSecret ssl, o)
  else if bool_decide (f = "saslPassword") then
    let '(x, o) := decodeText f v password in
    (conf protocol mechanisms username x usernameSecret passwordSecret ssl, o)
  else if bool_decide (f = "saslUsernameSecret") then
    let '(x, o) := decodePointer f v usernameSecret in
    (conf protocol mechanisms username password x passwordSecret ssl, o)
  else if bool_decide (f = "saslPasswordSecret") then
    let '(x, o) := decodePointer f v passwordSecret in
    (conf protocol mechanisms username password usernameSecret x ssl, o)
  else
    let '(x, o) := decodeSSL v ssl in
    (conf protocol mechanisms username password usernameSecret passwordSecret x, o).

Definition emptyKafka (ns : string) : CheckKafkaConfig := mkCheckKafka None "" ns [] "" "" "" "" None None noSSL.

Section Conf.
Variable errorText : decodeError + jsonError -> string.

Definition unmarshalKafka (ns : string) (data : bytes) : string + CheckKafkaConfig :=
  match json_Unmarshal data with
  | inl e => inl (errorText (inl e))
  | inr j =>
      match decodeStruct "" kafkaConfNames kafkaConfMember j (emptyKafka ns) with
      | (c, None) => inr c
      | (_, Some e) => inl (errorText (inr e))
      end
  end.

(** [AsObject] of the section. *)
Definition goDecodeKafkaConf : DecodeKafkaConf := {|
  DecodeCheckKafka data ns := AsObject (unmarshalKafka ns) "*external.CheckKafkaConfig" (Some data)
|}.
End Conf.

(** ** Lemmas on members *)

(** Fields of one struct do not differ in case only. *)
Definition folded (names : list string) : Prop := NoDup (foldName <$> names).

Lemma fieldFor_folds names k f : fieldFor names k = Some f -> f ∈ names /\ foldName f = foldName k.
Proof.
  unfold fieldFor. case_bool_decide as Hk; [by intros [= <-]|].
  destruct (list_find _ names) as [[i x]|] eqn:Hf; [|done]. simpl. intros [= <-].
  apply list_find_Some in Hf as (Hi & Hx & _). split; [|done]. eapply list_elem_of_lookup_2; exact Hi.
Qed.

Lemma fieldFor_None names k f : fieldFor names k = None -> f ∈ names -> foldName f <> foldName k.
Proof.
  unfold fieldFor. case_bool_decide; [done|]. destruct (list_find _ names) eqn:Hf; [done|]. intros _ Hn.
  by apply list_find_None, (proj1 (Forall_forall _ _)) with (x := f) in Hf.
Qed.

Lemma folded_inj names f g : folded names -> f ∈ names -> g ∈ names -> foldName f = foldName g -> f = g.
Proof.
  intros Hn Hf Hg He. apply list_elem_of_lookup_1 in Hf as [i Hi], Hg as [j Hj].
  assert (i = j) as ->; [|congruence]. eapply NoDup_lookup; [exact Hn|by rewrite list_lookup_fmap, Hi|].
  rewrite list_lookup_fmap, Hj. simpl. by rewrite He.
Qed.

(** A key names the same field in a struct with fewer fields, if that has it. *)
Lemma fieldFor_sub names names' k f : folded names -> names' ⊆ names -> fieldFor names k = Some f ->
  fieldFor names' k = if bool_decide (f ∈ names') then Some f else None.
Proof.
  intros Hn Hs Hf. apply fieldFor_folds in Hf as [Hin He]. destruct (fieldFor names' k) as [g|] eqn:Hg.
  - apply fieldFor_folds in Hg as [Hg He']. assert (f = g) as -> by (eapply folded_inj; eauto; congruence).
    by rewrite bool_decide_true.
  - case_bool_decide as Hf'; [|done]. exfalso. by apply (fieldFor_None _ _ f Hg).
Qed.

Lemma fieldFor_sub_None names names' k : names' ⊆ names -> fieldFor names k = None -> fieldFor names' k = None.
Proof.
  intros Hs Hn. destruct (fieldFor names' k) as [g|] eqn:Hg; [|done].
  apply fieldFor_folds in Hg as [Hg He]. exfalso. apply (fieldFor_None _ _ g Hn); [by apply Hs|done].
Qed.

Lemma decodeMembers_err {A} names (member : string -> json -> A -> A * memberResult) l : forall a e,
  snd (decodeMembers names member l a (Some e)) <> None.
Proof.
  induction l as [|[k v] l IH]; intros a e; simpl; [done|]. destruct (fieldFor names k); [|apply IH].
  destruct (member _ _ _) as [a' []]; [apply IH|apply IH|done].
Qed.

(** ** The two decoders agree *)

Definition refsOf (c : CheckKafkaConfig) : KafkaSecretRefs :=
  withSSL (ck_SASLUsernameSecret c) (ck_SASLPasswordSecret c) (ck_SSL c).

Lemma conf_folded : folded kafkaConfNames.
Proof. apply (bool_decide_unpack _). vm_compute. exact I. Qed.

Lemma names_sub : kafkaRefNames ⊆ kafkaConfNames.
Proof. unfold kafkaRefNames, kafkaConfNames. set_solver. Qed.

Lemma member_agrees f v c c' : f ∈ kafkaConfNames -> kafkaConfMember f v c = (c', Decoded) ->
  if bool_decide (f ∈ kafkaRefNames) then kafkaRefMember f v (refsOf c) = (refsOf c', Decoded)
  else refsOf c' = refsOf c.
Proof.
  intros Hf. destruct c as [reader ca ns brokers p m u w us ps ssl].
  unfold kafkaConfNames in Hf. repeat (apply elem_of_cons in Hf as [-> |Hf]; [|try (by apply elem_of_nil in Hf)]).
  all: destruct ssl; lazy -[decodeText decodePointer decodeSSL].
  all: try (destruct (decodeText _ _ _) as [x o]; intros [= <- ->]; reflexivity).
  all: try (destruct (decodePointer _ _ _) as [x o]; intros [= <- ->]; reflexivity).
  destruct (decodeSSL _ _) as [x o]. by intros [= <- ->].
Qed.

Lemma members_agree l : forall c c', decodeMembers kafkaConfNames kafkaConfMember l c None = (c', None) ->
  decodeMembers kafkaRefNames kafkaRefMember l (refsOf c) None = (refsOf c', None).
Proof.
  induction l as [|[k v] l IH]; intros c c'; simpl; [by intros [= <-]|].
  destruct (fieldFor kafkaConfNames k) as [f|] eqn:Hf.
  - rewrite (fieldFor_sub _ _ _ _ conf_folded names_sub Hf). apply fieldFor_folds in Hf as [Hin _].
    destruct (kafkaConfMember f v c) as [c1 [|e|e]] eqn:Hm.
    + apply member_agrees in Hm; [|done]. case_bool_decide; [rewrite Hm|rewrite <- Hm]; apply IH.
    + intros Hd. exfalso. eapply decodeMembers_err. by rewrite Hd.
    + done.
  - rewrite (fieldFor_sub_None _ _ _ names_sub Hf). apply IH.
Qed.

(** The sections that both decoders take have the same references. *)
Lemma decoders_agree errorText data ns conf :
  DecodeCheckKafka (DecodeKafkaConf := goDecodeKafkaConf errorText) data ns = inr conf ->
  decodeKafkaRefs (JObj data) = (refsOf conf, true) /\ ck_Namespace conf = ns.
Proof.
  cbn [DecodeCheckKafka goDecodeKafkaConf]. unfold AsObject, unmarshalKafka, decodeKafkaRefs, MarshalJSON. cbn [ofValues].
  destruct (json_Unmarshal _) as [e|j]; [done|].
  destruct (decodeStruct "" kafkaConfNames kafkaConfMember j (emptyKafka ns)) as [c [e|]] eqn:Hd; [done|].
  intros [= <-]. destruct j as [| | | | |l]; try done; cbn [decodeStruct] in *.
  - by injection Hd as <-.
  - split; [change noRefs with (refsOf (emptyKafka ns)); by apply members_agree in Hd as ->|]. clear -Hd. revert c Hd.
    change ns with (ck_Namespace (emptyKafka ns)) at 2. generalize (emptyKafka ns) as c0.
    induction l as [|[k v] l IH]; intros c0 c; simpl; [by intros [= <-]|].
    destruct (fieldFor kafkaConfNames k) as [f|]; [|apply IH].
    destruct (kafkaConfMember f v c0) as [c1 o] eqn:Hm.
    assert (ck_Namespace c1 = ck_Namespace c0) as Hn.
    { clear -Hm. destruct c0. unfold kafkaConfMember in Hm. repeat case_match; by injection Hm as <- _. }
    destruct o as [|e|e]; [by rewrite <- Hn; apply IH|intros Hd; exfalso; eapply decodeMembers_err; by rewrite Hd|done].
Qed.

(** ** The probe reads what pods are given *)

(** The namespace of a reference is that of the resource by default. *)
Definition inNamespace (ns : string) (r : SecretKeyReference) : SecretKeyReference :=
  if bool_decide (ref_Namespace r = "") then mkRef (ref_Name r) (ref_Key r) ns else r.

Lemma inNamespace_same ns r : ref_Name (inNamespace ns r) = ref_Name r /\ ref_Key (inNamespace ns r) = ref_Key r /\
  ref_Namespace (inNamespace ns r) = firstNonEmpty (ref_Namespace r) ns.
Proof. unfold inNamespace, firstNonEmpty. by repeat case_bool_decide. Qed.

Lemma checkRefs_fill ns l : forall l', checkRefs ns l = (l', None) ->
  l' = option_map (inNamespace ns) <$> l /\
  forall r, Some r ∈ l -> ref_Name r <> "" /\ ref_Key r <> "" /\ firstNonEmpty (ref_Namespace r) ns = ns.
Proof.
  induction l as [|[r|] l IH]; intros l'; simpl.
  - intros [= <-]. split; [done|]. intros r Hr. by apply elem_of_nil in Hr.
  - case_match eqn:Hnk; [done|]. apply orb_false_iff in Hnk as [?%bool_decide_eq_false ?%bool_decide_eq_false].
    fold (inNamespace ns r). destruct (bool_decide (ref_Namespace (inNamespace ns r) = ns)) eqn:Hns; [|done].
    apply bool_decide_eq_true in Hns. rewrite (proj2 (proj2 (inNamespace_same ns r))) in Hns. simpl.
    destruct (checkRefs ns l) as [l1 e]. intros [= <- ->]. destruct (IH l1 eq_refl) as [-> Hall].
    split; [done|]. intros r0 [[= ->]|Hr]%elem_of_cons; auto.
  - destruct (checkRefs ns l) as [l1 e]. intros [= <- ->]. destruct (IH l1 eq_refl) as [-> Hall].
    split; [done|]. intros r0 [?|Hr]%elem_of_cons; [done|auto].
Qed.

Lemma parsed_refs mc raw refs0 :
  field_of (JObj (default [] (spec_Conf (mi_Spec mc)))) "kafka" = Some raw -> decodeKafkaRefs raw = (refs0, true) ->
  snd (parseKafkaSecretRefs mc) = None ->
  all (fst (parseKafkaSecretRefs mc)) = option_map (inNamespace (mi_Namespace mc)) <$> all refs0 /\
  forall r, Some r ∈ all refs0 ->
    ref_Name r <> "" /\ ref_Key r <> "" /\ firstNonEmpty (ref_Namespace r) (mi_Namespace mc) = mi_Namespace mc.
Proof.
  intros Hk Hd. unfold parseKafkaSecretRefs. rewrite Hk. cbn [DecodeKafkaRefs goDecodeKafka]. rewrite Hd. cbn [negb].
  destruct (checkRefs _ _) as [l [e|]] eqn:Hl; [done|]. apply checkRefs_fill in Hl as [-> Hall].
  repeat case_match; try done; intros _; split; try done; by destruct refs0.
Qed.

Lemma field_of_get_key o k : field_of (JObj o) k = get_key o k.
Proof.
  unfold field_of. induction o as [|[k' v] o IH]; [done|]. simpl. case_decide; [done|]. rewrite <- IH.
  by destruct (list_find _ o) as [[? []]|].
Qed.

Section Agreement.
Variable errorText : decodeError + jsonError -> string.
#[local] Instance probeDecoder : DecodeKafkaConf := goDecodeKafkaConf errorText.

(** A key of a Secret, as a program that asks for that Secret and nothing else. *)
Definition readsKey (ns name key : string) (p : prog string) : Prop :=
  exists k, p = Call (Read (GetSecret ns name)) k /\
    (forall data, mget data key <> "" -> k (inr data) = Ret (mget data key)).

Lemma read_key conf brokers r : ref_Name r <> "" -> ref_Key r <> "" -> ck_Namespace conf <> "" ->
  firstNonEmpty (ref_Namespace r) (ck_Namespace conf) = ck_Namespace conf ->
  readsKey (ck_Namespace conf) (ref_Name r) (ref_Key r)
    (getFromSecret (set_ck_Brokers conf brokers) r (ck_Namespace conf)).
Proof.
  intros Hn Hk Hns He. unfold getFromSecret. cbn [ck_SecretReader set_ck_Brokers]. rewrite He.
  rewrite !bool_decide_false, bool_decide_true by done. cbn [orb negb].
  eexists. split; [reflexivity|]. intros data Hd. simpl. by rewrite !bool_decide_false.
Qed.

(** C33. For a section that the operator takes, pods and the probe have the
    same references: the references that pods get are those of the configuration of
    the probe with the namespace of the resource, and for each of them the probe asks
    the API server for exactly the Secret that is mounted, never refuses it, and
    uses the value of its key.  Both decode the section on their own, into different
    structs, whatever the case and the order of its keys. *)
Theorem probe_reads_mounted mc conf : mi_Namespace mc <> "" -> GetKafkaConfFromCR mc = Ret conf ->
  exists refs, parseKafkaSecretRefs mc = (refs, None) /\
    all refs = option_map (inNamespace (mi_Namespace mc)) <$> all (refsOf conf) /\
    forall brokers r, Some r ∈ all (refsOf conf) ->
      readsKey (mi_Namespace mc) (ref_Name r) (ref_Key r)
        (getFromSecret (set_ck_Brokers conf brokers) r (ck_Namespace conf)).
Proof.
  intros Hns. unfold GetKafkaConfFromCR. destruct (parseKafkaSecretRefs mc) as [refs [e|]] eqn:Hp; [done|].
  cbn [snd]. unfold external_GetKafkaConfFromCR. rewrite <- field_of_get_key. intros Hc. exists refs. split; [done|].
  destruct (field_of _ "kafka") as [raw|] eqn:Hk.
  - destruct raw as [| | | | |data]; try done.
    destruct (DecodeCheckKafka data _) as [e|conf'] eqn:Hd; [done|]. injection Hc as ->.
    apply decoders_agree in Hd as [Hd Hn]. destruct (parsed_refs mc _ _ Hk Hd) as [Ha Hall]; [by rewrite Hp|].
    rewrite Hp in Ha. split; [exact Ha|]. intros brokers r Hr. destruct (Hall r Hr) as (? & ? & ?).
    rewrite <- Hn in *. by apply read_key.
  - injection Hc as <-. unfold parseKafkaSecretRefs in Hp. rewrite Hk in Hp. injection Hp as <-.
    split; [done|]. intros brokers r Hr. vm_compute in Hr. set_solver.
Qed.
End Agreement.

(** ** Sections of a configuration *)

Section Examples.

Definition exRef (name key : string) : json := JObj [("name", JStr name); ("key", JStr key)].

(** Keys in any case, [enabled] as text, and settings that are only Milvus's. *)
Definition exSection : object :=
  [("securityProtocol", JStr "SASL_SSL"); ("SSL", JObj [("Enabled", JStr "T"); ("CAcertSecret", exRef "kafka" "ca.crt")]);
   ("saslPasswordSecret", exRef "kafka" "password"); ("saslUsername", JStr "milvus"); ("linger", JNum 5)].

Definition exSectionMilvus : Milvus :=
  set_mi_Spec (exMilvus 1)
    (mkSpec MilvusModeCluster (exCom 1) exDep (Some [("kafka", JObj exSection)]) None).

Definition exSectionConf : CheckKafkaConfig :=
  mkCheckKafka None "" "ns" [] "SASL_SSL" "" "milvus" "" None (Some (mkRef "kafka" "password" ""))
    (mkSSLConfig (Some (mkRef "kafka" "ca.crt" "")) None None None).

Definition noText (e : decodeError + jsonError) : string := "".

Lemma probe_reads_mounted_witness :
  exists refs, parseKafkaSecretRefs exSectionMilvus = (refs, None) /\
    Some (mkRef "kafka" "ca.crt" "ns") ∈ all refs /\
    readsKey "ns" "kafka" "ca.crt" (getFromSecret (set_ck_Brokers exSectionConf ["kafka:9092"]) (mkRef "kafka" "ca.crt" "") "ns").
Proof.
  destruct (probe_reads_mounted noText exSectionMilvus exSectionConf ltac:(vm_compute; discriminate)
              ltac:(vm_compute; reflexivity)) as (refs & Hp & Ha & Hr).
  exists refs. split; [exact Hp|]. split.
  - rewrite Ha. apply (list_elem_of_lookup_2 _ 2%nat). reflexivity.
  - apply (Hr ["kafka:9092"] (mkRef "kafka" "ca.crt" "")). apply (list_elem_of_lookup_2 _ 2%nat). reflexivity.
Defined.

(** [enabled] is a boolean, null, or text of a boolean. *)
Example enabled_forms :
  (fun v => match SSLConfig_UnmarshalJSON (JObj [("enabled", v)]) with inr (b, _) => Some b | inl _ => None end) <$>
    [JBool true; JNull; JStr "1"; JStr "False"; JStr "yes"; JStr ""; JNum 1; JArr []]
  = [Some true; Some false; Some true; Some false; None; None; None; None].
Proof. vm_compute. reflexivity. Qed.

(** A wrong type of a field that only the probe has: pods get their references, and
    the probe refuses the section. *)
Example only_probe_refuses :
  let section := [("saslUsername", JNum 5); ("saslPasswordSecret", exRef "kafka" "password")] in
  snd (decodeKafkaRefs (JObj section)) = true /\
  DecodeCheckKafka (DecodeKafkaConf := goDecodeKafkaConf noText) section "ns"
    = inl "failed to unmarshal values as obj[*external.CheckKafkaConfig]: ".
Proof. vm_compute. split; reflexivity. Qed.

(** A wrong type is remembered and the fields after it are decoded, the pointer
    being set; an error of the TLS settings drops all of these. *)
Example error_leaves :
  decodeKafkaRefs (JObj [("ssl", JObj [("enabled", JStr "yes"); ("certSecret", exRef "a" "b")]);
                         ("saslPasswordSecret", JNum 1); ("saslUsernameSecret", exRef "kafka" "user")])
  = (mkKafkaRefs (Some (mkRef "kafka" "user" "")) (Some (mkRef "" "" "")) None None None None, false).
Proof. vm_compute. reflexivity. Qed.

(** Of two keys of one field the later one in the order of keys counts, and what it
    does not have is kept. *)
Example keys_of_one_field :
  decodeKafkaRefs (JObj [("saslUsernameSecret", JObj [("key", JStr "user")]); ("SASLUsernameSecret", exRef "kafka" "old")])
  = (mkKafkaRefs (Some (mkRef "kafka" "user" "")) None None None None None, true).
Proof. vm_compute. reflexivity. Qed.
End Examples.

(** Sections that are deeply equal have the same references. *)
Theorem refs_of_order raw raw' :
  writable maxNestingDepth raw = true -> writable maxNestingDepth raw' = true -> sameJson raw raw' = true ->
  decodeKafkaRefs raw = decodeKafkaRefs raw'.
Proof. intros Hw Hw' Hs. unfold decodeKafkaRefs. by rewrite (proj2 (marshal_same raw raw' Hw Hw') Hs). Qed.
