(* ===== verification/RolloutLive.v ===== *)
(** * A rollout completes

    The deploy controller ([DeployCtrl.Reconcile]) on a store of objects, cycle
    after cycle: a reconcile whose calls succeed, after which the deployments
    catch up (their pods run and their statuses say so).  From any store with
    the two deployments of a component, also in the middle of a rollout, the
    cycles reach a store in which the rollout is over: the current deployment has
    the rendered template and the expected replicas, the other one has none, and
    a further reconcile writes nothing.

    The pods are those of the cluster, an interface here ([Pods]); how a template
    is rendered is the interface [PodTemplateUpdater], of which it is assumed that
    rendering into the template of the start and into its own result, in any
    slot, gives that result ([rendersTo]).  The renderer of the operator
    ([Render]) does not see the marks of a rollout ([renderer_renders]), and the
    example at the end rolls out with it. *)
From S2P Require Import Prelude KubeTypes Libs ApiTypes Labels Effects Utils Components RollingUpdate.
From S2P Require Import ScalePlanner ScaleProofs K8sUtil Store DeployUtil DeployCtrl DeployProofs Runs Examples.
From S2P Require Import PodTemplate KafkaSecrets Render RenderProofs Checksum.

Local Open Scope string_scope.
Local Open Scope list_scope.
Local Open Scope Z_scope.

(** ** The cluster *)

(** The deployment controller has caught up with the spec. *)
Definition caughtUp (d : Deployment) : Prop :=
  let st := dep_Status d in
  dss_ObservedGeneration st = om_Generation (dep_Meta d) /\
  dss_Replicas st = getDeployReplicas d /\ dss_UpdatedReplicas st = getDeployReplicas d /\
  dss_ReadyReplicas st = getDeployReplicas d /\ dss_AvailableReplicas st = getDeployReplicas d /\
  dss_UnavailableReplicas st = 0.

(** The same deployment after it has caught up. *)
Definition catches (d d' : Deployment) : Prop :=
  dep_key d' = dep_key d /\ dep_Labels d' = dep_Labels d /\ dep_Spec d' = dep_Spec d /\ caughtUp d'.

Definition catch_up (s s' : store) : Prop :=
  s_mc s' = s_mc s /\ Forall2 catches (s_deploys s) (s_deploys s').

(** The pods of a deployment that has caught up: all there, all running. *)
Definition podsRun (d : Deployment) (pods : list Pod) : Prop :=
  let live := filter (fun pod => pod_Reason pod <> "Evicted") pods in
  Z.of_nat (length live) = getDeployReplicas d /\
  GetTerminatingPods live = [] /\ GetNotReadyPods live = [] /\
  filter (fun p => podCountsReady p = true) live = live.

Definition selectorOf (d : Deployment) : string * gmap string string :=
  (om_Namespace (dep_Meta d), dsp_Selector (dep_Spec d)).

Class Pods := { podsOf : store -> string -> gmap string string -> list Pod }.

Class PodsLaws `{Pods} := {
  pods_run s d :
    NoDup (selectorOf <$> s_deploys s) -> d ∈ s_deploys s -> caughtUp d -> validReplicas d ->
    podsRun d (podsOf s (om_Namespace (dep_Meta d)) (dsp_Selector (dep_Spec d)))
}.

(** An API server whose calls succeed. *)
Definition live_read `{Pods} {B} (r : kread B) (s : store) : kerr + B :=
  match r in kread B' return kerr + B' with
  | ListDeployments ns labels => inr (filter (selects ns labels) (s_deploys s))
  | GetMilvus _ _ => inr (s_mc s)
  | ListPods ns labels => inr (podsOf s ns labels)
  | _ => inl KNotFound
  end.

Definition live `{Pods} : handler store :=
  mkHandler (fun B r s => live_read r s)
    (fun w s => if decide (write_ok w s) then (inr tt, apply_write w s) else (inl KConflict, s)).

(** ** Changing one of the two deployments *)

Section Pair.
Context (component : MilvusComponent).

Notation ours := (ours component).
Notation slot := (slot component).
Notation picked := (picked component).

(** The two deployments of the component, in slots 0 and 1. *)
Record pair (s : store) (c l : Deployment) : Prop := {
  p_picked : picked s c l;
  p_keys : keysOk s;
  p_selectors : NoDup (selectorOf <$> s_deploys s);
  p_slots d : d ∈ s_deploys s -> ours (s_mc s) d -> slot d = "0" \/ slot d = "1"
}.

(** A write or a catch-up that keeps what identifies a deployment. *)
Definition identity (d : Deployment) :=
  (dep_key d, dep_Labels d, dsp_Selector (dep_Spec d)).

Lemma identity_key d d' : identity d' = identity d -> dep_key d' = dep_key d.
Proof. intros H. exact (f_equal (fun x => fst (fst x)) H). Qed.

Lemma identity_ours m d d' : identity d' = identity d -> ours m d' <-> ours m d.
Proof.
  intros [= Hk Hn Hl _]. unfold DeployProofs.ours, selects, isSlotted. by rewrite Hk, Hl.
Qed.

Lemma identity_slot d d' : identity d' = identity d -> slot d' = slot d.
Proof. intros [= _ _ Hl _]. unfold DeployProofs.slot. by rewrite Hl. Qed.

Lemma identity_current m d d' : identity d' = identity d -> isCurrent component m d' = isCurrent component m d.
Proof. intros [= _ _ Hl _]. unfold isCurrent, componentDeployIsCurrentGroup. by rewrite Hl. Qed.

(** A store whose deployments are, one by one, those of another one up to what
    does not identify them. *)
Lemma pair_map s s' c l (R : Deployment -> Deployment -> Prop) :
  pair s c l -> s_mc s' = s_mc s -> Forall2 R (s_deploys s) (s_deploys s') ->
  (forall d d', R d d' -> identity d' = identity d) ->
  exists c' l', R c c' /\ R l l' /\ pair s' c' l'.
Proof.
  intros [(Hc & Hl & Hoc & Hol & Hcc & Hcl & Hall) Hk Hsel Hsl] Hmc HF HR.
  assert (identity <$> s_deploys s' = identity <$> s_deploys s) as Hid.
  { clear -HF HR. induction HF as [|d d' l l' Hd HF IH]; [done|]. rewrite !fmap_cons, IH. f_equal. by apply HR. }
  assert (forall d, d ∈ s_deploys s -> exists d', d' ∈ s_deploys s' /\ R d d') as Hto.
  { intros d [i Hi]%list_elem_of_lookup. destruct (Forall2_lookup_l _ _ _ _ _ HF Hi) as (d' & Hi' & Hr).
    exists d'. split; [|done]. by apply list_elem_of_lookup_2 in Hi'. }
  assert (forall d', d' ∈ s_deploys s' -> exists d, d ∈ s_deploys s /\ R d d') as Hfrom.
  { intros d' [i Hi]%list_elem_of_lookup. destruct (Forall2_lookup_r _ _ _ _ _ HF Hi) as (d & Hi' & Hr).
    exists d. split; [|done]. by apply list_elem_of_lookup_2 in Hi'. }
  assert (keysOk s') as Hk'.
  { unfold keysOk in *. replace (dep_key <$> s_deploys s') with ((fun x => fst (fst x)) <$> (identity <$> s_deploys s'))
      by (by rewrite <- list_fmap_compose). rewrite Hid, <- list_fmap_compose. done. }
  destruct (Hto c Hc) as (c' & Hc' & Hrc), (Hto l Hl) as (l' & Hl' & Hrl). exists c', l'.
  split_and!; [done..|]. split; [|done| |].
  - unfold DeployProofs.picked. rewrite Hmc. split_and!; try done.
    + by apply (identity_ours _ _ _ (HR _ _ Hrc)).
    + by apply (identity_ours _ _ _ (HR _ _ Hrl)).
    + by rewrite (identity_current _ _ _ (HR _ _ Hrc)).
    + by rewrite (identity_current _ _ _ (HR _ _ Hrl)).
    + intros d' Hd' Ho'. destruct (Hfrom d' Hd') as (d & Hd & Hr).
      apply (identity_ours _ _ _ (HR _ _ Hr)) in Ho'.
      destruct (Hall d Hd Ho') as [-> | ->]; [left|right]; apply (key_inj _ _ _ Hk'); try done.
      * by rewrite (identity_key _ _ (HR _ _ Hr)), (identity_key _ _ (HR _ _ Hrc)).
      * by rewrite (identity_key _ _ (HR _ _ Hr)), (identity_key _ _ (HR _ _ Hrl)).
  - replace (selectorOf <$> s_deploys s') with ((fun x => (fst (fst (fst x)), snd x)) <$> (identity <$> s_deploys s'))
      by (by rewrite <- list_fmap_compose). rewrite Hid, <- list_fmap_compose. done.
  - intros d' Hd' Ho'. rewrite Hmc in Ho'. destruct (Hfrom d' Hd') as (d & Hd & Hr).
    rewrite (identity_slot _ _ (HR _ _ Hr)). apply (identity_ours _ _ _ (HR _ _ Hr)) in Ho'. by apply Hsl.
Qed.

Lemma pair_distinct s c l : pair s c l -> dep_key c <> dep_key l.
Proof.
  intros [(Hc & Hl & _ & _ & Hcc & Hcl & _) Hk _ _] He.
  rewrite (key_inj _ _ _ Hk Hc Hl He) in Hcc. by rewrite Hcl in Hcc.
Qed.

(** One of the two is updated. *)
Lemma pair_update s c l d0 d :
  pair s c l -> d0 = c \/ d0 = l -> identity d = identity d0 ->
  pair (apply_write (UpdateDeployment d) s)
    (if decide (dep_key c = dep_key d0) then d else c) (if decide (dep_key l = dep_key d0) then d else l).
Proof.
  intros Hp Hd0 Hid. pose proof Hp as [(Hc & Hl & _) Hk _ _].
  assert (d0 ∈ s_deploys s) as Hin by (by destruct Hd0 as [-> | ->]).
  set (R x y := x ∈ s_deploys s /\ y = if decide (dep_key x = dep_key d) then d else x).
  destruct (pair_map s (apply_write (UpdateDeployment d) s) c l R) as (c' & l' & [_ ->] & [_ ->] & Hp'); [done..| | |].
  - simpl. unfold update_deploy. apply Forall2_fmap_r, Forall_Forall2_diag, Forall_forall. intros x Hx. by split.
  - intros x y [Hx ->]. case_decide as He; [|done].
    rewrite (key_inj _ _ _ Hk Hx Hin); [done|]. by rewrite He, (identity_key _ _ Hid).
  - by rewrite <- (identity_key _ _ Hid).
Qed.

(** The resource is updated, with the slot of one of the two for the current
    one. *)
Lemma pair_milvus s c l a b m :
  pair s c l -> (a = c /\ b = l) \/ (a = l /\ b = c) ->
  mi_Name m = mi_Name (s_mc s) -> mi_Namespace m = mi_Namespace (s_mc s) ->
  GetCurrentGroupId m (GetStateKey component) = slot a -> pair (apply_write (UpdateMilvus m) s) a b.
Proof.
  intros [(Hc & Hl & Hoc & Hol & Hcc & Hcl & Hall) Hk Hsel Hsl] Hab Hn Hns Hg.
  assert (forall d, ours m d <-> ours (s_mc s) d) as Ho by (intros d; unfold DeployProofs.ours; by rewrite Hn, Hns).
  assert (slot b <> slot a) as Hne.
  { unfold isCurrent, componentDeployIsCurrentGroup in *. apply bool_decide_eq_true in Hcc.
    apply bool_decide_eq_false in Hcl. unfold DeployProofs.slot in *.
    destruct Hab as [[-> ->]|[-> ->]]; rewrite Hcc; [done|by intros ?]. }
  assert (a ∈ s_deploys s /\ b ∈ s_deploys s /\ ours m a /\ ours m b) as (Ha & Hb & Hoa & Hob)
    by (destruct Hab as [[-> ->]|[-> ->]]; split_and!; by try apply Ho).
  split; try done.
  - unfold DeployProofs.picked, isCurrent, componentDeployIsCurrentGroup. simpl. rewrite Hg. split_and!; try done.
    + by apply bool_decide_eq_true_2.
    + by apply bool_decide_eq_false_2.
    + intros d Hd Hod. destruct (Hall d Hd (proj1 (Ho d) Hod)), Hab as [[-> ->]|[-> ->]]; auto.
  - simpl. intros d Hd Hod. by apply Hsl, Ho.
Qed.

(** The pair is what [GetDeploys] finds. *)
Lemma pair_select s c l :
  pair s c l ->
  selectDeploys component (s_mc s)
    (filter (selects (mi_Namespace (s_mc s)) (GetSelectorLabels component (mi_Name (s_mc s)))) (s_deploys s))
  = Ret (c, l).
Proof.
  intros Hp. pose proof Hp as [(Hc & Hl & Hoc & Hol & Hcc & Hcl & Hall) Hk Hsel Hsl].
  set (ds := filter (selects _ _) (s_deploys s)).
  assert (filter (fun d => isSlotted component d = true) ds ≡ₚ [c; l]) as Hperm.
  { apply list.NoDup_Permutation.
    - apply NoDup_filter, NoDup_filter. by apply NoDup_fmap_1 in Hk.
    - apply NoDup_cons. split; [|apply NoDup_singleton]. intros He%list_elem_of_singleton.
      apply (pair_distinct s c l Hp). by rewrite He.
    - intros d. unfold ds. rewrite filter_slotted_elem. split.
      + intros [Hd Ho]. destruct (Hall d Hd Ho) as [-> | ->]; set_solver.
      + intros [->|[->|[]%elem_of_nil]%elem_of_cons]%elem_of_cons; done. }
  unfold isCurrent in *. unfold selectDeploys.
  apply Permutation_sym, Permutation_length_2_inv in Hperm as [-> | ->]; simpl; rewrite Hcc, Hcl; simpl; rewrite ?Hcc;
    done.
Qed.
End Pair.

(** ** One reconcile *)

Section Live.
Context {SV : Semver} {US : Unstructured} {IS : IntStr} {KL : KubeLib} {DL : DeepEqualLaws} {PU : PodTemplateUpdater}.
Context {PD : Pods} {PL : PodsLaws}.
Context (component : MilvusComponent) (one : Milvus -> MilvusComponent -> prog unit).
Context (mc0 : Milvus) (strategy : DeploymentStrategy).

Notation key := (GetStateKey component).
Notation expected := (expectedReplicas component mc0).
Notation surge := (fst (rolloutSteps strategy expected)).
Notation unavailable := (snd (rolloutSteps strategy expected)).
Notation pair := (pair component).
Notation rolling := (rolling component).
Notation does := (does live).

(** The resource with the marks of a rollout. *)
Inductive marked : Milvus -> Prop :=
  | marked_start : marked mc0
  | marked_current m g : marked m -> marked (SetCurrentGroupIDStr m key g)
  | marked_rolling m r : marked m -> marked (SetComponentRolling m key r).

(** A component in two-deployment mode that the operator rolls out by itself. *)
Record rolledOut : Prop := {
  ro_mode : modeV3 mc0;
  ro_changed : IsChangingMode mc0 key = false;
  ro_group : DeploymentGroupOf component = None;
  ro_unpaused : csp_Paused (com_ComponentSpec (mi_Com mc0)) = false;
  ro_spec : exists spec, GetComponentSpec component (mi_Spec mc0) = Some spec /\ csp_Paused spec = false;
  ro_manual : com_EnableManualMode (mi_Com mc0) = false;
  ro_plain : plainScaling component mc0;
  ro_strategy : GetDeploymentStrategy mc0 component = Some strategy;
  ro_budget : 0 < surge \/ 0 < unavailable
}.

(** A template without its slot. *)
Definition slotless (t : PodTemplateSpec) : PodTemplateSpec :=
  set_pt_Labels t (SetGroupIDStr (Name component) (pt_Labels t) "").

Definition inSlot (t : PodTemplateSpec) (g : string) : PodTemplateSpec :=
  set_pt_Labels t (SetGroupIDStr (Name component) (pt_Labels t) g).

Lemma slotless_inSlot t g : slotless (inSlot t g) = slotless t.
Proof. unfold slotless, inSlot, SetGroupIDStr. destruct t; simpl. by rewrite insert_insert_eq. Qed.

(** Templates that are the same but for their slot are the same in one slot. *)
Lemma slotless_same t t' g : slotless t = slotless t' -> inSlot t g = inSlot t' g.
Proof.
  intros H. apply (f_equal (fun x => inSlot x g)) in H. unfold slotless, inSlot, SetGroupIDStr in *. destruct t, t'; simpl in *.
  by rewrite !insert_insert_eq in H.
Qed.

(** Rendering into the template [start] or into [target], in any slot, gives
    [target], whatever the marks of the resource. *)
Definition rendersTo (start target : PodTemplateSpec) : Prop :=
  forall m t, marked m -> t = start \/ (exists g, t = inSlot target g) ->
  exists t', updatePodTemplate m component t (GetSelectorLabels component (mi_Name m)) false = Some t' /\
    slotless t' = slotless target.

Context (start target : PodTemplateSpec).
Context (Hready : rolledOut) (Hrender : rendersTo start target).

Definition templateOf (d : Deployment) : PodTemplateSpec := dsp_Template (dep_Spec d).

(** The deployment has the template that is rolled out. *)
Definition updated (d : Deployment) : Prop := slotless (templateOf d) = slotless target.

Record good (s : store) (c l : Deployment) : Prop := {
  g_pair : pair s c l;
  g_caught : caughtUp c /\ caughtUp l;
  g_valid : validReplicas c /\ validReplicas l;
  g_known : templateOf c = start \/ (exists g, templateOf c = inSlot target g);
  g_marked : marked (s_mc s)
}.

#[local] Instance updated_dec d : Decision (updated d).
Proof. unfold updated. apply _. Defined.

Lemma templateEqual_spec d t : slotless t = slotless target ->
  isPodTemplateEqual component d t = bool_decide (updated d).
Proof. intros Ht. unfold isPodTemplateEqual, updated. rewrite DeepEqual_spec. fold (slotless t). by rewrite Ht. Qed.

(** The marks are labels and annotations. *)
Lemma marked_same m : marked m ->
  mi_Spec m = mi_Spec mc0 /\ mi_Status m = mi_Status mc0 /\ mi_Name m = mi_Name mc0 /\
  mi_Namespace m = mi_Namespace mc0 /\ IsChangingMode m key = false.
Proof.
  intros Hm. induction Hm as [|m g Hm IH|m r Hm IH]; [by split_and!; try apply (ro_changed Hready)| |].
  - destruct IH as (H1 & H2 & H3 & H4 & H5). split_and!; [done..|]. by rewrite IsChangingMode_setCurrent.
  - destruct IH as (H1 & H2 & H3 & H4 & H5). unfold SetComponentRolling. destruct r; [case_bool_decide|]; by repeat split.
Qed.

Lemma marked_plain m : marked m -> plainScaling component m /\ GetDeploymentStrategy m component = Some strategy /\
  expectedReplicas component m = expected.
Proof.
  intros (Hs & _)%marked_same. pose proof (ro_plain Hready) as Hp. pose proof (ro_strategy Hready) as Hst.
  unfold plainScaling, GetDeploymentStrategy, expectedReplicas, mi_Com in *. by rewrite Hs.
Qed.

Lemma expected_pos : 0 < expected.
Proof. destruct (ro_plain Hready) as (_ & _ & ?). lia. Qed.

(** *** Reading *)

Lemma GetDeploys_does s c l : good s c l -> does (GetDeploys component (s_mc s)) s s [] (ORet (c, l)).
Proof.
  intros Hg. unfold GetDeploys. eapply does_bind_quiet; [apply does_wrap, does_read; reflexivity|].
  rewrite (pair_select component s c l (g_pair _ _ _ Hg)). apply does_ret.
Qed.

Lemma render_does s c l : good s c l ->
  exists t, does (RenderPodTemplateWithoutGroupID component (s_mc s) (Some (templateOf c)) false) s s [] (ORet t) /\
    slotless t = slotless target.
Proof.
  intros Hg. destruct (Hrender (s_mc s) (templateOf c) (g_marked _ _ _ Hg) (g_known _ _ _ Hg)) as (t & Ht & Hs).
  exists t. split; [|done]. apply does_deref. rewrite bool_decide_eq_false_2 by done.
  destruct (marked_plain _ (g_marked _ _ _ Hg)) as (_ & _ & He).
  change (ReplicasValue (GetReplicas component (mi_Spec (s_mc s)))) with (expectedReplicas component (s_mc s)).
  rewrite He, (proj2 (Z.eqb_neq expected 0)); [exact Ht|]. pose proof expected_pos. lia.
Qed.

(** The pods of a deployment of the pair run. *)
Lemma pods_does s c l d : good s c l -> d = c \/ d = l ->
  exists pods, does (ListDeployPods d) s s [] (ORet pods) /\
    fst (DeploymentIsStable d pods) = true /\
    Z.of_nat (length pods) = getDeployReplicas d /\ filter (fun p => podCountsReady p = true) pods = pods.
Proof.
  intros [[(Hc & Hl & _) _ Hsel _] [Hcc Hcl] [Hvc Hvl] _ _] Hd.
  assert (d ∈ s_deploys s /\ caughtUp d /\ validReplicas d) as (Hin & Hcu & Hv) by (by destruct Hd as [-> | ->]).
  destruct (pods_run s d Hsel Hin Hcu Hv) as (Hlen & Hterm & Hready' & Hcount).
  eexists. split; [eapply does_bind_quiet; [apply does_wrap, does_read; reflexivity|apply does_ret]|].
  split_and!; [|done..]. unfold DeploymentIsStable, logicAnd.
  destruct (logicAnd_from 0 (stableChecks d _)) as [b i] eqn:E.
  pose proof (logicAnd_from_spec 0 (stableChecks d
    (filter (fun pod => pod_Reason pod <> "Evicted") (podsOf s (om_Namespace (dep_Meta d)) (dsp_Selector (dep_Spec d)))))) as Hs.
  rewrite E in Hs. simpl fst in Hs. destruct b; [done|]. exfalso. symmetry in Hs. revert Hs.
  unfold stableChecks. cbv zeta. rewrite Hterm, Hready', Hlen. destruct Hcu as (-> & -> & -> & -> & -> & ->).
  destruct Hv as [Hv0 Hv1]. rewrite int32_of_id by (unfold in_int32, int32_min; lia).
  cbn [forallb length Z.of_nat]. unfold id. rewrite !Z.eqb_refl. done.
Qed.

(** *** Writing *)

Lemma update_does s c l d d0 : good s c l -> d0 = c \/ d0 = l -> dep_key d = dep_key d0 ->
  does (write (UpdateDeployment d)) s (apply_write (UpdateDeployment d) s) [UpdateDeployment d] (ORet tt).
Proof.
  intros [[(Hc & Hl & _) _ _ _] _ _ _ _] Hd0 Hk. apply does_write. simpl. rewrite decide_True; [done|].
  rewrite Hk. apply list_elem_of_fmap. exists d0. split; [done|]. by destruct Hd0 as [-> | ->].
Qed.

Lemma updateMilvus_does s m :
  does (write (UpdateMilvus m)) s (apply_write (UpdateMilvus m) s) [UpdateMilvus m] (ORet tt).
Proof. apply does_write. cbn [live h_write]. case_decide as Hw; [done|]. by destruct Hw. Qed.

(** A write that is followed by a requeue. *)
Lemma requeue_does w s s' : does (write w) s s' [w] (ORet tt) ->
  does (UpdateAndRequeue w) s s' [w] (OFail (EWrap "update and requeue" ErrRequeue)).
Proof.
  intros Hw. unfold UpdateAndRequeue. rewrite <- (app_nil_r [w]).
  eapply does_bind; [by apply does_wrap|]. apply does_fail.
Qed.

(** The deployment and the resource that start a rollout to [d]. *)
Definition startedDeploy (m : Milvus) (d : Deployment) (t : PodTemplateSpec) : Deployment :=
  fst (RenewDeployAnnotation m (updatePodTemplateTwoDeployMode component d t)).

Definition startedMilvus (m : Milvus) (d : Deployment) : Milvus :=
  SetComponentRolling (SetCurrentGroupIDStr m key (slot component d)) key true.

Definition startedStore (s : store) (d : Deployment) (t : PodTemplateSpec) : store :=
  apply_write (UpdateMilvus (startedMilvus (s_mc s) d)) (apply_write (UpdateDeployment (startedDeploy (s_mc s) d t)) s).

Lemma startedDeploy_identity m d t : identity (startedDeploy m d t) = identity d.
Proof. unfold startedDeploy, RenewDeployAnnotation. by case_bool_decide. Qed.

Lemma startedDeploy_spec m d t :
  getDeployReplicas (startedDeploy m d t) = getDeployReplicas d /\
  templateOf (startedDeploy m d t) = inSlot t (slot component d).
Proof. unfold startedDeploy, RenewDeployAnnotation. by case_bool_decide. Qed.

Lemma PrepareNewRollout_does s c l d t : good s c l -> d = c \/ d = l ->
  exists ws e, does (PrepareNewRollout component (s_mc s) d t) s (startedStore s d t) ws (OFail e).
Proof.
  intros Hg Hd. unfold PrepareNewRollout. cbv zeta. eexists _, _. eapply does_bind.
  - apply does_wrap. eapply (update_does s c l _ d Hg Hd). exact (identity_key _ _ (startedDeploy_identity (s_mc s) d t)).
  - apply requeue_does, updateMilvus_does.
Qed.

Lemma marked_set m g r : marked m ->
  marked (SetComponentRolling (SetCurrentGroupIDStr m key g) key r) /\ marked (SetComponentRolling m key r).
Proof. intros Hm. by split; repeat constructor. Qed.

(** *** Rolling *)

(** As many replicas as wanted on the current deployment, none on the last. *)
Definition scaledOut (c l : Deployment) : Prop := expected <= getDeployReplicas c /\ getDeployReplicas l = 0.

Lemma finished_checks s c l : good s c l ->
  fst (logicAnd (rolloutFinishedChecks component (s_mc s) c l)) = true <-> scaledOut c l.
Proof.
  intros [_ [Hcc Hcl] [[Hc0 Hc1] [Hl0 Hl1]] _ Hm]. unfold logicAnd. rewrite logicAnd_from_spec.
  destruct (marked_plain _ Hm) as (_ & _ & He). pose proof expected_pos as Hpos.
  unfold rolloutFinishedChecks, GetLeastReplicasRegardingHPA.
  change (ReplicasValue (GetReplicas component (mi_Spec (s_mc s)))) with (expectedReplicas component (s_mc s)).
  rewrite He. rewrite (proj2 (Z.ltb_ge expected 0)) by lia.
  change (ReplicasValue (dsp_Replicas (dep_Spec c))) with (getDeployReplicas c).
  destruct Hcc as (-> & -> & -> & _ & -> & _), Hcl as (-> & -> & _). rewrite int32_of_id by (unfold in_int32, int32_min; lia).
  cbn [forallb]. unfold id, scaledOut. rewrite !Z.eqb_refl, !andb_true_l, !andb_true_r.
  rewrite andb_true_iff, andb_diag, Z.leb_le, Z.eqb_eq. done.
Qed.

Definition endedStore (s : store) : store := apply_write (UpdateMilvus (SetComponentRolling (s_mc s) key false)) s.

Lemma LastRolloutFinished_does s c l : good s c l ->
  (rolling (s_mc s) = false /\ does (LastRolloutFinished component (s_mc s) c l) s s [] (ORet true)) \/
  (rolling (s_mc s) = true /\ scaledOut c l /\
   exists ws e, does (LastRolloutFinished component (s_mc s) c l) s (endedStore s) ws (OFail e)) \/
  (rolling (s_mc s) = true /\ ~ scaledOut c l /\
   does (LastRolloutFinished component (s_mc s) c l) s s [] (ORet false)).
Proof.
  intros Hg. unfold LastRolloutFinished. fold (rolling (s_mc s)).
  destruct (rolling (s_mc s)) eqn:Hr; [|left; split; [done|apply does_ret]]. right. simpl negb. cbv iota.
  pose proof (finished_checks s c l Hg) as Hf.
  destruct (fst (logicAnd (rolloutFinishedChecks component (s_mc s) c l))) eqn:Ef; simpl negb; cbv iota.
  - left. split; [done|]. assert (scaledOut c l) as Hso by (by apply Hf). split; [done|].
    destruct (pods_does s c l l Hg (or_intror eq_refl)) as (pods & Hp & _ & Hlen & _).
    destruct Hso as [_ H0]. rewrite H0 in Hlen. destruct pods as [|p pods]; [|simpl in Hlen; lia].
    eexists _, _. eapply does_bind_quiet; [exact Hp|]. apply does_bind_fail, requeue_does, updateMilvus_does.
  - right. split; [done|]. split; [|apply does_ret]. intros Hso. apply Hf in Hso. discriminate.
Qed.

(** What the rolling part of a reconcile does: start a rollout to [d], end the
    rollout that is over, or nothing. *)
Inductive rollingCase (s : store) (c l : Deployment) : Prop :=
  | starts d t ws e :
      ~ updated c -> d = c \/ d = l -> slotless t = slotless target ->
      does (HandleRolling component (s_mc s)) s (startedStore s d t) ws (OFail e) -> rollingCase s c l
  | ends ws e :
      rolling (s_mc s) = true -> scaledOut c l ->
      does (HandleRolling component (s_mc s)) s (endedStore s) ws (OFail e) -> rollingCase s c l
  | goesOn :
      updated c \/ rolling (s_mc s) = true -> (rolling (s_mc s) = true -> ~ scaledOut c l) ->
      does (HandleRolling component (s_mc s)) s s [] (ORet tt) -> rollingCase s c l.

Lemma HandleRolling_does s c l : good s c l -> rollingCase s c l.
Proof.
  intros Hg. destruct (render_does s c l Hg) as (t & Hrt & Ht).
  assert (forall (k : Deployment * Deployment -> PodTemplateSpec -> prog unit) s' ws o,
    does (k (c, l) t) s s' ws o ->
    does (deploys ← wrap ("get [" +:+ Name component +:+ "] deploys") (GetDeploys component (s_mc s));
          let '(currentDeploy, lastDeploy) := deploys in
          podTemplate ← RenderPodTemplateWithoutGroupID component (s_mc s)
                          (Some (dsp_Template (dep_Spec currentDeploy))) false;
          k (currentDeploy, lastDeploy) podTemplate) s s' ws o) as Hpre.
  { intros k s' ws o Hd. eapply does_bind_quiet; [by apply does_wrap, GetDeploys_does|].
    by eapply does_bind_quiet. }
  set (rest := fun (ds : Deployment * Deployment) podTemplate =>
    if ShouldRollback component (fst ds) (snd ds) podTemplate
    then PrepareNewRollout component (s_mc s) (snd ds) podTemplate
    else
      lastRolloutFinished ← wrap "check last rollout"
        (LastRolloutFinished component (s_mc s) (fst ds) (snd ds));
      if negb lastRolloutFinished then Ret tt
      else if IsPodTemplateChanged component (fst ds) podTemplate then
        PrepareNewRollout component (s_mc s)
          (if 0 <? getDeployReplicas (fst ds) then snd ds else fst ds) podTemplate
      else Ret tt).
  assert (forall s' ws o, does (rest (c, l) t) s s' ws o -> does (HandleRolling component (s_mc s)) s s' ws o) as Hall
    by (intros s' ws o; apply (Hpre rest)).
  unfold rest in Hall. cbn [fst snd] in Hall. clear rest Hpre.
  unfold ShouldRollback, IsPodTemplateChanged in Hall. rewrite !(templateEqual_spec _ t Ht) in Hall.
  destruct (bool_decide (updated c)) eqn:Ec; [apply bool_decide_eq_true in Ec|apply bool_decide_eq_false in Ec].
  - destruct (LastRolloutFinished_does s c l Hg) as [[Hr Hd]|[(Hr & Hso & ws & e & Hd)|(Hr & Hso & Hd)]].
    + apply goesOn; [by left|by rewrite Hr|]. apply Hall. eapply does_bind_quiet; [by apply does_wrap|]. apply does_ret.
    + eapply ends; [done..|]. by apply Hall, does_bind_fail, does_wrap_fail.
    + apply goesOn; [by left|done|]. apply Hall. eapply does_bind_quiet; [by apply does_wrap|]. apply does_ret.
  - destruct (bool_decide (updated l)) eqn:El.
    { destruct (PrepareNewRollout_does s c l l t Hg (or_intror eq_refl)) as (ws & e & Hd).
      eapply starts; [done|by right|done|]. by apply Hall. }
    destruct (LastRolloutFinished_does s c l Hg) as [[Hr Hd]|[(Hr & Hso & ws & e & Hd)|(Hr & Hso & Hd)]].
    + set (d := if 0 <? getDeployReplicas c then l else c) in *.
      assert (d = c \/ d = l) as Hdd by (unfold d; case_if_bool; auto).
      destruct (PrepareNewRollout_does s c l d t Hg Hdd) as (ws & e & Hd').
      eapply starts; [done|exact Hdd|done|]. apply Hall.
      eapply does_bind_quiet; [by apply does_wrap|]. exact Hd'.
    + eapply ends; [done..|]. by apply Hall, does_bind_fail, does_wrap_fail.
    + apply goesOn; [by right|done|]. apply Hall. eapply does_bind_quiet; [by apply does_wrap|]. apply does_ret.
Qed.

(** *** Scaling *)

Lemma markDeployAsCurrent_does s c l : good s c l ->
  does (markDeployAsCurrent component (s_mc s) c) s s [] (ORet tt).
Proof.
  intros [[(Hc & _ & Hoc & _ & Hcc & _) _ _ Hsl] _ _ _ _]. unfold markDeployAsCurrent, GetDeploymentGroupId.
  rewrite (selector_component component _ _ Hoc). unfold isCurrent, componentDeployIsCurrentGroup in Hcc.
  apply bool_decide_eq_true in Hcc. unfold MarkMilvusComponentGroupId. rewrite <- Hcc.
  destruct (Hsl c Hc Hoc) as [Hs | Hs]; unfold slot in Hs; rewrite Hs; simpl Atoi; cbv iota;
    (eapply does_bind_quiet; [apply does_wrap, does_ret|]; apply does_wrap;
     rewrite bool_decide_eq_true_2 by reflexivity; apply does_ret).
Qed.

Lemma checkLast_does s c l : good s c l -> does (checkLastDeploymentStable l) s s [] (ORet tt).
Proof.
  intros Hg. destruct (pods_does s c l l Hg (or_intror eq_refl)) as (pods & Hp & Hst & _).
  unfold checkLastDeploymentStable. eapply does_bind_quiet; [by apply does_wrap|].
  destruct (DeploymentIsStable l pods) as [b r]. simpl in Hst. subst b. apply does_ret.
Qed.

Lemma checkStable_does s c l allow : good s c l -> does (checkDeploymentsStable c l allow) s s [] (ORet tt).
Proof.
  intros Hg. unfold checkDeploymentsStable. eapply does_bind_quiet; [by eapply checkLast_does|].
  destruct (pods_does s c l c Hg (or_introl eq_refl)) as (pods & Hp & Hst & Hlen & Hcount).
  eapply does_bind_quiet; [by apply does_wrap|]. cbv zeta.
  destruct (g_caught _ _ _ Hg) as [(_ & _ & _ & _ & Hav & _) _]. rewrite Hcount, Hlen, Hav, Z.ltb_irrefl, andb_false_r.
  destruct (DeploymentIsStable c pods) as [b r]. simpl in Hst. subst b. simpl. apply does_ret.
Qed.

Lemma checkCanScaleNow_does s c l : good s c l -> does (checkCanScaleNow component (s_mc s) c l) s s [] (ORet tt).
Proof.
  intros Hg. destruct (marked_plain _ (g_marked _ _ _ Hg)) as (_ & Hst & _). unfold checkCanScaleNow.
  case_if_bool; [apply does_ret|]. eapply does_bind_quiet; [by apply does_deref|].
  destruct (rolloutSteps strategy (expectedReplicas component (s_mc s))) as [su un]. case_if_bool.
  - case_if_bool; [|apply does_ret]. by eapply does_wrap, checkLast_does.
  - by apply does_wrap, checkStable_does.
Qed.

Lemma plan_target m cur last a c l :
  planNextScaleAction component m cur last = Some (a, c, l) -> sa_replicaChange a <> 0 -> is_Some (sa_deploy a).
Proof.
  unfold planNextScaleAction. destruct (GetDeploymentStrategy m component) as [st|]; [|done].
  cbn [mbind option_bind]. intros [= <- _ _].
  unfold checkScaleKind. repeat case_if_bool; try case_match;
    unfold planScaleForHPA, planScaleForExternalHPA, planScaleForRollout,
      planScaleForForceUpgrade, planScaleForNormalState;
    try (destruct (rolloutSteps _ _) as [su un]); repeat case_if_bool; simpl; intros; try done; by eexists.
Qed.

(** At the end of a rollout there is nothing to scale. *)
Lemma plan_done m cur last a c l :
  plainScaling component m -> getDeployReplicas cur = expectedReplicas component m -> getDeployReplicas last = 0 ->
  planNextScaleAction component m cur last = Some (a, c, l) -> sa_replicaChange a = 0.
Proof.
  intros Hp Hc Hl. unfold planNextScaleAction. destruct (GetDeploymentStrategy m component) as [st|]; [|done].
  cbn [mbind option_bind]. rewrite (checkScaleKind_plain component m last Hp) by lia. rewrite Hl. simpl.
  intros [= <- _ _]. unfold planScaleForNormalState. rewrite getDeployReplicas_setStrategy, Hc, Z.ltb_irrefl, Z.eqb_refl.
  done.
Qed.

(** A deployment of the pair after a scale: nothing but its strategy and its
    replicas. *)
Definition rescaled (d d' : Deployment) : Prop := identity d' = identity d /\ templateOf d' = templateOf d.

Lemma HandleScaling_does s c l : good s c l ->
  exists c' l' s' ws o,
    does (HandleScaling component (s_mc s)) s s' ws o /\ o <> OPanic /\
    pair s' c' l' /\ s_mc s' = s_mc s /\ rescaled c c' /\ rescaled l l' /\
    (getDeployReplicas c', getDeployReplicas l') =
      rolloutNext expected surge unavailable (compareDeployResourceLimitEqual c l)
        (getDeployReplicas c) (getDeployReplicas l) /\
    (getDeployReplicas c = expected -> getDeployReplicas l = 0 -> s' = s /\ ws = [] /\ o = ORet tt).
Proof.
  intros Hg. pose proof Hg as [Hp [Hcc Hcl] [Hvc Hvl] _ Hm].
  destruct (marked_plain _ Hm) as (Hplain & Hst & He).
  assert (settled c /\ settled l) as [Hsc Hsl]
    by (destruct Hcc as (_ & _ & _ & Hr & Ha & _), Hcl as (_ & _ & _ & Hr' & Ha' & _); repeat split; done).
  pose proof (plan_refines component (s_mc s) strategy Hst c l Hplain Hvc Hvl Hsc Hsl) as Href. rewrite He in Href.
  unfold planned in Href. destruct (planNextScaleAction component (s_mc s) c l) as [[[a c1] l1]|] eqn:Hplan; [|done].
  cbn [mbind option_bind] in Href.
  destruct (plan_deploys component _ _ _ _ _ _ Hplan) as (st & Hc1 & Hl1).
  assert (forall s' ws o, does (doScaleAction a c1 l1) s s' ws o -> does (HandleScaling component (s_mc s)) s s' ws o) as Hall.
  { intros s' ws o Hd. unfold HandleScaling. eapply does_bind_quiet; [by apply does_wrap, GetDeploys_does|].
    cbn [fst snd]. unfold ScaleDeployments. eapply does_bind_quiet; [by eapply markDeployAsCurrent_does|].
    eapply does_bind_quiet; [by eapply checkCanScaleNow_does|]. eapply does_bind_quiet; [by apply does_deref|]. exact Hd. }
  unfold doScaleAction in Hall. unfold applyScale in Href.
  destruct (sa_replicaChange a =? 0) eqn:Ez.
  { exists c, l, s, [], (ORet tt). split; [apply Hall, does_ret|]. split_and!; try done.
    injection Href as Href. rewrite <- Href. subst c1 l1. done. }
  apply Z.eqb_neq in Ez. destruct (plan_target _ _ _ _ _ _ Hplan Ez) as [target' Ht]. rewrite Ht in *.
  assert (getDeployReplicas c = expected -> getDeployReplicas l = 0 -> False) as Hnot.
  { intros H1 H2. apply Ez. eapply plan_done; [done| |done|exact Hplan]. by rewrite He. }
  set (d0 := match target' with CurrentDeployment => c | LastDeployment => l end).
  set (d := scaled (match target' with CurrentDeployment => c1 | LastDeployment => l1 end) (sa_replicaChange a)) in *.
  assert (d0 = c \/ d0 = l) as Hd0 by (unfold d0; destruct target'; auto).
  assert (rescaled d0 d) as Hre by (unfold d, d0; subst c1 l1; by destruct target').
  exists (if decide (dep_key c = dep_key d0) then d else c), (if decide (dep_key l = dep_key d0) then d else l),
    (apply_write (UpdateDeployment d) s), [UpdateDeployment d], (OFail (EWrap "update and requeue" ErrRequeue)).
  split.
  { apply Hall. eapply does_bind_quiet; [by apply does_deref|]. cbv zeta. fold d. apply requeue_does.
    apply (update_does s c l d d0 Hg Hd0). apply (identity_key _ _ (proj1 Hre)). }
  split; [done|]. split; [apply pair_update; [done..|apply Hre]|]. split; [done|].
  pose proof (pair_distinct component s c l Hp) as Hne.
  assert (rescaled c c /\ rescaled l l) as [Hrc Hrl] by done.
  destruct target'; unfold d0 in *; cbv beta iota zeta in Href; injection Href as Href;
    (repeat case_decide; try congruence); (split_and!; [done..| |by intros H1 H2; destruct (Hnot H1 H2)]);
    rewrite <- Href; unfold d; by subst c1 l1.
Qed.

(** *** The whole reconcile *)

Lemma HandleCreate_does s c l : good s c l -> does (HandleCreate component (s_mc s)) s s [] (ORet tt).
Proof.
  intros Hg. unfold HandleCreate. eapply does_bind_quiet; [by apply does_attempt, GetDeploys_does|].
  unfold reconcileDeploymentGroupMetadata. rewrite (ro_group Hready). apply does_ret.
Qed.

(** A reconcile comes down to the rolling and the scaling of the pair. *)
Lemma Reconcile_does s c l s' ws o : good s c l ->
  does (_ ← wrap "handle rolling" (HandleRolling component (s_mc s));
        wrap "handle scaling" (HandleScaling component (s_mc s))) s s' ws o ->
  does (Reconcile component one (s_mc s)) s s' ws o.
Proof.
  intros Hg Hd. destruct (marked_same _ (g_marked _ _ _ Hg)) as (Hs & Hst & _ & _ & Hch).
  destruct (ro_mode Hready) as [Hm1 Hm2]. unfold Reconcile, RollingModeStatus_Update.
  assert (mi_Com (s_mc s) = mi_Com mc0) as Hcom by (unfold mi_Com; by rewrite Hs).
  rewrite Hst, Hcom, Hm1, Hm2, Z.eqb_refl. eapply does_bind_quiet; [apply does_wrap, does_ret|].
  unfold CheckDeployMode. rewrite Hst, Hm1, Z.eqb_refl. eapply does_bind_quiet; [apply does_wrap, does_ret|].
  unfold MarkDeployModeChanging. rewrite Hch. eapply does_bind_quiet; [apply does_ret|].
  unfold reconcileTwoDeploy. eapply does_bind_quiet; [by eapply does_wrap, HandleCreate_does|].
  destruct (ro_spec Hready) as (spec & Hspec & Hunp).
  eapply does_bind_quiet with (a := false).
  { unfold IsPaused. rewrite Hcom, (ro_unpaused Hready), Hs. eapply does_bind_quiet; [by apply does_deref|].
    rewrite Hunp. apply does_ret. }
  cbv iota. rewrite Hcom, (ro_manual Hready).
  change (ReplicasValue (GetReplicas component (mi_Spec (s_mc s)))) with (expectedReplicas component (s_mc s)).
  destruct (marked_plain _ (g_marked _ _ _ Hg)) as (_ & _ & He). pose proof expected_pos.
  rewrite He, (proj2 (Z.eqb_neq expected 0)) by lia. exact Hd.
Qed.

(** ** Cycles *)

(** A reconcile, after which the deployments catch up. *)
Definition cycle (s s' : store) : Prop :=
  exists s1 ws o, does (Reconcile component one (s_mc s)) s s1 ws o /\ catch_up s1 s'.

(** The rollout is over, and a reconcile writes nothing. *)
Definition over (s : store) (c l : Deployment) : Prop :=
  rolling (s_mc s) = false /\ updated c /\ getDeployReplicas c = expected /\ getDeployReplicas l = 0.

Lemma over_quiet s c l : good s c l -> over s c l -> does (Reconcile component one (s_mc s)) s s [] (ORet tt).
Proof.
  intros Hg (Hr & Hu & Hc & Hl). apply (Reconcile_does s c l); [done|].
  destruct (HandleRolling_does s c l Hg) as [d t ws e Hn _ _ _|ws e Hr' _ _|_ _ Hroll]; [done|congruence|].
  destruct (HandleScaling_does s c l Hg) as (c' & l' & s' & ws & o & Hd & _ & _ & _ & _ & _ & _ & Hend).
  destruct (Hend Hc Hl) as (-> & -> & ->).
  eapply does_bind_quiet; [by apply does_wrap|]. by apply does_wrap.
Qed.

(** What a store has to keep over a catch-up. *)
Lemma caught_good s1 c1 l1 s' :
  pair s1 c1 l1 -> validReplicas c1 /\ validReplicas l1 -> templateOf c1 = start \/ (exists g, templateOf c1 = inSlot target g) ->
  marked (s_mc s1) -> catch_up s1 s' ->
  exists c' l', good s' c' l' /\ s_mc s' = s_mc s1 /\ dep_Spec c' = dep_Spec c1 /\ dep_Spec l' = dep_Spec l1.
Proof.
  intros Hp [Hvc Hvl] Hkc Hm [Hmc HF].
  destruct (pair_map component s1 s' c1 l1 catches Hp Hmc HF) as (c' & l' & (_ & _ & Hsc & Hcc) & (_ & _ & Hsl & Hcl) & Hp').
  { intros d d' (Hk & Hl & Hs & _). unfold identity. by rewrite Hk, Hl, Hs. }
  exists c', l'. split_and!; try done. split; try done.
  - unfold validReplicas. by rewrite (getDeployReplicas_spec _ _ Hsc), (getDeployReplicas_spec _ _ Hsl).
  - unfold templateOf in *. by rewrite Hsc.
  - by rewrite Hmc.
Qed.

(** How far a store is from the end of the rollout. *)
Definition distance (s : store) (c l : Deployment) : nat * nat :=
  ((if decide (updated c) then 0 else 1)%nat,
   ((if rolling (s_mc s) then 1 else 0) + Z.to_nat (rolloutMeasure expected (getDeployReplicas c) (getDeployReplicas l)))%nat).

Definition closer (a b : nat * nat) : Prop := (fst a < fst b)%nat \/ (fst a = fst b /\ (snd a < snd b)%nat).

Lemma updated_spec d d' : templateOf d' = templateOf d -> updated d' <-> updated d.
Proof. unfold updated. by intros ->. Qed.

(** The rolling mark is a label. *)
Lemma setRolling_keeps m r :
  mi_Name (SetComponentRolling m key r) = mi_Name m /\ mi_Namespace (SetComponentRolling m key r) = mi_Namespace m /\
  GetCurrentGroupId (SetComponentRolling m key r) key = GetCurrentGroupId m key.
Proof. unfold SetComponentRolling. destruct r; [case_bool_decide|]; done. Qed.

(** A rollout that was started: the new template is that of the current
    deployment. *)
Lemma started_closer s c l d t s' : good s c l -> ~ updated c -> d = c \/ d = l ->
  slotless t = slotless target -> catch_up (startedStore s d t) s' ->
  exists c' l', good s' c' l' /\ closer (distance s' c' l') (distance s c l).
Proof.
  intros Hg Hn Hd Ht Hcu. pose proof Hg as [Hp _ [Hvc Hvl] _ Hm].
  set (d1 := startedDeploy (s_mc s) d t). pose proof (startedDeploy_identity (s_mc s) d t) as Hid. fold d1 in Hid.
  destruct (startedDeploy_spec (s_mc s) d t) as [Hr1 Ht1]. fold d1 in Hr1, Ht1.
  set (b := if decide (dep_key c = dep_key d) then l else c).
  destruct (setRolling_keeps (SetCurrentGroupIDStr (s_mc s) key (slot component d)) true) as (Hn1 & Hns1 & Hg1).
  assert (pair (startedStore s d t) d1 b) as Hp1.
  { pose proof (pair_update component s c l d d1 Hp Hd Hid) as Hpu. pose proof (pair_distinct component s c l Hp) as Hne.
    eapply pair_milvus; [exact Hpu| |exact Hn1|exact Hns1|].
    - unfold b. destruct Hd as [-> | ->]; repeat case_decide; try congruence; [by left|by right].
    - unfold startedMilvus. rewrite Hg1, GetCurrentGroupId_set, decide_True by done.
      by rewrite (identity_slot component _ _ Hid). }
  destruct (caught_good (startedStore s d t) d1 b s') as (c' & l' & Hg' & _ & Hsc & _); try done.
  - unfold validReplicas, b. rewrite Hr1. destruct Hd as [-> | ->]; case_decide; done.
  - right. eexists. rewrite Ht1. by apply slotless_same.
  - apply (marked_set _ _ true Hm).
  - exists c', l'. split; [done|]. left. unfold distance. simpl. rewrite (decide_False (P:=updated c)) by done.
    rewrite decide_True; [lia|]. apply (updated_spec d1); [unfold templateOf; by rewrite Hsc|].
    unfold updated. by rewrite Ht1, slotless_inSlot.
Qed.

(** The rolling mark is removed. *)
Lemma ended_closer s c l s' : good s c l -> rolling (s_mc s) = true -> catch_up (endedStore s) s' ->
  exists c' l', good s' c' l' /\ closer (distance s' c' l') (distance s c l).
Proof.
  intros Hg Hr Hcu. pose proof Hg as [Hp _ Hv Hk Hm].
  destruct (setRolling_keeps (s_mc s) false) as (Hn1 & Hns1 & Hg1).
  assert (pair (endedStore s) c l) as Hp1.
  { eapply pair_milvus; [exact Hp|by left|exact Hn1|exact Hns1|]. rewrite Hg1.
    destruct Hp as [(_ & _ & _ & _ & Hcc & _) _ _ _]. unfold isCurrent, componentDeployIsCurrentGroup in Hcc.
    by apply bool_decide_eq_true in Hcc. }
  destruct (caught_good (endedStore s) c l s') as (c' & l' & Hg' & Hmc & Hsc & Hsl); try done.
  { apply (marked_set (s_mc s) "" false Hm). }
  exists c', l'. split; [done|]. right. unfold distance. rewrite Hmc, Hr. cbn [s_mc endedStore apply_write fst snd].
  rewrite rolling_cleared, (getDeployReplicas_spec _ _ Hsc), (getDeployReplicas_spec _ _ Hsl).
  rewrite (decide_ext (updated c') (updated c)) by (apply updated_spec; unfold templateOf; by rewrite Hsc).
  split; [done|lia].
Qed.

(** The deployments are scaled, or nothing is left to do. *)
Lemma scaled_closer s c l s1 c1 l1 s' : good s c l ->
  updated c \/ rolling (s_mc s) = true -> (rolling (s_mc s) = true -> ~ scaledOut c l) ->
  pair s1 c1 l1 -> s_mc s1 = s_mc s -> rescaled c c1 -> rescaled l l1 ->
  (getDeployReplicas c1, getDeployReplicas l1) =
    rolloutNext expected surge unavailable (compareDeployResourceLimitEqual c l)
      (getDeployReplicas c) (getDeployReplicas l) ->
  catch_up s1 s' ->
  exists c' l', good s' c' l' /\ (over s c l /\ over s' c' l' \/ closer (distance s' c' l') (distance s c l)).
Proof.
  intros Hg Hu Hnot Hp1 Hmc1 [_ Htc] [_ Htl] Hnext Hcu. pose proof Hg as [_ _ [[Hc0 Hc1] [Hl0 Hl1]] Hkc Hm].
  destruct (budgets component mc0 strategy (ro_plain Hready)) as (He0 & Hs0 & Hu1).
  destruct (ro_plain Hready) as (_ & _ & He). set (same := compareDeployResourceLimitEqual c l) in *.
  pose proof (rolloutNext_nonneg _ _ _ He0 Hs0 Hu1 same _ _ Hc0 Hl0) as Hn0.
  pose proof (rolloutNext_max _ _ _ He0 Hs0 Hu1 same _ _ Hc0 Hl0) as Hn1.
  pose proof (rolloutNext_progress _ _ _ He0 Hs0 Hu1 same _ _ Hc0 Hl0 (ro_budget Hready)) as Hpr.
  rewrite <- Hnext in Hn0, Hn1, Hpr. cbn [fst snd] in *.
  destruct (caught_good s1 c1 l1 s') as (c' & l' & Hg' & Hmc' & Hsc & Hsl); try done.
  { unfold validReplicas. lia. }
  { by rewrite Htc. }
  { by rewrite Hmc1. }
  exists c', l'. split; [done|].
  assert (templateOf c' = templateOf c) as Htc' by (unfold templateOf in *; by rewrite Hsc).
  unfold over, distance. rewrite Hmc', Hmc1, (getDeployReplicas_spec _ _ Hsc), (getDeployReplicas_spec _ _ Hsl).
  rewrite (decide_ext (updated c') (updated c)) by (by apply updated_spec).
  destruct Hpr as [(Hx & Hy & Hx' & Hy')|Hlt].
  - left. assert (rolling (s_mc s) = false) as Hr.
    { destruct (rolling (s_mc s)); [|done]. destruct (Hnot eq_refl). split; lia. }
    rewrite Hr in Hu. destruct Hu as [Hu|Hu]; [|done]. split_and!; try done. by apply (updated_spec c).
  - right. right. simpl. split; [done|]. lia.
Qed.

Lemma cycle_step s c l s' : good s c l -> cycle s s' ->
  exists c' l', good s' c' l' /\ (over s c l /\ over s' c' l' \/ closer (distance s' c' l') (distance s c l)).
Proof.
  intros Hg (s1 & ws & o & Hd & Hcu).
  destruct (HandleRolling_does s c l Hg) as [d t ws' e Hn Hdd Ht Hroll|ws' e Hr _ Hroll|Hu Hnot Hroll].
  - assert (s1 = startedStore s d t) as ->.
    { eapply does_fun; [exact Hd|]. apply (Reconcile_does s c l); [done|]. by eapply does_bind_fail, does_wrap_fail. }
    destruct (started_closer s c l d t s') as (c' & l' & Hg' & Hcl); try done. exists c', l'. auto.
  - assert (s1 = endedStore s) as ->.
    { eapply does_fun; [exact Hd|]. apply (Reconcile_does s c l); [done|]. by eapply does_bind_fail, does_wrap_fail. }
    destruct (ended_closer s c l s') as (c' & l' & Hg' & Hcl); try done. exists c', l'. auto.
  - destruct (HandleScaling_does s c l Hg) as (c1 & l1 & s2 & ws2 & o2 & Hs & Hnp & Hp & Hmc & Hrc & Hrl & Hnext & _).
    assert (s1 = s2) as ->.
    { destruct o2 as [[]|e|]; [| |done]; (eapply does_fun; [exact Hd|]; apply (Reconcile_does s c l); [done|];
        eapply does_bind_quiet; [by apply does_wrap|]); [by apply does_wrap|by apply does_wrap_fail]. }
    by eapply scaled_closer.
Qed.

Lemma over_distance s c l : over s c l -> distance s c l = (0, 0)%nat.
Proof.
  intros (Hr & Hu & Hc & Hl). unfold distance. rewrite decide_True, Hr, Hc, Hl by done.
  unfold rolloutMeasure. simpl. by rewrite Z.sub_diag.
Qed.

Lemma over_stays (f : nat -> store) : (forall i, cycle (f i) (f (S i))) ->
  forall i c l, good (f i) c l -> over (f i) c l ->
  forall m, (i <= m)%nat -> exists c' l', good (f m) c' l' /\ over (f m) c' l'.
Proof.
  intros Hcy i c l Hg Ho m Hm. induction Hm as [|m Hm IH]; [by exists c, l|].
  destruct IH as (c1 & l1 & Hg1 & Ho1).
  destruct (cycle_step _ _ _ _ Hg1 (Hcy m)) as (c' & l' & Hg' & [[_ Ho']|Hcl]); [by exists c', l'|].
  rewrite (over_distance _ _ _ Ho1) in Hcl. unfold closer in Hcl. simpl in Hcl. lia.
Qed.

(** The distance is well-founded: some cycle is the last one that matters. *)
Lemma reaches_over (f : nat -> store) : (forall i, cycle (f i) (f (S i))) ->
  forall a b i c l, good (f i) c l -> distance (f i) c l = (a, b) ->
  exists j c' l', good (f j) c' l' /\ over (f j) c' l'.
Proof.
  intros Hcy a. induction (lt_wf a) as [a _ IHa]. intros b. induction (lt_wf b) as [b _ IHb]. intros i c l Hg Hd.
  destruct (cycle_step _ _ _ _ Hg (Hcy i)) as (c' & l' & Hg' & [[Ho _]|Hcl]); [by exists i, c, l|].
  rewrite Hd in Hcl. destruct (distance (f (S i)) c' l') as [a' b'] eqn:Hd'.
  destruct Hcl as [Hlt|[Heq Hlt]]; simpl in *.
  - by eapply (IHa a' Hlt b').
  - subst a'. by eapply (IHb b' Hlt).
Qed.

End Live.

(** ** The renderer of the operator

    [Render] implements the interface: of the annotations of the resource only
    the checksum of Kafka's secret reaches a template, and of the labels none. *)

Section Renderer.
Context {SV : Semver} {KL : KubeLib} {DC : Decode} {DK : DecodeKafka} {JM : JsonMarshal} {OI : OperatorImage}.
Context (component : MilvusComponent) (env : list EnvVar).

Lemma checksum_annotations m A :
  mget A KafkaSaslCheckSumAnnotation = mget (mi_Annotations m) KafkaSaslCheckSumAnnotation ->
  GetConfCheckSumWithRefs (set_mi_Annotations m A) = GetConfCheckSumWithRefs m.
Proof.
  intros H. unfold GetConfCheckSumWithRefs, getConfCheckSum, checksumConf. cbv zeta.
  change (mi_Annotations (set_mi_Annotations m A)) with A. by rewrite H.
Qed.

Lemma render_annotations m A t labels force :
  mget A KafkaSaslCheckSumAnnotation = mget (mi_Annotations m) KafkaSaslCheckSumAnnotation ->
  renderPodTemplate (set_mi_Annotations m A) component env t labels force = renderPodTemplate m component env t labels force.
Proof.
  intros H%checksum_annotations. unfold renderPodTemplate, renderByResource.
  replace (updatePodMeta (set_mi_Annotations m A) component t labels) with (updatePodMeta m component t labels); [reflexivity|].
  unfold updatePodMeta, desiredPodTemplateAnnotations. by rewrite H.
Qed.

Lemma current_label_not_sasl k : GetComponentCurrentGroupIDLabel k <> KafkaSaslCheckSumAnnotation.
Proof.
  unfold GetComponentCurrentGroupIDLabel, KafkaSaslCheckSumAnnotation. intros H%app_cancel_l.
  apply (f_equal (fun s => last (String.list_ascii_of_string s))) in H. rewrite to_list_app in H.
  rewrite last_app in H. discriminate.
Qed.
Lemma marked_name mc0 m : marked component mc0 m -> mi_Name m = mi_Name mc0.
Proof.
  intros Hm. induction Hm as [|m g Hm IH|m r Hm IH]; [done..|].
  rewrite <- IH. unfold SetComponentRolling. destruct r; [case_bool_decide|]; done.
Qed.

(** The marks of a rollout do not show in what is rendered. *)
Lemma render_marked mc0 m t labels force : marked component mc0 m ->
  renderPodTemplate m component env t labels force = renderPodTemplate mc0 component env t labels force.
Proof.
  intros Hm. induction Hm as [|m g Hm IH|m r Hm IH]; [done| |].
  - rewrite <- IH. apply render_annotations. apply mget_insert_ne, current_label_not_sasl.
  - rewrite <- IH. unfold SetComponentRolling. destruct r; [case_bool_decide|]; reflexivity.
Qed.

(** A template that needs no update stays as it is. *)
Lemma render_fixed {DL : DeepEqualLaws} m t labels :
  renderByResource m component env t labels false = Some t -> renderPodTemplate m component env t labels false = Some t.
Proof.
  intros H. unfold renderPodTemplate. rewrite H. cbn [mbind option_bind]. by rewrite DeepEqual_spec, bool_decide_eq_true_2.
Qed.

(** So it is enough to render the resource without marks. *)
Lemma renderer_renders mc0 start target :
  (forall t, t = start \/ (exists g, t = inSlot component target g) ->
     exists t', renderPodTemplate mc0 component env t (GetSelectorLabels component (mi_Name mc0)) false = Some t' /\
       slotless component t' = slotless component target) ->
  rendersTo (PU := milvusTemplateUpdater env) component mc0 start target.
Proof.
  intros H m t Hm Ht. destruct (H t Ht) as (t' & Hr & Hs). exists t'. split; [|done]. cbn [updatePodTemplate milvusTemplateUpdater].
  rewrite (render_marked mc0 m) by done. by rewrite (marked_name mc0 m Hm).
Qed.
End Renderer.

(** ** A rollout from an old image to a new one *)

Section Witness.
#[local] Existing Instances concreteSemver concreteUnstructured concreteIntStr concreteKubeLib concreteDeepEqualLaws.
#[local] Existing Instances exDecode exDecodeKafka exOperatorImage.
#[local] Instance operatorRenderer : PodTemplateUpdater := milvusTemplateUpdater [].

Definition readyPod : Pod := mkPod emptyMeta PodRunning "" [mkPCond PodReadyType ConditionTrue "" ""] [].

(** A deployment has as many ready pods as it has replicas. *)
#[local] Instance steadyPods : Pods := {|
  podsOf s ns labels :=
    concat ((fun d => replicate (Z.to_nat (getDeployReplicas d)) readyPod) <$>
              filter (fun d => selectorOf d = (ns, labels)) (s_deploys s))
|}.

Lemma readyPods_run d n : n = Z.to_nat (getDeployReplicas d) -> validReplicas d -> podsRun d (replicate n readyPod).
Proof.
  intros Hn Hv. assert (forall x, x ∈ replicate n readyPod -> x = readyPod) as Hx by (intros x; apply elem_of_replicate_inv).
  unfold podsRun. cbv zeta. rewrite (filter_all (fun pod => pod_Reason pod <> "Evicted")) by (by intros x ->%Hx).
  split_and!.
  - rewrite length_replicate, Hn. unfold validReplicas in Hv. lia.
  - apply filter_none. intros x ->%Hx. by intros [? [=]].
  - clear. induction n as [|n IH]; [done|]. unfold GetNotReadyPods in *. cbn [replicate fmap list_fmap concat]. by rewrite IH.
  - apply filter_all. by intros x ->%Hx.
Qed.

Lemma filter_selector (ds : list Deployment) d : NoDup (selectorOf <$> ds) -> d ∈ ds ->
  filter (fun x => selectorOf x = selectorOf d) ds = [d].
Proof.
  intros Hnd Hd. induction ds as [|x ds IH]; [by apply elem_of_nil in Hd|].
  rewrite fmap_cons in Hnd. apply NoDup_cons in Hnd as [Hx Hnd].
  destruct (decide (selectorOf x = selectorOf d)) as [He|He].
  - rewrite filter_cons_True by done. rewrite He in Hx. rewrite filter_none.
    2: { intros y Hy Hs. destruct Hx. rewrite <- Hs. by apply list_elem_of_fmap_2. }
    apply elem_of_cons in Hd as [-> |Hd]; [done|]. destruct Hx. by apply list_elem_of_fmap_2.
  - rewrite filter_cons_False by done. apply IH; [done|]. by apply elem_of_cons in Hd as [-> |Hd].
Qed.

Lemma steadyPodsLaws : PodsLaws.
Proof.
  split. intros s d Hnd Hd _ Hv. simpl. change (om_Namespace (dep_Meta d), dsp_Selector (dep_Spec d)) with (selectorOf d).
  rewrite (filter_selector _ _ Hnd Hd). simpl. rewrite app_nil_r. by apply readyPods_run.
Qed.
#[local] Existing Instance steadyPodsLaws.

(** One cycle: a reconcile, and the deployments catch up at once. *)
Definition cycleOnce (s : store) : store :=
  let s1 := fst (fst (run live (Reconcile QueryNode noOne (s_mc s)) s)) in
  mkStore (s_mc s1) (settle <$> s_deploys s1).

Lemma settle_catches d : catches d (settle d).
Proof. unfold catches, caughtUp, settle. simpl. by split_and!. Qed.

Lemma cycleOnce_cycle s : cycle QueryNode noOne s (cycleOnce s).
Proof.
  unfold cycle, cycleOnce. destruct (run live (Reconcile QueryNode noOne (s_mc s)) s) as [[s1 tr] o] eqn:Hr.
  exists s1, (writes tr), o. split; [by exists tr|]. split; [done|]. simpl.
  apply Forall2_fmap_r, Forall_Forall2_diag, Forall_true, settle_catches.
Qed.

(** Every component takes the image of the spec at once. *)
Definition oldImage : store := exStore (exWithCom (with_ImageUpdateMode (exCom 2) ImageUpdateModeAll)).

Definition oldTemplate : PodTemplateSpec := templateOf (exDeployment "0" "milvus:old" 2).

Definition newTemplate : PodTemplateSpec :=
  default oldTemplate (renderPodTemplate (s_mc oldImage) QueryNode [] oldTemplate (GetSelectorLabels QueryNode "mi") false).

(** The rendered container has the image of the spec. *)
Example newTemplate_image : ct_Image <$> ps_Containers (pt_Spec newTemplate) = ["milvusdb/milvus:v2.5.4"].
Proof. vm_compute. reflexivity. Qed.

Definition oldStrategy : DeploymentStrategy :=
  default (mkStrategy RecreateDeploymentStrategyType None) (GetDeploymentStrategy (s_mc oldImage) QueryNode).

Lemma oldImage_ready : rolledOut QueryNode (s_mc oldImage) oldStrategy.
Proof.
  split; try reflexivity.
  - done.
  - by eexists.
  - unfold plainScaling. vm_compute. split_and!; [discriminate|done..].
  - left. vm_compute. reflexivity.
Qed.

Lemma newTemplate_rendered : rendersTo QueryNode (s_mc oldImage) oldTemplate newTemplate.
Proof.
  apply renderer_renders. intros t [-> |[g ->]].
  - exists newTemplate. split; [vm_compute; reflexivity|]. vm_compute. reflexivity.
  - exists (inSlot QueryNode newTemplate g). split; [|apply slotless_inSlot].
    apply (render_fixed QueryNode [] (DL := concreteDeepEqualLaws)). vm_compute. reflexivity.
Qed.

Lemma oldImage_good :
  good QueryNode (s_mc oldImage) oldTemplate newTemplate oldImage (exDeployment "0" "milvus:old" 2) (exDeployment "1" "dummy" 0).
Proof.
  split; [|by vm_compute|by vm_compute|by left|apply marked_start].
  split.
  - unfold picked. split_and!; [set_solver..|by apply (bool_decide_unpack _); vm_compute|by apply (bool_decide_unpack _); vm_compute|reflexivity|reflexivity|].
    intros d [-> |[-> |[]%elem_of_nil]%elem_of_cons]%elem_of_cons; auto.
  - apply exStore_keys.
  - apply (bool_decide_unpack _). vm_compute. exact I.
  - intros d [-> |[-> |[]%elem_of_nil]%elem_of_cons]%elem_of_cons _; vm_compute; auto.
Qed.


(** How it goes, cycle by cycle: the replicas of the two slots, the current slot
    and the rolling mark.  The template comes first, then the steps of the
    planner, then the mark is removed. *)
Example rollout_stages :
  (fun n => let s := Nat.iter n cycleOnce oldImage in
     (getDeployReplicas <$> s_deploys s, GetCurrentGroupId (s_mc s) "querynode", rolling QueryNode (s_mc s))) <$> seq 0 8
  = [([2; 0], "0", false); ([2; 0], "1", true); ([2; 1], "1", true); ([1; 1], "1", true);
     ([1; 2], "1", true); ([0; 2], "1", true); ([0; 2], "1", false); ([0; 2], "1", false)].
Proof. vm_compute. reflexivity. Qed.
End Witness.
