(* ===== verification/K8sClient.v ===== *)
(** * The manifest client

    pkg/util/k8s_client.go: creating and deleting the objects of a manifest
    through a dynamic client, the versions of the installed custom resource
    definitions, and waiting for the deployments of a namespace.

    Splitting YAML into documents, decoding an object and mapping its kind to a
    resource are library code: the class [ManifestLib].  The loop that waits
    polls until its context ends: [polls] is the number of ticks until then. *)
From S2P Require Import Prelude KubeTypes Libs ApiTypes Values Effects Acts.

Local Open Scope string_scope.
Local Open Scope list_scope.
Local Open Scope Z_scope.

Record GroupVersionKind := mkGVK { gvk_Group : string; gvk_Version : string; gvk_Kind : string }.
Record GroupVersionResource := mkGVR { gvr_Group : string; gvr_Version : string; gvr_Resource : string }.

(** [meta.RESTMapping]: the resource of a kind and whether it is namespaced. *)
Record RESTMapping := mkMapping { map_Resource : GroupVersionResource; map_Namespaced : bool }.

#[export] Instance GVR_eq_dec : EqDecision GroupVersionResource.
Proof. solve_decision. Defined.
#[export] Instance RESTMapping_eq_dec : EqDecision RESTMapping.
Proof. solve_decision. Defined.

Record CustomResourceDefinition := mkCRD { crd_Name : string; crd_Labels : gmap string string }.

(** [yamlDocuments text]: what [Decode] gives one after the other, and the error
    that ends it, [None] for [io.EOF]. *)
Class ManifestLib := {
  Raw : Type;
  APIGroupResources : Type;
  yamlDocuments : string -> list Raw * option string;
  decodeUnstructured : Raw -> string + (object * GroupVersionKind);
  toUnstructured : object -> string + object;
  restMapping : APIGroupResources -> GroupVersionKind -> string + RESTMapping
}.

Section Client.
Context {ML : ManifestLib} (polls : nat).

(** The calls of the clients; a call of the dynamic client is made in a
    namespace or in none. *)
Inductive kcall : Type -> Type :=
  | GetAPIGroupResources : kcall APIGroupResources
  | ListCRDsCall : kcall (list CustomResourceDefinition)
  | DynamicGet (gvr : GroupVersionResource) (namespace : option string) (name : string) : kcall unit
  | DynamicCreate (gvr : GroupVersionResource) (namespace : option string) (obj : object) : kcall unit
  | DynamicDelete (gvr : GroupVersionResource) (namespace : option string) (name : string) : kcall unit
  | ListDeploymentsOf (namespace : string) : kcall (list Deployment).

Notation k8s := (act kcall err).

Record applyableObj := mkApplyable { ao_unstructured : object; ao_mapping : RESTMapping }.

(** *** Custom resource definitions *)

Definition ListCRDs : k8s (list CustomResourceDefinition) := must ListCRDsCall.

Definition crdVersionLabel : string := "app.kubernetes.io/version".

Definition crdListToVersionMapByName (crdNameList : list string) (crds : list CustomResourceDefinition) :
    gmap string string :=
  foldl (fun ret crdName =>
           foldl (fun ret crd =>
                    if bool_decide (crd_Name crd = crdName)
                    then <[crdName := mget (crd_Labels crd) crdVersionLabel]> ret else ret) ret crds)
    ∅ crdNameList.

Definition GetCRDVersionsByNames (crdNames : list string) : k8s (gmap string string) :=
  crds ← onError (EWrap "failed to list crds") ListCRDs;
  mret (crdListToVersionMapByName crdNames crds).

Definition gvrText (g : GroupVersionResource) : string :=
  gvr_Group g +:+ "/" +:+ gvr_Version g +:+ ", Resource=" +:+ gvr_Resource g.

Definition Exist (gvr : GroupVersionResource) (namespace name : string) : k8s bool :=
  r ← ask (DynamicGet gvr (Some namespace) name);
  match r with
  | inl e =>
      if IsNotFound e then mret false
      else Raise (EWrap ("failed to get resource " +:+ gvrText gvr +:+ "/" +:+ name) e)
  | inr _ => mret true
  end.

(** *** Manifests *)

Definition nestedText (o : object) (outer key : string) : string :=
  match get_key o outer with
  | Some (JObj m) => match get_key m key with Some (JStr s) => s | _ => "" end
  | _ => ""
  end.
Definition GetKind (o : object) : string := match get_key o "kind" with Some (JStr s) => s | _ => "" end.
Definition GetName (o : object) : string := nestedText o "metadata" "name".
Definition GetNamespace (o : object) : string := nestedText o "metadata" "namespace".

(** The resource and the namespace that the calls for an object go to. *)
Definition getCliByObject (obj : applyableObj) : GroupVersionResource * option string :=
  if map_Namespaced (ao_mapping obj) then
    let ns := GetNamespace (ao_unstructured obj) in
    (map_Resource (ao_mapping obj), Some (if bool_decide (ns = "") then "default" else ns))
  else (map_Resource (ao_mapping obj), None).

Definition newline : string := String (Ascii.ascii_of_nat 10) "".

Definition dummyBytes : string :=
  "---" +:+ newline +:+ "apiVersion: v1" +:+ newline +:+ "kind: ConfigMap" +:+ newline +:+ "metadata:" +:+ newline +:+
  "  name: milvus-operator-dummy" +:+ newline.

Definition addDummyObject (input : string) : string := dummyBytes +:+ input.

Definition libRaise {A} (msg : string) (r : string + A) : k8s A :=
  match r with inl e => Raise (EWrap msg (ENew e)) | inr a => mret a end.

(** The loop over the documents; the first one is the dummy. *)
Fixpoint decodeAll (resources : APIGroupResources) (isDummy : bool) (docs : list Raw) (end_ : option string) :
    k8s (list applyableObj) :=
  match docs with
  | [] => match end_ with None => mret [] | Some e => Raise (EWrap "failed to decode yaml" (ENew e)) end
  | ext :: rest =>
      if isDummy then decodeAll resources false rest end_
      else
        '(obj, gvk) ← libRaise "failed to decode yaml" (decodeUnstructured ext);
        mapping ← libRaise "failed to get rest mapping" (restMapping resources gvk);
        unstructuredObj ← libRaise "failed to convert to unstructured" (toUnstructured obj);
        objs ← decodeAll resources false rest end_;
        mret (mkApplyable unstructuredObj mapping :: objs)
  end.

Definition getObjectsFromManifest (originalManifest : string) : k8s (list applyableObj) :=
  resources ← onError (EWrap "failed to get api group resources") (must GetAPIGroupResources);
  let '(docs, end_) := yamlDocuments (addDummyObject originalManifest) in
  decodeAll resources true docs end_.

(** A call for each object in turn; the first error ends the loop. *)
Fixpoint eachObject (request : applyableObj -> kcall unit) (wrapped : applyableObj -> err -> err)
    (objs : list applyableObj) : k8s unit :=
  match objs with
  | [] => mret tt
  | obj :: rest => onError (wrapped obj) (must (request obj)) ;; eachObject request wrapped rest
  end.

Definition createCall (obj : applyableObj) : kcall unit :=
  let '(gvr, ns) := getCliByObject obj in DynamicCreate gvr ns (ao_unstructured obj).

Definition Create (manifest : string) : k8s unit :=
  objs ← onError (EWrap "failed to get objects from manifest") (getObjectsFromManifest manifest);
  eachObject createCall
    (fun obj => EWrap ("failed to create resource " +:+ GetKind (ao_unstructured obj) +:+ "/" +:+
                       GetName (ao_unstructured obj))) objs.

Definition deleteCall (obj : applyableObj) : kcall unit :=
  let '(gvr, ns) := getCliByObject obj in DynamicDelete gvr ns (GetName (ao_unstructured obj)).

Definition Delete (manifest : string) : k8s unit :=
  objs ← onError (EWrap "failed to get objects from manifest") (getObjectsFromManifest manifest);
  eachObject deleteCall (fun _ => EWrap "failed to create resource") objs.

(** *** Waiting *)

(** [ctxErr] is the error of the context that ended. *)
Fixpoint waitDeployments (ctxErr : err) (n : nat) (namespace : string) : k8s unit :=
  match n with
  | O => Raise (EWrap "ctx canceled to wait deployments ready" ctxErr)
  | S n' =>
      deploys ← onError (EWrap "failed to list deployments") (must (ListDeploymentsOf namespace));
      match deploys with
      | [] => Raise (ENew ("no deployments found in namespace " +:+ namespace))
      | _ =>
          if forallb (fun d => negb (dss_ReadyReplicas (dep_Status d) <? 1)) deploys then mret tt
          else waitDeployments ctxErr n' namespace
      end
  end.

Definition WaitDeploymentsReadyByNamespace (ctxErr : err) (namespace : string) : k8s unit :=
  waitDeployments ctxErr polls namespace.
End Client.

(** ** Versions *)

Lemma crd_inner_lookup name crds : forall (ret : gmap string string) n,
  foldl (fun ret crd => if bool_decide (crd_Name crd = name)
                        then <[name := mget (crd_Labels crd) crdVersionLabel]> ret else ret) ret crds !! n =
  if bool_decide (n = name) then
    match last (filter (fun crd => crd_Name crd = name) crds) with
    | Some crd => Some (mget (crd_Labels crd) crdVersionLabel)
    | None => ret !! n
    end
  else ret !! n.
Proof.
  induction crds as [|crd crds IH]; intros ret n; cbn [foldl]; [by case_bool_decide|].
  rewrite IH. case_bool_decide as Hn; [subst n|].
  - rewrite filter_cons. case_bool_decide as Hc; [rewrite decide_True by done|by rewrite decide_False].
    rewrite last_cons. destruct (last (filter _ crds)) as [c|]; [done|]. by rewrite lookup_insert_eq.
  - case_bool_decide; [|done]. by rewrite lookup_insert_ne.
Qed.

Lemma crd_outer_lookup crds names : forall (ret : gmap string string) n,
  foldl (fun ret name =>
           foldl (fun ret crd => if bool_decide (crd_Name crd = name)
                                 then <[name := mget (crd_Labels crd) crdVersionLabel]> ret else ret) ret crds)
    ret names !! n =
  if bool_decide (n ∈ names) then
    match last (filter (fun crd => crd_Name crd = n) crds) with
    | Some crd => Some (mget (crd_Labels crd) crdVersionLabel)
    | None => ret !! n
    end
  else ret !! n.
Proof.
  induction names as [|name names IH]; intros ret n; cbn [foldl].
  { by rewrite bool_decide_eq_false_2 by apply not_elem_of_nil. }
  rewrite IH, crd_inner_lookup. destruct (decide (n = name)) as [->|Hne].
  - rewrite (bool_decide_eq_true_2 (name = name)), (bool_decide_eq_true_2 (name ∈ name :: names)) by set_solver.
    by destruct (last _), (bool_decide (name ∈ names)).
  - rewrite (bool_decide_eq_false_2 (n = name)) by done.
    by rewrite (bool_decide_ext (n ∈ name :: names) (n ∈ names)) by set_solver.
Qed.

(** The version map has just the names asked for that are installed, each with
    the version label of the definition of that name. *)
Theorem crd_versions_exact names crds n :
  crdListToVersionMapByName names crds !! n =
    if bool_decide (n ∈ names) then
      (fun crd => mget (crd_Labels crd) crdVersionLabel) <$> last (filter (fun crd => crd_Name crd = n) crds)
    else None.
Proof.
  unfold crdListToVersionMapByName. rewrite crd_outer_lookup, lookup_empty. case_bool_decide; [|done].
  by destruct (last _).
Qed.

(** ** Manifests *)

Section Manifests.
Context {ML : ManifestLib} {S : Type} (h : answers_of kcall err S).

(** Every object of a manifest that is applied without error has its call, in
    the order of the manifest; an error ends the loop at the object whose call
    failed. *)
Lemma forEach_calls request wrapped objs : forall s,
  match act_run h (eachObject request wrapped objs) s with
  | (Returned _, _) => act_calls h (eachObject request wrapped objs) s = (fun o => Made (request o) true) <$> objs
  | (Raised e, _) =>
      exists before obj rest cause, objs = before ++ obj :: rest /\ e = wrapped obj cause /\
        act_calls h (eachObject request wrapped objs) s =
          ((fun o => Made (request o) true) <$> before) ++ [Made (request obj) false]
  | (Crashed, _) => False
  end.
Proof.
  induction objs as [|obj rest IH]; intros s; [done|]. cbn [eachObject]. rewrite act_run_bind. simpl.
  destruct (h unit (request obj) s) as [[e|[]] s1]; simpl; [by exists [], obj, rest, e|].
  specialize (IH s1). destruct (act_run h (eachObject request wrapped rest) s1) as [[[]|e|] s2].
  - by rewrite IH.
  - destruct IH as (before & o & tail & cause & -> & -> & Hc). exists (obj :: before), o, tail, cause.
    split_and!; [done..|]. by rewrite Hc.
  - done.
Qed.

Lemma onError_run {A} f (p : act kcall err A) : forall s,
  act_run h (onError f p) s =
    match act_run h p s with
    | (Returned a, s') => (Returned a, s')
    | (Raised e, s') => (Raised (f e), s')
    | (Crashed, s') => (Crashed, s')
    end.
Proof.
  induction p as [a|x| |B q k IH]; intros s; [done..|]. simpl. destruct (h B q s) as [r s']. apply IH.
Qed.

(** A manifest that is one document, without a separator before it, is taken for
    the dummy that is put in front: nothing is created, and that is no error. *)
Theorem bare_manifest_dropped manifest r s s' :
  fst (yamlDocuments (addDummyObject manifest)) = [r] -> snd (yamlDocuments (addDummyObject manifest)) = None ->
  fst (act_run h (must GetAPIGroupResources) s) = Returned s' ->
  fst (act_run h (Create manifest) s) = Returned tt /\
  length (act_calls h (Create manifest) s) = 1%nat.
Proof.
  unfold Create, getObjectsFromManifest. destruct (yamlDocuments _) as [docs end_]. simpl. intros -> ->.
  destruct (h _ GetAPIGroupResources s) as [[e|b] s1]; simpl; [done|]. by split.
Qed.

(** Waiting on deployments that do not change ends at the first tick or with the
    context. *)
Lemma wait_static ctxErr namespace ds s n :
  h _ (ListDeploymentsOf namespace) s = (inr ds, s) -> ds <> [] ->
  act_run h (waitDeployments ctxErr n namespace) s =
    (match n with
     | O => Raised (EWrap "ctx canceled to wait deployments ready" ctxErr)
     | _ => if forallb (fun d => negb (dss_ReadyReplicas (dep_Status d) <? 1)) ds then Returned tt
            else Raised (EWrap "ctx canceled to wait deployments ready" ctxErr)
     end, s).
Proof.
  intros Hl Hne. induction n as [|n IH]; [done|]. cbn [waitDeployments].
  rewrite act_run_bind, onError_run, act_run_must, Hl. destruct ds as [|d ds]; [done|].
  destruct (forallb _ (d :: ds)); [done|]. rewrite IH. by destruct n.
Qed.
End Manifests.

(** A splitter of YAML: documents end before a line that starts with "---". *)
Fixpoint splitDocuments (lines : list string) (cur : list string) : list (list string) :=
  match lines with
  | [] => if decide (cur = []) then [] else [rev cur]
  | l :: rest =>
      if String.prefix "---" l then (if decide (cur = []) then [] else [rev cur]) ++ splitDocuments rest []
      else splitDocuments rest (l :: cur)
  end.

Fixpoint linesOf (s cur : string) : list string :=
  match s with
  | EmptyString => if decide (cur = "") then [] else [cur]
  | String c s' =>
      if decide (c = Ascii.ascii_of_nat 10) then cur :: linesOf s' "" else linesOf s' (cur +:+ String c "")
  end.

(** Objects by their name line, all of them namespaced config maps. *)
Definition exManifestLib : ManifestLib := {|
  Raw := list string;
  APIGroupResources := unit;
  yamlDocuments text := (splitDocuments (linesOf text "") [], None);
  decodeUnstructured doc :=
    inr ([("kind", JStr "ConfigMap"); ("metadata", JObj [("name", JStr (default "" (last doc)))])],
         mkGVK "" "v1" "ConfigMap");
  toUnstructured := inr;
  restMapping _ _ := inr (mkMapping (mkGVR "" "v1" "configmaps") true)
|}.

Definition exDynamic : answers_of (@kcall exManifestLib) err unit :=
  fun B q s =>
    match q in @kcall _ B' return (err + B') * unit with
    | GetAPIGroupResources => (inr tt, s)
    | DynamicCreate _ _ _ => (inr tt, s)
    | _ => (inl (EKube KNotFound), s)
    end.

Definition exBare : string := "kind: ConfigMap" +:+ newline +:+ "  name: foo" +:+ newline.

Lemma bare_manifest_dropped_witness :
  fst (act_run exDynamic (Create exBare) tt) = Returned tt /\ length (act_calls exDynamic (Create exBare) tt) = 1%nat.
Proof. eapply (bare_manifest_dropped exDynamic exBare); vm_compute; reflexivity. Defined.

(** With the separator in front the object is created. *)
Lemma separated_manifest_created :
  act_calls exDynamic (Create ("---" +:+ newline +:+ exBare)) tt =
    [Made GetAPIGroupResources true;
     Made (DynamicCreate (mkGVR "" "v1" "configmaps") (Some "default")
             [("kind", JStr "ConfigMap"); ("metadata", JObj [("name", JStr "  name: foo")])]) true].
Proof. vm_compute. reflexivity. Qed.

(** ** Commands in pods

    src/pkg/util/rest/rest_client.go: the client with which a command is run in a
    container. *)

Record execOptions := mkExec {
  ex_Namespace : string;
  ex_Pod : string;
  ex_Container : string;
  ex_Command : list string;
  ex_Stdin : bool;
  ex_Stdout : bool;
  ex_Stderr : bool
}.

Inductive rcall : Type -> Type :=
  | AddCoreToScheme : rcall unit
  | RESTClientFor (apiPath : string) : rcall unit
  | NewSPDYExecutor (method : string) (o : execOptions) : rcall unit
  | StreamWithContext (o : execOptions) : rcall (string * string).

Definition newRestClientImpl : act rcall err unit :=
  onError (EWrap "failed to add corev1 to scheme") (must AddCoreToScheme) ;;
  onError (EWrap "failed to create rest client") (must (RESTClientFor "api")).

(** What was written before a failure is dropped. *)
Definition Exec (namespace pod container : string) (cmd : list string) : act rcall err (string * string) :=
  let o := mkExec namespace pod container cmd false true true in
  onError (EWrap "failed to create executor") (must (NewSPDYExecutor "POST" o)) ;;
  onError (EWrap "failed to exec command") (must (StreamWithContext o)).
