(* ===== verification/IamVerify.v ===== *)
(** * The check of cloud credentials

    pkg/external/iam, pkg/util/yamlparser/file.go and tool/iam-verify/main.go:
    the init container that waits until the bucket of an instance can be reached
    with the credentials of its cloud provider.

    The SDKs of the providers, the file system and the environment are calls
    ([icall]).  The tool retries until it succeeds: [attempts] bounds the tries
    that a run of it looks at, and [None] is a run that goes on. *)
From S2P Require Import Prelude KubeTypes Libs ApiTypes Utils Effects Acts.

Local Open Scope string_scope.
Local Open Scope list_scope.
Local Open Scope Z_scope.

(** ** What the tool is told *)

(** The part [minio] of user.yaml. *)
Record UserYaml := mkUserYaml {
  uy_Address : string;
  uy_Port : Z;
  uy_UseSSL : bool;
  uy_UseIAM : bool;
  uy_CloudProvider : string;
  uy_AccessKeyID : string;
  uy_BucketName : string;
  uy_Region : string
}.

Definition UserYamlPath : string := "/milvus/configs/operator/user.yaml".

(** The keys of a provider; Alibaba's SDK has pointers. *)
Record AliyunCredential := mkAliyun {
  al_AccessKeyId : option string;
  al_AccessKeySecret : option string;
  al_SecurityToken : option string
}.

Record CredValue := mkCred { cv_AccessKeyID : string; cv_SecretAccessKey : string; cv_SessionToken : string }.

(** Whose credentials a MinIO client or an Azure client uses. *)
Inductive credSource := IAMRole (endpoint : string) | AliyunProvider | TencentProvider.
Inductive azureCred := WorkloadIdentity | ClientSecret (tenantID clientID secret : string).

Record minioOptions := mkMinioOptions {
  mo_Creds : credSource;
  mo_Secure : bool;
  mo_Region : string;
  mo_BucketLookupDNS : bool
}.

Inductive icall : Type -> Type :=
  | OpenFile (path : string) : icall unit
  | ReadAll (path : string) : icall string
  | Getenv (key : string) : icall string
  | AliyunNewCredential : icall unit
  | AliyunGetCredential : icall AliyunCredential
  | TencentDefaultProvider : icall unit
  | TencentGetCredential : icall unit
  | TencentSecretId : icall string
  | TencentSecretKey : icall string
  | TencentToken : icall string
  | MinioNewClient (address : string) (opts : minioOptions) : icall unit
  | BucketExists (address : string) (opts : minioOptions) (bucket : string) : icall bool
  | AzureWorkloadIdentity : icall unit
  | AzureClientSecret (tenantID clientID secret : string) : icall unit
  | AzureNewClient (url : string) (cred : azureCred) : icall unit
  | AzureGetProperties (url : string) (cred : azureCred) (container : string) : icall unit
  | GcpNewClient : icall unit
  | GcpBucketAttrs (bucket : string) : icall unit
  | GcpClose : icall unit
  | SleepSeconds (n : Z) : icall unit.

Notation iam := (act icall err).

(** ** Credential providers *)

(** [CredentialProvider]: the key id that was last handed out. *)
Record CredentialProvider := mkProvider { akCache : string }.

Definition NewCredentialProvider : iam CredentialProvider :=
  onError (EWrap "failed to create aliyun credential") (must AliyunNewCredential) ;;
  mret (mkProvider "").

(** [Retrieve] and the provider after it; the cache is set before the secret
    and the token are dereferenced. *)
Definition aliyun_Retrieve (c : CredentialProvider) : iam (CredValue * CredentialProvider) :=
  cred ← onError (EWrap "failed to get aliyun credential") (must AliyunGetCredential);
  ak ← derefA (al_AccessKeyId cred);
  sk ← derefA (al_AccessKeySecret cred);
  token ← derefA (al_SecurityToken cred);
  mret (mkCred ak sk token, mkProvider ak).

Definition aliyun_IsExpired (c : CredentialProvider) : iam bool :=
  r ← ask AliyunGetCredential;
  match r with
  | inl _ => mret true
  | inr cred => ak ← derefA (al_AccessKeyId cred); mret (negb (bool_decide (ak = akCache c)))
  end.

Definition aliyun_RetrieveWithCredContext (c : CredentialProvider) : iam (CredValue * CredentialProvider) :=
  aliyun_Retrieve c.

Definition NewTencentCredentialProvider : iam CredentialProvider :=
  onError (EWrap "failed to create tencent credential provider") (must TencentDefaultProvider) ;;
  onError (EWrap "failed to get tencent credential") (must TencentGetCredential) ;;
  mret (mkProvider "").

(** The getters of Tencent's credential return no error: a call that fails
    gives the empty string. *)
Definition getter (q : icall string) : iam string :=
  r ← ask q; mret (match r with inl _ => "" | inr s => s end).

Definition tencent_Retrieve (c : CredentialProvider) : iam (CredValue * CredentialProvider) :=
  ak ← getter TencentSecretId;
  sk ← getter TencentSecretKey;
  securityToken ← getter TencentToken;
  mret (mkCred ak sk securityToken, mkProvider ak).

Definition tencent_IsExpired (c : CredentialProvider) : iam bool :=
  ak ← getter TencentSecretId;
  mret (negb (bool_decide (ak = akCache c))).

Definition tencent_RetrieveWithCredContext (c : CredentialProvider) : iam (CredValue * CredentialProvider) :=
  tencent_Retrieve c.

(** ** Verification *)

(** A MinIO client is made and asked for the bucket; whether there is one is
    not looked at. *)
Definition accessBucket (address : string) (opts : minioOptions) (bucketName failed : string) : iam unit :=
  onError (EWrap "init minio client failed") (must (MinioNewClient address opts)) ;;
  onError (EWrap failed) (must (BucketExists address opts bucketName)) ;;
  mret tt.

Definition VerifyAWS (bucketName region address : string) (secure : bool) : iam unit :=
  accessBucket address (mkMinioOptions (IAMRole "") secure region false) bucketName
    ("access aws bucket[" +:+ bucketName +:+ "] failed").

Definition VerifyAliyun (bucketName region address : string) (secure : bool) : iam unit :=
  onError (EWrap "failed to create credential provider") NewCredentialProvider ;;
  accessBucket address (mkMinioOptions AliyunProvider secure region true) bucketName
    ("access aliyun bucket[" +:+ bucketName +:+ "] failed").

Definition VerifyTencent (bucketName region address : string) (secure : bool) : iam unit :=
  onError (EWrap "failed to create credential provider") NewTencentCredentialProvider ;;
  accessBucket address (mkMinioOptions TencentProvider secure region true) bucketName
    ("access aliyun bucket[" +:+ bucketName +:+ "] failed").

Definition getenv (key : string) : iam string := getter (Getenv key).

Definition newAzureVerificationCredential : iam azureCred :=
  tokenFile ← getenv "AZURE_FEDERATED_TOKEN_FILE";
  if negb (bool_decide (tokenFile = "")) then must AzureWorkloadIdentity ;; mret WorkloadIdentity
  else
    secret ← getenv "AZURE_CLIENT_SECRET";
    if negb (bool_decide (secret = "")) then
      tenantID ← getenv "AZURE_TENANT_ID";
      clientID ← getenv "AZURE_CLIENT_ID";
      if bool_decide (tenantID = "") || bool_decide (clientID = "") then
        Raise (ENew "SPN authentication requires AZURE_TENANT_ID, AZURE_CLIENT_ID and AZURE_CLIENT_SECRET")
      else must (AzureClientSecret tenantID clientID secret) ;; mret (ClientSecret tenantID clientID secret)
    else must AzureWorkloadIdentity ;; mret WorkloadIdentity.

Definition VerifyAzure (storageAccount containerName : string) : iam unit :=
  cred ← onError (EWrap "init azure workload identity credential failed") newAzureVerificationCredential;
  let url := "https://" +:+ storageAccount +:+ ".blob.core.windows.net/" in
  onError (EWrap "init azure storage client failed") (must (AzureNewClient url cred)) ;;
  onError (EWrap ("access azure container[" +:+ containerName +:+ "] properties failed"))
    (must (AzureGetProperties url cred containerName)).

(** The client is closed, deferred, once it was made. *)
Definition VerifyGCP (bucketName : string) : iam unit :=
  onError (EWrap "init gcp storage client failed") (must GcpNewClient) ;;
  r ← ask (GcpBucketAttrs bucketName);
  _ ← ask GcpClose;
  onError (EWrap ("access gcp bucket[" +:+ bucketName +:+ "] attrs failed")) (orRaise r).

(** ** The tool *)

Section Tool.
(** [yaml.Unmarshal] of the file into a [UserYaml]. *)
Context (unmarshalUserYaml : string -> string + UserYaml) (attempts : nat).

Definition ParseObjectFromFile (path : string) : iam UserYaml :=
  onError (EWrap ("open file[" +:+ path +:+ "] failed")) (must (OpenFile path)) ;;
  fileData ← onError (EWrap ("read file[" +:+ path +:+ "] failed")) (must (ReadAll path));
  match unmarshalUserYaml fileData with
  | inl e => Raise (EWrap ("unmarshal file[" +:+ path +:+ "] as type[*yamlparser.UserYaml] failed") (ENew e))
  | inr y => mret y
  end.

Definition ParseUserYaml : iam UserYaml := ParseObjectFromFile UserYamlPath.

(** The function that verifies for a provider; [None]: there is none. *)
Definition verifyFunc (y : UserYaml) : option (iam unit) :=
  let address := uy_Address y +:+ ":" +:+ Itoa (uy_Port y) in
  if bool_decide (uy_CloudProvider y = "gcp") then Some (VerifyGCP (uy_BucketName y))
  else if bool_decide (uy_CloudProvider y = "azure") then Some (VerifyAzure (uy_AccessKeyID y) (uy_BucketName y))
  else if bool_decide (uy_CloudProvider y = "aws") then
    Some (VerifyAWS (uy_BucketName y) (uy_Region y) address (uy_UseSSL y))
  else if bool_decide (uy_CloudProvider y = "aliyun") then
    Some (VerifyAliyun (uy_BucketName y) (uy_Region y) address (uy_UseSSL y))
  else if bool_decide (uy_CloudProvider y = "tencent") then
    Some (VerifyTencent (uy_BucketName y) (uy_Region y) address (uy_UseSSL y))
  else None.

(** The error of a program as a value. *)
Fixpoint caught {A} (p : iam A) : iam (err + A) :=
  match p with
  | Done a => Done (inr a)
  | Raise e => Done (inl e)
  | Crash => Crash
  | Do q k => Do q (fun r => caught (k r))
  end.

(** The loop: exit with 0 after a verification without error. *)
Fixpoint verifyLoop (verify : iam unit) (n : nat) : iam (option Z) :=
  match n with
  | O => mret None
  | S n' =>
      r ← caught verify;
      match r with
      | inr _ => mret (Some 0)
      | inl _ => _ ← ask (SleepSeconds 5); verifyLoop verify n'
      end
  end.

(** The exit code of the tool; [log.Fatalf] exits with 1. *)
Definition main : iam (option Z) :=
  r ← caught ParseUserYaml;
  match r with
  | inl _ => mret (Some 1)
  | inr y =>
      if negb (uy_UseIAM y) then mret (Some 0)
      else
        match verifyFunc y with
        | None => mret (Some 0)
        | Some verify => verifyLoop verify attempts
        end
  end.
End Tool.

(** ** What an exit says *)

Section Runs.
Context {S : Type} (h : answers_of icall err S).

Lemma caught_run {A} (p : iam A) : forall s,
  act_run h (caught p) s =
    match act_run h p s with
    | (Returned a, s') => (Returned (inr a), s')
    | (Raised e, s') => (Returned (inl e), s')
    | (Crashed, s') => (Crashed, s')
    end.
Proof. induction p as [a|x| |B q k IH]; intros s; [done..|]. simpl. destruct (h B q s). apply IH. Qed.

(** A verification that succeeded in some state of the world. *)
Definition verified (verify : iam unit) : Prop := exists s s', act_run h verify s = (Returned tt, s').

Definition total {A} (p : iam A) : Prop := ends p (fun _ => True).

Lemma total_onError {A} f (p : iam A) : total p -> total (onError f p).
Proof. unfold total. induction p as [a|x| |B q k IH]; simpl; auto. Qed.
Lemma total_must {B} (q : icall B) : total (must q).
Proof. by intros [e|b]. Qed.
Lemma iam_total_bind {A B} (p : iam A) (f : A -> iam B) : total p -> (forall a, total (f a)) -> total (p ≫= f).
Proof.
  unfold total. induction p as [a|x| |C q k IH]; intros Hp Hf; [by apply Hf|done|done|].
  intros r. by apply IH.
Qed.
Lemma total_getter q : total (getter q).
Proof. by intros r. Qed.
Lemma total_ask {B} (q : icall B) : total (ask q).
Proof. by intros r. Qed.
Lemma total_ret {A} (a : A) : total (mret a).
Proof. done. Qed.
#[local] Hint Resolve total_ret total_onError total_must iam_total_bind total_getter total_ask : iam.

Lemma accessBucket_total address opts bucket failed : total (accessBucket address opts bucket failed).
Proof. unfold accessBucket. auto with iam. Qed.
#[local] Hint Resolve accessBucket_total : iam.

(** No verification panics. *)
Lemma verifyFunc_total y verify : verifyFunc y = Some verify -> total verify.
Proof.
  unfold verifyFunc. intros Hv. repeat case_bool_decide; simplify_eq.
  - unfold VerifyGCP. apply iam_total_bind; [auto with iam|intros _]. apply iam_total_bind; [auto with iam|intros r].
    apply iam_total_bind; [auto with iam|intros _]. apply total_onError. by destruct r.
  - unfold VerifyAzure, newAzureVerificationCredential, getenv.
    apply iam_total_bind; [|auto with iam]. apply total_onError. apply iam_total_bind; [auto with iam|intros tokenFile].
    destruct (negb _); [auto with iam|]. apply iam_total_bind; [auto with iam|intros secret].
    destruct (negb _); [|auto with iam]. apply iam_total_bind; [auto with iam|intros tenant].
    apply iam_total_bind; [auto with iam|intros client]. destruct (_ || _); [done|auto with iam].
  - apply accessBucket_total.
  - unfold VerifyAliyun, NewCredentialProvider. auto with iam.
  - unfold VerifyTencent, NewTencentCredentialProvider. auto 10 with iam.
Qed.

Lemma verifyLoop_run verify : total verify -> forall n s,
  match fst (act_run h (verifyLoop verify n) s) with
  | Returned (Some c) => c = 0 /\ verified verify
  | Returned None => True
  | Raised _ | Crashed => False
  end.
Proof.
  intros Ht n. induction n as [|n IH]; intros s; [done|]. cbn [verifyLoop]. rewrite act_run_bind, caught_run.
  pose proof (ends_run h verify _ s Ht) as Hr.
  destruct (act_run h verify s) as [[[]|e|] s'] eqn:Er; [|clear Hr|done].
  - simpl. split; [done|]. by exists s, s'.
  - rewrite act_run_bind, act_run_ask. destruct (h unit (SleepSeconds 5) s') as [r s'']. apply IH.
Qed.

(** The tool lets the pod start (exit code 0) only if IAM is off, the provider
    is one it does not know, or a verification succeeded; it fails only if its
    configuration cannot be read; otherwise it goes on trying. *)
Theorem iam_exit_sound unmarshal attempts s :
  match fst (act_run h (main unmarshal attempts) s) with
  | Returned (Some c) =>
      (c = 1 /\ exists e s', act_run h (ParseUserYaml unmarshal) s = (Raised e, s')) \/
      (c = 0 /\ exists y s', act_run h (ParseUserYaml unmarshal) s = (Returned y, s') /\
         (uy_UseIAM y = false \/ verifyFunc y = None \/
          exists verify, verifyFunc y = Some verify /\ verified verify))
  | Returned None => exists y verify, verifyFunc y = Some verify
  | Raised _ | Crashed => False
  end.
Proof.
  assert (total (ParseUserYaml unmarshal)) as Ht.
  { unfold ParseUserYaml, ParseObjectFromFile. apply iam_total_bind; [auto with iam|intros _].
    apply iam_total_bind; [auto with iam|intros d]. by destruct (unmarshal d). }
  unfold main. rewrite act_run_bind, caught_run. pose proof (ends_run h _ _ s Ht) as Hp.
  destruct (act_run h (ParseUserYaml unmarshal) s) as [[y|e|] s1]; [|by left; eauto|done].
  destruct (uy_UseIAM y) eqn:Ei; simpl negb; cbv iota.
  - destruct (verifyFunc y) as [verify|] eqn:Ev.
    + pose proof (verifyLoop_run verify (verifyFunc_total y verify Ev) attempts s1) as Hl.
      destruct (fst (act_run h (verifyLoop verify attempts) s1)) as [[c|]|e|]; [|by eauto|done..].
      destruct Hl as [-> Hv]. right. split; [done|]. exists y, s1. split; [done|]. eauto.
    + right. split; [done|]. exists y, s1. auto.
  - right. split; [done|]. exists y, s1. auto.
Qed.

(** *** The cache of the provider *)

(** A provider of Alibaba's keys that handed keys out is expired exactly when
    the SDK hands out another key id, or none. *)
Lemma aliyun_expiry c c' v s s' s0 cred :
  act_run h (aliyun_Retrieve c) s = (Returned (v, c'), s') ->
  fst (h _ AliyunGetCredential s0) = cred ->
  match cred with
  | inl _ => fst (act_run h (aliyun_IsExpired c') s0) = Returned true
  | inr k =>
      forall ak, al_AccessKeyId k = Some ak ->
      fst (act_run h (aliyun_IsExpired c') s0) = Returned (negb (bool_decide (ak = cv_AccessKeyID v)))
  end.
Proof.
  unfold aliyun_Retrieve, aliyun_IsExpired. intros Hr <-. simpl in *.
  destruct (h _ AliyunGetCredential s) as [[e|k] s1]; simpl in *; [done|].
  destruct (al_AccessKeyId k) as [ak|]; [|done]. destruct (al_AccessKeySecret k) as [sk|]; [|done].
  destruct (al_SecurityToken k) as [tk|]; [|done]. simpl in Hr. injection Hr as <- <- <-.
  destruct (h _ AliyunGetCredential s0) as [[e|k'] s2]; simpl; [done|]. intros ak' ->. done.
Qed.

(** Keys without a security token (a plain access key has none) panic. *)
Lemma aliyun_plain_key_panics c s s' k :
  h _ AliyunGetCredential s = (inr k, s') -> al_SecurityToken k = None ->
  fst (act_run h (aliyun_Retrieve c) s) = Crashed.
Proof.
  intros Hg Hn. unfold aliyun_Retrieve. simpl. rewrite Hg. simpl.
  destruct (al_AccessKeyId k); [|done]. destruct (al_AccessKeySecret k); [|done]. by rewrite Hn.
Qed.

(** A bucket that does not exist verifies: MinIO's client then reports no
    error. *)
Theorem missing_bucket_verified bucketName region address secure s s1 s2 :
  let opts := mkMinioOptions (IAMRole "") secure region false in
  h _ (MinioNewClient address opts) s = (inr tt, s1) ->
  h _ (BucketExists address opts bucketName) s1 = (inr false, s2) ->
  act_run h (VerifyAWS bucketName region address secure) s = (Returned tt, s2).
Proof. intros opts Hn Hb. unfold VerifyAWS, accessBucket. simpl. fold opts. rewrite Hn. simpl. by rewrite Hb. Qed.
End Runs.
