(* ===== verification/EntryPoints.v ===== *)
(** * The operator's start

    main.go, pkg/manager/manager.go, pkg/config/config.go and
    pkg/controllers/setup.go: reading the templates and the chart values, making
    the manager with the namespaces it watches, registering the controllers and
    the webhooks that the flags ask for, and starting.

    controller-runtime and the file system are calls ([scall]); flag.Parse gives
    [Flags].  The image of the operator is read once, from its own deployment. *)
From S2P Require Import Prelude KubeTypes Libs ApiTypes Values Effects Utils Acts Defaults.

Local Open Scope string_scope.
Local Open Scope list_scope.
Local Open Scope Z_scope.

(** ** Calls *)

(** A controller as it is built: what it reconciles, owns and watches. *)
Record Registration := mkRegistration {
  rg_For : string;
  rg_Owns : list string;
  rg_WatchesSecrets : bool;
  rg_MaxConcurrent : option Z
}.

(** [None]: every namespace is watched. *)
Record ManagerOptions := mkManagerOptions {
  mg_SyncPeriodSec : Z;
  mg_DefaultNamespaces : option (gset string);
  mg_MetricsAddr : string;
  mg_ProbeAddr : string;
  mg_LeaderElection : bool;
  mg_LeaderElectionID : string;
  mg_WebhookPort : Z;
  mg_QPS : Z;
  mg_Burst : Z;
  mg_WatchBookmarks : bool
}.

Inductive scall : Type -> Type :=
  | ReadDir (path : string) : scall (list string)
  | ReadFileAt (path : string) : scall string
  | LookupEnv (key : string) : scall string
  | NewClientset : scall unit
  | RegisterController (r : Registration) : scall unit
  | RegisterWebhook (kind : string) : scall unit
  | RegisterMetric (name : string) : scall unit
  | CtrlNewManager (o : ManagerOptions) : scall unit
  | AddHealthzCheck (name : string) : scall unit
  | AddReadyzCheck (name : string) : scall unit
  | StartManager : scall unit.

Notation setup := (act scall err).

(** [MustRegister] and the like panic where the call fails. *)
Definition orPanic {B} (q : scall B) : setup B :=
  Do q (fun r => match r with inl _ => Crash | inr b => Done b end).

(** ** Configuration *)

Record Config := mkConfig { cfg_debugMode : bool; cfg_templates : gmap string string }.

Definition TemplateRelativeDir : string := "config/assets/templates".

Fixpoint readTemplates (templateDir : string) (names : list string) (acc : gmap string string) :
    setup (gmap string string) :=
  match names with
  | [] => mret acc
  | name :: rest =>
      data ← must (ReadFileAt (templateDir +:+ "/" +:+ name));
      readTemplates templateDir rest (<[name := data]> acc)
  end.

Definition NewConfig (workDir : string) : setup Config :=
  let templateDir := workDir +:+ TemplateRelativeDir in
  tmpls ← must (ReadDir templateDir);
  templates ← readTemplates templateDir tmpls ∅;
  mret (mkConfig false templates).

Definition GetTemplate (c : Config) (name : string) : string := mget (cfg_templates c) name.

(** The configuration that becomes the default one. *)
Definition config_Init (workDir : string) : setup Config :=
  c ← NewConfig workDir;
  r ← ask (LookupEnv "DEBUG");
  let debug := match r with inr v => bool_decide (v = "true") | inl _ => false end in
  mret (if debug then mkConfig true (cfg_templates c) else c).

Definition IsDebug (c : Config) : bool := cfg_debugMode c.
Definition GetMilvusConfigTemplate (c : Config) : string := GetTemplate c "milvus.yaml.tmpl".
Definition GetMilvusClusterConfigTemplate (c : Config) : string := GetTemplate c "milvus-cluster.yaml.tmpl".
Definition GetMigrationConfigTemplate (c : Config) : string := GetTemplate c "migration.yaml.tmpl".

(** *** Chart values *)

Definition DefaultValuesPath : string := "config/assets/charts/values.yaml".

Section Start.
(** [yaml.Unmarshal] into a map. *)
Context (unmarshalValues : string -> string + object).

Definition readValuesFromFile (file : string) : setup object :=
  data ← onError (EWrap ("failed to read file " +:+ file)) (must (ReadFileAt file));
  match unmarshalValues data with
  | inl e => Raise (EWrap ("failed to unmarshal file " +:+ file) (ENew e))
  | inr v => mret v
  end.

(** An error panics. *)
Fixpoint orCrash {A} (p : setup A) : setup A :=
  match p with
  | Raise _ => Crash
  | Do q k => Do q (fun r => orCrash (k r))
  | p => p
  end.

Definition MustInitDefaultValuesProvider : setup (gmap string object) :=
  values ← orCrash (readValuesFromFile DefaultValuesPath);
  derefA (initDefaultValues values).

(** ** The manager *)

(** [strings.TrimSpace] on ASCII. *)
Definition isSpace (a : Ascii.ascii) : bool :=
  let n := Ascii.nat_of_ascii a in ((9 <=? n) && (n <=? 13) || (n =? 32))%nat.

Fixpoint trimLeft (s : string) : string :=
  match s with String a s' => if isSpace a then trimLeft s' else s | EmptyString => EmptyString end.

Fixpoint trimRight (s : string) : string :=
  match s with
  | EmptyString => EmptyString
  | String a s' =>
      match trimRight s' with
      | EmptyString => if isSpace a then EmptyString else String a EmptyString
      | t => String a t
      end
  end.

Definition TrimSpace (s : string) : string := trimRight (trimLeft s).

Definition watchNamespaces (watchNamespace : string) : option (gset string) :=
  if bool_decide (watchNamespace = "") then None
  else
    Some (foldl (fun acc ns => if bool_decide (TrimSpace ns = "") then acc else {[TrimSpace ns]} ∪ acc) ∅
            (Split "," watchNamespace)).

Record Flags := mkFlags {
  fl_showVersion : bool;
  fl_metricsAddr : string;
  fl_probeAddr : string;
  fl_leaderElect : bool;
  fl_stopReconcilers : string;
  fl_workDir : string;
  fl_toolImage : string;
  fl_namespace : string;
  fl_name : string;
  fl_concurrentReconcile : Z;
  fl_syncIntervalSec : Z;
  fl_k8sQps : Z;
  fl_k8sBurst : Z;
  fl_webhook : bool;
  fl_watchNamespace : string
}.

Definition NewManager (f : Flags) : setup unit :=
  let opts := mkManagerOptions (fl_syncIntervalSec f) (watchNamespaces (fl_watchNamespace f)) (fl_metricsAddr f)
                (fl_probeAddr f) (fl_leaderElect f) "71808ec5.milvus.io" 9443 (fl_k8sQps f) (fl_k8sBurst f) true in
  must (CtrlNewManager opts) ;;
  must (AddHealthzCheck "healthz") ;;
  must (AddReadyzCheck "readyz").

(** ** Controllers *)

Fixpoint listHasElement (list : list string) (elem : string) : bool :=
  match list with
  | [] => false
  | e :: rest => if bool_decide (e = elem) then true else listHasElement rest elem
  end.

Definition milvusRegistration (concurrent : Z) : Registration := mkRegistration "Milvus" [] true (Some concurrent).
Definition upgradeRegistration : Registration := mkRegistration "MilvusUpgrade" ["Pod"] false None.
Definition clusterRegistration : Registration := mkRegistration "MilvusCluster" [] false (Some 1).

Definition registrationOf (concurrent : Z) (name : string) : Registration :=
  if bool_decide (name = "milvus") then milvusRegistration concurrent
  else if bool_decide (name = "milvusupgrade") then upgradeRegistration
  else clusterRegistration.

(** The keys of [reconcilers]; a range over the map visits them in any order. *)
Definition reconcilerNames : list string := ["milvus"; "milvusupgrade"; "milvuscluster"].

Fixpoint setupAll (concurrent : Z) (stopReconcilers order : list string) : setup unit :=
  match order with
  | [] => mret tt
  | name :: rest =>
      if listHasElement stopReconcilers name then setupAll concurrent stopReconcilers rest
      else must (RegisterController (registrationOf concurrent name)) ;; setupAll concurrent stopReconcilers rest
  end.

Definition setupWebhooks (enableHook : bool) : setup unit :=
  if enableHook then
    must (RegisterWebhook "v1beta1.Milvus") ;;
    must (RegisterWebhook "v1alpha1.Milvus") ;;
    must (RegisterWebhook "v1beta1.MilvusUpgrade")
  else mret tt.

(** [order] is the order in which the map is visited. *)
Definition SetupControllers (order stopReconcilers : list string) (concurrent : Z) (enableHook : bool) : setup unit :=
  (if match stopReconcilers with [] => true | s :: _ => negb (bool_decide (s = "all")) end then
     orPanic NewClientset ;; setupAll concurrent stopReconcilers order
   else mret tt) ;;
  setupWebhooks enableHook.

Definition InitializeMetrics : setup unit :=
  orPanic (RegisterMetric "milvus_status") ;;
  orPanic (RegisterMetric "milvus_total_count") ;;
  orPanic (RegisterMetric "milvus_operator_build_info").

(** [if err := p; err != nil { os.Exit(1) }]. *)
Fixpoint orExit {A} (p : setup A) (k : A -> setup (option Z)) : setup (option Z) :=
  match p with
  | Done a => k a
  | Raise _ => Done (Some 1)
  | Crash => Crash
  | Do q next => Do q (fun r => orExit (next r) k)
  end.

(** [Some c]: the process exits with [c]; [None]: [main] returns. *)
Definition main (order : list string) (f : Flags) : setup (option Z) :=
  if fl_showVersion f then mret (Some 0)
  else
    orExit (config_Init (fl_workDir f)) (fun _ =>
    MustInitDefaultValuesProvider ≫= fun _ =>
    orExit (NewManager f) (fun _ =>
    InitializeMetrics ≫= fun _ =>
    orExit (SetupControllers order (Split "," (fl_stopReconcilers f)) (fl_concurrentReconcile f) (fl_webhook f)) (fun _ =>
    orExit (must StartManager) (fun _ => mret None)))).
End Start.

(** ** The image of the operator *)

Record ImageInfo := mkImageInfo { ii_Image : string; ii_ImagePullPolicy : string }.

Definition DefaultOperatorImageInfo : ImageInfo := mkImageInfo "milvusdb/milvus-operator:main-latest" "Always".

Section Image.
Context (ToolImage OperatorNamespace OperatorName : string).

Definition getOperatorImageInfo : prog ImageInfo :=
  if negb (bool_decide (ToolImage = "")) then Ret (mkImageInfo ToolImage "IfNotPresent")
  else
    deploy ← wrap ("get operator deployment[" +:+ OperatorNamespace +:+ "/" +:+ OperatorName +:+ "] fail")
               (read (GetDeployment OperatorNamespace OperatorName));
    match ps_Containers (pt_Spec (dsp_Template (dep_Spec deploy))) with
    | [] => Fail (ENew "operator deployment has no container")
    | container :: _ => Ret (mkImageInfo (ct_Image container) (ct_ImagePullPolicy container))
    end.

(** [CommonInfo]: [None] until [once] has run. *)
Definition InitIfNot (info : option ImageInfo) : prog (option ImageInfo) :=
  match info with
  | Some i => Ret (Some i)
  | None =>
      r ← attempt getOperatorImageInfo;
      Ret (Some (match r with inl _ => DefaultOperatorImageInfo | inr i => i end))
  end.
End Image.

(** ** What is registered *)

Lemma listHasElement_spec l e : listHasElement l e = bool_decide (e ∈ l).
Proof.
  induction l as [|x l IH]; cbn [listHasElement]; [symmetry; apply bool_decide_eq_false_2, not_elem_of_nil|].
  rewrite IH. destruct (decide (x = e)) as [->|Hx].
  - rewrite !bool_decide_eq_true_2 by set_solver. done.
  - rewrite (bool_decide_eq_false_2 (x = e)) by done. apply bool_decide_ext. set_solver.
Qed.

Section Registered.
Context {S : Type} (h : answers_of scall err S).

(** A program of one call after the other that returned made all of them. *)
Lemma must_then {B C} (q : scall B) (p : setup C) s c s' :
  act_run h (must q ;; p) s = (Returned c, s') ->
  exists b s1, h _ q s = (inr b, s1) /\ act_run h p s1 = (Returned c, s') /\
    act_calls h (must q ;; p) s = Made q true :: act_calls h p s1.
Proof.
  simpl. destruct (h _ q s) as [[e|b] s1]; [done|]. intros Hp. by exists b, s1.
Qed.

Lemma orPanic_then_run {B C} (q : scall B) (p : setup C) s :
  act_run h (orPanic q ;; p) s = match h _ q s with (inr _, s1) => act_run h p s1 | (inl _, s1) => (Crashed, s1) end.
Proof. simpl. by destruct (h _ q s) as [[e|b] s1]. Qed.

Lemma orPanic_then_calls {B C} (q : scall B) (p : setup C) s :
  act_calls h (orPanic q ;; p) s =
    match h _ q s with (inr _, s1) => Made q true :: act_calls h p s1 | (inl _, _) => [Made q false] end.
Proof. simpl. by destruct (h _ q s) as [[e|b] s1]. Qed.

Lemma setupAll_calls concurrent stop order : forall s s',
  act_run h (setupAll concurrent stop order) s = (Returned tt, s') ->
  act_calls h (setupAll concurrent stop order) s =
    (fun name => Made (RegisterController (registrationOf concurrent name)) true) <$> filter (fun n => n ∉ stop) order.
Proof.
  induction order as [|name rest IH]; intros s s' Hr; [done|]. cbn [setupAll] in *. rewrite listHasElement_spec in *.
  rewrite filter_cons. destruct (decide (name ∈ stop)) as [Hin|Hout].
  - rewrite decide_False by auto. rewrite bool_decide_eq_true_2 in * by done. by eapply IH.
  - rewrite decide_True by done. rewrite bool_decide_eq_false_2 in * by done.
    apply must_then in Hr as (b & s1 & Hq & Hr & ->). rewrite fmap_cons. f_equal. by eapply IH.
Qed.

Definition webhookKinds : list string := ["v1beta1.Milvus"; "v1alpha1.Milvus"; "v1beta1.MilvusUpgrade"].

Lemma webhooks_calls enableHook s s' :
  act_run h (setupWebhooks enableHook) s = (Returned tt, s') ->
  act_calls h (setupWebhooks enableHook) s =
    if enableHook then (fun kind => Made (RegisterWebhook kind) true) <$> webhookKinds else [].
Proof.
  unfold setupWebhooks. destruct enableHook; [|done]. intros Hr.
  apply must_then in Hr as (b1 & s3 & _ & Hr & ->). apply must_then in Hr as (b2 & s4 & _ & Hr & ->).
  simpl in *. by destruct (h _ (RegisterWebhook "v1beta1.MilvusUpgrade") s4) as [[e|[]] s5].
Qed.

(** A start that returns no error has registered, besides the webhooks if they
    are enabled, exactly the controllers whose names are not in the list, or none
    if the list starts with "all". *)
Theorem controllers_registered order stop concurrent enableHook s s' :
  order ≡ₚ reconcilerNames ->
  act_run h (SetupControllers order stop concurrent enableHook) s = (Returned tt, s') ->
  exists names,
    names ≡ₚ (if bool_decide (head stop = Some "all") then [] else filter (fun n => n ∉ stop) reconcilerNames) /\
    act_calls h (SetupControllers order stop concurrent enableHook) s =
      (if bool_decide (head stop = Some "all") then [] else [Made NewClientset true]) ++
      ((fun name => Made (RegisterController (registrationOf concurrent name)) true) <$> names) ++
      (if enableHook then (fun kind => Made (RegisterWebhook kind) true) <$> webhookKinds else []).
Proof.
  intros Hord. unfold SetupControllers.
  assert (match stop with [] => true | x :: _ => negb (bool_decide (x = "all")) end = negb (bool_decide (head stop = Some "all"))) as ->.
  { destruct stop as [|x stop]; [done|]. f_equal. apply bool_decide_ext. simpl. by split; [intros ->|intros [= ->]]. }
  destruct (bool_decide (head stop = Some "all")); simpl negb; cbv iota; intros Hr.
  { exists []. split; [done|]. simpl in *. by rewrite (webhooks_calls _ _ _ Hr). }
  exists (filter (fun n => n ∉ stop) order). split; [by rewrite Hord|].
  rewrite act_run_bind, orPanic_then_run in Hr. rewrite act_calls_bind, orPanic_then_run, orPanic_then_calls.
  destruct (h _ NewClientset s) as [[e|b] s1]; [done|].
  destruct (act_run h (setupAll concurrent stop order) s1) as [[[]|e|] s2] eqn:Es; [|done..].
  rewrite (setupAll_calls _ _ _ _ _ Es), (webhooks_calls _ _ _ Hr). done.
Qed.
End Registered.


(** Every call succeeds. *)
Definition exStart : answers_of scall err unit :=
  fun B q s =>
    match q in scall B' return (err + B') * unit with
    | ReadDir _ => (inr [], s)
    | ReadFileAt _ | LookupEnv _ => (inr "", s)
    | _ => (inr tt, s)
    end.

Lemma controllers_registered_witness : exists names,
  names ≡ₚ ["milvusupgrade"; "milvuscluster"] /\
  act_calls exStart (SetupControllers reconcilerNames ["milvus"; "all"] 10 false) tt =
    Made NewClientset true ::
    ((fun name => Made (RegisterController (registrationOf 10 name)) true) <$> names).
Proof.
  destruct (controllers_registered exStart reconcilerNames ["milvus"; "all"] 10 false tt tt) as (names & Hn & Hc);
    [done|reflexivity|].
  exists names. split; [exact Hn|]. rewrite app_nil_r in Hc. exact Hc.
Defined.

(** ** The namespaces that are watched *)

Lemma watch_fold l : forall (acc : gset string) n,
  n ∈ foldl (fun acc ns => if bool_decide (TrimSpace ns = "") then acc else {[TrimSpace ns]} ∪ acc) acc l <->
  n ∈ acc \/ (n <> "" /\ exists p, p ∈ l /\ TrimSpace p = n).
Proof.
  induction l as [|p l IH]; intros acc n; cbn [foldl].
  { split; [by left|]. intros [H|(_ & q & Hq & _)]; [done|]. by apply elem_of_nil in Hq. }
  rewrite IH. case_bool_decide as Hp; [set_solver|].
  rewrite elem_of_union, elem_of_singleton. split.
  - intros [[->|H]|(Hn & q & Hq & <-)]; [right|by left|right].
    + split; [done|]. exists p. set_solver.
    + split; [done|]. exists q. set_solver.
  - intros [H|(Hn & q & [->|Hq]%elem_of_cons & <-)]; [by left; right|by left; left|right].
    split; [done|]. by exists q.
Qed.

(** With the flag set, the namespaces are the names between its commas, blanks
    around them and blank names left out. *)
Lemma watch_exact s : s <> "" ->
  exists W, watchNamespaces s = Some W /\
    forall n, n ∈ W <-> n <> "" /\ exists p, p ∈ Split "," s /\ TrimSpace p = n.
Proof.
  intros Hs. unfold watchNamespaces. rewrite bool_decide_eq_false_2 by done. eexists. split; [done|].
  intros n. rewrite watch_fold. set_solver.
Qed.

(** A flag of blanks restricts nothing to nothing: the set is empty, which
    controller-runtime takes for every namespace. *)
Lemma watch_blank : watchNamespaces " , " = Some ∅.
Proof. reflexivity. Qed.

(** ** The image *)

(** The image is always known after the first use, and later uses keep it
    without a call. *)
Lemma image_known toolImage ns name info tr o :
  exec (InitIfNot toolImage ns name info) tr o ->
  writes tr = [] /\ exists i, o = ORet (Some i) /\
    exec (InitIfNot toolImage ns name (Some i)) [] (ORet (Some i)) /\
    (forall j, info = Some j -> i = j /\ tr = []).
Proof.
  destruct info as [j|]; simpl.
  { intros [-> ->]. split; [done|]. exists j. split_and!; [done..|]. by intros ? [= ->]. }
  intros Hex. enough (writes tr = [] /\ exists i, o = ORet (Some i)) as [Hw [i ->]]; [by split; [|exists i]|].
  revert Hex. unfold InitIfNot, getOperatorImageInfo.
  destruct (negb (bool_decide (toolImage = ""))); simpl.
  { intros [-> ->]. split; [done|]. by eexists. }
  intros (x & tr' & -> & Hex). destruct x as [e|d]; simpl in Hex.
  { destruct Hex as [-> ->]. split; [done|]. by eexists. }
  destruct (ps_Containers _); simpl in Hex; destruct Hex as [-> ->]; (split; [done|by eexists]).
Qed.
