(* ===== verification/Batch.v ===== *)
(** * The batch tools of the load tests

    test/batch-create and test/batch-delete: the first creates numbered [Milvus]
    resources, a hundred to a namespace, the second deletes every resource with
    their label.  Both are programs over calls of their own ([Acts]). *)
From S2P Require Import Prelude KubeTypes ApiTypes Values Effects Acts Alpha Probes.

Local Open Scope string_scope.
Local Open Scope list_scope.
Local Open Scope Z_scope.

(** The calls that build a client, and those of the client. *)
Inductive bcall : Type -> Type :=
  | GetConfig : bcall unit
  | BuildScheme : bcall unit
  | NewClient : bcall unit
  | CreateResource (m : Milvus) : bcall unit
  | DeleteAllOf (labels : gmap string string) : bcall unit.

Notation batch := (act bcall err).

Definition getClient : batch unit :=
  onError (EWrap "failed to get config") (must GetConfig) ;;
  onError (EWrap "failed to build scheme") (must BuildScheme) ;;
  onError (EWrap "failed to create client") (must NewClient).

Definition nodeSelector : gmap string string := {["node-role/default" := "true"]}.

Definition usageLabels : gmap string string := {["usage" := "batch-test"]}.

Definition probeDelays : json := JObj [("initialDelaySeconds", JNum 5); ("failureThreshold", JNum 11)].

Definition batchConf : Values := Some [
  ("log", JObj [("level", JStr "info")]);
  ("minio", JObj [("port", JNum 443); ("bucketName", JStr "gcp-zilliz-infra-test"); ("useSSL", JBool true);
                  ("useIAM", JBool true); ("cloudProvider", JStr "gcp")])].

Definition batchEtcdValues : Values := Some [
  ("nodeSelector", JObj [("node-role/default", JStr "true")]);
  ("resources", JObj [("requests", JObj [("cpu", JStr "0.58"); ("memory", JStr "2Gi")])]);
  ("replicaCount", JNum 1); ("readinessProbe", probeDelays); ("livenessProbe", probeDelays)].

Definition withNodeSelector (s : gmap string string) : ComponentSpec :=
  mkComponentSpec false ∅ ∅ "" "" [] None None [] [] "" s None [] [] None None [] None "" "" false "" None None None.

Definition withResources (r : ResourceRequirements) : ComponentSpec :=
  mkComponentSpec false ∅ ∅ "" "" [] None None [] [] "" ∅ None [] [] (Some r) None [] None "" "" false "" None None None.

Definition batchStandalone : ServiceComponent :=
  mkServiceComponent
    (mkComponent (withResources (mkRes ∅ {["cpu" := "0.01"; "memory" := "100Mi"]})) (Some 0) None [] [])
    "" None 0 0 ∅ ∅ None.

Definition batchDep : MilvusDependencies :=
  mkDep (mkEtcd None false (Some (mkInCluster batchEtcdValues "" DeletionPolicyDelete true)))
    (dep_MsgStreamType zeroDep) (dep_Pulsar zeroDep) (dep_Kafka zeroDep) (dep_WoodPecker zeroDep) (dep_RocksMQ zeroDep)
    (dep_NatsMQ zeroDep) (mkStorage StorageTypeS3 "" "storage.googleapis.com" None true None) (dep_Tei zeroDep)
    (dep_CustomMsgStream zeroDep).

Definition batchCom : MilvusComponents :=
  mkCom (withNodeSelector nodeSelector) (com_TargetPortType zeroCom) ImageUpdateModeUnset None false "" ∅ "" "" false None
    RollingModeNotSet false "" false None None None None None None None None None None None (Some batchStandalone) None.

Definition minimumMilvus (namespace name : string) : Milvus :=
  mkMilvus (mkMeta name namespace usageLabels ∅ 0 "" "" [] None [])
    (mkSpec MilvusModeStandalone batchCom batchDep batchConf None) zeroStatus.

Definition baseName : string := "batch-".
Definition baseNamespace : string := "batch-test-".

(** Go divides towards zero. *)
Definition numbered (i : Z) : Milvus := minimumMilvus (baseNamespace +:+ Itoa (Z.quot i 100)) (baseName +:+ Itoa i).

Fixpoint createAll (l : list Z) : batch unit :=
  match l with
  | [] => mret tt
  | i :: l' => onError (EWrap "create milvus error") (must (CreateResource (numbered i))) ;; createAll l'
  end.

(** [for i := begin; i < end; i++]. *)
Definition batch_create (begin end_ : Z) : batch unit :=
  onError (EWrap "getClient error") getClient ;; createAll (seqZ begin (end_ - begin)).

Definition batch_delete : batch unit :=
  onError (EWrap "getClient error") getClient ;;
  onError (EWrap "delete milvus error") (must (DeleteAllOf usageLabels)).

(** [main] panics with the error of [run]. *)
Definition batch_main (run : batch unit) {S} (h : answers_of bcall err S) (s : S) : bool :=
  match fst (act_run h run s) with Returned _ => true | _ => false end.

(** ** What is created *)

(** The resources a run created, in order. *)
Definition created (calls : list (made bcall)) : list Milvus :=
  omap (fun c => match c with Made (CreateResource m) true => Some m | _ => None end) calls.

Lemma created_app a b : created (a ++ b) = created a ++ created b.
Proof. apply omap_app. Qed.

Lemma createAll_runs {S} (h : answers_of bcall err S) : forall l s,
  exists k, created (act_calls h (createAll l) s) = numbered <$> take k l /\
    ((exists s', act_run h (createAll l) s = (Returned tt, s')) <-> (length l <= k)%nat).
Proof.
  induction l as [|i l IH]; intros s.
  - exists 0%nat. split; [done|]. simpl. split; [lia|]. by exists s.
  - cbn [createAll]. rewrite act_calls_bind, act_run_bind, act_run_onError, act_calls_onError, act_run_must, created_app.
    cbn [act_calls must]. destruct (h unit (CreateResource (numbered i)) s) as [[x|[]] s1].
    + exists 0%nat. simpl. split; [done|]. split; [by intros [? [=]]|lia].
    + destruct (IH s1) as (k & Hc & Hk). exists (Datatypes.S k). cbn [created omap list_omap app take fmap list_fmap length].
      split; [by rewrite Hc|]. rewrite <- Nat.succ_le_mono. exact Hk.
Qed.

Lemma itoa_inj p i j : p +:+ Itoa i = p +:+ Itoa j -> i = j.
Proof. intros H%app_cancel_l. by apply (inj pretty) in H. Qed.

Lemma filter_fmap_length {A B} (f : A -> B) (P : B -> Prop) `{forall x, Decision (P x)} (l : list A) :
  length (filter P (f <$> l)) = length (filter (fun x => P (f x)) l).
Proof. induction l as [|x l IH]; [done|]. rewrite fmap_cons, !filter_cons. case_decide; simpl; by rewrite IH. Qed.

(** A namespace has room for a hundred numbers. *)
Lemma namespace_block (l : list Z) ns : NoDup l -> Forall (fun i => 0 <= i) l ->
  (length (filter (fun m => mi_Namespace m = ns) (numbered <$> l)) <= 100)%nat.
Proof.
  intros Hnd Hl. rewrite filter_fmap_length.
  set (F := filter _ l). assert (forall i, i ∈ F -> 0 <= i /\ baseNamespace +:+ Itoa (Z.quot i 100) = ns) as HF.
  { intros i [Hn Hi]%list_elem_of_filter. rewrite Forall_forall in Hl. by split; [apply Hl|]. }
  destruct F as [|i0 F'] eqn:EF; [simpl; lia|]. rewrite <- EF in *.
  destruct (HF i0) as [_ H0]. { rewrite EF. by left. }
  assert (F ⊆+ seqZ (100 * Z.quot i0 100) 100) as Hsub.
  { apply NoDup_submseteq; [by apply NoDup_filter|]. intros i Hi. destruct (HF i Hi) as [Hpos Hns].
    rewrite <- H0 in Hns. apply itoa_inj in Hns. rewrite elem_of_seqZ, <- Hns, Z.quot_div_nonneg by lia.
    pose proof (Z.div_mod i 100). pose proof (Z.mod_pos_bound i 100). lia. }
  apply submseteq_length in Hsub. by rewrite length_seqZ in Hsub.
Qed.

(** A run of batch-create, whatever calls fail, creates the resources of an
    initial part of the range, in order, under distinct names and with the label
    that batch-delete selects; it is the whole range exactly when the run ends
    without error; from a nonnegative begin on no namespace gets more than a
    hundred. *)
Theorem batch_created {S} (h : answers_of bcall err S) begin end_ s s1 :
  act_run h getClient s = (Returned tt, s1) ->
  let calls := act_calls h (batch_create begin end_) s in
  exists k, created calls = numbered <$> take k (seqZ begin (end_ - begin)) /\
    (batch_main (batch_create begin end_) h s = true <-> (length (seqZ begin (end_ - begin)) <= k)%nat) /\
    NoDup (mi_Name <$> created calls) /\ Forall (fun m => usageLabels ⊆ om_Labels (mi_Meta m)) (created calls) /\
    (0 <= begin -> forall ns, (length (filter (fun m => mi_Namespace m = ns) (created calls)) <= 100)%nat).
Proof.
  intros Hc. set (l := seqZ begin (end_ - begin)). destruct (createAll_runs h l s1) as (k & Hl & Hk).
  cbv zeta. exists k. unfold batch_main, batch_create. fold l.
  rewrite act_calls_bind, act_run_bind, act_run_onError, act_calls_onError, Hc, created_app, Hl.
  assert (created (act_calls h getClient s) = []) as ->.
  { unfold getClient. clear. simpl. repeat (match goal with |- context [h ?b ?q ?t] => destruct (h b q t) as [[?|?] ?] end; simpl); done. }
  assert (NoDup (take k l)) as Hnd by (eapply sublist_NoDup; [apply NoDup_seqZ|apply sublist_take]).
  cbn [app]. split_and!; [done| | | |].
  - rewrite <- Hk. destruct (act_run h (createAll l) s1) as [[[]|x|] s2]; simpl; [by split; [eexists|]|by split; [|intros [? [=]]]..].
  - rewrite <- list_fmap_compose. apply NoDup_fmap_2_strong.
    + intros i j _ _. apply itoa_inj.
    + done.
  - apply Forall_fmap, Forall_true. intros i. simpl. reflexivity.
  - intros Hb ns. apply namespace_block; [done|]. apply Forall_take, Forall_forall. intros i. unfold l. rewrite elem_of_seqZ. lia.
Qed.

(** A server on which every call succeeds: what it was asked to create. *)
Definition allDone : answers_of bcall err (list Milvus) :=
  fun B q s =>
    match q in bcall B' return (err + B') * list Milvus with
    | CreateResource m => (inr tt, s ++ [m])
    | DeleteAllOf labels => (inr tt, filter (fun m => ~ labels ⊆ om_Labels (mi_Meta m)) s)
    | _ => (inr tt, s)
    end.

Lemma batch_created_witness :
  exists k, created (act_calls allDone (batch_create 98 102) []) = numbered <$> take k [98; 99; 100; 101] /\
    NoDup (mi_Name <$> created (act_calls allDone (batch_create 98 102) [])).
Proof.
  destruct (batch_created allDone 98 102 [] [] eq_refl) as (k & Hk & _ & Hn & _). exists k. split; [exact Hk|exact Hn].
Defined.

(** Deleting removes what was created. *)
Example batch_deleted :
  snd (act_run allDone batch_delete (snd (act_run allDone (batch_create 98 102) []))) = [].
Proof. vm_compute. reflexivity. Qed.

Example batch_namespaces :
  mi_Namespace <$> snd (act_run allDone (batch_create 98 102) []) =
    ["batch-test-0"; "batch-test-0"; "batch-test-1"; "batch-test-1"].
Proof. vm_compute. reflexivity. Qed.
